(* ===== verification/_CoqProject ===== *)
-Q . S2P
Prelude.v
Regexp.v
Driver.v
BlobCache.v
Oci.v
IndexOps.v
StorageCommon.v
Concrete.v
RefGraph.v
Pruning.v
ImageStore.v
Content.v
ConcreteStore.v
Addressing.v
Frame.v
Listing.v
DedupeRun.v
TimeWindow.v
Runtime.v
Retention.v
GC.v
Collect.v
Scheduler.v
Authz.v
Access.v
Http.v
Routes.v
Router.v
Serving.v
Paging.v
Uploads.v
Api.v
Aggregates.v
MetaDB.v
Hooks.v
Sweep.v
Scrub.v
Users.v
Base64.v
Credentials.v
Authn.v
KeyLife.v
Keys.v
Tokens.v
Admission.v
ConcreteRegistry.v
ConcreteMeta.v
ConcreteScrub.v
ConcreteUsers.v
ConcreteSite.v
