(* ===== verification/Prelude.v ===== *)
(** * A verification development for the zot OCI registry

    zot is a container registry that keeps its repositories as OCI image
    layouts. This library translates the parts of it that decide what is
    stored, served, kept and deleted into executable definitions, and proves
    what makes them correct.

    ** The parts and their files

    - Regexp.v: pkg/regexp. Which repository names and tags are accepted; the
      regular expressions of the source with a derivative matcher for Go's
      engine.
    - Driver.v: pkg/storage/types (the Driver interface) and pkg/storage/local.
      The local driver over a file system with inodes and hard links.
    - BlobCache.v: pkg/storage/types/cache.go and pkg/storage/cache/boltdb.go.
      The deduplication cache, on nested sorted buckets.
    - Oci.v: pkg/common/oci.go and pkg/compat; descriptors, indexes and
      manifests, and the interfaces of the code outside the repository
      (go-digest, JSON codecs, schema validators).
    - IndexOps.v, StorageCommon.v: pkg/storage/common/common.go. Lookup,
      insertion and removal in index.json; validation of manifests, pruning,
      the walks over the reference graph, referrers.
    - ImageStore.v: pkg/storage/imagestore/imagestore.go, over any driver and
      any cache: uploads, pushes, downloads, mounts, deletes, listings, the
      rebuild of deduplication.
    - DedupeRun.v: DedupeTaskGenerator of pkg/storage/common/common.go with the
      interleavings of its tasks.
    - TimeWindow.v: pkg/api/config/gctimewindow.go.
    - Retention.v: pkg/retention. Which tags and untagged manifests are kept.
    - GC.v: pkg/storage/gc. CleanRepo and what it calls. Frame.v and Sweep.v
      run it on the image store of ImageStore.v.
    - Scrub.v: pkg/storage/scrub.go and pkg/extensions/scrub. The integrity
      check of the stored images, over any image store and over that of
      ImageStore.v.
    - Scheduler.v: pkg/scheduler. Generators, queues and the loop that hands
      tasks to the workers.
    - Authz.v: pkg/requestcontext/user_access_control.go, pkg/api/authz.go and
      the access-control section of pkg/api/config/config.go: policies, the
      access controller and the authorization handlers.
    - Http.v, Routes.v, Router.v: pkg/api/routes.go and
      pkg/storage/storage_controller.go: Range headers, the handlers of the
      distribution API over the stores of the registry, the table of routes
      and the middleware before the handlers. Api.v puts the image store of
      ImageStore.v behind these handlers.
    - Aggregates.v: the messages of pkg/meta/proto, pkg/meta/convert and the
      walks of pkg/meta/common over the blobs of a repository. MetaDB.v: the
      repositories of pkg/meta/boltdb. Hooks.v: pkg/meta/hooks.go and
      pkg/meta/parse.go, which keep the database and the storage in step.
      Users.v: the users of pkg/meta/boltdb - stars, bookmarks, groups, API
      keys - with the handlers of pkg/extensions/extension_userprefs.go and of
      the keys in pkg/api/routes.go.
    - Base64.v: encoding/base64. Credentials.v: what a client shows of itself,
      of pkg/api/authn.go, htpasswd.go, ldap.go, token_exchange.go and
      pkg/api/config/config.go. Authn.v: the authentication middleware of
      authn.go with bearer.go, bearer_auth.go, bearer_oidc.go and
      pkg/cel/claim_processor.go. Tokens.v: the token endpoint. Admission.v:
      the chain that SetupRoutes builds, authentication before authorization
      before the handlers, and the version check.
    - Runtime.v: the clock and the context; Prelude.v: errors, the state and
      error monad, Go's slices, sorting and string functions.

    A component calls another through a class: [Driver] (the storage), [Cache],
    [ImageStoreI] (what storage/common needs of an image store), [DedupeStoreI],
    [GcStoreI], [MetaDBI], [LocalFS], [TaskGeneratorI], [ApiStoreI] (the
    methods the HTTP handlers call), [MetaHooksI], [SyncOnDemandI],
    [HookStoreI] and [MetaRepoI] (what the hooks call of the store and of the
    database), [ScrubStoreI] (what scrub calls of a store), [UserDBI] (what authentication calls of the database) and, for
    code outside the repository, [PasswordHashes], [LdapNet], [SessionStore],
    [TokenVerifiers], [ClaimValues] and the codecs of Credentials.v and
    Tokens.v. What a handler may rely on is a class of laws ([ApiStoreSpec],
    [MetaHooksSpec], [SyncSpec] of Serving.v, [Listed] of Paging.v,
    [HookStoreSpec] of Hooks.v, [UserDBSpec] of Authn.v); Api.v, Hooks.v and
    Authn.v prove the laws of the image store, the hooks and the database. ImageStore.v gives the instance of [ImageStoreI],
    MetaDB.v that of [MetaRepoI]; Driver.v and BlobCache.v give those of
    [Driver] and [Cache]; Concrete.v, ConcreteStore.v, ConcreteRegistry.v,
    ConcreteMeta.v, ConcreteScrub.v, ConcreteUsers.v and ConcreteSite.v give executable
    stand-ins for the code outside the repository, only used to show theorems
    at work.

    ** How the code is translated

    A method that returns (value, error) is a function from the state to a
    result, [Ok] or [Err], and a state: the type [ST]. What a method changed
    before it failed stays changed; a transaction of bbolt that fails changes
    nothing. A run-time panic is the error [ErrPanic], which code that looks at
    an error does not see ([attempt]). Errors are the sentinel values of
    errors/errors.go and those of the packages called. A Go slice is a list, a
    map a gmap; code that ranges over a map takes its order from a class
    [MapIter]; sort.Slice is any sort that meets its contract, [SliceSort].
    Recursion over the blobs of a repository runs on fuel, and the theorems
    show a bound that is always enough, namely the number of digests of the
    repository plus one; recursion over a directory has the depth of the tree.
    Sizes are unbounded integers, durations wrap at 64 bits where the code
    computes with them.

    ** What the theorems show

    - Content addressing (Content.v, Addressing.v): an invariant on the file
      system, with hard links, and on the cache, kept by every request; hence
      what is downloaded, whole or in part, hashes to the digest asked for.
    - The reference graph (RefGraph.v): what index.json reaches, as an
      inductive relation; the two walks of the source decide it, and where they
      differ from each other. Pruning.v: what pruning an index removes.
    - index.json (IndexOps.v): tags stay unique; pushes and removals on every
      branch.
    - Listing.v: GetRepositories lists exactly the repositories, and its pages
      agree with it.
    - The cache (BlobCache.v) refines a map from digests to an original path
      and its duplicates.
    - The dedupe run (DedupeRun.v): completion is announced once, after
      success, and never missed, under every interleaving.
    - Retention.v and Collect.v: the tags kept are those the policy names; a
      collection deletes no referenced blob and no young one; its loop ends; a
      dry run only reads; and two ways in which a collection goes wrong.
      Frame.v: what the methods of the image store leave as it was; Sweep.v: a
      collection on local storage leaves every blob that index.json reaches,
      and everything outside the directory of the repository; and removing an
      idle repository takes those nested under its name.
    - Scrub.v: a check ends within the depth of the references, and its report
      is clean exactly when what it looks at is intact; on the image store that
      means present, readable and under canonical digests; and a row that is
      clean although its layers are not. The depth stands for the stack of the
      program; any depth above the longest chain of references is enough.
    - Scheduler.v: no task and no generator is lost, with the one exception
      that the code has.
    - Access.v: what the access controller grants is what the policies say; the
      filter of listings hides nothing that may be read; a manifest write is
      authorized for every tag it sets.
    - Http.v: the ranges of a header are served exactly. Serving.v, Api.v: any
      sequence of HTTP requests keeps the addressing of every store and each
      answer holds the content asked for; what authorization refuses changes
      nothing. Paging.v: following the links of the tag listing and of the
      catalog gives every entry once. Uploads.v: an upload in chunks.
    - The metadata database (Aggregates.v, MetaDB.v): it refines a book that
      maps tags to digests and logs their movements; its records stay well
      formed; sizes, vendors and platforms are those of the blobs that the tags
      reach. Hooks.v: a push that is accepted is recorded, a parse restores the
      tags of index.json, the stamp of a fast restart follows a complete parse.
      ConcreteMeta.v: the whole registry at work, and a push that drops a tag.
    - Users and API keys (Users.v, Keys.v): the stars of a repository count the
      users who gave them, and how they go below zero; a key that is found
      belongs to a user who knows it; a key lets its user in, and nobody else,
      from its creation to its expiration or revocation.
    - Authentication (Authn.v): a name on a request has evidence, and a request
      without one has a reason to pass. Tokens.v: what a token of the token
      service allows, exactly; a key exchanged for a token decides as the key;
      no secret of zot goes to another token endpoint. Admission.v: through the
      whole chain only identified and allowed requests reach a handler; a
      client that asks for the version learns whether to log in.

    ** Assumptions and limits

    The root directory is absolute; repository names and upload identifiers
    are those the router lets through where a theorem says so. Each method of
    the image store runs as one step, as under its lock; interleavings are
    modelled for the dedupe run only. Authentication reads text as ASCII, but
    for the letters outside it that Go folds into ASCII; time spent on delays
    and retries is left out. Hash functions, JSON codecs, glob and
    regular expression engines of the policies, schema validators, the linter,
    the event recorder and the verifier of signatures are parameters with their
    documented behaviour as class laws; collisions of the hash are never
    excluded. The codec of the protobuf messages is taken to give back what it
    was given, an empty map as nil.

    ** Not modelled

    The login in a browser over OAuth2 with its logout, the cookies of
    sessions, the watcher of the password file, keys from AWS, the request to
    an upstream token endpoint (all I/O over third-party libraries), the
    cluster proxy, the quota middleware and the HTTP routes of the other
    extensions, the cloud drivers and the network caches (services), the
    metadata database over Redis and DynamoDB and, over BoltDB, the searches and
    the patches, the search, sync, CVE and signature extensions, the command
    line, configuration loading, logs and metrics. *)

From Stdlib Require Import ZArith Lia Ascii String.
From stdpp Require Import base tactics list gmap strings sorting.

Declare Scope zot_scope.
Delimit Scope zot_scope with zot.

(** ** Errors: the sentinel values of errors/errors.go that the modelled code
    returns or tests, the storage-driver errors, and one constructor for each
    family of errors raised by code outside the repository. *)
Inductive err : Set :=
  | ErrRepoNotFound | ErrRepoBadVersion | ErrManifestNotFound | ErrBadManifest
  | ErrManifestConflict | ErrManifestReferenced | ErrUploadNotFound | ErrBadUploadRange
  | ErrBlobNotFound | ErrBadBlobDigest | ErrBlobReferenced | ErrBadRange
  | ErrInvalidRepositoryName | ErrDedupeRebuild | ErrDedupeRebuildInProgress
  | ErrCacheMiss | ErrCacheRootBucket | ErrEmptyValue | ErrImageLintAnnotations
  | ErrMediaTypeNotSupported | ErrRetentionPolicyNotFound
  | ErrPathNotFound            (* driver.PathNotFoundError *)
  | ErrDriver (detail : err)   (* driver.Error wrapping another error *)
  | ErrOS (detail : string)    (* an error of package os *)
  | ErrInvalidOffset           (* driver.InvalidOffsetError *)
  | ErrFileAlreadyClosed | ErrFileAlreadyCommitted | ErrFileAlreadyCancelled
  | ErrSkipDir                 (* driver.ErrSkipDir *)
  | ErrEOF                     (* io.EOF *)
  | ErrShortWrite
  | ErrJSON                    (* encoding/json *)
  | ErrDigest                  (* go-digest validation *)
  | ErrContext                 (* ctx.Err() *)
  | ErrKeyRequired             (* bbolt *)
  | ErrFuel                    (* the recursion bound of a model ran out; not a Go error *)
  | ErrPanic (what : string)   (* a run-time panic *)
  | ErrOther (detail : string).

#[export] Instance err_eq_dec : EqDecision err.
Proof. intros x y. unfold Decision. decide equality; apply string_dec. Defined.

(** Go's [(value, error)] results: either a value with a nil error or an error. *)
Inductive res (A : Type) : Type :=
  | Ok (a : A)
  | Err (e : err).
Arguments Ok {A} a.
Arguments Err {A} e.

#[export] Instance res_eq_dec {A} `{EqDecision A} : EqDecision (res A).
Proof. solve_decision. Defined.

Definition is_ok {A} (r : res A) : bool := match r with Ok _ => true | Err _ => false end.

Definition res_bind {A B} (r : res A) (f : A -> res B) : res B :=
  match r with Ok a => f a | Err e => Err e end.

(** ** A state-and-error monad in which the state survives an error, the way
    the effects a Go function made before an early [return err] survive. *)
Definition ST (S A : Type) : Type := S -> res A * S.

Definition ret {S A} (a : A) : ST S A := fun s => (Ok a, s).
Definition throw {S A} (e : err) : ST S A := fun s => (Err e, s).
Definition bind {S A B} (m : ST S A) (k : A -> ST S B) : ST S B :=
  fun s => match m s with
           | (Ok a, s') => k a s'
           | (Err e, s') => (Err e, s')
           end.
(** [try m] runs [m] and hands its [(value, error)] pair to the continuation,
    for code that inspects the error instead of returning it. *)
Definition try {S A} (m : ST S A) : ST S (res A) :=
  fun s => let '(r, s') := m s in (Ok r, s').
(** The same, where a panic goes on upwards. *)
Definition attempt {S A} (m : ST S A) : ST S (res A) :=
  fun s => match m s with
           | (Err (ErrPanic p), s') => (Err (ErrPanic p), s')
           | (r, s') => (Ok r, s')
           end.
Definition get {S} : ST S S := fun s => (Ok s, s).
Definition put {S} (s : S) : ST S unit := fun _ => (Ok tt, s).
Definition gets {S A} (f : S -> A) : ST S A := fun s => (Ok (f s), s).
Definition modify {S} (f : S -> S) : ST S unit := fun s => (Ok tt, f s).
Definition lift_res {S A} (r : res A) : ST S A := fun s => (r, s).

Notation "'let*' x := m 'in' k" := (bind m (fun x => k))
  (at level 10, x pattern, m at level 100, k at level 200) : zot_scope.
Notation "m ';;;' k" := (bind m (fun _ => k))
  (at level 199, k at level 200, right associativity) : zot_scope.
Open Scope zot_scope.

(** ** Automation *)

(** Split every [match]/[if] in the goal or a hypothesis, keeping equations. *)
Ltac break :=
  repeat match goal with
  | H : context [match ?x with _ => _ end] |- _ => destruct x eqn:?; simplify_eq
  | |- context [match ?x with _ => _ end] => destruct x eqn:?; simplify_eq
  end.

Ltac destr_and :=
  repeat match goal with
  | H : _ /\ _ |- _ => destruct H
  | H : exists _, _ |- _ => destruct H
  end.

Create HintDb zot.
Create Rewrite HintDb zot.

(** ** Monad lemmas *)
Section monad.
Context {S A B : Type}.

Lemma bind_ok (m : ST S A) (k : A -> ST S B) s b s'' :
  bind m k s = (Ok b, s'') <-> exists a s', m s = (Ok a, s') /\ k a s' = (Ok b, s'').
Proof.
  unfold bind. destruct (m s) as [[a|e] s'] eqn:E.
  - split; [eauto|]. intros (?&?&[=]&?); by subst.
  - split; [done|]. by intros (?&?&[=]&?).
Qed.

Lemma bind_err (m : ST S A) (k : A -> ST S B) s e s'' :
  bind m k s = (Err e, s'') <->
  m s = (Err e, s'') \/ exists a s', m s = (Ok a, s') /\ k a s' = (Err e, s'').
Proof.
  unfold bind. destruct (m s) as [[a|e'] s'] eqn:E; split; intros H.
  - right. by exists a, s'.
  - destruct H as [H|(?&?&[=]&?)]; [done|]. by subst.
  - left. by simplify_eq.
  - destruct H as [H|(?&?&[=]&?)]. by simplify_eq.
Qed.

(** A property of states kept by a computation whatever it returns. *)
Definition preserves (I : S -> Prop) (m : ST S A) : Prop :=
  forall s r s', I s -> m s = (r, s') -> I s'.
End monad.

(** The first step of a computation that is known to succeed. *)
Lemma bind_step {S A B} (m : ST S A) (k : A -> ST S B) s a s' : m s = (Ok a, s') -> bind m k s = k a s'.
Proof. unfold bind. by intros ->. Qed.

Section preserves.
Context {S : Type} (I : S -> Prop).

Lemma preserves_ret {A} (a : A) : preserves I (ret a).
Proof. intros s r s' HI [= <- <-]; done. Qed.
Lemma preserves_throw {A} e : preserves (A:=A) I (throw e).
Proof. intros s r s' HI [= <- <-]; done. Qed.
Lemma preserves_gets {A} (f : S -> A) : preserves I (gets f).
Proof. intros s r s' HI [= <- <-]; done. Qed.
Lemma preserves_lift_res {A} (r : res A) : preserves I (lift_res r).
Proof. intros s r' s' HI [= <- <-]; done. Qed.
Lemma preserves_bind {A B} (m : ST S A) (k : A -> ST S B) :
  preserves I m -> (forall a, preserves I (k a)) -> preserves I (bind m k).
Proof.
  intros Hm Hk s r s' HI. unfold bind. destruct (m s) as [[a|e] s1] eqn:E.
  - apply Hk. eauto.
  - intros [= <- <-]. eauto.
Qed.
Lemma preserves_try {A} (m : ST S A) : preserves I m -> preserves I (try m).
Proof. intros Hm s r s' HI. unfold try. destruct (m s) eqn:E. intros [= <- <-]. eauto. Qed.
Lemma preserves_attempt {A} (m : ST S A) : preserves I m -> preserves I (attempt m).
Proof.
  intros Hm s r s' HI. unfold attempt. destruct (m s) as [[a|e] s1] eqn:E; [|destruct e]; intros [= <- <-]; eauto.
Qed.
End preserves.
#[export] Hint Resolve preserves_ret preserves_throw preserves_gets preserves_lift_res
  preserves_bind preserves_try preserves_attempt : zot.

Lemma preserves_get {S} (I : S -> Prop) : preserves I get.
Proof. intros s r s' HI [= <- <-]; done. Qed.

(** What a component's operations preserve, for the tactic [pres]. *)
Create HintDb pres.

(** Prove that a computation keeps an invariant by following its structure;
    the calls it makes are left to the hints of [pres] and the hypotheses. *)
Ltac pres := cbv zeta; repeat match goal with
  | |- preserves _ (bind _ _) => apply preserves_bind; [|intros ?; cbv beta zeta]
  | |- preserves _ (try _) => apply preserves_try
  | |- preserves _ (attempt _) => apply preserves_attempt
  | |- preserves _ (ret _) => apply preserves_ret
  | |- preserves _ (throw _) => apply preserves_throw
  | |- preserves _ (lift_res _) => apply preserves_lift_res
  | |- preserves _ get => apply preserves_get
  | |- preserves _ (match ?x with _ => _ end) => destruct x; cbv zeta
  | |- preserves _ _ => solve [eauto with pres]
  end.

(** A property of states kept by a computation, and one of the value it
    returns when it returns one. *)
Section ensures.
Context {S : Type} (I : S -> Prop).

Definition ensures {A} (m : ST S A) (Q : A -> Prop) : Prop :=
  forall s r s', I s -> m s = (r, s') -> I s' /\ match r with Ok a => Q a | Err _ => True end.

Lemma ensures_preserves {A} (m : ST S A) Q : ensures m Q -> preserves I m.
Proof. intros Hm s r s' HI E. by eapply Hm. Qed.
Lemma preserves_ensures {A} (m : ST S A) : preserves I m -> ensures m (fun _ => True).
Proof. intros Hm s r s' HI E. split; [by eapply Hm|by destruct r]. Qed.
Lemma ensures_weaken {A} (m : ST S A) (P Q : A -> Prop) : ensures m P -> (forall a, P a -> Q a) -> ensures m Q.
Proof. intros Hm HPQ s r s' HI E. destruct (Hm s r s' HI E). split; [done|]. destruct r; auto. Qed.
Lemma ensures_ret {A} (a : A) (Q : A -> Prop) : Q a -> ensures (ret a) Q.
Proof. by intros HQ s r s' HI [= <- <-]. Qed.
Lemma ensures_throw {A} e (Q : A -> Prop) : ensures (throw e) Q.
Proof. by intros s r s' HI [= <- <-]. Qed.
Lemma ensures_lift_res {A} (r : res A) (Q : A -> Prop) : (forall a, r = Ok a -> Q a) -> ensures (lift_res r) Q.
Proof. intros HQ s r' s' HI [= <- <-]. split; [done|]. destruct r; auto. Qed.
Lemma ensures_get : ensures get I.
Proof. by intros s r s' HI [= <- <-]. Qed.
Lemma ensures_bind {A B} (m : ST S A) (k : A -> ST S B) (P : A -> Prop) Q :
  ensures m P -> (forall a, P a -> ensures (k a) Q) -> ensures (bind m k) Q.
Proof.
  intros Hm Hk s r s' HI. unfold bind. destruct (m s) as [[a|e] s1] eqn:E; destruct (Hm _ _ _ HI E) as [HI' HP].
  - by apply Hk.
  - by intros [= <- <-].
Qed.
Lemma ensures_try {A} (m : ST S A) (P : A -> Prop) :
  ensures m P -> ensures (try m) (fun r => match r with Ok a => P a | Err _ => True end).
Proof. intros Hm s r s' HI. unfold try. destruct (m s) eqn:E. intros [= <- <-]. by eapply Hm. Qed.
Lemma ensures_attempt {A} (m : ST S A) (P : A -> Prop) :
  ensures m P -> ensures (attempt m) (fun r => match r with Ok a => P a | Err _ => True end).
Proof.
  intros Hm s r s' HI. unfold attempt. destruct (m s) as [[a|e] s1] eqn:E; [|destruct e]; intros [= <- <-]; by eapply Hm in E.
Qed.
End ensures.

(** Splitting a computation in two. *)
Lemma pair_fst {A B} (p : A * B) a : fst p = a -> p = (a, snd p).
Proof. destruct p. by intros <-. Qed.

Lemma bind_state {S A B} (m : ST S A) (k : A -> ST S B) s r s' : bind m k s = (r, s') ->
  (exists e, m s = (Err e, s') /\ r = Err e) \/
  (exists a s1, m s = (Ok a, s1) /\ k a s1 = (r, s')).
Proof.
  unfold bind. destruct (m s) as [[a|e] s1]; [by right; eauto|]. intros [= <- <-]. left. eauto.
Qed.
Ltac stepo H := apply bind_ok in H as (?a & ?s & ?E & H).
Ltac steps H := apply bind_state in H as [(?e & ?E & ->)|(?a & ?s & ?E & H)].

(** ** Slash-separated paths, kept the way path.Clean leaves them: a list of
    components, the first one [""] when the path is absolute. *)
Abbreviation path := (list string).

Fixpoint split_on (c : ascii) (s : string) : list string :=
  match s with
  | EmptyString => [EmptyString]
  | String d s' =>
      if decide (d = c) then EmptyString :: split_on c s'
      else match split_on c s' with
           | [] => [String d EmptyString]
           | w :: ws => String d w :: ws
           end
  end.

(** strings.Join with a one-byte separator. *)
Fixpoint join_with (c : ascii) (l : list string) : string :=
  match l with
  | [] => EmptyString
  | [w] => w
  | w :: ws => (w ++ String c (join_with c ws))%string
  end.

Definition slash : ascii := "/".

(** One step of path.Clean: [acc] is the cleaned prefix. *)
Definition join_step (acc : path) (c : string) : path :=
  if decide (c = "" \/ c = ".")%string then acc
  else if decide (c = "..")%string then
    match last acc with
    | None => [".."%string]
    | Some ""%string => acc
    | Some ".."%string => acc ++ [".."%string]
    | Some _ => take (length acc - 1) acc
    end
  else acc ++ [c].

(** path.Join(p, s). *)
Definition path_join (p : path) (s : string) : path :=
  foldl join_step p (split_on slash s).

(** A component path.Clean keeps as it is. *)
Definition plain (c : string) : Prop := (c <> "" /\ c <> "." /\ c <> "..")%string.
#[export] Instance plain_dec c : Decision (plain c).
Proof. unfold plain. apply _. Defined.

Lemma join_step_plain acc c : plain c -> join_step acc c = acc ++ [c].
Proof. intros (?&?&?). unfold join_step. rewrite !decide_False by naive_solver. done. Qed.

Lemma path_join_plain p s :
  Forall plain (split_on slash s) -> path_join p s = p ++ split_on slash s.
Proof.
  unfold path_join. generalize (split_on slash s). intros l H. revert p.
  induction H as [|c l Hc Hl IH]; intros p; simpl; [by rewrite app_nil_r|].
  by rewrite join_step_plain, IH, <-app_assoc.
Qed.

(** A string without a slash is one component. *)
Fixpoint no_char (c : ascii) (s : string) : bool :=
  match s with
  | EmptyString => true
  | String d s' => if decide (d = c) then false else no_char c s'
  end.

Lemma split_on_no_char c s : no_char c s = true -> split_on c s = [s].
Proof.
  induction s as [|d s IH]; simpl; [done|]. case_decide; [done|]. intros Hs. by rewrite IH.
Qed.

Lemma split_on_nonempty c s : split_on c s <> [].
Proof. destruct s as [|d s]; simpl; [done|]. case_decide; [done|]. by destruct (split_on c s). Qed.

Lemma split_on_app c s t : split_on c (String.append s (String c t)) = split_on c s ++ split_on c t.
Proof.
  induction s as [|d s IH]; simpl; [by rewrite decide_True|]. rewrite IH. case_decide; [done|].
  pose proof (split_on_nonempty c s) as Hne. by destruct (split_on c s).
Qed.

Lemma join_split c s : join_with c (split_on c s) = s.
Proof.
  induction s as [|d s IH]; simpl; [done|]. case_decide as Hd.
  - subst. simpl. destruct (split_on c s) eqn:E; [by apply split_on_nonempty in E|].
    rewrite <-IH. done.
  - destruct (split_on c s) as [|w ws] eqn:E; [by apply split_on_nonempty in E|].
    rewrite <-IH. by destruct ws.
Qed.

Lemma split_on_inj c s t : split_on c s = split_on c t -> s = t.
Proof. intros H. by rewrite <-(join_split c s), <-(join_split c t), H. Qed.

Lemma path_join_one p s :
  no_char slash s = true -> plain s -> path_join p s = p ++ [s].
Proof.
  intros H1 H2. rewrite path_join_plain; rewrite split_on_no_char; auto.
Qed.

Definition is_abs (p : path) : bool :=
  match p with
  | c :: _ => bool_decide (c = ""%string)
  | [] => false
  end.

(** The rendering of a cleaned path as a string. *)
Definition path_str (p : path) : string :=
  match p with
  | [] => "."%string
  | [""%string] => "/"%string
  | _ => join_with slash p
  end.

Fixpoint strip_common (b t : path) : path * path :=
  match b, t with
  | x :: b', y :: t' => if decide (x = y) then strip_common b' t' else (b, t)
  | _, _ => (b, t)
  end.

(** filepath.Rel(base, targ) on cleaned paths; [None] when it returns an error. *)
Definition path_rel (base targ : path) : option path :=
  if decide (is_abs base = is_abs targ) then
    let '(b, t) := strip_common base targ in
    match b with
    | ".."%string :: _ => None
    | _ => Some (repeat ".."%string (length b) ++ t)
    end
  else None.

Lemma strip_common_app b t : strip_common b (b ++ t) = ([], t).
Proof. induction b as [|x b IH]; simpl; [by destruct t|]. by rewrite decide_True. Qed.

Lemma path_rel_under root q : root <> [] -> path_rel root (root ++ q) = Some q.
Proof.
  intros Hr. unfold path_rel. destruct root as [|x root]; [done|].
  rewrite decide_True by done. by rewrite strip_common_app.
Qed.

(** path.Base and path.Dir. *)
Definition path_base (p : path) : string :=
  match last p with None => "."%string | Some ""%string => "/"%string | Some c => c end.
Definition path_dir (p : path) : path := take (length p - 1) p.

Lemma path_dir_snoc p c : path_dir (p ++ [c]) = p.
Proof. unfold path_dir. rewrite length_app. simpl. by rewrite Nat.add_sub, take_app_length. Qed.
Lemma path_base_snoc p c : c <> ""%string -> path_base (p ++ [c]) = c.
Proof. intros H. unfold path_base. rewrite last_snoc. destruct c; done. Qed.

(** strings.HasPrefix and strings.HasSuffix. *)
Definition has_prefix (s pre : string) : bool := String.prefix pre s.
Definition has_suffix (s suf : string) : bool :=
  bool_decide (String.length suf <= String.length s) &&
  String.eqb (String.substring (String.length s - String.length suf) (String.length suf) s) suf.

(** ** Strings *)
#[global] Arguments String.append !_ _ / : simpl nomatch.

Lemma string_app_nil_r (s : string) : (s ++ "")%string = s.
Proof. induction s as [|c s IH]; simpl; [done|]. by rewrite IH. Qed.
Lemma string_app_assoc (s1 s2 s3 : string) : ((s1 ++ s2) ++ s3)%string = (s1 ++ s2 ++ s3)%string.
Proof. induction s1 as [|c s IH]; simpl; [done|]. by rewrite IH. Qed.
Lemma string_length_app (s1 s2 : string) :
  String.length (s1 ++ s2) = String.length s1 + String.length s2.
Proof. induction s1 as [|c s IH]; simpl; [done|]. by rewrite IH. Qed.
#[export] Hint Rewrite string_app_nil_r string_app_assoc string_length_app : zot.

(** utf8.ValidString: [expected] are the ranges the next bytes must fall in. *)
Definition utf8_cont : N * N := (128, 191)%N.
Definition utf8_first (b : N) : option (list (N * N)) :=
  (if b <=? 127 then Some []
   else if b <? 194 then None
   else if b <=? 223 then Some [utf8_cont]
   else if b =? 224 then Some [(160, 191); utf8_cont]
   else if b =? 237 then Some [(128, 159); utf8_cont]
   else if b <=? 239 then Some [utf8_cont; utf8_cont]
   else if b =? 240 then Some [(144, 191); utf8_cont; utf8_cont]
   else if b <=? 243 then Some [utf8_cont; utf8_cont; utf8_cont]
   else if b =? 244 then Some [(128, 143); utf8_cont; utf8_cont]
   else None)%N.
Fixpoint utf8_go (expected : list (N * N)) (s : string) : bool :=
  match s with
  | EmptyString => match expected with [] => true | _ => false end
  | String c s' =>
      let b := N_of_ascii c in
      match expected with
      | (lo, hi) :: rest => (lo <=? b)%N && (b <=? hi)%N && utf8_go rest s'
      | [] => match utf8_first b with Some rest => utf8_go rest s' | None => false end
      end
  end.
Definition utf8_valid (s : string) : bool := utf8_go [] s.

(** Byte order on strings. *)
Definition str_le (a b : string) : Prop := String.leb a b = true.
#[export] Instance str_le_dec : RelDecision str_le.
Proof. unfold str_le. intros a b. apply _. Defined.
#[export] Instance str_le_total : Total str_le.
Proof.
  intros x y. unfold str_le. destruct (String.leb x y) eqn:E; [by left|]. right.
  by destruct (String.leb_total x y) as [|]; [congruence|].
Qed.
#[export] Instance str_le_antisym : AntiSymm (=) str_le.
Proof. intros x y. apply String.leb_antisym. Qed.
Lemma str_le_compare a b : str_le a b <-> String.compare a b <> Gt.
Proof. unfold str_le, String.leb. by destruct (String.compare a b). Qed.
#[export] Instance str_le_trans : Transitive str_le.
Proof.
  intros x y z. rewrite !str_le_compare. revert y z. induction x as [|c x IH]; intros [|d y] [|e z]; simpl; try done.
  unfold Ascii.compare. destruct (N.compare_spec (N_of_ascii c) (N_of_ascii d)), (N.compare_spec (N_of_ascii d) (N_of_ascii e)),
    (N.compare_spec (N_of_ascii c) (N_of_ascii e)); try done; try lia. apply IH.
Qed.
(** Sorting only depends on the elements. *)
Lemma merge_sort_str_perm l1 l2 : l1 ≡ₚ l2 -> merge_sort str_le l1 = merge_sort str_le l2.
Proof.
  intros Hl. apply (Sorted_unique str_le); [apply Sorted_merge_sort, _..|].
  by rewrite !merge_sort_Permutation.
Qed.

(** Characters. *)
Definition in_range (lo hi c : ascii) : bool :=
  (N_of_ascii lo <=? N_of_ascii c)%N && (N_of_ascii c <=? N_of_ascii hi)%N.
Definition alnum (c : ascii) : bool := in_range "a" "z" c || in_range "0" "9" c.

Fixpoint all_chars (p : ascii -> bool) (s : string) : bool :=
  match s with EmptyString => true | String c s' => p c && all_chars p s' end.

Lemma all_chars_app p s1 s2 : all_chars p (s1 ++ s2) = all_chars p s1 && all_chars p s2.
Proof. induction s1; simpl; [done|]. by rewrite IHs1, andb_assoc. Qed.

Lemma all_chars_impl p q s :
  (forall c, p c = true -> q c = true) -> all_chars p s = true -> all_chars q s = true.
Proof.
  intros H. induction s; simpl; [done|]. intros [H1 H2]%andb_prop. by rewrite H, IHs.
Qed.

(** A non-empty string of lower-case letters and digits, which is a path
    component that path.Clean keeps. *)
Definition name_like (s : string) : Prop := s <> ""%string /\ all_chars alnum s = true.

Lemma all_chars_no_char p c s : p c = false -> all_chars p s = true -> no_char c s = true.
Proof.
  intros Hc. induction s as [|d s IH]; simpl; [done|]. intros [Hd Hs]%andb_prop.
  rewrite decide_False by (intros ->; congruence). by apply IH.
Qed.

Lemma name_like_plain s : name_like s -> plain s.
Proof. intros [Hn Ha]. split; [done|]. split; intros ->; discriminate Ha. Qed.

Lemma name_like_no_slash s : name_like s -> no_char slash s = true.
Proof. intros [_ Ha]. by apply (all_chars_no_char alnum). Qed.

(** strings.TrimSpace, on content that is ASCII. *)
Definition is_space (c : ascii) : bool :=
  let n := nat_of_ascii c in ((n =? 32) || ((9 <=? n) && (n <=? 13)))%nat.
Fixpoint trim_left (s : string) : string :=
  match s with
  | String c s' => if is_space c then trim_left s' else s
  | EmptyString => s
  end.
Definition TrimSpace (s : string) : string := String.rev (trim_left (String.rev (trim_left s))).

(** strings.TrimSuffix. *)
Definition TrimSuffix (s suffix : string) : string :=
  if has_suffix s suffix
  then String.substring 0 (String.length s - String.length suffix) s else s.

(** strings.Cut at the first separator. *)
Fixpoint Cut (sep : ascii) (s : string) : option (string * string) :=
  match s with
  | EmptyString => None
  | String c s' =>
      if decide (c = sep) then Some (EmptyString, s')
      else match Cut sep s' with
           | Some (a, b) => Some (String c a, b)
           | None => None
           end
  end.

(** Byte order of the rendered paths. *)
Definition path_le (p q : path) : Prop := str_le (path_str p) (path_str q).
#[export] Instance path_le_dec : RelDecision path_le.
Proof. unfold path_le. intros p q. apply _. Defined.

(** ** Lists *)
Definition contains {A} `{EqDecision A} (l : list A) (x : A) : bool := bool_decide (x ∈ l).

Lemma filter_all {A} (P : A -> Prop) `{forall x, Decision (P x)} (l : list A) :
  (forall x, x ∈ l -> P x) -> filter P l = l.
Proof.
  induction l as [|x l IH]; [done|]. intros Hp. rewrite filter_cons, decide_True.
  - f_equal. apply IH. intros y Hy. apply Hp. by apply list_elem_of_further.
  - apply Hp, list_elem_of_here.
Qed.

Lemma filter_none {A} (P : A -> Prop) `{forall x, Decision (P x)} (l : list A) :
  (forall x, x ∈ l -> ~ P x) -> filter P l = [].
Proof.
  induction l as [|x l IH]; [done|]. intros Hp. rewrite filter_cons, decide_False.
  - apply IH. intros y Hy. apply Hp. by apply list_elem_of_further.
  - apply Hp, list_elem_of_here.
Qed.

Lemma NoDup_omap_inj {A B} (f : A -> option B) (l : list A) :
  (forall x y b, x ∈ l -> y ∈ l -> f x = Some b -> f y = Some b -> x = y) ->
  NoDup l -> NoDup (omap f l).
Proof.
  induction l as [|x l IH]; intros Hf Hl; simpl; [constructor|]. apply NoDup_cons in Hl as [Hx Hl].
  assert (NoDup (omap f l)).
  { apply IH; [|done]. intros y z b Hy Hz. by apply Hf; apply list_elem_of_further. }
  destruct (f x) as [b|] eqn:E; [|done]. apply NoDup_cons. split; [|done].
  intros (y&Hy&Ey)%list_elem_of_omap. apply Hx.
  rewrite (Hf x y b); [done|apply list_elem_of_here|by apply list_elem_of_further|done|done].
Qed.

Lemma omap_snoc {A B} (f : A -> option B) l x : omap f (l ++ [x]) = omap f l ++ option_list (f x).
Proof. rewrite omap_app. simpl. by destruct (f x). Qed.

(** sort.Slice: an unstable sort, so all that is known of its result is that
    it is a permutation of the argument ordered by the comparison. *)
Class SliceSort := slice_sort : forall {A : Type}, (A -> A -> bool) -> list A -> list A.
Class SliceSortLaws `{SliceSort} : Prop := {
  slice_sort_perm : forall A (less : A -> A -> bool) (l : list A), slice_sort less l ≡ₚ l;
  slice_sort_sorted : forall A (less : A -> A -> bool) (l : list A),
    Transitive (fun x y => less y x = false) ->
    Total (fun x y => less y x = false) ->
    Sorted (fun x y => less y x = false) (slice_sort less l)
}.

(** [range m] over a map: every entry once, in an order that is not specified. *)
Class MapIter := map_iter : forall {K A} `{Countable K}, gmap K A -> list (K * A).
Class MapIterLaws `{MapIter} : Prop :=
  map_iter_perm : forall K A `{Countable K} (m : gmap K A), map_iter m ≡ₚ map_to_list m.
