(* ===== verification/Regexp.v ===== *)
(** * Repository names and tags (pkg/regexp/regexp.go)

    The grammar values of the source are regular expressions built by
    [expression], [optional], [repeated], [group] and [literal]; Go's regexp
    engine is modelled by a derivative matcher, proved to decide the language
    of the expression. *)

From Stdlib Require Import Ascii String.
From stdpp Require Import base tactics list strings.
From S2P Require Import Prelude.

(** ** The part of Go's regular expressions the source uses *)
Inductive re : Type :=
  | Void
  | Eps
  | Class (p : ascii -> bool)
  | Seq (r1 r2 : re)
  | Alt (r1 r2 : re)
  | Star (r : re).

Fixpoint nullable (r : re) : bool :=
  match r with
  | Void | Class _ => false
  | Eps | Star _ => true
  | Seq r1 r2 => nullable r1 && nullable r2
  | Alt r1 r2 => nullable r1 || nullable r2
  end.

(** Constructors that drop dead branches, to keep derivatives small. *)
Definition seq (r1 r2 : re) : re :=
  match r1, r2 with
  | Void, _ => Void
  | _, Void => Void
  | Eps, _ => r2
  | _, _ => Seq r1 r2
  end.
Definition alt (r1 r2 : re) : re :=
  match r1, r2 with
  | Void, _ => r2
  | _, Void => r1
  | _, _ => Alt r1 r2
  end.

Fixpoint deriv (c : ascii) (r : re) : re :=
  match r with
  | Void | Eps => Void
  | Class p => if p c then Eps else Void
  | Seq r1 r2 =>
      if nullable r1 then alt (seq (deriv c r1) r2) (deriv c r2) else seq (deriv c r1) r2
  | Alt r1 r2 => alt (deriv c r1) (deriv c r2)
  | Star r => seq (deriv c r) (Star r)
  end.

(** MatchString of an expression anchored by [^] and [$]. *)
Fixpoint match_string (r : re) (s : string) : bool :=
  match s with
  | EmptyString => nullable r
  | String c s' => match_string (deriv c r) s'
  end.

(** ** The combinators of the source *)
Definition one_of (s : string) (c : ascii) : bool := negb (no_char c s).

Definition expression (l : list re) : re := foldr Seq Eps l.
Definition group (l : list re) : re := expression l.
Definition optional (l : list re) : re := Alt (group l) Eps.
Definition plus (r : re) : re := Seq r (Star r).
Definition repeated (l : list re) : re := plus (group l).
Fixpoint literal (s : string) : re :=
  match s with
  | EmptyString => Eps
  | String c s' => Seq (Class (fun d => bool_decide (d = c))) (literal s')
  end.
(** [r{0,n}] *)
Fixpoint upto (n : nat) (r : re) : re :=
  match n with 0 => Eps | S n => Alt (Seq r (upto n r)) Eps end.


Definition alphaNumericRegexp : re := plus (Class alnum).

(** One of [._], or two underscores, or any number of dashes. *)
Definition separatorRegexp : re :=
  Alt (Class (one_of "._")) (Alt (literal "__") (Star (Class (one_of "-")))).

Definition nameComponentRegexp : re :=
  expression [alphaNumericRegexp; optional [repeated [separatorRegexp; alphaNumericRegexp]]].

Definition NameRegexp : re :=
  expression [nameComponentRegexp; optional [repeated [literal "/"; nameComponentRegexp]]].

(** FullNameRegexp is NameRegexp between the anchors. *)
Definition FullNameRegexp : re := NameRegexp.

Definition TagMaxLen : nat := 128.

Definition tag_first (c : ascii) : bool :=
  in_range "a" "z" c || in_range "A" "Z" c || in_range "0" "9" c || one_of "_" c.
Definition tag_rest (c : ascii) : bool := tag_first c || one_of ".-" c.

Definition TagRegexp : re := Seq (Class tag_first) (upto (TagMaxLen - 1) (Class tag_rest)).

Definition IsDistributionSpecTag (s : string) : bool := match_string TagRegexp s.

(** ** The language of an expression *)
Inductive matches : re -> string -> Prop :=
  | m_eps : matches Eps ""
  | m_class p c : p c = true -> matches (Class p) (String c "")
  | m_seq r1 r2 s1 s2 : matches r1 s1 -> matches r2 s2 -> matches (Seq r1 r2) (s1 ++ s2)
  | m_alt_l r1 r2 s : matches r1 s -> matches (Alt r1 r2) s
  | m_alt_r r1 r2 s : matches r2 s -> matches (Alt r1 r2) s
  | m_star_nil r : matches (Star r) ""
  | m_star_cons r s1 s2 : matches r s1 -> matches (Star r) s2 -> matches (Star r) (s1 ++ s2).
#[export] Hint Constructors matches : zot.

Lemma matches_seq_inv r1 r2 s :
  matches (Seq r1 r2) s -> exists s1 s2, s = (s1 ++ s2)%string /\ matches r1 s1 /\ matches r2 s2.
Proof. inversion 1; subst; eauto. Qed.

Lemma app_eq_nil (s1 s2 : string) : (s1 ++ s2)%string = ""%string -> s1 = ""%string /\ s2 = ""%string.
Proof. destruct s1; simpl; [done|discriminate]. Qed.

Lemma nullable_matches r : nullable r = true <-> matches r "".
Proof.
  split.
  - induction r; simpl; intros H; try discriminate; eauto with zot.
    + apply andb_prop in H as [H1 H2]. change ""%string with (""++"")%string. eauto with zot.
    + apply orb_prop in H as [H|H]; eauto with zot.
  - intros H. remember ""%string as s eqn:Es. induction H; subst; simpl; try done.
    + apply app_eq_nil in Es as [-> ->]. by rewrite IHmatches1, IHmatches2.
    + by rewrite IHmatches.
    + rewrite IHmatches by done. apply orb_true_r.
Qed.

Lemma matches_seq_smart r1 r2 s : matches (seq r1 r2) s <-> matches (Seq r1 r2) s.
Proof.
  assert (forall r, ~ matches (Seq Void r) s) as HV1.
  { intros r (?&?&?&H&?)%matches_seq_inv. inversion H. }
  assert (forall r, ~ matches (Seq r Void) s) as HV2.
  { intros r (?&?&?&?&H)%matches_seq_inv. inversion H. }
  assert (forall r, matches (Seq Eps r) s <-> matches r s) as HE.
  { intros r. split.
    - intros (?&?&->&H&?)%matches_seq_inv. by inversion H; subst.
    - intros H. change s with ("" ++ s)%string. eauto with zot. }
  destruct r1, r2; simpl; try done; try (symmetry; apply HE);
    (split; intros H; [by inversion H|]; exfalso; first [by eapply HV1 | by eapply HV2]).
Qed.

Lemma matches_alt_smart r1 r2 s : matches (alt r1 r2) s <-> matches (Alt r1 r2) s.
Proof.
  destruct r1, r2; simpl; try done;
    split; intros H; eauto with zot; inversion H; subst; try done;
    match goal with H : matches Void _ |- _ => inversion H end.
Qed.

Lemma matches_star_cons_inv r c s :
  matches (Star r) (String c s) ->
  exists s1 s2, s = (s1 ++ s2)%string /\ matches r (String c s1) /\ matches (Star r) s2.
Proof.
  intros H. remember (Star r) as r' eqn:Er. remember (String c s) as s' eqn:Es.
  revert r s Er Es. induction H; intros r' s' Er Es; try discriminate.
  injection Er as ->. destruct s1 as [|d s1]; simpl in Es.
  - eauto.
  - injection Es as -> <-. eauto.
Qed.

Lemma deriv_matches c r s : matches (deriv c r) s <-> matches r (String c s).
Proof.
  revert s. induction r as [| |p|r1 IH1 r2 IH2|r1 IH1 r2 IH2|r IH]; intros s; simpl.
  - split; inversion 1.
  - split; inversion 1.
  - destruct (p c) eqn:E; split; inversion 1; subst; eauto with zot; congruence.
  - assert (matches (seq (deriv c r1) r2) s <->
      exists s1 s2, s = (s1 ++ s2)%string /\ matches r1 (String c s1) /\ matches r2 s2) as HS.
    { rewrite matches_seq_smart. split.
      - intros (s1&s2&->&H1&H2)%matches_seq_inv. apply IH1 in H1. eauto.
      - intros (s1&s2&->&H1&H2). apply IH1 in H1. eauto with zot. }
    assert (matches (Seq r1 r2) (String c s) <->
      (exists s1 s2, s = (s1 ++ s2)%string /\ matches r1 (String c s1) /\ matches r2 s2) \/
      (nullable r1 = true /\ matches r2 (String c s))) as HR.
    { split.
      - intros (s1&s2&E&H1&H2)%matches_seq_inv. destruct s1 as [|d s1]; simpl in E.
        + subst. right. split; [by apply nullable_matches|done].
        + injection E as <- ->. eauto 6.
      - intros [(s1&s2&->&H1&H2)|[H1 H2]].
        + change (String c (s1 ++ s2)) with (String c s1 ++ s2)%string. eauto with zot.
        + apply nullable_matches in H1. change (String c s) with ("" ++ String c s)%string.
          eauto with zot. }
    rewrite HR. destruct (nullable r1).
    + rewrite matches_alt_smart. split.
      * inversion 1; subst; [left; by apply HS|right; split; [done|by apply IH2]].
      * intros [H|[_ H]]; [apply m_alt_l, HS, H|apply m_alt_r, IH2, H].
    + rewrite HS. split; [by left|]. intros [H|[H _]]; [done|discriminate].
  - rewrite matches_alt_smart. split; inversion 1; subst;
      first [apply m_alt_l; by apply IH1 | apply m_alt_r; by apply IH2].
  - rewrite matches_seq_smart. split.
    + intros (s1&s2&->&H1&H2)%matches_seq_inv. apply IH in H1.
      change (String c (s1 ++ s2)) with (String c s1 ++ s2)%string. eauto with zot.
    + intros (s1&s2&->&H1&H2)%matches_star_cons_inv. apply IH in H1. eauto with zot.
Qed.

Lemma match_string_spec r s : match_string r s = true <-> matches r s.
Proof.
  revert r. induction s as [|c s IH]; intros r; simpl.
  - apply nullable_matches.
  - rewrite IH. apply deriv_matches.
Qed.

(** ** Names *)

(** A component starts with a letter or a digit and contains no slash. *)
Definition comp_char (c : ascii) : bool := alnum c || one_of "._-" c.

(** Every string of [r] is made of characters satisfying [p]. *)
Definition over (p : ascii -> bool) (r : re) : Prop := forall s, matches r s -> all_chars p s = true.

Lemma over_class p q : (forall c, q c = true -> p c = true) -> over p (Class q).
Proof. intros H s Hs. inversion Hs; subst. simpl. by rewrite H. Qed.
Lemma over_eps p : over p Eps.
Proof. intros s Hs. by inversion Hs. Qed.
Lemma over_seq p r1 r2 : over p r1 -> over p r2 -> over p (Seq r1 r2).
Proof. intros H1 H2 s (s1&s2&->&?&?)%matches_seq_inv. by rewrite all_chars_app, H1, H2. Qed.
Lemma over_alt p r1 r2 : over p r1 -> over p r2 -> over p (Alt r1 r2).
Proof. intros H1 H2 s Hs. inversion Hs; subst; eauto. Qed.
Lemma over_star p r : over p r -> over p (Star r).
Proof.
  intros H s Hs. remember (Star r) as r' eqn:E. induction Hs; try discriminate; [done|].
  injection E as ->. rewrite all_chars_app, H, IHHs2; auto.
Qed.
#[export] Hint Resolve over_class over_eps over_seq over_alt over_star : zot.

Lemma alnum_comp c : alnum c = true -> comp_char c = true.
Proof. unfold comp_char. by intros ->. Qed.

Lemma one_of_comp s c : one_of s c = true ->
  all_chars (fun d => one_of "._-" d) s = true -> comp_char c = true.
Proof.
  unfold one_of, comp_char. intros H1 H2. apply orb_true_iff. right.
  induction s as [|d s IH]; simpl in *; [done|].
  apply andb_prop in H2 as [Hd Hs]. destruct (decide (d = c)); [by subst|]. auto.
Qed.

Lemma component_over : over comp_char nameComponentRegexp.
Proof.
  assert (over comp_char alphaNumericRegexp) by
    (unfold alphaNumericRegexp, plus; auto 6 using alnum_comp with zot).
  assert (forall s, all_chars (fun d => one_of "._-" d) s = true -> over comp_char (literal s)) as HL.
  { induction s as [|d s IH]; simpl; [auto with zot|]. intros [H1 H2]%andb_prop.
    apply over_seq; [|auto]. apply over_class. intros c Hc. apply bool_decide_eq_true in Hc as ->.
    unfold comp_char. by rewrite H1, orb_true_r. }
  assert (over comp_char separatorRegexp).
  { unfold separatorRegexp. apply over_alt; [|apply over_alt].
    - apply over_class. intros c Hc. by eapply one_of_comp.
    - by apply HL.
    - apply over_star, over_class. intros c Hc. by eapply one_of_comp. }
  unfold nameComponentRegexp, optional, repeated, group, plus; simpl. auto 12 with zot.
Qed.

Lemma component_first s : matches nameComponentRegexp s ->
  exists c s', s = String c s' /\ alnum c = true.
Proof.
  intros (s1&s2&->&(s3&s4&->&Hc&?)%matches_seq_inv&?)%matches_seq_inv.
  inversion Hc; subst. eauto.
Qed.

Lemma component_plain s : matches nameComponentRegexp s ->
  plain s /\ no_char slash s = true.
Proof.
  intros H. pose proof (component_over _ H) as Ho.
  destruct (component_first _ H) as (c&s'&->&Hc). split.
  - split; [done|]. split; intros [= -> ->]; discriminate.
  - clear -Ho. revert Ho. generalize (String c s'). intros s.
    induction s as [|d s IH]; simpl; [done|]. intros [H1 H2]%andb_prop.
    rewrite decide_False; [auto|]. intros ->. discriminate.
Qed.

Lemma split_app_slash s1 s2 :
  no_char slash s1 = true -> split_on slash (s1 ++ String slash s2) = s1 :: split_on slash s2.
Proof.
  induction s1 as [|d s IH]; simpl; [done|]. case_decide; [done|]. intros Hs. by rewrite IH.
Qed.

Lemma name_components s : matches NameRegexp s ->
  Forall (fun c => matches nameComponentRegexp c) (split_on slash s).
Proof.
  intros (s1&s2&->&H1&(s3&s4&->&H3&H4)%matches_seq_inv)%matches_seq_inv.
  inversion H4; subst; clear H4.
  assert (forall r, matches (Star (group [literal "/"; nameComponentRegexp])) r ->
    exists l, r = foldr (fun c acc => String slash c ++ acc)%string ""%string l /\
      Forall (fun c => matches nameComponentRegexp c) l) as HStar.
  { intros r Hr. remember (Star _) as r' eqn:E. induction Hr; try discriminate.
    - by exists [].
    - injection E as ->. destruct IHHr2 as (l&->&Hl); [done|].
      apply matches_seq_inv in Hr1 as (a&b&->&Ha&Hb).
      apply matches_seq_inv in Hb as (b1&b2&->&Hb1&Hb2). inversion Hb2; subst.
      apply matches_seq_inv in Ha as (a1&a2&->&Ha1&Ha2). inversion Ha2; subst.
      inversion Ha1; subst. match goal with H : bool_decide _ = true |- _ =>
        apply bool_decide_eq_true in H as -> end.
      exists (b1 :: l). split; [|by constructor]. simpl.
      by rewrite string_app_nil_r. }
  assert (forall l, Forall (fun c => matches nameComponentRegexp c) l -> forall c,
    matches nameComponentRegexp c ->
    Forall (fun c => matches nameComponentRegexp c)
      (split_on slash (c ++ foldr (fun c acc => String slash c ++ acc)%string ""%string l))) as HSplit.
  { induction 1 as [|d l Hd Hl IH]; intros c Hc; simpl.
    - rewrite string_app_nil_r. rewrite split_on_no_char by by apply component_plain. by constructor.
    - rewrite split_app_slash by by apply component_plain. constructor; auto. }
  rewrite string_app_nil_r. inversion H3 as [| | |? ? ? Hr|? ? ? Hr| |]; subst.
  - apply matches_seq_inv in Hr as (a&b&->&Ha&Hb). inversion Hb; subst.
    rewrite string_app_nil_r. destruct (HStar a) as (l&->&Hl); [|by apply HSplit].
    apply matches_seq_inv in Ha as (a1&a2&->&?&?). by constructor.
  - inversion Hr; subst. by apply (HSplit []).
Qed.

(** A non-empty list of name components joined by slashes is a name. *)
Lemma components_name cs : cs <> [] -> Forall (fun c => matches nameComponentRegexp c) cs ->
  matches NameRegexp (join_with slash cs).
Proof.
  intros Hne Hcs. destruct cs as [|c cs]; [done|]. clear Hne. apply Forall_cons in Hcs as [Hc Hcs].
  set (rest := foldr (fun c acc => String slash c ++ acc)%string ""%string).
  assert (join_with slash (c :: cs) = c ++ rest cs)%string as ->.
  { clear. revert c. induction cs as [|d cs IH]; intros c; [by rewrite string_app_nil_r|].
    cbn [join_with]. cbn [join_with] in IH. by rewrite IH. }
  set (g := group [literal "/"; nameComponentRegexp]).
  assert (forall d, matches nameComponentRegexp d -> matches g (String slash d)) as Hg.
  { intros d Hd. apply (m_seq _ _ "/"); [apply (m_seq _ _ "/" ""); auto with zot|].
    rewrite <-(string_app_nil_r d). auto with zot. }
  assert (forall l, Forall (fun c => matches nameComponentRegexp c) l -> matches (Star g) (rest l)) as Hrest.
  { induction 1 as [|d l Hd Hl IH]; [constructor|].
    apply (m_star_cons _ (String slash d)); auto. }
  apply m_seq; [done|]. rewrite <-(string_app_nil_r (rest cs)). apply m_seq; [|constructor].
  destruct Hcs as [|d l Hd Hl]; [apply m_alt_r; constructor|]. apply m_alt_l.
  rewrite <-(string_app_nil_r (rest _)). apply m_seq; [|constructor].
  apply (m_seq _ _ (String slash d)); auto.
Qed.

(** The enclosing directories of a name are names. *)
Lemma name_prefix s n : matches NameRegexp s -> 0 < n ->
  matches NameRegexp (join_with slash (take n (split_on slash s))).
Proof.
  intros Hs Hn. apply components_name.
  - destruct n; [lia|]. pose proof (split_on_nonempty slash s). by destruct (split_on slash s).
  - apply Forall_take. by apply name_components.
Qed.

(** ** Properties of names *)

Lemma full_name_plain name : match_string FullNameRegexp name = true ->
  Forall plain (split_on slash name) /\ Forall (fun c => no_char slash c = true) (split_on slash name).
Proof.
  intros H%match_string_spec%name_components.
  split; eapply Forall_impl; [exact H| |exact H|];
    intros c Hc; apply component_plain in Hc as [??]; done.
Qed.

(** A name the registry accepts cannot escape the storage root: joining it
    to the root with path.Join appends its components unchanged (none is empty,
    a dot or a dot-dot), so the directory of a repository is a proper
    descendant of the root. *)
Theorem repo_name_contained (root : path) (name : string) :
  match_string FullNameRegexp name = true ->
  path_join root name = root ++ split_on slash name /\
  split_on slash name <> [] /\ Forall plain (split_on slash name).
Proof.
  intros H. pose proof (full_name_plain _ H) as [Hp _].
  split; [by apply path_join_plain|]. split; [apply split_on_nonempty|done].
Qed.

Definition sample_root : path := [""; "var"; "lib"]%string.

Lemma repo_name_contained_witness :
  match_string FullNameRegexp "org/my-app_2" = true /\
  path_join sample_root "org/my-app_2" = sample_root ++ split_on slash "org/my-app_2".
Proof.
  split; [vm_compute; reflexivity|].
  apply (repo_name_contained sample_root "org/my-app_2"). vm_compute. reflexivity.
Defined.

Lemma matches_upto n p s :
  matches (upto n (Class p)) s <-> all_chars p s = true /\ String.length s <= n.
Proof.
  revert s. induction n as [|n IH]; intros s; simpl.
  - split.
    + inversion 1; subst. done.
    + destruct s; simpl; [eauto with zot|lia].
  - split.
    + inversion 1 as [| | |? ? ? Hs|? ? ? Hs| |]; subst.
      * apply matches_seq_inv in Hs as (a&b&->&Ha&Hb). inversion Ha; subst.
        apply IH in Hb as [Hb1 Hb2]. simpl. split; [by apply andb_true_iff|lia].
      * inversion Hs; subst. simpl. split; [done|lia].
    + destruct s as [|c s]; simpl; intros [H1 H2]; [eauto with zot|].
      apply andb_prop in H1 as [H1 H3]. apply m_alt_l.
      change (String c s) with (String c "" ++ s)%string. apply m_seq; [by constructor|].
      apply IH. split; [done|lia].
Qed.

(** A tag is accepted exactly when it has between 1 and 128 characters, the
    first a letter, a digit or an underscore, the others also dots or dashes:
    the bounded repetition of the source and the explicit check agree. *)
Theorem tag_regexp_spec (s : string) :
  IsDistributionSpecTag s = true <->
  exists c s', s = String c s' /\ tag_first c = true /\ all_chars tag_rest s' = true /\
    String.length s <= TagMaxLen.
Proof.
  unfold IsDistributionSpecTag. rewrite match_string_spec. unfold TagRegexp. split.
  - intros (a&b&->&Ha&Hb)%matches_seq_inv. inversion Ha; subst.
    apply matches_upto in Hb as [H1 H2]. exists c, b. simpl.
    split; [done|]. split; [done|]. split; [done|]. unfold TagMaxLen in *. lia.
  - intros (c&s'&->&H1&H2&H3). change (String c s') with (String c "" ++ s')%string.
    apply m_seq; [by constructor|]. apply matches_upto. split; [done|].
    change (S (String.length s') <= TagMaxLen) in H3. unfold TagMaxLen in *. lia.
Qed.
