(* ===== verification/Driver.v ===== *)
(** * Storage drivers

    The interface storageTypes.Driver of pkg/storage/types/types.go with the
    file writers it hands out, a model of the file system calls of package os,
    and the local driver of pkg/storage/local/driver.go over them. Hard links
    are part of the model: a path names an inode, and writing through one path
    is visible through every other path of the same inode. *)

From Stdlib Require Import ZArith Lia Ascii String.
From stdpp Require Import base tactics list gmap strings sorting.
From S2P Require Import Prelude.

Local Open Scope string_scope.
Local Open Scope list_scope.

(** ** The interface *)
Record FileInfo : Type := mkFileInfo {
  fi_Path : path;
  fi_Size : Z;
  fi_ModTime : Z;
  fi_IsDir : bool
}.

(** An io.Reader: the bytes it yields, then the error it ends with, if any. *)
Record reader : Type := mkReader { rd_data : string; rd_err : option err }.
Definition reader_of (s : string) : reader := mkReader s None.

Class Driver (F : Type) := {
  FileWriter : Type;
  Name : F -> string;
  EnsureDir : path -> ST F unit;
  drv_DirExists : path -> F -> bool;
  Reader : path -> Z -> ST F string;
  ReadFile : path -> ST F string;
  Delete : path -> ST F unit;
  Stat : path -> ST F FileInfo;
  Writer : path -> bool -> ST F FileWriter;
  WriteFile : path -> string -> ST F Z;
  List : path -> ST F (list path);
  Move : path -> path -> ST F unit;
  SameFile : path -> path -> F -> bool;
  Link : path -> path -> ST F unit;
  (* The callback reads the storage and threads its closure's variables; the
     number bounds the depth of the tree. *)
  Walk : forall A : Type, nat -> path -> (FileInfo -> A -> F -> option err * A) -> A -> F -> option err * A;
  (* driver.FileWriter *)
  fw_Write : FileWriter -> string -> ST F (Z * FileWriter);
  fw_Size : FileWriter -> Z;
  fw_Close : FileWriter -> ST F FileWriter;
  fw_Cancel : FileWriter -> ST F FileWriter;
  fw_Commit : FileWriter -> ST F FileWriter
}.

Definition LocalStorageDriverName : string := "local".

(** io.Copy(w, r): the count, the error of the reader if it has one, and the
    writer afterwards. *)
Definition io_Copy {F} `{Driver F} (w : FileWriter) (r : reader) : ST F (Z * option err * FileWriter) :=
  let* (n, w) := fw_Write w (rd_data r) in ret (n, rd_err r, w).

(** ** Package os on one file system *)
Record inode : Type := mkInode { i_content : string; i_mtime : Z }.
Inductive node : Type := NDir | NFile (i : nat).
#[export] Instance node_eq_dec : EqDecision node.
Proof. solve_decision. Defined.

Record fs : Type := mkFs {
  fs_nodes : gmap path node;
  fs_inodes : gmap nat inode;
  fs_next : nat;
  fs_clock : Z
}.

Definition empty_fs : fs := mkFs {[ [""] := NDir ]} ∅ 0 0.

Definition set_nodes (f : gmap path node -> gmap path node) (s : fs) : fs :=
  mkFs (f (fs_nodes s)) (fs_inodes s) (fs_next s) (fs_clock s).
Definition set_inodes (f : gmap nat inode -> gmap nat inode) (s : fs) : fs :=
  mkFs (fs_nodes s) (f (fs_inodes s)) (fs_next s) (fs_clock s).

Definition ENOENT := ErrOS "no such file or directory".
Definition ENOTDIR := ErrOS "not a directory".
Definition EISDIR := ErrOS "is a directory".
Definition EEXIST := ErrOS "file exists".
Definition ENOTEMPTY := ErrOS "directory not empty".
Definition EPERM := ErrOS "operation not permitted".

(** Proper non-empty prefixes, then the path itself. *)
Definition ancestors (p : path) : list path := (fun n => take n p) <$> seq 1 (length p - 1).
Definition prefixes (p : path) : list path := (fun n => take n p) <$> seq 1 (length p).

Definition is_file (s : fs) (p : path) : bool :=
  match fs_nodes s !! p with Some (NFile _) => true | _ => false end.
Definition is_dir (s : fs) (p : path) : bool :=
  match fs_nodes s !! p with Some NDir => true | _ => false end.

Definition lookup_node (s : fs) (p : path) : res node :=
  match fs_nodes s !! p with
  | Some n => Ok n
  | None => if existsb (is_file s) (ancestors p) then Err ENOTDIR else Err ENOENT
  end.

Definition inode_at (s : fs) (i : nat) : inode := default (mkInode "" 0) (fs_inodes s !! i).

(** [q] is [p] or lies under it. *)
Fixpoint under (p q : path) : bool :=
  match p, q with
  | [], _ => true
  | x :: p', y :: q' => bool_decide (x = y) && under p' q'
  | _, _ => false
  end.

(** os.Stat *)
Definition os_Stat (p : path) : ST fs FileInfo := fun s =>
  match lookup_node s p with
  | Err e => (Err e, s)
  | Ok NDir => (Ok (mkFileInfo p 0 0 true), s)
  | Ok (NFile i) =>
      (Ok (mkFileInfo p (Z.of_nat (String.length (i_content (inode_at s i)))) (i_mtime (inode_at s i)) false), s)
  end.

(** os.MkdirAll *)
Definition os_MkdirAll (p : path) : ST fs unit := fun s =>
  if existsb (is_file s) (prefixes p) then (Err ENOTDIR, s)
  else (Ok tt, set_nodes (fun m => foldr (fun q m => <[q := NDir]> m) m (prefixes p)) s).

(** os.Remove *)
Definition has_child (s : fs) (p : path) : bool :=
  existsb (fun q => under p q && bool_decide (q <> p)) (map_to_list (fs_nodes s)).*1.
Definition os_Remove (p : path) : ST fs unit := fun s =>
  match lookup_node s p with
  | Err e => (Err e, s)
  | Ok NDir => if has_child s p then (Err ENOTEMPTY, s) else (Ok tt, set_nodes (delete p) s)
  | Ok (NFile _) => (Ok tt, set_nodes (delete p) s)
  end.

(** os.RemoveAll *)
Definition os_RemoveAll (p : path) : ST fs unit := fun s =>
  (Ok tt, set_nodes (filter (fun kv => under p (fst kv) = false)) s).

(** The directory that must exist for an entry [p] to be created. *)
Definition parent_ok (s : fs) (p : path) : res unit :=
  match lookup_node s (path_dir p) with
  | Ok NDir => Ok tt
  | Ok (NFile _) => Err ENOTDIR
  | Err e => Err e
  end.

(** Moving a directory moves every entry under it. *)
Definition rebase (src dst q : path) : path := dst ++ drop (length src) q.
Definition move_tree (src dst : path) (m : gmap path node) : gmap path node :=
  let moved := filter (fun kv => under src (fst kv) = true) m in
  list_to_map ((fun kv => (rebase src dst (fst kv), snd kv)) <$> map_to_list moved)
    ∪ filter (fun kv => under src (fst kv) = false) m.

(** os.Rename. Two hard links to the same file are left alone, as rename(2)
    specifies. *)
Definition os_Rename (src dst : path) : ST fs unit := fun s =>
  match lookup_node s src with
  | Err e => (Err e, s)
  | Ok (NFile i) =>
      match parent_ok s dst with
      | Err e => (Err e, s)
      | Ok _ =>
          match fs_nodes s !! dst with
          | Some NDir => (Err EEXIST, s)
          | Some (NFile j) =>
              if decide (i = j) then (Ok tt, s)
              else (Ok tt, set_nodes (fun m => <[dst := NFile i]> (delete src m)) s)
          | None => (Ok tt, set_nodes (fun m => <[dst := NFile i]> (delete src m)) s)
          end
      end
  | Ok NDir =>
      if under src dst then (Err (ErrOS "invalid argument"), s)
      else match parent_ok s dst with
      | Err e => (Err e, s)
      | Ok _ =>
          match fs_nodes s !! dst with
          | Some NDir => (Err EEXIST, s)
          | Some (NFile _) => (Err ENOTDIR, s)
          | None => (Ok tt, set_nodes (move_tree src dst) s)
          end
      end
  end.

(** os.Link *)
Definition os_Link (src dst : path) : ST fs unit := fun s =>
  match lookup_node s src with
  | Err e => (Err e, s)
  | Ok NDir => (Err EPERM, s)
  | Ok (NFile i) =>
      match parent_ok s dst with
      | Err e => (Err e, s)
      | Ok _ =>
          match fs_nodes s !! dst with
          | Some _ => (Err EEXIST, s)
          | None => (Ok tt, set_nodes (<[dst := NFile i]>) s)
          end
      end
  end.

(** os.Chtimes with the current time. *)
Definition os_Chtimes_now (p : path) : ST fs unit := fun s =>
  match lookup_node s p with
  | Err e => (Err e, s)
  | Ok NDir => (Ok tt, s)
  | Ok (NFile i) =>
      (Ok tt, set_inodes (<[i := mkInode (i_content (inode_at s i)) (fs_clock s)]>) s)
  end.

(** os.OpenFile(p, O_WRONLY|O_CREATE): the inode opened. *)
Definition os_OpenCreate (p : path) : ST fs nat := fun s =>
  match fs_nodes s !! p with
  | Some NDir => (Err EISDIR, s)
  | Some (NFile i) => (Ok i, s)
  | None =>
      match parent_ok s p with
      | Err e => (Err e, s)
      | Ok _ =>
          (Ok (fs_next s),
           mkFs (<[p := NFile (fs_next s)]> (fs_nodes s))
                (<[fs_next s := mkInode "" (fs_clock s)]> (fs_inodes s))
                (Datatypes.S (fs_next s)) (fs_clock s))
      end
  end.

(** Writing [data] at offset [pos] of an open file. *)
Definition splice (content data : string) (pos : nat) : string :=
  String.substring 0 pos content ++ data ++
  String.substring (pos + String.length data) (String.length content) content.
Definition os_WriteAt (i : nat) (data : string) (pos : nat) : ST fs unit := fun s =>
  if decide (data = "") then (Ok tt, s)
  else (Ok tt, set_inodes (<[i := mkInode (splice (i_content (inode_at s i)) data pos) (fs_clock s)]>) s).

Definition os_Truncate (i : nat) : ST fs unit := fun s =>
  (Ok tt, set_inodes (<[i := mkInode "" (fs_clock s)]>) s).

(** os.ReadDir: the names of the entries, sorted. *)
Definition child_names (s : fs) (p : path) : list string :=
  omap (fun kv => match drop (length p) (fst kv) with
                  | [c] => if under p (fst kv) then Some c else None
                  | _ => None
                  end) (map_to_list (fs_nodes s)).
Definition os_ReadDir (p : path) : ST fs (list string) := fun s =>
  match lookup_node s p with
  | Err e => (Err e, s)
  | Ok (NFile _) => (Err ENOTDIR, s)
  | Ok NDir => (Ok (merge_sort str_le (child_names s p)), s)
  end.

(** ** The local driver (pkg/storage/local/driver.go) *)
Module Local.
(** formatErr *)
Definition formatErr (e : err) : err :=
  match e with
  | ErrPathNotFound | ErrInvalidOffset => e
  | _ => ErrDriver e
  end.
Definition fmt {A} (m : ST fs A) : ST fs A :=
  fun s => match m s with (Err e, s') => (Err (formatErr e), s') | r => r end.

Definition IsNotExist (e : err) : bool := bool_decide (e = ENOENT).
(** The translation of an os error of Stat, Open and ReadDir. *)
Definition not_found (e : err) : err := if IsNotExist e then ErrPathNotFound else formatErr e.
Definition map_err {A} (f : err -> err) (m : ST fs A) : ST fs A :=
  fun s => match m s with (Err e, s') => (Err (f e), s') | r => r end.

Definition EnsureDir (p : path) : ST fs unit := fmt (os_MkdirAll p).

Definition DirExists (p : path) (s : fs) : bool :=
  if negb (forallb utf8_valid p) then false
  else match fst (os_Stat p s) with Ok fi => fi_IsDir fi | Err _ => false end.

Definition Stat (p : path) : ST fs FileInfo := map_err not_found (os_Stat p).

(** Reader and the reading of the rest of the file: the content from the
    offset on. Opening a directory succeeds and reading it fails. *)
Definition Reader (p : path) (offset : Z) : ST fs string := fun s =>
  match lookup_node s p with
  | Err e => (Err (not_found e), s)
  | Ok NDir => (Err (formatErr EISDIR), s)
  | Ok (NFile i) =>
      if decide (offset < 0)%Z then (Err (formatErr (ErrOS "invalid argument")), s)
      else
        let c := i_content (inode_at s i) in
        (Ok (String.substring (Z.to_nat offset) (String.length c) c), s)
  end.

Definition ReadFile (p : path) : ST fs string := Reader p 0.

Definition Delete (p : path) : ST fs unit := fun s =>
  match fst (os_Stat p s) with
  | Err e => (Err (not_found e), s)
  | Ok _ => os_RemoveAll p s
  end.

(** fileWriter: [w_pos] is the file position at which the buffered bytes
    [w_buf] will be written. *)
Record fileWriter : Type := mkWriter {
  w_path : path;
  w_ino : nat;
  w_pos : nat;
  w_buf : string;
  w_size : Z;
  w_closed : bool;
  w_committed : bool;
  w_cancelled : bool
  }.

Definition Writer (p : path) (append : bool) : ST fs fileWriter :=
  let* s := get in
  let stat := fst (os_Stat p s) in
  match stat, append with
  | Err e, true => throw (not_found e)
  | _, _ =>
      fmt (os_MkdirAll (path_dir p)) ;;;
      let* i := fmt (os_OpenCreate p) in
      if append then
        let* s := get in
        let n := String.length (i_content (inode_at s i)) in
        ret (mkWriter p i n "" (Z.of_nat n) false false false)
      else
        (fmt (os_Truncate i) ;;; ret (mkWriter p i 0 "" 0 false false false))
  end.

Definition w_state_err (w : fileWriter) : option err :=
  if w_closed w then Some ErrFileAlreadyClosed
  else if w_committed w then Some ErrFileAlreadyCommitted
  else if w_cancelled w then Some ErrFileAlreadyCancelled
  else None.

Definition Write (w : fileWriter) (buf : string) : ST fs (Z * fileWriter) :=
  match w_state_err w with
  | Some e => throw e
  | None =>
      let n := Z.of_nat (String.length buf) in
      ret (n, mkWriter (w_path w) (w_ino w) (w_pos w) (w_buf w ++ buf)%string (w_size w + n)
                (w_closed w) (w_committed w) (w_cancelled w))
  end.

Definition Flush (w : fileWriter) : ST fs fileWriter :=
  os_WriteAt (w_ino w) (w_buf w) (w_pos w) ;;;
  ret (mkWriter (w_path w) (w_ino w) (w_pos w + String.length (w_buf w)) "" (w_size w)
         (w_closed w) (w_committed w) (w_cancelled w)).

Definition Close (w : fileWriter) : ST fs fileWriter :=
  if w_closed w then throw ErrFileAlreadyClosed
  else
    let* w := Flush w in
    ret (mkWriter (w_path w) (w_ino w) (w_pos w) (w_buf w) (w_size w) true
           (w_committed w) (w_cancelled w)).

Definition Cancel (w : fileWriter) : ST fs fileWriter :=
  if w_closed w then throw ErrFileAlreadyClosed
  else
    (os_Remove (w_path w) ;;;
     ret (mkWriter (w_path w) (w_ino w) (w_pos w) (w_buf w) (w_size w) (w_closed w)
            (w_committed w) true)).

Definition Commit (w : fileWriter) : ST fs fileWriter :=
  match w_state_err w with
  | Some e => throw e
  | None =>
      let* w := Flush w in
      ret (mkWriter (w_path w) (w_ino w) (w_pos w) (w_buf w) (w_size w) (w_closed w)
             true (w_cancelled w))
  end.

Definition WriteFile (p : path) (content : string) : ST fs Z :=
  let* w := Writer p false in
  let* (n, w) := Write w content in
Close w ;;; ret n.

Definition List (p : path) : ST fs (list path) :=
  let* names := map_err not_found (os_ReadDir p) in
  ret ((fun c => p ++ [c]) <$> names).

(** The loop of Walk over the children; [rec] is the recursive call. *)
Fixpoint walk_loop {A} (rec : path -> A -> fs -> option err * A)
    (fn : FileInfo -> A -> fs -> option err * A) (children : list path) (acc : A) (s : fs)
    : option err * A :=
  match children with
  | [] => (None, acc)
  | child :: rest =>
      match fst (Stat child s) with
      | Err e => if bool_decide (e = ErrPathNotFound) then walk_loop rec fn rest acc s
                 else (Some e, acc)
      | Ok fi =>
          match fn fi acc s with
          | (None, acc) =>
              if fi_IsDir fi then
                match rec child acc s with
                | (Some e, acc) => (Some e, acc)
                | (None, acc) => walk_loop rec fn rest acc s
                end
              else walk_loop rec fn rest acc s
          | (Some e, acc) =>
              if decide (e = ErrSkipDir) then
                if fi_IsDir fi then walk_loop rec fn rest acc s else (None, acc)
              else (Some (formatErr e), acc)
          end
      end
  end.

Fixpoint Walk {A} (fuel : nat) (p : path) (fn : FileInfo -> A -> fs -> option err * A) (acc : A)
    (s : fs) : option err * A :=
  match fuel with
  | 0 => (Some ErrFuel, acc)
  | Datatypes.S fuel =>
      match fst (List p s) with
      | Err e => (Some e, acc)
      | Ok children =>
          walk_loop (fun c acc s => Walk fuel c fn acc s) fn
            (merge_sort path_le children) acc s
      end
  end.

Definition Move (src dst : path) : ST fs unit := fun s =>
  match fst (os_Stat src s) with
  | Err e => if IsNotExist e then (Err ErrPathNotFound, s)
             else (fmt (os_MkdirAll (path_dir dst)) ;;; fmt (os_Rename src dst)) s
  | Ok _ => (fmt (os_MkdirAll (path_dir dst)) ;;; fmt (os_Rename src dst)) s
  end.

(** os.SameFile on the two Stat results. *)
Definition SameFile (p1 p2 : path) (s : fs) : bool :=
  match lookup_node s p1, lookup_node s p2 with
  | Ok (NFile i), Ok (NFile j) => bool_decide (i = j)
  | Ok NDir, Ok NDir => bool_decide (p1 = p2)
  | _, _ => false
  end.

Definition Link (src dst : path) : ST fs unit :=
  let* r := try (os_Remove dst) in
  match r with
  | Err e => if IsNotExist e then (fmt (os_Link src dst) ;;; fmt (os_Chtimes_now dst)) else throw e
  | Ok _ => fmt (os_Link src dst) ;;; fmt (os_Chtimes_now dst)
  end.
End Local.

#[export] Instance local_driver : Driver fs := {|
  FileWriter := Local.fileWriter;
  Name _ := LocalStorageDriverName;
  EnsureDir := Local.EnsureDir;
  drv_DirExists := Local.DirExists;
  Reader := Local.Reader;
  ReadFile := Local.ReadFile;
  Delete := Local.Delete;
  Stat := Local.Stat;
  Writer := Local.Writer;
  WriteFile := Local.WriteFile;
  List := Local.List;
  Move := Local.Move;
  SameFile := Local.SameFile;
  Link := Local.Link;
  Walk A := Local.Walk;
  fw_Write := Local.Write;
  fw_Size := Local.w_size;
  fw_Close := Local.Close;
  fw_Cancel := Local.Cancel;
  fw_Commit := Local.Commit
|}.
