(* ===== verification/BlobCache.v ===== *)
(** * The blob cache (pkg/storage/cache/boltdb.go)

    The interface storageTypes.Cache of pkg/storage/types/cache.go and its
    BoltDB implementation: for every digest a bucket holding the set of paths
    with that content ("duplicates") and the one path that holds the content
    ("original"). Keys are paths, ordered as bbolt orders them, by their bytes;
    the Go empty string is [None]. *)

From Stdlib Require Import ZArith Ascii String.
From stdpp Require Import base tactics list gmap strings sorting.
From S2P Require Import Prelude.

Class Cache (C : Type) := {
  GetBlob : string -> ST C (option path);
  GetAllBlobs : string -> ST C (list (option path));
  PutBlob : string -> option path -> ST C unit;
  HasBlob : string -> path -> C -> bool;
  DeleteBlob : string -> path -> ST C unit;
  UsesRelativePaths : C -> bool
}.

(** ** What the image store relies on

    The cache's contract with its client: a record that is read was put for
    that digest and not deleted since, under the path that was given. The
    empty string is never read from a cache that only saw these operations. *)
Definition cache_key {C} `{Cache C} (root : path) (c : C) (p : path) : option path :=
  if UsesRelativePaths c then path_rel root p else Some p.

Class CacheLaws (C : Type) `{Cache C} := {
  cache_root : C -> path;
  recorded : C -> string -> path -> Prop;
  cache_wf : C -> Prop;
  get_same : forall d c r c', GetBlob d c = (r, c') -> c' = c;
  get_recorded : forall d c k c', GetBlob d c = (Ok (Some k), c') -> recorded c d k;
  get_some : forall d c c', cache_wf c -> GetBlob d c <> (Ok None, c');
  get_all_same : forall d c r c', GetAllBlobs d c = (r, c') -> c' = c;
  put_recorded : forall d p c r c' d' k, PutBlob d (Some p) c = (r, c') ->
    recorded c' d' k -> recorded c d' k \/ d' = d /\ cache_key (cache_root c) c p = Some k;
  put_wf : forall d p c r c', PutBlob d (Some p) c = (r, c') -> cache_wf c -> cache_wf c';
  delete_wf : forall d p c r c', DeleteBlob d p c = (r, c') -> cache_wf c -> cache_wf c';
  put_const : forall d p c r c', PutBlob d (Some p) c = (r, c') ->
    cache_root c' = cache_root c /\ UsesRelativePaths c' = UsesRelativePaths c;
  delete_recorded : forall d p c r c' d' k, DeleteBlob d p c = (r, c') ->
    recorded c' d' k -> recorded c d' k;
  delete_const : forall d p c r c', DeleteBlob d p c = (r, c') ->
    cache_root c' = cache_root c /\ UsesRelativePaths c' = UsesRelativePaths c
}.

Module Bolt.
(** A digest's bucket; a nested bucket that does not exist is [None]. *)
Record bucket : Type := mkBucket {
  deduped : option (gset path);
  origin : option (gset path)
}.

Record db : Type := mkDb {
  rootDir : path;
  useRelPaths : bool;
  blobs : gmap string bucket
}.

Definition with_blobs (d : db) (b : gmap string bucket) : db := mkDb (rootDir d) (useRelPaths d) b.

(** The keys of a bucket in cursor order. *)
Definition keys (b : gset path) : list path := merge_sort path_le (elements b).
Definition getOne (b : option (gset path)) : option path := b ≫= fun s => head (keys s).

(** The path as the cache stores it; [None] is the empty string that
    filepath.Rel returns with its error. *)
Definition stored (d : db) (p : path) : option path :=
  if useRelPaths d then path_rel (rootDir d) p else Some p.

(** bbolt refuses a bucket without a name, a key that is empty, and both when
    they are longer than its MaxKeySize. *)
Definition MaxKeySize : Z := 32768.
Definition ErrBucketNameRequired : err := ErrOther "bucket name required".
Definition ErrKeyTooLarge : err := ErrOther "key too large".
Definition too_long (s : string) : bool := (MaxKeySize <? Z.of_nat (String.length s))%Z.
Definition bucket_error (name : string) : option err :=
  if bool_decide (name = ""%string) then Some ErrBucketNameRequired
  else if too_long name then Some ErrKeyTooLarge else None.
Definition key_error (k : option path) : option err :=
  match k with
  | None => Some ErrKeyRequired
  | Some k => if too_long (path_str k) then Some ErrKeyTooLarge else None
  end.

Definition PutBlob (digest : string) (p : option path) : ST db unit := fun d =>
  match p with
  | None => (Err ErrEmptyValue, d)
  | Some p =>
      let k := stored d p in
      match bucket_error digest, key_error k, k with
      | Some e, _, _ => (Err e, d)
      | None, Some e, _ => (Err e, d)
      | None, None, None => (Err ErrKeyRequired, d)
      | None, None, Some k =>
          let b := default (mkBucket None None) (blobs d !! digest) in
          let dd := {[k]} ∪ default ∅ (deduped b) in
          let o := match origin b with Some o => o | None => {[k]} end in
          (Ok tt, with_blobs d (<[digest := mkBucket (Some dd) (Some o)]> (blobs d)))
      end
  end.

Definition GetAllBlobs (digest : string) : ST db (list (option path)) := fun d =>
  match blobs d !! digest with
  | Some b =>
      match deduped b with
      | Some dd =>
          let originBlob := getOne (origin b) in
          (Ok (originBlob :: (Some <$> filter (fun k => Some k <> originBlob) (keys dd))), d)
      | None => (Err ErrCacheMiss, d)
      end
  | None => (Err ErrCacheMiss, d)
  end.

Definition GetBlob (digest : string) : ST db (option path) := fun d =>
  match blobs d !! digest with
  | Some b => (Ok (getOne (origin b)), d)
  | None => (Err ErrCacheMiss, d)
  end.

Definition HasBlob (digest : string) (blob : path) (d : db) : bool :=
  match blobs d !! digest with
  | None => false
  | Some b =>
      match origin b, deduped b with
      | Some o, Some dd => bool_decide (blob ∈ o) || bool_decide (blob ∈ dd)
      | _, _ => false
      end
  end.

Definition DeleteBlob (digest : string) (p : path) : ST db unit := fun d =>
  let k := stored d p in
  match blobs d !! digest with
  | None => (Err ErrCacheMiss, d)
  | Some b =>
      match deduped b with
      | None => (Err ErrCacheMiss, d)
      | Some dd =>
          let dd := match k with Some k => dd ∖ {[k]} | None => dd end in
          let o := match origin b with
                   | None => None
                   | Some o =>
                       match getOne (Some o) with
                       | Some ob =>
                           if decide (Some ob = k) then
                             let o := o ∖ {[ob]} in
                             Some (match getOne (Some dd) with Some n => {[n]} ∪ o | None => o end)
                           else Some o
                       | None => Some o
                       end
                   end in
          match getOne o with
          | None => (Ok tt, with_blobs d (delete digest (blobs d)))
          | Some _ => (Ok tt, with_blobs d (<[digest := mkBucket (Some dd) o]> (blobs d)))
          end
      end
  end.

Definition UsesRelativePaths (d : db) : bool := useRelPaths d.
End Bolt.

#[export] Instance bolt_cache : Cache Bolt.db := {|
  GetBlob := Bolt.GetBlob;
  GetAllBlobs := Bolt.GetAllBlobs;
  PutBlob := Bolt.PutBlob;
  HasBlob := Bolt.HasBlob;
  DeleteBlob := Bolt.DeleteBlob;
  UsesRelativePaths := Bolt.UsesRelativePaths
|}.

(** ** Runs of operations *)
Inductive op : Type :=
  | OpPut (digest : string) (p : option path)
  | OpDelete (digest : string) (p : path)
  | OpGet (digest : string)
  | OpGetAll (digest : string)
  | OpHas (digest : string) (p : path).

Inductive answer : Type :=
  | ADone (r : res unit)
  | AOne (r : res (option path))
  | AAll (r : res (list (option path)))
  | ABool (b : bool).

(** The operations on one cache, and their answers. *)
Definition apply_op {C} `{Cache C} (o : op) (c : C) : answer * C :=
  match o with
  | OpPut digest p => let '(r, c) := PutBlob digest p c in (ADone r, c)
  | OpDelete digest p => let '(r, c) := DeleteBlob digest p c in (ADone r, c)
  | OpGet digest => let '(r, c) := GetBlob digest c in (AOne r, c)
  | OpGetAll digest => let '(r, c) := GetAllBlobs digest c in (AAll r, c)
  | OpHas digest p => (ABool (HasBlob digest p c), c)
  end.

Fixpoint run_ops {C} `{Cache C} (ops : list op) (c : C) : list answer * C :=
  match ops with
  | [] => ([], c)
  | o :: ops => let '(a, c) := apply_op o c in let '(l, c) := run_ops ops c in (a :: l, c)
  end.

(** ** Cursor order *)
Import Bolt.

Lemma elem_of_keys k b : k ∈ keys b <-> k ∈ b.
Proof. unfold keys. by rewrite merge_sort_Permutation, elem_of_elements. Qed.

Lemma getOne_elem b k : getOne (Some b) = Some k -> k ∈ b.
Proof. simpl. intros Hk. apply elem_of_keys. by apply head_Some_elem_of. Qed.

Lemma getOne_none b : getOne (Some b) = None <-> b = ∅.
Proof.
  simpl. rewrite head_None. split; intros Hb.
  - apply set_eq. intros k. rewrite <-elem_of_keys, Hb. set_solver.
  - subst. destruct (keys ∅) as [|k ks] eqn:E; [done|].
    assert (k ∈ keys ∅) as Hk by (rewrite E; apply list_elem_of_here).
    by apply elem_of_keys, elem_of_empty in Hk.
Qed.

Lemma getOne_singleton k : getOne (Some {[k]}) = Some k.
Proof.
  destruct (getOne (Some {[k]})) as [k'|] eqn:E.
  - apply getOne_elem, elem_of_singleton in E. by subst.
  - apply getOne_none in E. set_solver.
Qed.
Opaque getOne.

(** ** The invariant: every bucket holds one original, itself a duplicate *)
Definition wf_bucket (b : bucket) : Prop :=
  exists o dd, origin b = Some {[o]} /\ deduped b = Some dd /\ o ∈ dd.
Definition wf_cache (d : db) : Prop := map_Forall (fun _ b => wf_bucket b) (blobs d).

Lemma wf_put digest p d r d' :
  wf_cache d -> Bolt.PutBlob digest p d = (r, d') -> wf_cache d'.
Proof.
  intros Hwf. unfold Bolt.PutBlob. destruct p as [p|]; [|by intros [= <- <-]].
  destruct (bucket_error digest); [by intros [= <- <-]|]. destruct (key_error _); [by intros [= <- <-]|].
  destruct (stored d p) as [k|]; [|by intros [= <- <-]]. intros [= <- <-].
  apply map_Forall_insert_2; [|done].
  destruct (blobs d !! digest) as [b|] eqn:E; simpl.
  - destruct (Hwf _ _ E) as (o&dd&->&->&Ho). exists o, ({[k]} ∪ dd). simpl.
    split; [done|]. split; [done|]. set_solver.
  - exists k, ({[k]} ∪ ∅). split; [done|]. split; [done|]. set_solver.
Qed.

Lemma wf_delete digest p d r d' :
  wf_cache d -> Bolt.DeleteBlob digest p d = (r, d') -> wf_cache d'.
Proof.
  intros Hwf. unfold Bolt.DeleteBlob.
  destruct (blobs d !! digest) as [b|] eqn:E; [|by intros [= <- <-]].
  destruct (Hwf _ _ E) as (o&dd&->&->&Ho). rewrite getOne_singleton.
  assert (wf_cache (with_blobs d (delete digest (blobs d)))) as Hdel by by apply map_Forall_delete.
  case_decide as Hk.
  - rewrite <-Hk. replace ({[o]} ∖ {[o]} : gset path) with (∅ : gset path) by set_solver.
    destruct (getOne (Some (dd ∖ {[o]}))) as [n|] eqn:En.
    + rewrite (right_id_L ∅ (∪)), getOne_singleton. intros [= <- <-].
      apply map_Forall_insert_2; [|done]. exists n, (dd ∖ {[o]}).
      split; [done|]. split; [done|]. by apply getOne_elem.
    + destruct (getOne (Some ∅)) as [x|] eqn:Ex; [apply getOne_elem in Ex; set_solver|].
      by intros [= <- <-].
  - rewrite getOne_singleton. intros [= <- <-]. apply map_Forall_insert_2; [|done].
    destruct (stored d p) as [k|].
    + exists o, (dd ∖ {[k]}). split; [done|]. split; [done|]. set_solver.
    + by exists o, dd.
Qed.

(** ** The specification: for every digest the original and the set of paths *)
Definition spec : Type := gmap string (path * gset path).

(** What each operation promises. [key] is how a path is recorded: the path
    itself, or the path relative to the storage root. *)
Section spec.
Context (key : path -> option path).

Definition spec_put (digest : string) (p : option path) (a : spec) : answer * spec :=
  match p with None => (ADone (Err ErrEmptyValue), a) | Some p =>
  match bucket_error digest with Some e => (ADone (Err e), a) | None =>
  match key p with None => (ADone (Err ErrKeyRequired), a) | Some k =>
      if too_long (path_str k) then (ADone (Err ErrKeyTooLarge), a)
      else (ADone (Ok tt), <[digest := match a !! digest with
                                  | Some (o, all) => (o, {[k]} ∪ all)
                                  | None => (k, {[k]})
                                  end]> a)
  end end end.

(** Removing the original promotes the first of the remaining paths; the
    record goes with its last path. *)
Definition spec_delete (digest : string) (p : path) (a : spec) : answer * spec :=
  match a !! digest with
  | None => (ADone (Err ErrCacheMiss), a)
  | Some (o, all) =>
      let rest := match key p with Some k => all ∖ {[k]} | None => all end in
      (ADone (Ok tt),
        if decide (Some o = key p) then
          match head (keys rest) with
          | Some n => <[digest := (n, rest)]> a
          | None => delete digest a
          end
        else <[digest := (o, rest)]> a)
  end.

Definition spec_op (o : op) (a : spec) : answer * spec :=
  match o with
  | OpPut digest p => spec_put digest p a
  | OpDelete digest p => spec_delete digest p a
  | OpGet digest =>
      (AOne match a !! digest with Some (o, _) => Ok (Some o) | None => Err ErrCacheMiss end, a)
  | OpGetAll digest =>
      (AAll match a !! digest with
            | Some (o, all) => Ok (Some o :: (Some <$> filter (fun k => k <> o) (keys all)))
            | None => Err ErrCacheMiss
            end, a)
  | OpHas digest p =>
      (ABool match a !! digest with Some (_, all) => bool_decide (p ∈ all) | None => false end, a)
  end.

Fixpoint spec_ops (ops : list op) (a : spec) : list answer * spec :=
  match ops with
  | [] => ([], a)
  | o :: ops => let '(x, a) := spec_op o a in let '(l, a) := spec_ops ops a in (x :: l, a)
  end.
End spec.

(** ** The simulation *)
Definition bucket_of (x : path * gset path) : bucket := mkBucket (Some x.2) (Some {[x.1]}).

Record refines (d : db) (a : spec) : Prop := {
  refines_blobs : blobs d = bucket_of <$> a;
  refines_orig : map_Forall (fun _ x => x.1 ∈ x.2) a
}.

Lemma refines_lookup d a digest : refines d a -> blobs d !! digest = bucket_of <$> a !! digest.
Proof. intros [H _]. by rewrite H, lookup_fmap. Qed.

Lemma refines_insert d a digest o all :
  refines d a -> o ∈ all ->
  refines (with_blobs d (<[digest := mkBucket (Some all) (Some {[o]})]> (blobs d)))
    (<[digest := (o, all)]> a).
Proof.
  intros [H1 H2] Ho. split.
  - cbn [with_blobs blobs]. rewrite H1. symmetry. apply (fmap_insert bucket_of a digest (o, all)).
  - by apply map_Forall_insert_2.
Qed.

Lemma refines_delete d a digest :
  refines d a -> refines (with_blobs d (delete digest (blobs d))) (delete digest a).
Proof.
  intros [H1 H2]. split; [|by apply map_Forall_delete].
  cbn [with_blobs blobs]. rewrite H1. symmetry. apply fmap_delete.
Qed.

Lemma with_blobs_same d : with_blobs d (blobs d) = d.
Proof. by destruct d. Qed.

Lemma put_refines d a digest p :
  refines d a -> exists a',
    spec_put (stored d) digest p a = (ADone (fst (Bolt.PutBlob digest p d)), a') /\
    refines (snd (Bolt.PutBlob digest p d)) a'.
Proof.
  intros Hr. pose proof (refines_lookup _ _ digest Hr) as Hl.
  unfold spec_put, Bolt.PutBlob. destruct p as [p|]; simpl; [|by eexists].
  destruct (bucket_error digest); [by eexists|].
  destruct (stored d p) as [k|] eqn:Ek; [|by eexists]. cbn [key_error]. destruct (too_long (path_str k)); [by eexists|]. rewrite Hl.
  destruct (a !! digest) as [[o all]|] eqn:Ea; simpl; (eexists; split; [done|]).
  - apply refines_insert; [done|]. assert (o ∈ all) by apply (refines_orig _ _ Hr _ _ Ea). set_solver.
  - rewrite (right_id_L ∅ (∪)). apply refines_insert; [done|]. set_solver.
Qed.

Lemma delete_refines d a digest p :
  refines d a -> exists a',
    spec_delete (stored d) digest p a = (ADone (fst (Bolt.DeleteBlob digest p d)), a') /\
    refines (snd (Bolt.DeleteBlob digest p d)) a'.
Proof.
  intros Hr. pose proof (refines_lookup _ _ digest Hr) as Hl.
  unfold spec_delete, Bolt.DeleteBlob. rewrite Hl.
  destruct (a !! digest) as [[o all]|] eqn:Ea; cbn [fmap option_fmap option_map]; [|by eexists].
  assert (o ∈ all) as Ho by apply (refines_orig _ _ Hr _ _ Ea).
  cbn [bucket_of deduped origin fst snd]. rewrite getOne_singleton.
  case_decide as Hk.
  - rewrite <-Hk. replace ({[o]} ∖ {[o]} : gset path) with (∅ : gset path) by set_solver.
    change (head (keys (all ∖ {[o]}))) with (getOne (Some (all ∖ {[o]}))).
    destruct (getOne (Some (all ∖ {[o]}))) as [n|] eqn:En.
    + rewrite (right_id_L ∅ (∪)), getOne_singleton. eexists. split; [done|].
      apply refines_insert; [done|]. by apply getOne_elem.
    + replace (getOne (Some ∅)) with (@None path) by (symmetry; by apply getOne_none).
      eexists. split; [done|]. by apply refines_delete.
  - rewrite getOne_singleton. eexists. split; [done|]. apply refines_insert; [done|].
    destruct (stored d p); [set_solver|done].
Qed.

Lemma op_keeps_key (o : op) (d : db) :
  rootDir (snd (apply_op o d)) = rootDir d /\ useRelPaths (snd (apply_op o d)) = useRelPaths d.
Proof.
  destruct o as [digest p|digest p|digest|digest|digest p]; simpl.
  - unfold Bolt.PutBlob. destruct p as [p|]; [|done]. destruct (bucket_error digest); [done|].
    destruct (key_error _); [done|]. by destruct (stored d p).
  - unfold Bolt.DeleteBlob. destruct (blobs d !! digest); [|done]. destruct (deduped _); [|done].
    by destruct (getOne _).
  - unfold Bolt.GetBlob. by destruct (blobs d !! digest).
  - unfold Bolt.GetAllBlobs. destruct (blobs d !! digest); [|done]. by destruct (deduped _).
  - done.
Qed.

Lemma stored_ext d d' :
  rootDir d' = rootDir d -> useRelPaths d' = useRelPaths d -> stored d' = stored d.
Proof. intros H1 H2. unfold stored. by rewrite H1, H2. Qed.

Lemma op_refines (o : op) d a : refines d a -> exists a',
  spec_op (stored d) o a = (fst (apply_op o d), a') /\ refines (snd (apply_op o d)) a'.
Proof.
  intros Hr. destruct o as [digest p|digest p|digest|digest|digest p]; simpl.
  - destruct (put_refines d a digest p Hr) as (a'&H1&H2). exists a'. by destruct (Bolt.PutBlob _ _ _).
  - destruct (delete_refines d a digest p Hr) as (a'&H1&H2). exists a'. by destruct (Bolt.DeleteBlob _ _ _).
  - pose proof (refines_lookup _ _ digest Hr) as Hl. unfold Bolt.GetBlob. rewrite Hl.
    exists a. destruct (a !! digest) as [[o all]|]; simpl; [|done]. by rewrite getOne_singleton.
  - pose proof (refines_lookup _ _ digest Hr) as Hl. unfold Bolt.GetAllBlobs. rewrite Hl.
    exists a. destruct (a !! digest) as [[o all]|]; simpl; [|done]. rewrite getOne_singleton.
    split; [|done]. do 5 f_equal. apply list_filter_iff. naive_solver.
  - pose proof (refines_lookup _ _ digest Hr) as Hl. unfold Bolt.HasBlob. rewrite Hl.
    exists a. destruct (a !! digest) as [[o all]|] eqn:Ea; simpl; [|done]. split; [|done].
    assert (o ∈ all) by apply (refines_orig _ _ Hr _ _ Ea).
    rewrite <-bool_decide_or. do 2 f_equal. apply bool_decide_ext. set_solver.
Qed.

Lemma ops_refine (ops : list op) : forall d a, refines d a -> exists a',
  spec_ops (stored d) ops a = (fst (run_ops ops d), a') /\ refines (snd (run_ops ops d)) a' /\
  stored (snd (run_ops ops d)) = stored d.
Proof.
  induction ops as [|o ops IH]; intros d a Hr; [by exists a|].
  destruct (op_refines o d a Hr) as (a1&E1&Hr1). destruct (op_keeps_key o d) as [K1 K2].
  simpl. rewrite E1. destruct (apply_op o d) as [x d1]. simpl in *.
  destruct (IH d1 a1 Hr1) as (a2&E2&Hr2&K). rewrite (stored_ext d d1) in E2, K by done.
  exists a2. rewrite E2. by destruct (run_ops ops d1).
Qed.

Definition new_db (root : path) (rel : bool) : db := mkDb root rel ∅.

Lemma refines_new root rel : refines (new_db root rel) ∅.
Proof. split; [done|]. apply map_Forall_empty. Qed.

(** ** Properties *)

(** C33 The BoltDB cache, with its nested buckets and cursors, implements the
    specification: from an empty cache, every sequence of operations gives the
    same answers as the abstract map from digests to an original and its
    duplicates, and the buckets it leaves are those of the abstract map, whose
    originals are always among the recorded paths. *)
Theorem cache_refines_spec (root : path) (rel : bool) (ops : list op) :
  exists a, spec_ops (stored (new_db root rel)) ops ∅ = (fst (run_ops ops (new_db root rel)), a) /\
    blobs (snd (run_ops ops (new_db root rel))) = bucket_of <$> a /\
    map_Forall (fun _ x => x.1 ∈ x.2) a.
Proof.
  destruct (ops_refine ops _ _ (refines_new root rel)) as (a&E&[H1 H2]&_). by exists a.
Qed.

(** Every path an operation names is below the storage root. *)
Definition op_below (root : path) (o : op) : Prop :=
  match o with
  | OpPut _ (Some p) | OpDelete _ p => exists q, p = root ++ q /\ is_abs q = false
  | _ => True
  end.

Definition relative_keys (a : spec) : Prop :=
  map_Forall (fun _ x => forall k : path, k ∈ x.2 -> is_abs k = false) a.

Lemma stored_relative root q : root <> [] -> stored (new_db root true) (root ++ q) = Some q.
Proof. intros Hr. by apply path_rel_under. Qed.

Lemma spec_op_relative root o a : root <> [] -> op_below root o -> relative_keys a ->
  relative_keys (snd (spec_op (stored (new_db root true)) o a)).
Proof.
  intros Hr Ho Ha. destruct o as [digest [p|]|digest p|digest|digest|digest p]; simpl; try done.
  - destruct Ho as (q&->&Hq). unfold spec_put. simpl. destruct (bucket_error digest); [done|].
    rewrite stored_relative by done. destruct (too_long (path_str q)); [done|]. simpl. apply map_Forall_insert_2; [|done].
    destruct (a !! digest) as [[o all]|] eqn:E; simpl; [|set_solver].
    specialize (Ha _ _ E). simpl in Ha. set_solver.
  - destruct Ho as (q&->&Hq). unfold spec_delete. rewrite stored_relative by done.
    destruct (a !! digest) as [[o all]|] eqn:E; [|done]. specialize (Ha _ _ E) as Hall. simpl in Hall.
    case_decide; simpl; [destruct (head _); simpl; [|by apply map_Forall_delete]|];
      (apply map_Forall_insert_2; [set_solver|done]).
Qed.

Lemma spec_ops_relative root ops : root <> [] -> forall a, Forall (op_below root) ops -> relative_keys a ->
  relative_keys (snd (spec_ops (stored (new_db root true)) ops a)).
Proof.
  intros Hr. induction ops as [|o ops IH]; intros a Hf Ha; [done|].
  apply Forall_cons in Hf as [Ho Hf]. simpl.
  pose proof (spec_op_relative root o a Hr Ho Ha) as Ha1. destruct (spec_op _ o a) as [x a1].
  specialize (IH a1 Hf Ha1). by destruct (spec_ops _ ops a1).
Qed.

(** A cache that stores relative paths never recognises an absolute path:
    whatever was put below the storage root, HasBlob of an absolute path, which
    is what the image store asks before it deletes a blob, answers false. *)
Theorem has_blob_absolute (root : path) (ops : list op) (digest : string) (p : path) :
  root <> [] -> Forall (op_below root) ops -> is_abs p = true ->
  HasBlob digest p (snd (run_ops ops (new_db root true))) = false.
Proof.
  intros Hr Hf Hp. destruct (ops_refine ops _ _ (refines_new root true)) as (a&E&Hra&_).
  pose proof (spec_ops_relative root ops Hr ∅ Hf (map_Forall_empty _)) as Ha. rewrite E in Ha.
  simpl. unfold Bolt.HasBlob. rewrite (refines_lookup _ _ digest Hra).
  destruct (a !! digest) as [[o all]|] eqn:Ea; simpl; [|done].
  specialize (Ha _ _ Ea). simpl in Ha.
  assert (o ∈ all) by apply (refines_orig _ _ Hra _ _ Ea).
  apply orb_false_iff. split; apply bool_decide_eq_false; intros Hin.
  - apply elem_of_singleton in Hin as ->. by rewrite Ha in Hp.
  - by rewrite Ha in Hp.
Qed.

Lemma has_blob_absolute_witness :
  let root := [""; "zot"]%string in
  let blob := root ++ ["repo"; "blobs"; "sha256"; "d"]%string in
  let d := snd (run_ops [OpPut "d" (Some blob)] (new_db root true)) in
  fst (GetBlob "d" d) = Ok (Some ["repo"; "blobs"; "sha256"; "d"]%string) /\
  HasBlob "d" blob d = false.
Proof.
  split; [vm_compute; reflexivity|]. apply (has_blob_absolute [""; "zot"]%string); [done| |done].
  repeat constructor. by exists ["repo"; "blobs"; "sha256"; "d"]%string.
Defined.

(** ** The BoltDB cache meets the contract *)
Definition bolt_recorded (d : db) (digest : string) (k : path) : Prop :=
  exists b s, blobs d !! digest = Some b /\ (origin b = Some s \/ deduped b = Some s) /\ k ∈ s.

Lemma bolt_put_recorded digest p d r d' digest' k :
  Bolt.PutBlob digest (Some p) d = (r, d') -> bolt_recorded d' digest' k ->
  bolt_recorded d digest' k \/ digest' = digest /\ stored d p = Some k.
Proof.
  unfold Bolt.PutBlob. destruct (bucket_error digest); [intros [= <- <-]; by left|].
  destruct (key_error _); [intros [= <- <-]; by left|]. destruct (stored d p) as [n|] eqn:En; intros [= <- <-]; [|by left].
  intros (b&s&Hb&Hs&Hk). simpl in Hb. apply lookup_insert_Some in Hb as [[<- <-]|[? Hb]].
  2:{ left. exists b, s. auto. }
  destruct (blobs d !! digest) as [b|] eqn:Eb; simpl in Hs.
  - destruct Hs as [Hs|Hs]; injection Hs as <-.
    + destruct (origin b) as [o|] eqn:Eo.
      * left. exists b, o. split; [done|]. split; [by left|done].
      * right. apply elem_of_singleton in Hk. by subst.
    + apply elem_of_union in Hk as [Hk%elem_of_singleton|Hk]; [right; by subst|].
      destruct (deduped b) as [dd|] eqn:Ed; [|by apply elem_of_empty in Hk].
      left. exists b, dd. split; [done|]. split; [by right|done].
  - right. destruct Hs as [Hs|Hs]; injection Hs as <-; (split; [done|]); set_solver.
Qed.

Lemma bolt_delete_recorded digest p d r d' digest' k :
  Bolt.DeleteBlob digest p d = (r, d') -> bolt_recorded d' digest' k -> bolt_recorded d digest' k.
Proof.
  unfold Bolt.DeleteBlob. destruct (blobs d !! digest) as [b|] eqn:Eb; [|by intros [= <- <-]].
  destruct (deduped b) as [dd|] eqn:Ed; [|by intros [= <- <-]].
  set (dd' := match stored d p with Some k0 => dd ∖ {[k0]} | None => dd end).
  assert (dd' ⊆ dd) as Hsub by (subst dd'; destruct (stored d p); set_solver).
  assert (forall s, s ⊆ dd -> k ∈ s -> bolt_recorded d digest k) as Hin.
  { intros s Hs Hk. exists b, dd. split; [done|]. split; [by right|set_solver]. }
  match goal with |- context [getOne ?x] => match x with context [getOne] => set (o := x) end end.
  assert (forall s, o = Some s -> k ∈ s -> bolt_recorded d digest k) as Ho.
  { subst o. intros s Hs Hk. destruct (origin b) as [s0|] eqn:Eo; [|done].
    assert (k ∈ s0 -> bolt_recorded d digest k) as H0.
    { intros Hk0. exists b, s0. split; [done|]. split; [by left|done]. }
    destruct (getOne (Some s0)) as [ob|]; [|injection Hs as <-; auto].
    case_decide; [|injection Hs as <-; auto]. injection Hs as <-.
    destruct (getOne (Some dd')) as [n|] eqn:En; [|set_solver].
    apply elem_of_union in Hk as [->%elem_of_singleton|Hk]; [|set_solver].
    apply getOne_elem in En. by apply (Hin dd'). }
  destruct (getOne o); intros [= <- <-] (b'&s&Hb&Hs&Hk); simpl in Hb.
  - apply lookup_insert_Some in Hb as [[<- <-]|[? Hb]]; [|exists b', s; auto].
    simpl in Hs. destruct Hs as [Hs|[= <-]]; [by apply (Ho s)|by apply (Hin dd')].
  - apply lookup_delete_Some in Hb as [? Hb]. exists b', s; auto.
Qed.

#[export] Instance bolt_cache_laws : CacheLaws db.
Proof.
  refine {| cache_root := rootDir; recorded := bolt_recorded; cache_wf := wf_cache |}.
  - intros d c r c'. simpl. unfold Bolt.GetBlob. destruct (blobs c !! d); by intros [= <- <-].
  - intros d c k c'. simpl. unfold Bolt.GetBlob. destruct (blobs c !! d) as [b|] eqn:Eb; [|done].
    intros [= Ho <-]. destruct (origin b) as [o|] eqn:Eo; [|done].
    exists b, o. split; [done|]. split; [by left|]. by apply getOne_elem.
  - intros d c c' Hwf. simpl. unfold Bolt.GetBlob. destruct (blobs c !! d) as [b|] eqn:Eb; [|done].
    destruct (Hwf _ _ Eb) as (o&dd&->&_). rewrite getOne_singleton. intros [=].
  - intros d c r c'. simpl. unfold Bolt.GetAllBlobs. destruct (blobs c !! d) as [b|]; [|by intros [= <- <-]].
    destruct (deduped b); by intros [= <- <-].
  - intros d p c r c' d' k. apply bolt_put_recorded.
  - intros d p c r c' E Hwf. by eapply wf_put.
  - intros d p c r c' E Hwf. by eapply wf_delete.
  - intros d p c r c' E. pose proof (op_keeps_key (OpPut d (Some p)) c) as Hk. simpl in Hk, E.
    by rewrite E in Hk.
  - intros d p c r c' d' k. apply bolt_delete_recorded.
  - intros d p c r c' E. pose proof (op_keeps_key (OpDelete d p) c) as Hk. simpl in Hk, E.
    by rewrite E in Hk.
Defined.
