(* ===== verification/Oci.v ===== *)
(** * Registry data and the code outside the repository

    The OCI structures the source manipulates (image-spec Descriptor, Index,
    Manifest, restricted to the fields the modelled code reads or writes), the
    media types of pkg/compat/compat.go, the helpers of pkg/common/oci.go, and
    the interfaces of third-party code: go-digest, the JSON codecs of the OCI
    structures, the JSON-schema validators and the docker manifest parsers. *)

From Stdlib Require Import ZArith Ascii String.
From stdpp Require Import base tactics list gmap strings.
From S2P Require Import Prelude.

Local Open Scope string_scope.

(** ** Image-spec structures *)
Definition AnnotationRefName : string := "org.opencontainers.image.ref.name".

Record Descriptor : Type := mkDescriptor {
  MediaType : string;
  Digest : string;
  Size : Z;
  Annotations : gmap string string;
  ArtifactType : string
}.

Record Index : Type := mkIndex {
  idx_SchemaVersion : Z;
  idx_MediaType : string;
  idx_ArtifactType : string;
  Manifests : list Descriptor;
  idx_Subject : option Descriptor;
  idx_Annotations : gmap string string
}.

Record Manifest : Type := mkManifest {
  m_ArtifactType : string;
  Config : Descriptor;
  Layers : list Descriptor;
  m_Subject : option Descriptor;
  m_Annotations : gmap string string
}.

#[export] Instance Descriptor_eq_dec : EqDecision Descriptor.
Proof. solve_decision. Defined.
#[export] Instance Index_eq_dec : EqDecision Index.
Proof. solve_decision. Defined.

Definition empty_descriptor : Descriptor := mkDescriptor "" "" 0 ∅ "".
Definition empty_index : Index := mkIndex 0 "" "" [] None ∅.

Definition with_manifests (i : Index) (ms : list Descriptor) : Index :=
  mkIndex (idx_SchemaVersion i) (idx_MediaType i) (idx_ArtifactType i) ms
    (idx_Subject i) (idx_Annotations i).

(** The tag of a descriptor of index.json. *)
Definition ref_name (d : Descriptor) : option string := Annotations d !! AnnotationRefName.

(** ** Media types *)
Definition MediaTypeImageManifest := "application/vnd.oci.image.manifest.v1+json".
Definition MediaTypeImageIndex := "application/vnd.oci.image.index.v1+json".
Definition MediaTypeImageConfig := "application/vnd.oci.image.config.v1+json".
Definition MediaTypeEmptyJSON := "application/vnd.oci.empty.v1+json".
Definition MediaTypeLayerNonDist := "application/vnd.oci.image.layer.nondistributable.v1.tar".
Definition MediaTypeLayerNonDistGzip := "application/vnd.oci.image.layer.nondistributable.v1.tar+gzip".
Definition MediaTypeLayerNonDistZstd := "application/vnd.oci.image.layer.nondistributable.v1.tar+zstd".
Definition DockerMediaTypeManifest := "application/vnd.docker.distribution.manifest.v2+json".
Definition DockerMediaTypeManifestList := "application/vnd.docker.distribution.manifest.list.v2+json".
Definition DockerMediaTypeForeignLayer := "application/vnd.docker.image.rootfs.foreign.diff.tar.gzip".
Definition DockerMediaTypeImageConfig := "application/vnd.docker.container.image.v1+json".

(** *** pkg/compat/compat.go *)
Definition DockerManifestV2SchemaV2 : string := "docker2s2".

Definition CompatibleManifestMediaTypes : list string := [DockerMediaTypeManifest].
Definition IsCompatibleManifestMediaType (mt : string) : bool :=
  contains CompatibleManifestMediaTypes mt.
Definition CompatibleManifestListMediaTypes : list string := [DockerMediaTypeManifestList].
Definition IsCompatibleManifestListMediaType (mt : string) : bool :=
  contains CompatibleManifestListMediaTypes mt.
Definition IsImageManifestMediaType (mt : string) : bool :=
  bool_decide (mt = MediaTypeImageManifest) || IsCompatibleManifestMediaType mt.
Definition IsImageIndexMediaType (mt : string) : bool :=
  bool_decide (mt = MediaTypeImageIndex) || IsCompatibleManifestListMediaType mt.

(** *** pkg/common/oci.go *)
Definition GetManifestArtifactType (m : Manifest) : string :=
  if negb (bool_decide (m_ArtifactType m = "")) then m_ArtifactType m
  else MediaType (Config m).
Definition GetIndexArtifactType (i : Index) : string := idx_ArtifactType i.

(** doublestar's Match: whether a name matches a glob pattern. *)
Class Glob := glob_Match : string -> string -> res bool.

(** ** go-digest *)
Class GoDigest := {
  Algorithm : string -> string;
  Encoded : string -> string;
  Available : string -> bool;
  (** [None] when Validate returns nil. *)
  Validate : string -> option err;
  FromBytes : string -> string -> string;
  NewDigestFromEncoded : string -> string -> string;
  Canonical : string
}.

(** What the code relies on: the parts of a valid digest and of one made of
    its parts, the validity of a computed one, and the fact that the parts of a
    valid digest are made of letters and digits (the encoded part is
    hexadecimal). *)
Class GoDigestLaws `{GoDigest} : Prop := {
  validate_parts : forall d, Validate d = None -> NewDigestFromEncoded (Algorithm d) (Encoded d) = d;
  validate_available : forall d, Validate d = None -> Available (Algorithm d) = true;
  validate_names : forall d, Validate d = None -> name_like (Algorithm d) /\ name_like (Encoded d);
  frombytes_valid : forall a b, Available a = true -> Validate (FromBytes a b) = None;
  frombytes_alg : forall a b, Available a = true -> Algorithm (FromBytes a b) = a;
  canonical_available : Available Canonical = true;
  validate_empty : Validate "" <> None;
  validate_error : forall d e, Validate d = Some e -> e = ErrDigest;
  new_parts : forall a e, Available a = true ->
    Algorithm (NewDigestFromEncoded a e) = a /\ Encoded (NewDigestFromEncoded a e) = e
}.

Section digest.
Context `{GoDigest}.

(** godigest.Parse: the digest itself with the error of Validate. *)
Definition Parse (s : string) : res string :=
  match Validate s with None => Ok s | Some e => Err e end.

(** pkg/common/oci.go *)
Definition IsDigest (ref : string) : bool := is_ok (Parse ref).
Definition IsTag (ref : string) : bool := negb (IsDigest ref).

Definition cut (c : ascii) (s : string) : string * string * bool :=
  match split_on c s with
  | a :: (_ :: _) as r => (a, join_with c (tl r), true)
  | _ => (s, "", false)
  end.

Definition LooksLikeDigestReference (ref : string) : bool :=
  if IsDigest ref then false
  else let '(algo, encoded, ok) := cut ":" ref in
    if negb ok || bool_decide (algo = "") || bool_decide (encoded = "") then false
    else if negb (Available algo) then false
    else true.

Definition GetImageDirAndTag (imageName : string) : string * string :=
  if negb (no_char ":" imageName) then
    let '(d, t, _) := cut ":" imageName in (d, t)
  else (imageName, "").

Definition GetImageDirAndDigest (imageName : string) : string * string :=
  if negb (no_char "@" imageName) then
    let '(d, t, _) := cut "@" imageName in (d, t)
  else (imageName, "").

Definition GetImageDirAndReference (imageName : string) : string * string * bool :=
  if negb (no_char "@" imageName) then
    let '(repo, digest) := GetImageDirAndDigest imageName in (repo, digest, false)
  else let '(repo, tag) := GetImageDirAndTag imageName in (repo, tag, true).

Definition GetRepoReference (repo : string) : res (string * string * bool) :=
  let '(repoName, digest, found) := cut "@" repo in
  if negb found then
    let '(repoName, tag, found) := cut ":" repo in
    if negb found then Err (ErrOther "invalid image reference format") else Ok (repoName, tag, true)
  else Ok (repoName, digest, false).

Definition GetFullImageName (repo ref : string) : string :=
  if IsTag ref then repo ++ ":" ++ ref else repo ++ "@" ++ ref.

Definition CheckIsCorrectRepoNameFormat (repo : string) : bool :=
  no_char ":" repo && no_char "@" repo.
End digest.

(** ** Codecs of the OCI structures and external validators *)
Class OciCodec := {
  unmarshal_index : string -> option Index;
  marshal_index : Index -> string;
  unmarshal_manifest : string -> option Manifest;
  marshal_layout : string;
  (** Validate of image-spec's schema package; [true] when it returns nil. *)
  schema_manifest_ok : string -> bool;
  schema_index_ok : string -> bool;
  (** IsEmptyLayersError applied to the validator's error. *)
  schema_empty_layers : string -> bool;
  (** UnmarshalJSON and References of docker's manifest and manifest list. *)
  docker_manifest_refs : string -> option (list Descriptor);
  docker_list_refs : string -> option (list Descriptor)
}.

(** encoding/json writes an index and reads it back unchanged, as long as its
    strings are valid UTF-8, which [text] stands for. *)
Class OciCodecLaws `{OciCodec} (text : Index -> Prop) : Prop := {
  index_roundtrip : forall i, text i -> unmarshal_index (marshal_index i) = Some i
}.

Section compat_validate.
Context `{OciCodec}.

(** compat.Validate *)
Definition compat_Validate (body mediaType : string) : res (list Descriptor) :=
  if bool_decide (mediaType = DockerMediaTypeManifest) then
    match docker_manifest_refs body with Some l => Ok l | None => Err ErrJSON end
  else if bool_decide (mediaType = DockerMediaTypeManifestList) then
    match docker_list_refs body with Some l => Ok l | None => Err ErrJSON end
  else Err ErrMediaTypeNotSupported.
End compat_validate.
