(* ===== verification/IndexOps.v ===== *)
(** * The operations on index.json (pkg/storage/common/common.go)

    The functions of storage/common that read and edit the descriptor list of
    a repository's index.json without touching storage, and the invariant the
    image store keeps on it: a tag names at most one descriptor. *)

From Stdlib Require Import ZArith String.
From stdpp Require Import base tactics list gmap strings.
From S2P Require Import Prelude Oci.

Local Open Scope string_scope.
Local Open Scope list_scope.

Definition GetTagsByIndex (index : Index) : list string :=
  omap ref_name (Manifests index).

Fixpoint desc_by_reference (ms : list Descriptor) (reference : string) : Descriptor * bool :=
  match ms with
  | [] => (empty_descriptor, false)
  | m :: ms' =>
      if decide (reference = Digest m) then (m, true)
      else match ref_name m with
           | Some v => if decide (v = reference) then (m, true) else desc_by_reference ms' reference
           | None => desc_by_reference ms' reference
           end
  end.
Definition GetManifestDescByReference (index : Index) (reference : string) : Descriptor * bool :=
  desc_by_reference (Manifests index) reference.

(** The loop of CheckIfIndexNeedsUpdate: [done] are the descriptors before the
    current one. The assignments the source makes through [desc = &manifest]
    go to the loop variable, a copy, so the only effects are the returned pair
    and the removal of the descriptor that carried the tag. *)
Fixpoint needs_update_loop (done ms : list Descriptor) (reference dgst : string)
    : list Descriptor * bool * string :=
  match ms with
  | [] => (done, true, "")
  | m :: ms' =>
      if decide (reference = Digest m) then (done ++ m :: ms', false, "")
      else match ref_name m with
           | Some v =>
               if decide (v = reference) then
                 if decide (Digest m = dgst) then (done ++ m :: ms', false, "")
                 else (done ++ ms', true, Digest m)
               else needs_update_loop (done ++ [m]) ms' reference dgst
           | None => needs_update_loop (done ++ [m]) ms' reference dgst
           end
  end.

Definition CheckIfIndexNeedsUpdate (index : Index) (desc : Descriptor) : Index * bool * string :=
  let reference := default (Digest desc) (ref_name desc) in
  let '(ms, updateIndex, oldDgst) := needs_update_loop [] (Manifests index) reference (Digest desc) in
  (with_manifests index ms, updateIndex, oldDgst).

(** The state of the loop of RemoveManifestDescByReference. *)
Record removal : Type := mkRemoval {
  rm_removed : Descriptor;
  rm_found : bool;
  rm_foundAsTag : bool;
  rm_counts : gmap string nat;
  rm_foundCount : nat;
  rm_out : list Descriptor
}.
Definition removal_init : removal := mkRemoval empty_descriptor false false ∅ 0 [].

Definition removal_step (reference : string) (st : removal) (m : Descriptor) : removal :=
  let counts := <[Digest m := S (default 0 (rm_counts st !! Digest m))]> (rm_counts st) in
  if decide (ref_name m = Some reference) then
    mkRemoval m true true counts (S (rm_foundCount st)) (rm_out st)
  else if decide (reference = Digest m) then
    mkRemoval m true (rm_foundAsTag st) counts (S (rm_foundCount st)) (rm_out st)
  else mkRemoval (rm_removed st) (rm_found st) (rm_foundAsTag st) counts (rm_foundCount st)
         (rm_out st ++ [m]).

(** delete(annotations, ref.name). *)
Definition untag (d : Descriptor) : Descriptor :=
  mkDescriptor (MediaType d) (Digest d) (Size d) (delete AnnotationRefName (Annotations d))
    (ArtifactType d).

(** The removed descriptor the source returns shares its annotation map with
    the untagged copy it appends, so when the copy is made both lose the tag. *)
Definition RemoveManifestDescByReference (index : Index) (reference : string)
    (detectCollisions : bool) : res (Descriptor * Index) :=
  let st := foldl (removal_step reference) removal_init (Manifests index) in
  if (1 <? rm_foundCount st)%nat && detectCollisions then Err ErrManifestConflict
  else if negb (rm_found st) then Err ErrManifestNotFound
  else
    let removed := rm_removed st in
    if rm_foundAsTag st && bool_decide (rm_counts st !! Digest removed = Some 1) then
      Ok (untag removed, with_manifests index (rm_out st ++ [untag removed]))
    else Ok (removed, with_manifests index (rm_out st)).

(** The loop that drops the untagged descriptors of a digest, as
    PutImageManifest runs it before appending the new descriptor. *)
Definition drop_untagged (dgst : string) (ms : list Descriptor) : list Descriptor :=
  filter (fun m => ~ (ref_name m = None /\ Digest m = dgst)) ms.

(** ** The invariant: a tag names at most one descriptor *)
Definition tags (ms : list Descriptor) : list string := omap ref_name ms.
Definition unique_tags (index : Index) : Prop := NoDup (tags (Manifests index)).

Lemma tags_app ms1 ms2 : tags (ms1 ++ ms2) = tags ms1 ++ tags ms2.
Proof. apply omap_app. Qed.
#[export] Hint Rewrite tags_app : zot.

Lemma elem_of_tags t ms : t ∈ tags ms <-> exists m, m ∈ ms /\ ref_name m = Some t.
Proof. unfold tags. rewrite list_elem_of_omap. naive_solver. Qed.

Lemma tags_sublist ms1 ms2 : ms1 `sublist_of` ms2 -> tags ms1 `sublist_of` tags ms2.
Proof.
  induction 1 as [|m ms1 ms2 Hs IH|m ms1 ms2 Hs IH]; simpl; [done| |];
    destruct (ref_name m); by constructor || idtac; auto.
Qed.

Lemma ref_name_untag m : ref_name (untag m) = None.
Proof. unfold ref_name, untag; simpl. apply lookup_delete_eq. Qed.

(** ** CheckIfIndexNeedsUpdate *)

(** What the loop finds: nothing, a descriptor that makes the update
    pointless, or the descriptor that carried the tag with another digest. *)
Inductive update_case (reference dgst : string) (ms : list Descriptor)
    : list Descriptor * bool * string -> Prop :=
  | uc_absent :
      (forall m, m ∈ ms -> Digest m <> reference /\ ref_name m <> Some reference) ->
      update_case reference dgst ms (ms, true, "")
  | uc_same m :
      m ∈ ms -> (Digest m = reference \/ ref_name m = Some reference /\ Digest m = dgst) ->
      update_case reference dgst ms (ms, false, "")
  | uc_retag ms1 m ms2 :
      ms = ms1 ++ m :: ms2 ->
      (forall m', m' ∈ ms1 -> Digest m' <> reference /\ ref_name m' <> Some reference) ->
      ref_name m = Some reference -> Digest m <> dgst -> Digest m <> reference ->
      update_case reference dgst ms (ms1 ++ ms2, true, Digest m).

Lemma needs_update_loop_case reference dgst done ms :
  (forall m, m ∈ done -> Digest m <> reference /\ ref_name m <> Some reference) ->
  update_case reference dgst (done ++ ms) (needs_update_loop done ms reference dgst).
Proof.
  revert done. induction ms as [|m ms IH]; intros done Hd; simpl.
  - rewrite app_nil_r. by constructor.
  - assert (Digest m <> reference -> ref_name m <> Some reference ->
      forall m', m' ∈ done ++ [m] -> Digest m' <> reference /\ ref_name m' <> Some reference) as Hd'.
    { intros ?? m' [?| ->%list_elem_of_singleton]%elem_of_app; auto. }
    assert (done ++ m :: ms = (done ++ [m]) ++ ms) as E by by rewrite <-app_assoc.
    case_decide as H1.
    { apply (uc_same _ _ _ m); [clear; set_solver|]. by left. }
    destruct (ref_name m) as [v|] eqn:Ev.
    + case_decide as H2; [subst v|].
      * case_decide as H3.
        -- apply (uc_same _ _ _ m); [clear; set_solver|]. auto.
        -- by apply (uc_retag _ _ _ done m ms).
      * rewrite E. apply IH. apply Hd'; congruence.
    + rewrite E. apply IH. apply Hd'; congruence.
Qed.

Lemma CheckIfIndexNeedsUpdate_case index desc ms upd old :
  CheckIfIndexNeedsUpdate index desc = (with_manifests index ms, upd, old) ->
  update_case (default (Digest desc) (ref_name desc)) (Digest desc) (Manifests index) (ms, upd, old).
Proof.
  unfold CheckIfIndexNeedsUpdate.
  pose proof (needs_update_loop_case (default (Digest desc) (ref_name desc)) (Digest desc) []
    (Manifests index)) as H.
  destruct (needs_update_loop [] (Manifests index) _ _) as [[ms' upd'] old'].
  intros [= -> -> ->].
  apply H. set_solver.
Qed.

(** The index after a push of [desc]: the descriptor that carried the tag is
    gone, untagged descriptors of the same digest are dropped, [desc] is last. *)
Definition pushed (index : Index) (desc : Descriptor) : list Descriptor :=
  let '(index', _, _) := CheckIfIndexNeedsUpdate index desc in
  drop_untagged (Digest desc) (Manifests index') ++ [desc].

Lemma CheckIfIndexNeedsUpdate_shape index desc :
  exists ms upd old, CheckIfIndexNeedsUpdate index desc = (with_manifests index ms, upd, old).
Proof.
  unfold CheckIfIndexNeedsUpdate. destruct (needs_update_loop _ _ _ _) as [[??]?]. eauto.
Qed.

Lemma NoDup_tags_middle ms1 m ms2 :
  NoDup (tags (ms1 ++ m :: ms2)) -> NoDup (tags (ms1 ++ ms2)).
Proof.
  intros H. eapply sublist_NoDup; [exact H|apply tags_sublist].
  apply sublist_app; [done|]. by constructor.
Qed.

Lemma tag_not_elsewhere ms1 m ms2 t :
  NoDup (tags (ms1 ++ m :: ms2)) -> ref_name m = Some t -> t ∉ tags (ms1 ++ ms2).
Proof.
  rewrite !tags_app. simpl. intros H Hm. unfold tags in *. rewrite Hm in H.
  apply NoDup_app in H as (H1&H2&H3). apply NoDup_cons in H3 as [H3 _].
  rewrite not_elem_of_app. split; [|done]. intros Ht. by apply (H2 t Ht), list_elem_of_here.
Qed.

Lemma drop_untagged_sublist d ms : drop_untagged d ms `sublist_of` ms.
Proof. apply sublist_filter. Qed.

(** A push that the check asks for keeps tags unique. *)
Lemma needs_update_unique index desc ms upd old :
  unique_tags index ->
  CheckIfIndexNeedsUpdate index desc = (with_manifests index ms, upd, old) ->
  NoDup (tags ms) /\ (upd = true -> forall t, ref_name desc = Some t -> t ∉ tags ms).
Proof.
  intros Hu H. apply CheckIfIndexNeedsUpdate_case in H. unfold unique_tags in Hu.
  inversion H as [Hn|m Hin Hs|ms1 m ms2 E Hn Hm Hd Hr]; subst; split; try done.
  - intros _ t Ht (m&Hin&Hm)%elem_of_tags. apply (Hn m Hin). by rewrite Ht.
  - rewrite E in Hu. by eapply NoDup_tags_middle.
  - intros _ t Ht. rewrite E in Hu. eapply tag_not_elsewhere; [done|]. by rewrite Hm, Ht.
Qed.

(** ** RemoveManifestDescByReference *)
Definition hit (reference : string) (m : Descriptor) : Prop :=
  ref_name m = Some reference \/ Digest m = reference.
#[export] Instance hit_dec reference m : Decision (hit reference m).
Proof. unfold hit. apply _. Defined.

Definition digest_count (d : string) (ms : list Descriptor) : nat :=
  length (filter (fun m => Digest m = d) ms).

(** What the loop has accumulated over the descriptors [ms]. *)
Record removal_inv (reference : string) (ms : list Descriptor) (st : removal) : Prop := {
  ri_out : rm_out st = filter (fun m => ~ hit reference m) ms;
  ri_count : rm_foundCount st = length (filter (hit reference) ms);
  ri_found : rm_found st = bool_decide (Exists (hit reference) ms);
  ri_tag : rm_foundAsTag st = bool_decide (Exists (fun m => ref_name m = Some reference) ms);
  ri_counts : forall d, default 0 (rm_counts st !! d) = digest_count d ms;
  ri_last : last (filter (hit reference) ms) = if rm_found st then Some (rm_removed st) else None
}.

Lemma removal_step_inv reference ms st m :
  removal_inv reference ms st -> removal_inv reference (ms ++ [m]) (removal_step reference st m).
Proof.
  intros [H1 H2 H3 H4 H5 H6].
  assert (forall d, default 0 (<[Digest m := S (default 0 (rm_counts st !! Digest m))]> (rm_counts st) !! d)
    = digest_count d (ms ++ [m])) as HC.
  { intros d. unfold digest_count. rewrite filter_app, length_app, filter_cons, filter_nil.
    rewrite lookup_insert. repeat case_decide; simplify_eq/=; rewrite ?H5; unfold digest_count; lia. }
  unfold removal_step. case_decide as Ht; [|case_decide as Hd]; simpl.
  - assert (hit reference m) by by left.
    split; simpl; rewrite ?filter_app, ?length_app, ?filter_cons, ?filter_nil; try exact HC;
      rewrite ?(decide_True (P := hit reference m)), ?(decide_False (P := ~ hit reference m)) by naive_solver.
    + by rewrite app_nil_r.
    + simpl. lia.
    + symmetry. apply bool_decide_eq_true, Exists_app. right. by constructor.
    + symmetry. apply bool_decide_eq_true, Exists_app. right. by constructor.
    + by rewrite last_snoc.
  - assert (hit reference m) by by right.
    split; simpl; rewrite ?filter_app, ?length_app, ?filter_cons, ?filter_nil; try exact HC;
      rewrite ?(decide_True (P := hit reference m)), ?(decide_False (P := ~ hit reference m)) by naive_solver.
    + by rewrite app_nil_r.
    + simpl. lia.
    + symmetry. apply bool_decide_eq_true, Exists_app. right. by constructor.
    + rewrite H4. apply bool_decide_ext. rewrite Exists_app, Exists_cons, Exists_nil. tauto.
    + by rewrite last_snoc.
  - assert (~ hit reference m) by (intros [?|?]; congruence).
    split; simpl; rewrite ?filter_app, ?length_app, ?filter_cons, ?filter_nil; try exact HC;
      rewrite ?(decide_False (P := hit reference m)), ?(decide_True (P := ~ hit reference m)) by naive_solver.
    + by rewrite H1.
    + simpl. lia.
    + rewrite H3. apply bool_decide_ext. rewrite Exists_app, Exists_cons, Exists_nil. tauto.
    + rewrite H4. apply bool_decide_ext. rewrite Exists_app, Exists_cons, Exists_nil. tauto.
    + by rewrite app_nil_r.
Qed.

Lemma removal_loop_inv reference ms :
  removal_inv reference ms (foldl (removal_step reference) removal_init ms).
Proof.
  induction ms as [|m ms IH] using rev_ind.
  - by split.
  - rewrite foldl_app. simpl. by apply removal_step_inv.
Qed.

Lemma counts_one reference ms st d :
  removal_inv reference ms st -> rm_counts st !! d = Some 1 <-> digest_count d ms = 1.
Proof.
  intros Hi. pose proof (ri_counts _ _ _ Hi d) as Hc.
  destruct (rm_counts st !! d) as [n|]; simpl in Hc; rewrite <-Hc; naive_solver.
Qed.

Lemma exists_of_count d ms m :
  m ∈ ms -> Digest m = d -> digest_count d ms <> 1 ->
  exists m', m' ∈ ms /\ Digest m' = d /\
    (m' <> m \/ exists ms1 ms2 ms3, ms = ms1 ++ m :: ms2 ++ m :: ms3).
Proof.
  intros (ms1&ms2&->)%list_elem_of_split Hd. unfold digest_count.
  rewrite filter_app, filter_cons, decide_True, length_app by done. simpl. intros Hn.
  destruct (filter (fun m => Digest m = d) ms1) as [|a l] eqn:E1.
  - destruct (filter (fun m => Digest m = d) ms2) as [|a l] eqn:E2; [simpl in Hn; lia|].
    assert (a ∈ filter (fun m => Digest m = d) ms2) as [Ha1 Ha2]%list_elem_of_filter by (rewrite E2; set_solver).
    exists a. split; [set_solver|]. split; [done|].
    destruct (decide (a = m)) as [->|]; [|by left]. right.
    apply list_elem_of_split in Ha2 as (l1&l2&->). eauto.
  - assert (a ∈ filter (fun m => Digest m = d) ms1) as [Ha1 Ha2]%list_elem_of_filter by (rewrite E1; set_solver).
    exists a. split; [set_solver|]. split; [done|].
    destruct (decide (a = m)) as [->|]; [|by left]. right.
    apply list_elem_of_split in Ha2 as (l1&l2&->). exists l1, l2, ms2. by rewrite <-app_assoc.
Qed.

(** ** Properties *)

Lemma remove_eq (index : Index) (reference : string) (dc : bool) :
  let ms := Manifests index in
  let hits := filter (hit reference) ms in
  RemoveManifestDescByReference index reference dc =
    if (1 <? length hits)%nat && dc then Err ErrManifestConflict
    else match last hits with
    | None => Err ErrManifestNotFound
    | Some m =>
        let rest := filter (fun m => ~ hit reference m) ms in
        if bool_decide (Exists (fun m => ref_name m = Some reference) ms)
           && (digest_count (Digest m) ms =? 1)%nat
        then Ok (untag m, with_manifests index (rest ++ [untag m]))
        else Ok (m, with_manifests index rest)
    end.
Proof.
  simpl. unfold RemoveManifestDescByReference.
  pose proof (removal_loop_inv reference (Manifests index)) as Hi.
  set (st := foldl _ _ _) in *. destruct (Hi) as [H1 H2 H3 H4 H5 H6].
  rewrite H2, H6. destruct (_ && dc); [done|]. destruct (rm_found st); simpl; [|done].
  rewrite H4, H1.
  replace (bool_decide (rm_counts st !! Digest (rm_removed st) = Some 1)) with
    (digest_count (Digest (rm_removed st)) (Manifests index) =? 1)%nat; [done|].
  symmetry.
  destruct (Nat.eqb_spec (digest_count (Digest (rm_removed st)) (Manifests index)) 1) as [E|E].
  - apply bool_decide_eq_true. by eapply counts_one.
  - apply bool_decide_eq_false. intros H. apply E. by eapply counts_one.
Qed.

(** The outcome of RemoveManifestDescByReference on every branch: it fails
    with ErrManifestConflict exactly when collisions are detected and several
    descriptors match, with ErrManifestNotFound exactly when none does, and
    otherwise keeps every descriptor that does not match, followed by the
    untagged copy when the tag was the only reference to the digest. *)
Theorem remove_manifest_spec (index : Index) (reference : string) (dc : bool) :
  let ms := Manifests index in
  let hits := filter (hit reference) ms in
  RemoveManifestDescByReference index reference dc =
    if (1 <? length hits)%nat && dc then Err ErrManifestConflict
    else match last hits with
    | None => Err ErrManifestNotFound
    | Some m =>
        let rest := filter (fun m => ~ hit reference m) ms in
        if bool_decide (Exists (fun m => ref_name m = Some reference) ms)
           && (digest_count (Digest m) ms =? 1)%nat
        then Ok (untag m, with_manifests index (rest ++ [untag m]))
        else Ok (m, with_manifests index rest)
    end.
Proof. apply remove_eq. Qed.

(** Deleting by tag removes the tag and only the tag: no other tag is
    touched and the manifest stays reachable by its digest. *)
Theorem remove_by_tag (index index' : Index) (tag : string) (dc : bool) (d : Descriptor) :
  unique_tags index ->
  Forall (fun m => Digest m <> tag) (Manifests index) ->
  RemoveManifestDescByReference index tag dc = Ok (d, index') ->
  tag ∉ tags (Manifests index') /\
  (forall m, ref_name m <> Some tag -> m ∈ Manifests index -> m ∈ Manifests index') /\
  (exists m, m ∈ Manifests index /\ ref_name m = Some tag /\ Digest m = Digest d) /\
  Exists (fun m => Digest m = Digest d) (Manifests index').
Proof.
  intros Hu Hd. rewrite remove_eq.
  assert (forall m, m ∈ Manifests index -> hit tag m <-> ref_name m = Some tag) as Hh.
  { intros m Hm. rewrite Forall_forall in Hd. unfold hit. specialize (Hd m Hm). tauto. }
  destruct (_ && dc); [done|].
  destruct (last _) as [m|] eqn:El; [|done].
  assert (m ∈ filter (hit tag) (Manifests index)) as [Hm Hin]%list_elem_of_filter
    by by apply last_Some_elem_of.
  apply Hh in Hm; [|done].
  assert (forall t m', m' ∈ filter (fun m => ~ hit tag m) (Manifests index) ++ t ->
    (forall x, x ∈ t -> ref_name x = None) -> ref_name m' <> Some tag) as Hrest.
  { intros t m' [[Hx _]%list_elem_of_filter|Hx]%elem_of_app Ht E;
      [apply Hx; by left|apply Ht in Hx; congruence]. }
  case_match eqn:Eb; intros [= <- <-]; simpl.
  - split; [|split; [|split]].
    + intros (m'&Hm'&E)%elem_of_tags. eapply (Hrest [untag m]); [done| |done].
      intros x ->%list_elem_of_singleton. apply ref_name_untag.
    + intros m' Hn Hm'. apply elem_of_app. left. apply list_elem_of_filter.
      split; [|done]. by rewrite Hh.
    + by exists m.
    + apply Exists_app. right. by constructor.
  - split; [|split; [|split]].
    + intros (m'&Hm'&E)%elem_of_tags. eapply (Hrest []); [by rewrite app_nil_r| |done]. set_solver.
    + intros m' Hn Hm'. apply list_elem_of_filter. split; [|done]. by rewrite Hh.
    + by exists m.
    + apply andb_false_iff in Eb as [Eb|Eb].
      { apply bool_decide_eq_false in Eb. destruct Eb. apply Exists_exists. eauto. }
      apply Nat.eqb_neq in Eb.
      destruct (exists_of_count (Digest m) _ m Hin eq_refl Eb) as (m'&Hin'&Hd'&Hne).
      assert (ref_name m' <> Some tag) as Hr.
      { intros E. destruct Hne as [Hne|(l1&l2&l3&El')].
        - apply list_elem_of_split in Hin as (l1&l2&El').
          unfold unique_tags in Hu. rewrite El' in Hu, Hin'.
          apply (tag_not_elsewhere _ _ _ tag) in Hu; [|done]. apply Hu, elem_of_tags.
          exists m'. split; [|done]. set_solver.
        - unfold unique_tags in Hu. rewrite El' in Hu.
          apply (tag_not_elsewhere _ _ _ tag) in Hu; [|done]. apply Hu, elem_of_tags.
          exists m. split; [|done]. set_solver. }
      apply Exists_exists. exists m'. split; [|done]. apply list_elem_of_filter.
      split; [|done]. by rewrite Hh.
Qed.

(** A push under a tag (CheckIfIndexNeedsUpdate asking for an update, then
    the loop of PutImageManifest and the append) keeps tags unique, makes the
    tag resolve to the pushed descriptor, and leaves every descriptor that
    carries another tag where it was. *)
Theorem push_tag (index : Index) (desc : Descriptor) (tag : string) (index' : Index) (old : string) :
  unique_tags index ->
  ref_name desc = Some tag ->
  Forall (fun m => Digest m <> tag) (desc :: Manifests index) ->
  CheckIfIndexNeedsUpdate index desc = (index', true, old) ->
  let ms := drop_untagged (Digest desc) (Manifests index') ++ [desc] in
  unique_tags (with_manifests index ms) /\
  GetManifestDescByReference (with_manifests index ms) tag = (desc, true) /\
  (forall m t, ref_name m = Some t -> t <> tag -> m ∈ ms <-> m ∈ Manifests index).
Proof.
  intros Hu Ht Hd H. destruct (CheckIfIndexNeedsUpdate_shape index desc) as (ms0&upd&old'&E).
  rewrite E in H. simplify_eq/=. apply Forall_cons in Hd as [Hd1 Hd].
  destruct (needs_update_unique _ _ _ _ _ Hu E) as [Hnd Hnin].
  specialize (Hnin eq_refl tag Ht).
  assert (tag ∉ tags (drop_untagged (Digest desc) ms0)) as Hnin'.
  { intros Hx. apply Hnin. eapply elem_of_sublist; [exact Hx|].
    apply tags_sublist, drop_untagged_sublist. }
  assert (ms0 `sublist_of` Manifests index) as Hsub.
  { apply CheckIfIndexNeedsUpdate_case in E. inversion E as [| |ms1 m ms2 E' ? ? ? ?]; subst; [done|].
    rewrite E'. apply sublist_app; [done|]. by constructor. }
  split; [|split].
  - unfold unique_tags; simpl. rewrite tags_app. apply NoDup_app. split; [|split].
    + eapply sublist_NoDup; [exact Hnd|]. apply tags_sublist, drop_untagged_sublist.
    + intros t Hx. simpl. rewrite Ht. intros ->%list_elem_of_singleton. done.
    + simpl. rewrite Ht. apply NoDup_singleton.
  - unfold GetManifestDescByReference; simpl.
    assert (forall l, tag ∉ tags l -> Forall (fun m => Digest m <> tag) l ->
      desc_by_reference (l ++ [desc]) tag = (desc, true)) as Hl.
    { induction l as [|m l IH]; simpl; intros Hx Hf.
      - rewrite decide_False by done. rewrite Ht. by rewrite decide_True.
      - apply Forall_cons in Hf as [Hf1 Hf]. rewrite decide_False by done.
        destruct (ref_name m) as [v|]; [|by apply IH].
        apply not_elem_of_cons in Hx as [Hx1 Hx]. rewrite decide_False by done. by apply IH. }
    apply Hl; [done|]. rewrite Forall_forall in Hd |- *. intros m Hm. apply Hd.
    eapply elem_of_sublist; [|exact Hsub]. eapply elem_of_sublist; [exact Hm|].
    apply drop_untagged_sublist.
  - intros m t Hm Hne. unfold drop_untagged.
    rewrite elem_of_app, list_elem_of_filter, list_elem_of_singleton. split.
    + intros [[_ Hin]| ->]; [by eapply elem_of_sublist|congruence].
    + intros Hin. left. split; [by intros [? _]; congruence|].
      apply CheckIfIndexNeedsUpdate_case in E. rewrite Ht in E; simpl in E.
      inversion E as [| |ms1 m' ms2 E' ? ? ? ?]; subst; [done|].
      rewrite E' in Hin. apply elem_of_app in Hin as [?|[->|?]%elem_of_cons]; [set_solver|congruence|set_solver].
Qed.

(** ** The properties at work on a small index *)
Module SmallIndex.
Definition image (d : string) (size : Z) (tag : option string) : Descriptor :=
  mkDescriptor MediaTypeImageManifest d size
    (match tag with Some t => {[AnnotationRefName := t]} | None => ∅ end) "".
Definition index : Index :=
  with_manifests empty_index
    [image "sha256:a" 1 (Some "v1"); image "sha256:b" 2 (Some "v2"); image "sha256:a" 1 (Some "latest")].
End SmallIndex.

Lemma remove_by_tag_witness :
  let d := SmallIndex.image "sha256:b" 2 None in
  let index' := with_manifests empty_index
    [SmallIndex.image "sha256:a" 1 (Some "v1"); SmallIndex.image "sha256:a" 1 (Some "latest"); d] in
  "v2" ∉ tags (Manifests index') /\
  (forall m, ref_name m <> Some "v2" -> m ∈ Manifests SmallIndex.index -> m ∈ Manifests index') /\
  (exists m, m ∈ Manifests SmallIndex.index /\ ref_name m = Some "v2" /\ Digest m = Digest d) /\
  Exists (fun m => Digest m = Digest d) (Manifests index').
Proof.
  apply (remove_by_tag SmallIndex.index _ "v2" true _).
  - apply (bool_decide_eq_true_1 _). vm_compute. reflexivity.
  - apply (bool_decide_eq_true_1 _). vm_compute. reflexivity.
  - vm_compute. reflexivity.
Defined.

Lemma push_tag_witness :
  let desc := SmallIndex.image "sha256:c" 3 (Some "v1") in
  let index' := with_manifests empty_index
    [SmallIndex.image "sha256:b" 2 (Some "v2"); SmallIndex.image "sha256:a" 1 (Some "latest")] in
  let ms := drop_untagged (Digest desc) (Manifests index') ++ [desc] in
  unique_tags (with_manifests index' ms) /\
  GetManifestDescByReference (with_manifests index' ms) "v1" = (desc, true) /\
  (forall m t, ref_name m = Some t -> t <> "v1" -> m ∈ ms <-> m ∈ Manifests SmallIndex.index).
Proof.
  apply (push_tag SmallIndex.index _ "v1" (with_manifests empty_index
    [SmallIndex.image "sha256:b" 2 (Some "v2"); SmallIndex.image "sha256:a" 1 (Some "latest")]) "sha256:a").
  - apply (bool_decide_eq_true_1 _). vm_compute. reflexivity.
  - vm_compute. reflexivity.
  - apply (bool_decide_eq_true_1 _). vm_compute. reflexivity.
  - vm_compute. reflexivity.
Defined.
