(* ===== verification/StorageCommon.v ===== *)
(** * storage/common over an image store (pkg/storage/common/common.go)

    The functions of storage/common that read blobs through the ImageStore
    interface: validation of pushed manifests, pruning of index.json, the
    reference-graph walks and the referrers listing. They are written against
    the class [ImageStoreI], as the source writes them against
    storageTypes.ImageStore, and every read is an effect on the store's state. *)

From Stdlib Require Import ZArith String.
From stdpp Require Import base tactics list gmap strings.
From S2P Require Import Prelude Oci IndexOps.

Local Open Scope string_scope.
Local Open Scope list_scope.

(** ** What storage/common needs of an image store *)
Class ImageStoreI (S : Type) := {
  RootDir : S -> path;
  DirExists : path -> S -> bool;
  GetBlobContent : string -> string -> ST S string;
  GetIndexContent : string -> ST S string;
  StatBlob : string -> string -> ST S (bool * Z * Z)
}.

(** errors.Is(err, ErrBlobNotFound) || errors.As(err, &PathNotFoundError{}) *)
Definition missing (e : err) : bool := bool_decide (e = ErrBlobNotFound \/ e = ErrPathNotFound).

Section common.
Context `{GoDigest} `{OciCodec} {S : Type} `{ImageStoreI S}.

(** ** Reading index.json, indexes and manifests *)
Definition GetIndex (repo : string) : ST S Index :=
  let* r := try (GetIndexContent repo) in
  match r with
  | Err e => throw (if decide (e = ErrPathNotFound) then ErrRepoNotFound else e)
  | Ok buf => match unmarshal_index buf with
              | None => throw ErrRepoBadVersion
              | Some index => ret index
              end
  end.

Definition GetImageIndex (repo digest : string) : ST S Index :=
  match Validate digest with
  | Some e => throw e
  | None =>
      let* buf := GetBlobContent repo digest in
      match unmarshal_index buf with None => throw ErrJSON | Some i => ret i end
  end.

Definition GetImageManifest (repo digest : string) : ST S Manifest :=
  let* buf := GetBlobContent repo digest in
  match unmarshal_manifest buf with None => throw ErrJSON | Some m => ret m end.

(** ** Validation of a pushed manifest *)
Definition IsSupportedMediaType (compats : list string) (mediaType : string) : bool :=
  existsb (fun comp => bool_decide (comp = DockerManifestV2SchemaV2) &&
    (bool_decide (mediaType = DockerMediaTypeManifest) ||
     bool_decide (mediaType = DockerMediaTypeManifestList))) compats
  || (bool_decide (mediaType = MediaTypeImageIndex) ||
      bool_decide (mediaType = MediaTypeImageManifest)).

Definition IsNonDistributable (mediaType : string) : bool :=
  bool_decide (mediaType = MediaTypeLayerNonDist) ||
  bool_decide (mediaType = MediaTypeLayerNonDistGzip) ||
  bool_decide (mediaType = MediaTypeLayerNonDistZstd) ||
  bool_decide (mediaType = DockerMediaTypeForeignLayer).

Definition ValidateManifestSchema (buf : string) : bool :=
  if schema_manifest_ok buf then true else schema_empty_layers buf.
Definition ValidateImageIndexSchema (buf : string) : bool := schema_index_ok buf.

(** [ok, _, _, err := StatBlob(...); if !ok || err != nil]. *)
Definition require_blob (repo digest : string) : ST S unit :=
  let* r := try (StatBlob repo digest) in
  match r with
  | Ok (true, _, _) => ret tt
  | _ => throw ErrBadManifest
  end.

Fixpoint require_blobs (repo : string) (descs : list Descriptor) : ST S unit :=
  match descs with
  | [] => ret tt
  | d :: ds =>
      if IsNonDistributable (MediaType d) then require_blobs repo ds
      else (require_blob repo (Digest d) ;;; require_blobs repo ds)
  end.

Definition ValidateManifest (compats : list string) (repo mediaType body : string) : ST S unit :=
  if negb (IsSupportedMediaType compats mediaType) then throw ErrBadManifest
  else if decide (body = "") then throw ErrBadManifest
  else if decide (mediaType = MediaTypeImageManifest) then
    if negb (ValidateManifestSchema body) then throw ErrBadManifest
    else match unmarshal_manifest body with
    | None => throw ErrBadManifest
    | Some manifest =>
        if bool_decide (MediaType (Config manifest) = MediaTypeImageConfig)
           || bool_decide (MediaType (Config manifest) = MediaTypeEmptyJSON) then
          (require_blob repo (Digest (Config manifest)) ;;; require_blobs repo (Layers manifest))
        else ret tt
    end
  else if decide (mediaType = MediaTypeImageIndex) then
    if negb (ValidateImageIndexSchema body) then throw ErrBadManifest
    else match unmarshal_index body with None => throw ErrBadManifest | Some _ => ret tt end
  else if decide (mediaType = DockerMediaTypeManifest) then
    match compat_Validate body mediaType with
    | Err _ => throw ErrBadManifest
    | Ok descriptors => require_blobs repo descriptors
    end
  else if decide (mediaType = DockerMediaTypeManifestList) then
    match compat_Validate body mediaType with Err _ => throw ErrBadManifest | Ok _ => ret tt end
  else ret tt.

(** The digest and, next to it, the error: both are used by the caller. *)
Definition GetAndValidateRequestDigest (body reference : string) : string * option err :=
  match Parse reference with
  | Err e => (FromBytes Canonical body, Some e)
  | Ok expectedDigest =>
      let actualDigest := FromBytes (Algorithm expectedDigest) body in
      if negb (bool_decide (expectedDigest = actualDigest)) then (actualDigest, Some ErrBadManifest)
      else (actualDigest, None)
  end.

(** ** Pruning *)
Definition incr (m : gmap string nat) (k : string) : gmap string nat :=
  <[k := (1 + default 0 (m !! k))%nat]> m.

Definition incr_present (m : gmap string nat) (k : string) : gmap string nat :=
  match m !! k with Some n => <[k := (1 + n)%nat]> m | None => m end.

Fixpoint count_others (repo : string) (inUse : gmap string nat) (others : list Descriptor)
    : ST S (gmap string nat) :=
  match others with
  | [] => ret inUse
  | otherIndex :: rest =>
      let* r := try (GetImageIndex repo (Digest otherIndex)) in
      match r with
      | Err e => if missing e then count_others repo inUse rest else throw e
      | Ok oindex =>
          count_others repo
            (foldl (fun m o => incr_present m (Encoded (Digest o))) inUse (Manifests oindex)) rest
      end
  end.

Definition prune_keeps (inUse : gmap string nat) (m : Descriptor) : bool :=
  if negb (IsImageManifestMediaType (MediaType m)) then true
  else match ref_name m with
       | Some _ => true
       | None => match inUse !! Encoded (Digest m) with
                 | None => true
                 | Some count => negb (count =? 1)%nat
                 end
       end.

Definition PruneImageManifestsFromIndex (repo digest : string) (outIndex : Index)
    (otherImgIndexes : list Descriptor) : ST S (list Descriptor) :=
  let* buf := GetBlobContent repo digest in
  match unmarshal_index buf with
  | None => throw ErrJSON
  | Some imgIndex =>
      let inUse := foldl (fun m d => incr m (Encoded (Digest d))) ∅ (Manifests imgIndex) in
      let* inUse := count_others repo inUse otherImgIndexes in
      ret (filter (fun m => prune_keeps inUse m = true) (Manifests outIndex))
  end.

Definition UpdateIndexWithPrunedImageManifests (index : Index) (repo : string)
    (desc : Descriptor) (oldDgst : string) : ST S Index :=
  if IsImageIndexMediaType (MediaType desc) && negb (bool_decide (oldDgst = "")) then
    let otherImgIndexes :=
      filter (fun m => IsImageIndexMediaType (MediaType m) = true) (Manifests index) ++ [desc] in
    let* pruned := PruneImageManifestsFromIndex repo oldDgst index otherImgIndexes in
    ret (with_manifests index pruned)
  else ret index.

(** ** The reference-graph walks

    [fuel] bounds the nesting of indexes; the result is [None] when it runs
    out. The Go map [seen] is shared by all the calls, so it is returned. *)
Definition isBlobReferencedInImageManifest (repo bdigest mdigest : string) : ST S bool :=
  if decide (bdigest = mdigest) then ret true
  else
    let* r := try (GetImageManifest repo mdigest) in
    match r with
    | Err e => if missing e then ret false else throw e
    | Ok m =>
        if decide (bdigest = Digest (Config m)) then ret true
        else ret (existsb (fun l => bool_decide (bdigest = Digest l)) (Layers m))
    end.

(** The loop over the descriptors of an index; [rec] is the recursive call. *)
Fixpoint referenced_loop (rec : Index -> gset string -> ST S (option (bool * gset string)))
    (repo digest : string) (ms : list Descriptor) (seen : gset string)
    : ST S (option (bool * gset string)) :=
  match ms with
  | [] => ret (Some (false, seen))
  | desc :: ms' =>
      if decide (digest = Digest desc) then ret (Some (true, seen))
      else if decide (Digest desc ∈ seen) then referenced_loop rec repo digest ms' seen
      else if IsImageIndexMediaType (MediaType desc) then
        let seen := {[Digest desc]} ∪ seen in
        let* r := try (GetImageIndex repo (Digest desc)) in
        match r with
        | Err e => if missing e then referenced_loop rec repo digest ms' seen else throw e
        | Ok indexImage =>
            let* r := rec indexImage seen in
            match r with
            | None => ret None
            | Some (true, seen) => ret (Some (true, seen))
            | Some (false, seen) => referenced_loop rec repo digest ms' seen
            end
        end
      else if IsImageManifestMediaType (MediaType desc) then
        let seen := {[Digest desc]} ∪ seen in
        let* found := isBlobReferencedInImageManifest repo digest (Digest desc) in
        if (found : bool) then ret (Some (true, seen))
        else referenced_loop rec repo digest ms' seen
      else referenced_loop rec repo digest ms' seen
  end.

Fixpoint isBlobReferencedInImageIndex (fuel : nat) (repo digest : string) (index : Index)
    (seen : gset string) : ST S (option (bool * gset string)) :=
  match fuel with
  | 0 => ret None
  | Datatypes.S fuel' =>
      referenced_loop (isBlobReferencedInImageIndex fuel' repo digest) repo digest
        (Manifests index) seen
  end.

Definition IsBlobReferencedInImageIndex (fuel : nat) (repo digest : string) (index : Index)
    : ST S (option bool) :=
  let* r := isBlobReferencedInImageIndex fuel repo digest index ∅ in
  ret (fst <$> r).

Definition repo_dir (repo : string) (s : S) : path := path_join (RootDir s) repo.

Definition IsBlobReferenced (fuel : nat) (repo digest : string) : ST S (option bool) :=
  let* s := get in
  if negb (DirExists (repo_dir repo s) s) then throw ErrRepoNotFound
  else
    let* index := GetIndex repo in
    IsBlobReferencedInImageIndex fuel repo digest index.

(** The maps [referenced] and [seen] are shared by all the calls. *)
Fixpoint collect_loop
    (rec : Index -> gset string -> gset string -> ST S (option (gset string * gset string)))
    (repo : string) (ms : list Descriptor) (referenced seen : gset string)
    : ST S (option (gset string * gset string)) :=
  match ms with
  | [] => ret (Some (referenced, seen))
  | desc :: ms' =>
      let referenced := {[Digest desc]} ∪ referenced in
      if decide (Digest desc ∈ seen) then collect_loop rec repo ms' referenced seen
      else
        let seen := {[Digest desc]} ∪ seen in
        if IsImageIndexMediaType (MediaType desc) then
          let* r := try (GetImageIndex repo (Digest desc)) in
          match r with
          | Err e => if missing e then collect_loop rec repo ms' referenced seen else throw e
          | Ok indexImage =>
              let* r := rec indexImage referenced seen in
              match r with
              | None => ret None
              | Some (referenced, seen) => collect_loop rec repo ms' referenced seen
              end
          end
        else if IsImageManifestMediaType (MediaType desc) then
          let* r := try (GetImageManifest repo (Digest desc)) in
          match r with
          | Err e => if missing e then collect_loop rec repo ms' referenced seen else throw e
          | Ok m =>
              collect_loop rec repo ms'
                (list_to_set (Digest <$> Layers m) ∪ ({[Digest (Config m)]} ∪ referenced)) seen
          end
        else collect_loop rec repo ms' referenced seen
  end.

Fixpoint collectReferencedBlobs (fuel : nat) (repo : string) (index : Index)
    (referenced seen : gset string) : ST S (option (gset string * gset string)) :=
  match fuel with
  | 0 => ret None
  | Datatypes.S fuel' =>
      collect_loop (collectReferencedBlobs fuel' repo) repo (Manifests index) referenced seen
  end.

Definition GetReferencedBlobs (fuel : nat) (repo : string) : ST S (option (gset string)) :=
  let* s := get in
  if negb (DirExists (repo_dir repo s) s) then throw ErrRepoNotFound
  else
    let* index := GetIndex repo in
    let* r := collectReferencedBlobs fuel repo index ∅ ∅ in
    ret (fst <$> r).

Definition getBlobDescriptorFromManifest (repo blobDigest : string) (desc : Descriptor)
    : ST S Descriptor :=
  let* manifest := GetImageManifest repo (Digest desc) in
  if decide (Digest (Config manifest) = blobDigest) then ret (Config manifest)
  else match list_find (fun l => Digest l = blobDigest) (Layers manifest) with
       | Some (_, layer) => ret layer
       | None => throw ErrBlobNotFound
       end.

(** The result carries the shared [seen] next to the Go pair
    (descriptor, error): an error of a nested call is dropped by the caller. *)
Fixpoint descriptor_loop
    (rec : Index -> gset string -> ST S (option (res Descriptor * gset string)))
    (repo blobDigest : string) (ms : list Descriptor) (seen : gset string)
    : ST S (option (res Descriptor * gset string)) :=
  match ms with
  | [] => ret (Some (Err ErrBlobNotFound, seen))
  | desc :: ms' =>
      if decide (Digest desc = blobDigest) then ret (Some (Ok desc, seen))
      else if decide (Digest desc ∈ seen) then descriptor_loop rec repo blobDigest ms' seen
      else if IsImageManifestMediaType (MediaType desc) then
        let seen := {[Digest desc]} ∪ seen in
        let* r := try (getBlobDescriptorFromManifest repo blobDigest desc) in
        match r with
        | Ok d => ret (Some (Ok d, seen))
        | Err _ => descriptor_loop rec repo blobDigest ms' seen
        end
      else if IsImageIndexMediaType (MediaType desc) then
        let seen := {[Digest desc]} ∪ seen in
        let* r := try (GetImageIndex repo (Digest desc)) in
        match r with
        | Err e => if missing e then descriptor_loop rec repo blobDigest ms' seen
                   else ret (Some (Err e, seen))
        | Ok indexImage =>
            let* r := rec indexImage seen in
            match r with
            | None => ret None
            | Some (Ok d, seen) => ret (Some (Ok d, seen))
            | Some (Err _, seen) => descriptor_loop rec repo blobDigest ms' seen
            end
        end
      else descriptor_loop rec repo blobDigest ms' seen
  end.

Fixpoint getBlobDescriptorFromIndex (fuel : nat) (repo blobDigest : string) (index : Index)
    (seen : gset string) : ST S (option (res Descriptor * gset string)) :=
  match fuel with
  | 0 => ret None
  | Datatypes.S fuel' =>
      descriptor_loop (getBlobDescriptorFromIndex fuel' repo blobDigest) repo blobDigest
        (Manifests index) seen
  end.

Definition GetBlobDescriptorFromIndex (fuel : nat) (index : Index) (repo blobDigest : string)
    : ST S (option (res Descriptor)) :=
  let* r := getBlobDescriptorFromIndex fuel repo blobDigest index ∅ in
  ret (fst <$> r).

Definition GetBlobDescriptorFromRepo (fuel : nat) (repo blobDigest : string)
    : ST S (option (res Descriptor)) :=
  let* r := try (GetIndex repo) in
  match r with
  | Err e => ret (Some (Err e))
  | Ok index => GetBlobDescriptorFromIndex fuel index repo blobDigest
  end.

(** ** Linting and signatures *)
Definition ArtifactTypeNotation := "application/vnd.cncf.notary.signature".
Definition ArtifactTypeCosign := "application/vnd.dev.cosign.artifact.sig.v1+json".
Definition ArtifactTypeCosignBundle := "application/vnd.dev.sigstore.bundle.v0.3+json".
Definition IsArtifactTypeCosign (t : string) : bool :=
  bool_decide (t = ArtifactTypeCosign) || bool_decide (t = ArtifactTypeCosignBundle).

Definition IsSignature (d : Descriptor) : bool :=
  let tag := default "" (ref_name d) in
  if decide (MediaType d = MediaTypeImageManifest) then
    if has_prefix tag "sha256-" && has_suffix tag "sig" then true
    else if IsArtifactTypeCosign (ArtifactType d) then true
    else bool_decide (ArtifactType d = ArtifactTypeNotation)
  else false.

(** The linter is an interface value, possibly nil. *)
Definition ApplyLinter (linter : option (string -> string -> ST S bool)) (repo : string)
    (d : Descriptor) : ST S bool :=
  if negb (bool_decide (MediaType d = MediaTypeImageManifest)) then ret true
  else match linter with
  | Some lint =>
      if negb (IsSignature d) then
        let* pass := lint repo (Digest d) in
        if (pass : bool) then ret true else throw ErrImageLintAnnotations
      else ret true
  | None => ret true
  end.

(** ** Referrers *)
Definition newEmptyReferrersIndex : Index := mkIndex 2 MediaTypeImageIndex "" [] None ∅.

Definition referrer (descriptor : Descriptor) (artifactType : string)
    (annotations : gmap string string) : Descriptor :=
  mkDescriptor (MediaType descriptor) (Digest descriptor) (Size descriptor) annotations artifactType.

Definition subject_is (subject : option Descriptor) (gdigest : string) : bool :=
  match subject with Some d => bool_decide (Digest d = gdigest) | None => false end.

Definition type_wanted (artifactTypes : list string) (t : string) : bool :=
  bool_decide (artifactTypes = []) || contains artifactTypes t.

(** The referrer a descriptor contributes, given the content of its blob. *)
Definition referrer_of (gdigest : string) (artifactTypes : list string) (descriptor : Descriptor)
    (buf : string) : res (option Descriptor) :=
  if decide (MediaType descriptor = MediaTypeImageManifest) then
    match unmarshal_manifest buf with
    | None => Err ErrJSON
    | Some m =>
        if negb (subject_is (m_Subject m) gdigest) then Ok None
        else let t := GetManifestArtifactType m in
          if negb (type_wanted artifactTypes t) then Ok None
          else Ok (Some (referrer descriptor t (m_Annotations m)))
    end
  else if decide (MediaType descriptor = MediaTypeImageIndex) then
    match unmarshal_index buf with
    | None => Err ErrJSON
    | Some i =>
        if negb (subject_is (idx_Subject i) gdigest) then Ok None
        else let t := GetIndexArtifactType i in
          if negb (type_wanted artifactTypes t) then Ok None
          else Ok (Some (referrer descriptor t (idx_Annotations i)))
    end
  else Ok None.

Fixpoint referrers_loop (repo gdigest : string) (artifactTypes : list string)
    (ms : list Descriptor) (seen : gset string) (result : list Descriptor)
    : ST S (list Descriptor) :=
  match ms with
  | [] => ret result
  | descriptor :: ms' =>
      if decide (Digest descriptor = gdigest) then
        referrers_loop repo gdigest artifactTypes ms' seen result
      else if decide (Digest descriptor ∈ seen) then
        referrers_loop repo gdigest artifactTypes ms' seen result
      else
        let seen := {[Digest descriptor]} ∪ seen in
        let* r := try (GetBlobContent repo (Digest descriptor)) in
        match r with
        | Err e => if missing e then referrers_loop repo gdigest artifactTypes ms' seen result
                   else throw e
        | Ok buf =>
            let* d := lift_res (referrer_of gdigest artifactTypes descriptor buf) in
            referrers_loop repo gdigest artifactTypes ms' seen (result ++ option_list d)
        end
  end.

Definition GetReferrers (repo gdigest : string) (artifactTypes : list string) : ST S Index :=
  match Validate gdigest with
  | Some e => throw e
  | None =>
      let* s := get in
      if negb (DirExists (repo_dir repo s) s) then ret newEmptyReferrersIndex
      else
        let* index := GetIndex repo in
        let* result := referrers_loop repo gdigest artifactTypes (Manifests index) ∅ [] in
        ret (mkIndex 2 MediaTypeImageIndex "" result None ∅)
  end.
End common.

(** ** What reading through the store preserves

    The functions above touch the store only through its three reads, so they
    preserve whatever those preserve. *)
Section frame.
Context `{GoDigest} `{OciCodec} {S : Type} `{ImageStoreI S} (I : S -> Prop).
Context (HB : forall repo d, preserves I (GetBlobContent repo d))
        (HX : forall repo, preserves I (GetIndexContent repo))
        (HS : forall repo d, preserves I (StatBlob repo d)).
#[local] Hint Resolve HB HX HS : pres.

Lemma pres_GetIndex repo : preserves I (GetIndex repo).
Proof. unfold GetIndex. pres. Qed.
Lemma pres_GetImageIndex repo d : preserves I (GetImageIndex repo d).
Proof. unfold GetImageIndex. pres. Qed.
Lemma pres_GetImageManifest repo d : preserves I (GetImageManifest repo d).
Proof. unfold GetImageManifest. pres. Qed.
#[local] Hint Resolve pres_GetIndex pres_GetImageIndex pres_GetImageManifest : pres.

Lemma pres_require_blob repo d : preserves I (require_blob repo d).
Proof. unfold require_blob. pres. Qed.
#[local] Hint Resolve pres_require_blob : pres.
Lemma pres_require_blobs repo ds : preserves I (require_blobs repo ds).
Proof. induction ds as [|d ds IH]; simpl; pres. Qed.
#[local] Hint Resolve pres_require_blobs : pres.
Lemma pres_ValidateManifest compats repo mt body : preserves I (ValidateManifest compats repo mt body).
Proof. unfold ValidateManifest. pres. Qed.

Lemma pres_count_others repo others : forall inUse, preserves I (count_others repo inUse others).
Proof. induction others as [|o others IH]; intros inUse; simpl; pres. Qed.
#[local] Hint Resolve pres_count_others : pres.
Lemma pres_Update index repo desc old : preserves I (UpdateIndexWithPrunedImageManifests index repo desc old).
Proof. unfold UpdateIndexWithPrunedImageManifests, PruneImageManifestsFromIndex. pres. Qed.

Lemma pres_isBlobReferencedInImageManifest repo d m :
  preserves I (isBlobReferencedInImageManifest repo d m).
Proof. unfold isBlobReferencedInImageManifest. pres. Qed.
#[local] Hint Resolve pres_isBlobReferencedInImageManifest : pres.
Lemma pres_referenced_loop rec repo d ms :
  (forall i seen, preserves I (rec i seen)) -> forall seen, preserves I (referenced_loop rec repo d ms seen).
Proof. intros Hr. induction ms as [|m ms IH]; intros seen; simpl; pres. Qed.
Lemma pres_isBlobReferencedInImageIndex n repo d :
  forall i seen, preserves I (isBlobReferencedInImageIndex n repo d i seen).
Proof.
  induction n as [|n IH]; intros i seen; simpl; [pres|]. by apply pres_referenced_loop.
Qed.
#[local] Hint Resolve pres_isBlobReferencedInImageIndex : pres.
Lemma pres_IsBlobReferencedInImageIndex n repo d i : preserves I (IsBlobReferencedInImageIndex n repo d i).
Proof. unfold IsBlobReferencedInImageIndex. pres. Qed.
#[local] Hint Resolve pres_IsBlobReferencedInImageIndex : pres.
Lemma pres_IsBlobReferenced n repo d : preserves I (IsBlobReferenced n repo d).
Proof. unfold IsBlobReferenced. pres. Qed.

Lemma pres_collect_loop rec repo ms :
  (forall i a b, preserves I (rec i a b)) -> forall a b, preserves I (collect_loop rec repo ms a b).
Proof. intros Hr. induction ms as [|m ms IH]; intros a b; simpl; pres. Qed.
Lemma pres_GetReferencedBlobs n repo : preserves I (GetReferencedBlobs n repo).
Proof.
  assert (forall n i a b, preserves I (collectReferencedBlobs n repo i a b)).
  { clear n. intros n. induction n as [|n IH]; intros i a b; simpl; [pres|]. by apply pres_collect_loop. }
  unfold GetReferencedBlobs. pres.
Qed.

Lemma pres_getBlobDescriptorFromManifest repo d m : preserves I (getBlobDescriptorFromManifest repo d m).
Proof. unfold getBlobDescriptorFromManifest. pres. Qed.
#[local] Hint Resolve pres_getBlobDescriptorFromManifest : pres.
Lemma pres_descriptor_loop rec repo d ms :
  (forall i seen, preserves I (rec i seen)) -> forall seen, preserves I (descriptor_loop rec repo d ms seen).
Proof. intros Hr. induction ms as [|m ms IH]; intros seen; simpl; pres. Qed.
Lemma pres_getBlobDescriptorFromIndex n repo d :
  forall i seen, preserves I (getBlobDescriptorFromIndex n repo d i seen).
Proof.
  induction n as [|n IH]; intros i seen; simpl; [pres|]. by apply pres_descriptor_loop.
Qed.
#[local] Hint Resolve pres_getBlobDescriptorFromIndex : pres.
Lemma pres_GetBlobDescriptorFromRepo n repo d : preserves I (GetBlobDescriptorFromRepo n repo d).
Proof. unfold GetBlobDescriptorFromRepo, GetBlobDescriptorFromIndex. pres. Qed.

Lemma pres_referrers_loop repo g types ms : forall seen result,
  preserves I (referrers_loop repo g types ms seen result).
Proof. induction ms as [|m ms IH]; intros seen result; simpl; pres. Qed.
#[local] Hint Resolve pres_referrers_loop : pres.
Lemma pres_GetReferrers repo g types : preserves I (GetReferrers repo g types).
Proof. unfold GetReferrers. pres. Qed.

Lemma pres_ApplyLinter linter repo d :
  (forall lint r x, linter = Some lint -> preserves I (lint r x)) -> preserves I (ApplyLinter linter repo d).
Proof. intros Hl. unfold ApplyLinter. pres. Qed.
End frame.
#[export] Hint Resolve pres_GetIndex pres_ValidateManifest pres_Update pres_IsBlobReferencedInImageIndex
  pres_IsBlobReferenced pres_GetBlobDescriptorFromRepo pres_GetReferrers : pres.
