(* ===== verification/Concrete.v ===== *)
(** * Concrete instances of the external interfaces

    Executable stand-ins for go-digest and the JSON codecs, with the proofs of
    their laws, and a two-field image store: the inputs on which theorems that
    assume those interfaces are shown to apply. Nothing here models the
    registry; no definition of the program depends on this file. *)

From Stdlib Require Import ZArith Ascii String.
From stdpp Require Import base tactics list gmap strings countable sorting.
From S2P Require Import Prelude Oci IndexOps StorageCommon.

Local Open Scope string_scope.

(** ** A digest: an Adler-style checksum of the content, spelled with letters *)
Fixpoint strip_prefix (p s : string) : option string :=
  match p, s with
  | EmptyString, _ => Some s
  | String a p', String b s' => if decide (a = b) then strip_prefix p' s' else None
  | _, _ => None
  end.

Fixpoint checksum (s : string) (a b : N) : N :=
  match s with
  | EmptyString => (a + 65536 * b)%N
  | String c s' =>
      let a' := ((a + N_of_ascii c) mod 65521)%N in checksum s' a' ((b + a') mod 65521)%N
  end.

Fixpoint spell_pos (p : positive) : string :=
  match p with
  | xH => "x"
  | xO p => String "o" (spell_pos p)
  | xI p => String "i" (spell_pos p)
  end.
Definition spell (s : string) : string := spell_pos (N.succ_pos (checksum s 1 0)).

Definition algorithms : list string := ["sha256"; "sha512"].

(** The algorithm and the encoded part. *)
Definition split_digest (d : string) : option (string * string) :=
  match strip_prefix "sha256:" d, strip_prefix "sha512:" d with
  | Some e, _ => Some ("sha256", e)
  | _, Some e => Some ("sha512", e)
  | None, None => None
  end.

#[export] Instance toy_digest : GoDigest := {|
  Algorithm d := match split_digest d with Some (a, _) => a | None => "" end;
  Encoded d := match split_digest d with Some (_, e) => e | None => "" end;
  Available a := contains algorithms a;
  Validate d := match split_digest d with
                | Some (_, e) => if negb (bool_decide (e = "")) && all_chars alnum e then None else Some ErrDigest
                | None => Some ErrDigest
                end;
  FromBytes a b := a ++ ":" ++ "h" ++ spell b;
  NewDigestFromEncoded a e := a ++ ":" ++ e;
  Canonical := "sha256"
|}.

Lemma strip_prefix_app p s : strip_prefix p (p ++ s) = Some s.
Proof. induction p as [|a p IH]; simpl; [done|]. by rewrite decide_True. Qed.
Lemma strip_prefix_some p s e : strip_prefix p s = Some e -> s = p ++ e.
Proof.
  revert s. induction p as [|a p IH]; intros [|b s]; simpl; try congruence.
  case_decide; [subst|done]. intros ->%IH. done.
Qed.

Lemma spell_alnum s : all_chars alnum (spell s) = true.
Proof. unfold spell. induction (N.succ_pos _) as [p IH|p IH|]; simpl; done. Qed.

Lemma split_digest_some d a e : split_digest d = Some (a, e) -> a ∈ algorithms /\ d = a ++ ":" ++ e.
Proof.
  unfold split_digest.
  destruct (strip_prefix "sha256:" d) as [w|] eqn:E1; [|destruct (strip_prefix "sha512:" d) as [w|] eqn:E2; [|done]];
    intros [= <- <-].
  - apply strip_prefix_some in E1. split; [set_solver|done].
  - apply strip_prefix_some in E2. split; [set_solver|done].
Qed.

Lemma split_digest_make a e : a ∈ algorithms -> split_digest (a ++ ":" ++ e) = Some (a, e).
Proof.
  unfold algorithms. intros [->|[->|[]%elem_of_nil]%elem_of_cons]%elem_of_cons;
    by vm_compute.
Qed.

#[export] Instance toy_digest_laws : GoDigestLaws.
Proof.
  assert (forall d, Validate d = None -> exists a e,
    split_digest d = Some (a, e) /\ a ∈ algorithms /\ d = a ++ ":" ++ e /\ name_like e) as HV.
  { intros d. unfold Validate, toy_digest. destruct (split_digest d) as [[a e]|] eqn:E; [|done].
    destruct (split_digest_some _ _ _ E) as [Ha Hd].
    destruct (negb _ && _) eqn:Ef; [|done]. intros _.
    apply andb_prop in Ef as [He%negb_true_iff%bool_decide_eq_false Hc]. by exists a, e. }
  split.
  - intros d (a&e&E&Ha&Hd&He)%HV. unfold NewDigestFromEncoded, Algorithm, Encoded, toy_digest. by rewrite E.
  - intros d (a&e&E&Ha&Hd&He)%HV. unfold Available, Algorithm, toy_digest. rewrite E.
    by apply bool_decide_eq_true.
  - intros d (a&e&E&Ha&Hd&He)%HV. unfold Algorithm, Encoded, toy_digest. rewrite E. split; [|done].
    unfold algorithms in Ha. apply elem_of_cons in Ha as [->|[->|[]%elem_of_nil]%elem_of_cons]; done.
  - intros a b Ha%bool_decide_eq_true. unfold FromBytes, Validate, toy_digest.
    rewrite split_digest_make by done. simpl. by rewrite spell_alnum.
  - intros a b Ha%bool_decide_eq_true. unfold FromBytes, Algorithm, toy_digest.
    by rewrite split_digest_make.
  - done.
  - done.
  - intros d e. unfold Validate, toy_digest.
    destruct (split_digest d) as [[a w]|]; [|congruence]. destruct (_ && _); congruence.
  - intros a e Ha%bool_decide_eq_true. unfold NewDigestFromEncoded, Algorithm, Encoded, toy_digest.
    by rewrite split_digest_make.
Qed.

(** ** Codecs: fields escaped and terminated by a bar *)
Fixpoint esc (s : string) : string :=
  match s with
  | EmptyString => EmptyString
  | String c s' =>
      if decide (c = "|"%char \/ c = "~"%char) then String "~" (String c (esc s')) else String c (esc s')
  end.
Fixpoint net (l : list string) : string :=
  match l with [] => "" | w :: ws => esc w ++ String "|" (net ws) end.

Fixpoint fields (s : string) : string * list string :=
  match s with
  | EmptyString => ("", [])
  | String c s' =>
      if decide (c = "|"%char) then let '(w, ws) := fields s' in ("", w :: ws)
      else if decide (c = "~"%char) then
        match s' with
        | EmptyString => ("", [])
        | String d s'' => let '(w, ws) := fields s'' in (String d w, ws)
        end
      else let '(w, ws) := fields s' in (String c w, ws)
  end.
Definition unnet (s : string) : list string :=
  let '(w, ws) := fields s in take (length ws) (w :: ws).

Lemma fields_esc w s : fields (esc w ++ String "|" s) = (w, fst (fields s) :: snd (fields s)).
Proof.
  induction w as [|c w IH]; simpl.
  - by destruct (fields s).
  - case_decide as Hc.
    + cbn [String.append fields]. rewrite decide_False by done. rewrite decide_True by done.
      by rewrite IH.
    + cbn [String.append fields]. rewrite !decide_False by naive_solver. by rewrite IH.
Qed.

Lemma unnet_net l : unnet (net l) = l.
Proof.
  unfold unnet. assert (exists w ws, fields (net l) = (w, ws) /\ w :: ws = (l ++ [""])%list) as (w&ws&E&El).
  { induction l as [|v l IH]; simpl; [by exists "", []|].
    rewrite fields_esc. destruct IH as (w&ws&->&El). simpl. exists v, (w :: ws). by rewrite El. }
  rewrite E, El. apply (f_equal length) in El. rewrite length_app in El. simpl in El.
  replace (length ws) with (length l) by lia. apply take_app_length.
Qed.

Fixpoint bits_of (p : positive) : string :=
  match p with
  | xH => EmptyString
  | xO p => String "0" (bits_of p)
  | xI p => String "1" (bits_of p)
  end.
Fixpoint of_bits (s : string) : positive :=
  match s with
  | EmptyString => xH
  | String c s' => if decide (c = "1"%char) then xI (of_bits s') else xO (of_bits s')
  end.
Lemma of_bits_of p : of_bits (bits_of p) = p.
Proof. induction p as [p IH|p IH|]; simpl; by rewrite ?IH. Qed.

Definition write_Z (z : Z) : string := bits_of (encode z).
Definition read_Z (s : string) : Z := default 0%Z (decode (of_bits s)).
Lemma read_write_Z z : read_Z (write_Z z) = z.
Proof. unfold read_Z, write_Z. by rewrite of_bits_of, decode_encode. Qed.

Definition write_list {A} (f : A -> string) (l : list A) : string := net (f <$> l).
Definition read_list {A} (f : string -> option A) (s : string) : option (list A) := mapM f (unnet s).
Lemma read_write_list {A} (f : A -> string) g (l : list A) :
  (forall a, g (f a) = Some a) -> read_list g (write_list f l) = Some l.
Proof.
  intros Hg. unfold read_list, write_list. rewrite unnet_net. apply mapM_Some.
  induction l; simpl; constructor; auto.
Qed.

Definition write_map (m : gmap string string) : string :=
  write_list (fun kv => net [fst kv; snd kv]) (map_to_list m).
Definition read_map (s : string) : option (gmap string string) :=
  list_to_map <$> read_list (fun s => match unnet s with [k; v] => Some (k, v) | _ => None end) s.
Lemma read_write_map m : read_map (write_map m) = Some m.
Proof.
  unfold read_map, write_map. rewrite read_write_list.
  - simpl. by rewrite list_to_map_to_list.
  - intros [k v]. by rewrite unnet_net.
Qed.

Definition write_desc (d : Descriptor) : string :=
  net [MediaType d; Digest d; write_Z (Size d); write_map (Annotations d); ArtifactType d].
Definition read_desc (s : string) : option Descriptor :=
  match unnet s with
  | [a; b; c; d; e] => m ← read_map d; Some (mkDescriptor a b (read_Z c) m e)
  | _ => None
  end.
Lemma read_write_desc d : read_desc (write_desc d) = Some d.
Proof.
  unfold read_desc, write_desc. rewrite unnet_net, read_write_map. simpl.
  rewrite read_write_Z. by destruct d.
Qed.

Definition write_opt (o : option Descriptor) : string := write_list write_desc (option_list o).
Definition read_opt (s : string) : option (option Descriptor) := head <$> read_list read_desc s.
Lemma read_write_opt o : read_opt (write_opt o) = Some o.
Proof.
  unfold read_opt, write_opt. rewrite read_write_list by apply read_write_desc. by destruct o.
Qed.

Definition toy_index_json (i : Index) : string :=
  net ["index"; write_Z (idx_SchemaVersion i); idx_MediaType i; idx_ArtifactType i;
       write_list write_desc (Manifests i); write_opt (idx_Subject i); write_map (idx_Annotations i)].
Definition toy_read_index (s : string) : option Index :=
  match unnet s with
  | [t; a; b; c; d; e; f] =>
      if decide (t = "index") then
        ms ← read_list read_desc d; sub ← read_opt e; ann ← read_map f;
        Some (mkIndex (read_Z a) b c ms sub ann)
      else None
  | _ => None
  end.
Lemma toy_index_roundtrip i : toy_read_index (toy_index_json i) = Some i.
Proof.
  unfold toy_read_index, toy_index_json. rewrite unnet_net, decide_True by done.
  rewrite read_write_list by apply read_write_desc. simpl. rewrite read_write_opt. simpl.
  rewrite read_write_map. simpl. rewrite read_write_Z. by destruct i.
Qed.

Definition toy_manifest (m : Manifest) : string :=
  net ["manifest"; m_ArtifactType m; write_desc (Config m); write_list write_desc (Layers m);
       write_opt (m_Subject m); write_map (m_Annotations m)].
Definition toy_read_manifest (s : string) : option Manifest :=
  match unnet s with
  | [t; a; b; c; d; e] =>
      if decide (t = "manifest") then
        cfg ← read_desc b; ls ← read_list read_desc c; sub ← read_opt d; ann ← read_map e;
        Some (mkManifest a cfg ls sub ann)
      else None
  | _ => None
  end.

#[export] Instance toy_codec : OciCodec := {|
  unmarshal_index := toy_read_index;
  marshal_index := toy_index_json;
  unmarshal_manifest := toy_read_manifest;
  marshal_layout := "layout";
  schema_manifest_ok _ := true;
  schema_index_ok _ := true;
  schema_empty_layers _ := false;
  docker_manifest_refs _ := None;
  docker_list_refs _ := None
|}.

#[export] Instance toy_codec_laws : OciCodecLaws (fun _ => True).
Proof. split. intros i _. apply toy_index_roundtrip. Qed.

(** ** A store: index.json and the blobs by digest *)
Record toy_store : Type := mkToy { toy_index : string; toy_blobs : gmap string string }.

Definition toy_view (s : toy_store) (d : string) : res string :=
  match Validate d with
  | Some e => Err e
  | None => match toy_blobs s !! d with Some c => Ok c | None => Err ErrBlobNotFound end
  end.

#[export] Instance toy_image_store : ImageStoreI toy_store := {|
  RootDir _ := [""; "root"];
  DirExists _ _ := true;
  GetBlobContent _ d := fun s => (toy_view s d, s);
  GetIndexContent _ := fun s => (Ok (toy_index s), s);
  StatBlob _ d := fun s =>
    (match toy_view s d with
     | Ok c => Ok (true, Z.of_nat (String.length c), 0%Z)
     | Err e => Err e
     end, s)
|}.

(** Descriptors for examples. *)
Definition desc_of (mt content : string) : Descriptor :=
  mkDescriptor mt (FromBytes "sha256" content) (Z.of_nat (String.length content)) ∅ "".
Definition tagged (tag : string) (d : Descriptor) : Descriptor :=
  mkDescriptor (MediaType d) (Digest d) (Size d) {[AnnotationRefName := tag]} (ArtifactType d).
Definition toy_of (idx : Index) (contents : list string) : toy_store :=
  mkToy (marshal_index idx)
    (list_to_map ((fun c => (FromBytes "sha256" c, c)) <$> contents)).
Definition index_of (ms : list Descriptor) : Index := mkIndex 2 MediaTypeImageIndex "" ms None ∅.
Definition manifest_of (config : Descriptor) (layers : list Descriptor) : Manifest :=
  mkManifest "" config layers None ∅.

(** ** The standard library: sort.Slice as an insertion sort, maps in key order *)
Fixpoint sorted_insert {A} (less : A -> A -> bool) (x : A) (l : list A) : list A :=
  match l with
  | [] => [x]
  | y :: l' => if less y x then y :: sorted_insert less x l' else x :: y :: l'
  end.
#[export] Instance toy_sort : SliceSort := fun A less l => foldr (sorted_insert less) [] l.

Lemma sorted_insert_perm {A} (less : A -> A -> bool) x l : sorted_insert less x l ≡ₚ x :: l.
Proof.
  induction l as [|y l IH]; simpl; [done|]. destruct (less y x); [|done]. rewrite IH. apply Permutation_swap.
Qed.

#[export] Instance toy_sort_laws : SliceSortLaws.
Proof.
  split.
  - intros A less l. induction l as [|x l IH]; [done|]. unfold slice_sort, toy_sort in *. simpl.
    by rewrite sorted_insert_perm, IH.
  - intros A less l _ Htot. unfold slice_sort, toy_sort. induction l as [|x l IH]; simpl; [constructor|].
    induction IH as [|y l' Hs IH Hh]; simpl; [by repeat constructor|].
    destruct (less y x) eqn:E; [|by repeat constructor].
    constructor; [done|]. assert (less x y = false) as Exy.
    { destruct (Htot x y) as [Ht|Ht]; congruence. }
    destruct l' as [|z l']; simpl; [by constructor|]. inversion Hh; subst. destruct (less z x); by constructor.
Qed.

#[export] Instance toy_iter : MapIter := fun K A _ _ m => map_to_list m.
#[export] Instance toy_iter_laws : MapIterLaws.
Proof. intros K A ? ? m. done. Qed.
