(* ===== verification/RefGraph.v ===== *)
(** * The reference graph of a repository

    A specification of what "referenced by index.json" means, as an inductive
    reachability relation over the blobs of a repository, and the proof that
    the two walks of storage/common decide it: IsBlobReferenced, used by a
    single delete, and GetReferencedBlobs, used by garbage collection. *)

From Stdlib Require Import ZArith String.
From stdpp Require Import base tactics list gmap strings.
From S2P Require Import Prelude Oci IndexOps StorageCommon Concrete.

Lemma media_types_disjoint mt :
  IsImageIndexMediaType mt = true -> IsImageManifestMediaType mt = false.
Proof.
  unfold IsImageIndexMediaType, IsImageManifestMediaType, IsCompatibleManifestListMediaType,
    IsCompatibleManifestMediaType, contains, CompatibleManifestListMediaTypes,
    CompatibleManifestMediaTypes.
  intros [?%bool_decide_eq_true|?%bool_decide_eq_true]%orb_true_iff; subst.
  - vm_compute. done.
  - assert (mt = DockerMediaTypeManifestList) as -> by set_solver. vm_compute. done.
Qed.

Section graph.
Context `{GoDigest} `{OciCodec} {S : Type} `{ImageStoreI S}.
Context (repo : string) (view : string -> res string).

(** ** Reads that leave the store alone *)
Definition stable_at (s : S) : Prop := forall d, GetBlobContent repo d s = (view d, s).

Definition view_index (d : string) : res Index :=
  match Validate d with
  | Some e => Err e
  | None => match view d with
            | Err e => Err e
            | Ok buf => match unmarshal_index buf with None => Err ErrJSON | Some i => Ok i end
            end
  end.

Definition view_manifest (d : string) : res Manifest :=
  match view d with
  | Err e => Err e
  | Ok buf => match unmarshal_manifest buf with None => Err ErrJSON | Some m => Ok m end
  end.

Lemma GetImageIndex_stable s d : stable_at s -> GetImageIndex repo d s = (view_index d, s).
Proof.
  intros Hs. unfold GetImageIndex, view_index, bind. destruct (Validate d); [done|].
  rewrite Hs. destruct (view d); [|done]. by destruct (unmarshal_index a).
Qed.

Lemma GetImageManifest_stable s d : stable_at s -> GetImageManifest repo d s = (view_manifest d, s).
Proof.
  intros Hs. unfold GetImageManifest, view_manifest, bind. rewrite Hs.
  destruct (view d); [|done]. by destruct (unmarshal_manifest a).
Qed.

(** ** The specification *)
Definition in_manifest (x : string) (m : Manifest) : Prop :=
  x = Digest (Config m) \/ x ∈ Digest <$> Layers m.

Inductive reaches (x : string) : list Descriptor -> Prop :=
  | reaches_here ms d : d ∈ ms -> Digest d = x -> reaches x ms
  | reaches_index ms d idx :
      d ∈ ms -> IsImageIndexMediaType (MediaType d) = true ->
      view_index (Digest d) = Ok idx -> reaches x (Manifests idx) -> reaches x ms
  | reaches_manifest ms d m :
      d ∈ ms -> IsImageManifestMediaType (MediaType d) = true ->
      view_manifest (Digest d) = Ok m -> in_manifest x m -> reaches x ms.

(** A descriptor that occurs in the graph below [ms]. *)
Inductive listed (d : Descriptor) : list Descriptor -> Prop :=
  | listed_here ms : d ∈ ms -> listed d ms
  | listed_index ms d' idx :
      d' ∈ ms -> view_index (Digest d') = Ok idx -> listed d (Manifests idx) -> listed d ms.

(** The media type of a blob is the same wherever it is listed. *)
Definition consistent (mt : string -> string) (ms : list Descriptor) : Prop :=
  forall d, listed d ms -> MediaType d = mt (Digest d).

(** The walk stopped at a blob that exists and cannot be read. *)
Definition unreadable (e : err) (ms : list Descriptor) : Prop :=
  missing e = false /\
  exists d, listed d ms /\ (view_index (Digest d) = Err e \/ view_manifest (Digest d) = Err e).

Lemma listed_incl d ms ms' : (forall x, x ∈ ms -> x ∈ ms') -> listed d ms -> listed d ms'.
Proof. intros Hi Hl. inversion Hl; subst; [by apply listed_here; auto|]. eapply listed_index; eauto. Qed.

Lemma reaches_incl x ms ms' : (forall d, d ∈ ms -> d ∈ ms') -> reaches x ms -> reaches x ms'.
Proof.
  intros Hi Hr. inversion Hr; subst.
  - eapply reaches_here; eauto.
  - eapply reaches_index; eauto.
  - eapply reaches_manifest; eauto.
Qed.

Lemma reaches_tail x d ms : reaches x ms -> reaches x (d :: ms).
Proof. apply reaches_incl. intros ??. by apply list_elem_of_further. Qed.

Lemma listed_tail x d ms : listed x ms -> listed x (d :: ms).
Proof. apply listed_incl. intros ??. by apply list_elem_of_further. Qed.

Lemma consistent_tail mt d ms : consistent mt (d :: ms) -> consistent mt ms.
Proof. intros Hc x Hx. by apply Hc, listed_tail. Qed.

Lemma consistent_index mt d ms idx :
  view_index (Digest d) = Ok idx -> consistent mt (d :: ms) -> consistent mt (Manifests idx).
Proof. intros Hi Hc x Hx. apply Hc. eapply listed_index; [apply list_elem_of_here|done|done]. Qed.

Lemma unreadable_tail e d ms : unreadable e ms -> unreadable e (d :: ms).
Proof. intros (?&x&?&?). split; [done|]. exists x. split; [by apply listed_tail|done]. Qed.

Lemma unreadable_index e d ms idx :
  view_index (Digest d) = Ok idx -> unreadable e (Manifests idx) -> unreadable e (d :: ms).
Proof.
  intros Hi (?&x&?&?). split; [done|]. exists x. split; [|done].
  eapply listed_index; [apply list_elem_of_here|done|done].
Qed.

Lemma unreadable_here e d ms :
  missing e = false -> view_index (Digest d) = Err e \/ view_manifest (Digest d) = Err e ->
  unreadable e (d :: ms).
Proof. intros ? ?. split; [done|]. exists d. split; [by apply listed_here, list_elem_of_here|done]. Qed.
End graph.

(** ** IsBlobReferenced *)
Section is_referenced.
Context `{GoDigest} `{OciCodec} {S : Type} `{ImageStoreI S}.
Context (repo : string) (view : string -> res string) (s : S) (Hs : stable_at repo view s).
Context (dom : gset string) (Hdom : forall d idx, view_index view d = Ok idx -> d ∈ dom).
Context (mt : string -> string) (x : string).

Definition followed (d : Descriptor) : Prop :=
  IsImageIndexMediaType (MediaType d) = true \/ IsImageManifestMediaType (MediaType d) = true.

(** The children of [y] are not the target and have been visited. *)
Definition closed (y : string) (seen : gset string) : Prop :=
  (forall idx, IsImageIndexMediaType (mt y) = true -> view_index view y = Ok idx ->
     forall c, c ∈ Manifests idx -> Digest c <> x /\ (followed c -> Digest c ∈ seen)) /\
  (forall m, IsImageManifestMediaType (mt y) = true -> view_manifest view y = Ok m ->
     ~ in_manifest x m).

Definition explored (ms : list Descriptor) (seen seen' : gset string) : Prop :=
  (forall d, d ∈ ms -> Digest d <> x /\ (followed d -> Digest d ∈ seen')) /\
  (forall y, y ∈ seen' -> y ∈ seen \/ closed y seen').

Lemma closed_mono y s1 s2 : s1 ⊆ s2 -> closed y s1 -> closed y s2.
Proof.
  intros Hi [Hc1 Hc2]. split; [|done]. intros idx Hm Hv c Hc.
  destruct (Hc1 idx Hm Hv c Hc). split; [done|]. auto.
Qed.

(** What one call of the walk establishes about its outcome. *)
Definition walk_ok (n : nat) (ms : list Descriptor) (seen : gset string)
    (r : res (option (bool * gset string))) : Prop :=
  match r with
  | Ok None => n <= size (dom ∖ seen)
  | Ok (Some (true, _)) => reaches view x ms
  | Ok (Some (false, seen')) =>
      seen ⊆ seen' /\ (consistent view mt ms -> explored ms seen seen')
  | Err e => unreadable view e ms
  end.

Lemma walk_ok_skip n d ms seen r :
  x <> Digest d -> (followed d -> Digest d ∈ seen) ->
  walk_ok n ms seen r -> walk_ok n (d :: ms) seen r.
Proof.
  intros Hx Hf. destruct r as [[[[] seen']|]|e]; simpl.
  - apply reaches_tail.
  - intros [Hi He]. split; [done|]. intros Hc. destruct He as [He1 He2]; [by eapply consistent_tail|].
    split; [|done]. intros d' [->|Hd]%elem_of_cons; [|by apply He1]. split; [done|]. auto.
  - done.
  - apply unreadable_tail.
Qed.

Lemma size_visit y seen : y ∈ dom -> y ∉ seen -> size (dom ∖ ({[y]} ∪ seen)) < size (dom ∖ seen).
Proof. intros ? ?. apply subset_size. set_solver. Qed.

Lemma size_shrink seen seen' : seen ⊆ seen' -> size (dom ∖ seen') <= size (dom ∖ seen).
Proof. intros ?. apply subseteq_size. set_solver. Qed.

(** Continuing with the rest of the list once [d] has been marked and its
    children visited. *)
Lemma walk_ok_next n d ms seen seen1 r :
  x <> Digest d -> {[Digest d]} ∪ seen ⊆ seen1 ->
  (consistent view mt (d :: ms) ->
     forall y, y ∈ seen1 -> y ∈ seen \/ closed y seen1) ->
  walk_ok n ms seen1 r -> walk_ok n (d :: ms) seen r.
Proof.
  intros Hx Hsub Hcl. destruct r as [[[[] seen']|]|e]; simpl.
  - apply reaches_tail.
  - intros [Hi He]. split; [set_solver|]. intros Hc.
    destruct He as [He1 He2]; [by eapply consistent_tail|]. split.
    + intros d' [->|Hd]%elem_of_cons; [|by apply He1]. split; [done|]. intros _. set_solver.
    + intros y Hy. destruct (He2 y Hy) as [Hy1|]; [|by right].
      destruct (Hcl Hc y Hy1) as [|Hy2]; [by left|]. right. by eapply closed_mono.
  - intros Hn. etrans; [exact Hn|]. apply size_shrink. set_solver.
  - apply unreadable_tail.
Qed.

Lemma mark_closed d seen :
  closed (Digest d) ({[Digest d]} ∪ seen) ->
  forall y, y ∈ {[Digest d]} ∪ seen -> y ∈ seen \/ closed y ({[Digest d]} ∪ seen).
Proof. intros Hc y [->%elem_of_singleton|Hy]%elem_of_union; [by right|by left]. Qed.

Lemma head_type d ms : consistent view mt (d :: ms) -> MediaType d = mt (Digest d).
Proof. intros Hc. apply Hc, listed_here, list_elem_of_here. Qed.

Lemma referenced_in_manifest md :
  x <> md -> exists r, isBlobReferencedInImageManifest repo x md s = (r, s) /\
    match r with
    | Ok true => exists m, view_manifest view md = Ok m /\ in_manifest x m
    | Ok false => forall m, view_manifest view md = Ok m -> ~ in_manifest x m
    | Err e => missing e = false /\ view_manifest view md = Err e
    end.
Proof.
  intros Hx. unfold isBlobReferencedInImageManifest. rewrite decide_False by done.
  unfold bind, try. rewrite (GetImageManifest_stable _ view) by done.
  destruct (view_manifest view md) as [m|e] eqn:Em.
  - case_decide as Hc.
    + eexists; split; [done|]. simpl. exists m. split; [done|]. by left.
    + unfold ret. eexists; split; [done|]. simpl. destruct (existsb _ _) eqn:Ex.
      * exists m. split; [done|]. right. apply existsb_exists in Ex as (l&Hl&El).
        apply bool_decide_eq_true in El as ->. apply list_elem_of_fmap. exists l.
        split; [done|]. by apply list_elem_of_In.
      * intros m' [= <-] [?|Hl]; [done|]. apply list_elem_of_fmap in Hl as (l&->&Hl).
        apply not_true_iff_false in Ex. apply Ex, existsb_exists. exists l.
        rewrite bool_decide_eq_true. split; [by apply list_elem_of_In|done].
  - destruct (missing e) eqn:Hm; eexists; split; try done; simpl; try done.
Qed.

Lemma referenced_loop_ok n rec :
  (forall idx seen, exists r, rec idx seen s = (r, s) /\ walk_ok n (Manifests idx) seen r) ->
  forall ms seen, exists r, referenced_loop rec repo x ms seen s = (r, s) /\
    walk_ok (1 + n) ms seen r.
Proof.
  intros Hrec. induction ms as [|d ms IH]; intros seen; simpl.
  { eexists; split; [done|]. simpl. split; [done|]. intros _. split; [set_solver|]. by left. }
  case_decide as Hx.
  { eexists; split; [done|]. simpl. eapply reaches_here; [apply list_elem_of_here|done]. }
  case_decide as Hsn.
  { destruct (IH seen) as (r&E&Hr). exists r. split; [done|]. by apply walk_ok_skip. }
  destruct (IsImageIndexMediaType (MediaType d)) eqn:Hidx.
  { unfold bind at 1, try. rewrite (GetImageIndex_stable _ view) by done.
    pose proof (media_types_disjoint _ Hidx) as Hdis.
    destruct (view_index view (Digest d)) as [idx|e] eqn:Ei.
    - destruct (Hrec idx ({[Digest d]} ∪ seen)) as (r&E&Hr). unfold bind. rewrite E.
      destruct r as [[[[] seen1]|]|e]; simpl in Hr.
      + eexists; split; [done|]. simpl. eapply reaches_index; [apply list_elem_of_here|done..].
      + destruct (IH seen1) as (r&E'&Hr'). exists r. split; [done|].
        destruct Hr as [Hsub Hex]. apply (walk_ok_next _ _ _ seen seen1); [done..| |done].
        intros Hc y Hy. destruct Hex as [He1 He2]; [by eapply consistent_index|].
        destruct (He2 y Hy) as [Hy1|]; [|by right].
        apply elem_of_union in Hy1 as [->%elem_of_singleton|]; [|by left].
        right. pose proof (head_type _ _ Hc) as Ht. split.
        * intros idx' _ Hv c Hcin. rewrite Ei in Hv. simplify_eq. by apply He1.
        * intros m. rewrite <-Ht, Hdis. done.
      + eexists; split; [done|]. simpl.
        assert (size (dom ∖ ({[Digest d]} ∪ seen)) < size (dom ∖ seen)) by
          (by eapply size_visit; eauto). lia.
      + eexists; split; [done|]. simpl. by eapply unreadable_index.
    - destruct (missing e) eqn:Hm.
      + destruct (IH ({[Digest d]} ∪ seen)) as (r&E&Hr). exists r. split; [done|].
        apply (walk_ok_next _ _ _ seen ({[Digest d]} ∪ seen)); [done..| |done].
        intros Hc. apply mark_closed. pose proof (head_type _ _ Hc) as Ht.
        split; [congruence|]. intros m. rewrite <-Ht, Hdis. done.
      + eexists; split; [done|]. simpl. eapply unreadable_here; [done|]. by left. }
  destruct (IsImageManifestMediaType (MediaType d)) eqn:Hman.
  { unfold bind. destruct (referenced_in_manifest (Digest d) Hx) as (r&E&Hr). rewrite E.
    destruct r as [[]|e].
    - eexists; split; [done|]. simpl. destruct Hr as (m&Hv&Hm).
      eapply reaches_manifest; [apply list_elem_of_here|done..].
    - destruct (IH ({[Digest d]} ∪ seen)) as (r&E'&Hr'). exists r. split; [done|].
      apply (walk_ok_next _ _ _ seen ({[Digest d]} ∪ seen)); [done..| |done].
      intros Hc. apply mark_closed. pose proof (head_type _ _ Hc) as Ht.
      split; [intros idx; rewrite <-Ht, Hidx; done|]. intros m _. apply Hr.
    - destruct Hr as [Hm Hv]. eexists; split; [done|]. simpl. eapply unreadable_here; [done|]. by right. }
  destruct (IH seen) as (r&E&Hr). exists r. split; [done|]. apply walk_ok_skip; [done| |done].
  intros [?|?]; congruence.
Qed.

Lemma is_referenced_ok n idx seen : exists r,
  isBlobReferencedInImageIndex n repo x idx seen s = (r, s) /\ walk_ok n (Manifests idx) seen r.
Proof.
  revert idx seen. induction n as [|n IH]; intros idx seen; simpl.
  - eexists; split; [done|]. simpl. lia.
  - by apply referenced_loop_ok.
Qed.

(** An explored graph does not reach the target. *)
Lemma explored_not_reached ms seen' :
  consistent view mt ms -> explored ms ∅ seen' -> ~ reaches view x ms.
Proof.
  intros Hc [He1 He2].
  assert (forall y, y ∈ seen' -> closed y seen') as Hcl.
  { intros y Hy. destruct (He2 y Hy); [set_solver|done]. }
  clear He2. intros Hr. revert Hc He1.
  induction Hr as [ms d Hd Ex|ms d idx Hd Hidx Hv Hr IH|ms d m Hd Hman Hv Hm]; intros Hc He1.
  - by destruct (He1 d Hd).
  - assert (MediaType d = mt (Digest d)) as Ht by by apply Hc, listed_here.
    destruct (He1 d Hd) as [_ Hf]. destruct (Hcl (Digest d)) as [Hcl1 _]; [apply Hf; by left|].
    apply IH.
    + intros c Hcc. apply Hc. eapply listed_index; eauto.
    + intros c Hcc. apply (Hcl1 idx); [by rewrite <-Ht|done..].
  - assert (MediaType d = mt (Digest d)) as Ht by by apply Hc, listed_here.
    destruct (He1 d Hd) as [_ Hf]. destruct (Hcl (Digest d)) as [_ Hcl2]; [apply Hf; by right|].
    by apply (Hcl2 m); [rewrite <-Ht|..].
Qed.
End is_referenced.

(** ** GetReferencedBlobs *)
Section collect.
Context `{GoDigest} `{OciCodec} {S : Type} `{ImageStoreI S}.
Context (repo : string) (view : string -> res string) (s : S) (Hs : stable_at repo view s).
Context (dom : gset string) (Hdom : forall d idx, view_index view d = Ok idx -> d ∈ dom).
Context (mt : string -> string).

Definition gathered (y : string) (referenced seen : gset string) : Prop :=
  (forall idx, IsImageIndexMediaType (mt y) = true -> view_index view y = Ok idx ->
     forall c, c ∈ Manifests idx -> Digest c ∈ referenced /\ Digest c ∈ seen) /\
  (forall m, IsImageManifestMediaType (mt y) = true -> view_manifest view y = Ok m ->
     forall x, in_manifest x m -> x ∈ referenced).

Lemma gathered_mono y r1 r2 s1 s2 : r1 ⊆ r2 -> s1 ⊆ s2 -> gathered y r1 s1 -> gathered y r2 s2.
Proof.
  intros Hr Hse [Hg1 Hg2]. split.
  - intros idx Hm Hv c Hc. destruct (Hg1 idx Hm Hv c Hc). auto.
  - intros m Hm Hv z Hz. apply Hr. by eapply Hg2.
Qed.

Definition collect_ok (n : nat) (ms : list Descriptor) (referenced seen : gset string)
    (r : res (option (gset string * gset string))) : Prop :=
  match r with
  | Ok None => n <= size (dom ∖ seen)
  | Ok (Some (referenced', seen')) =>
      referenced ⊆ referenced' /\ seen ⊆ seen' /\
      (forall x, x ∈ referenced' -> x ∈ referenced \/ reaches view x ms) /\
      (consistent view mt ms ->
         (forall d, d ∈ ms -> Digest d ∈ referenced' /\ Digest d ∈ seen') /\
         (forall y, y ∈ seen' -> y ∈ seen \/ gathered y referenced' seen'))
  | Err e => unreadable view e ms
  end.

(** Continuing with the rest of the list once [d] has been marked and its
    children collected into [ref1]. *)
Lemma collect_ok_next n d ms referenced seen ref1 seen1 r :
  {[Digest d]} ∪ referenced ⊆ ref1 -> {[Digest d]} ∪ seen ⊆ seen1 ->
  (forall x, x ∈ ref1 -> x ∈ referenced \/ reaches view x (d :: ms)) ->
  (consistent view mt (d :: ms) ->
     forall y, y ∈ seen1 -> y ∈ seen \/ gathered y ref1 seen1) ->
  collect_ok n ms ref1 seen1 r -> collect_ok n (d :: ms) referenced seen r.
Proof.
  intros Hsr Hss Hsound Hg. destruct r as [[[ref' seen']|]|e]; simpl.
  - intros (Hr&Hse&Hso&Hco). split; [set_solver|]. split; [set_solver|]. split.
    + intros y Hy. destruct (Hso y Hy) as [Hy1|]; [auto|]. right. by apply reaches_tail.
    + intros Hc. destruct Hco as [Hc1 Hc2]; [by eapply consistent_tail|]. split.
      * intros d' [->|Hd]%elem_of_cons; [set_solver|by apply Hc1].
      * intros y Hy. destruct (Hc2 y Hy) as [Hy1|]; [|by right].
        destruct (Hg Hc y Hy1) as [|Hy2]; [by left|]. right. by eapply gathered_mono.
  - intros Hn. etrans; [exact Hn|]. apply subseteq_size. set_solver.
  - apply unreadable_tail.
Qed.

Lemma mark_sound d ms (referenced : gset string) y :
  y ∈ {[Digest d]} ∪ referenced -> y ∈ referenced \/ reaches view y (d :: ms).
Proof.
  intros [->%elem_of_singleton|]%elem_of_union; [|by left].
  right. eapply reaches_here; [apply list_elem_of_here|done].
Qed.

Lemma mark_gathered d ref1 seen :
  gathered (Digest d) ref1 ({[Digest d]} ∪ seen) ->
  forall y, y ∈ {[Digest d]} ∪ seen -> y ∈ seen \/ gathered y ref1 ({[Digest d]} ∪ seen).
Proof. intros Hg y [->%elem_of_singleton|Hy]%elem_of_union; [by right|by left]. Qed.

Lemma in_layers x m : x ∈ (list_to_set (Digest <$> Layers m) ∪ {[Digest (Config m)]} : gset string)
  <-> in_manifest x m.
Proof. unfold in_manifest. rewrite elem_of_union, elem_of_list_to_set, elem_of_singleton. tauto. Qed.

Lemma collect_loop_ok n rec :
  (forall idx referenced seen, exists r, rec idx referenced seen s = (r, s) /\
     collect_ok n (Manifests idx) referenced seen r) ->
  forall ms referenced seen, exists r, collect_loop rec repo ms referenced seen s = (r, s) /\
    collect_ok (1 + n) ms referenced seen r.
Proof.
  intros Hrec. induction ms as [|d ms IH]; intros referenced seen; simpl.
  { eexists; split; [done|]. simpl. split; [done|]. split; [done|]. split; [by left|].
    intros _. split; [set_solver|]. by left. }
  set (ref0 := {[Digest d]} ∪ referenced).
  case_decide as Hsn.
  { destruct (IH ref0 seen) as (r&E&Hr). exists r. split; [done|].
    apply (collect_ok_next _ _ _ _ _ ref0 seen); [done|set_solver|apply mark_sound|by left|done]. }
  set (seen0 := {[Digest d]} ∪ seen).
  (* the case where the children of [d] are not looked at *)
  assert ((consistent view mt (d :: ms) -> gathered (Digest d) ref0 seen0) ->
    exists r, collect_loop rec repo ms ref0 seen0 s = (r, s) /\
      collect_ok (1 + n) (d :: ms) referenced seen r) as Hplain.
  { intros Hg. destruct (IH ref0 seen0) as (r&E&Hr). exists r. split; [done|].
    apply (collect_ok_next _ _ _ _ _ ref0 seen0); [done|done|apply mark_sound| |done].
    intros Hc. apply mark_gathered. auto. }
  destruct (IsImageIndexMediaType (MediaType d)) eqn:Hidx.
  { pose proof (media_types_disjoint _ Hidx) as Hdis.
    unfold bind at 1, try. rewrite (GetImageIndex_stable _ view) by done.
    destruct (view_index view (Digest d)) as [idx|e] eqn:Ei.
    - destruct (Hrec idx ref0 seen0) as (r&E&Hr). unfold bind. rewrite E.
      destruct r as [[[ref1 seen1]|]|e]; simpl in Hr.
      + destruct (IH ref1 seen1) as (r&E'&Hr'). exists r. split; [done|].
        destruct Hr as (Hr1&Hr2&Hso&Hco).
        apply (collect_ok_next _ _ _ _ _ ref1 seen1); [done|done| | |done].
        * intros y Hy. destruct (Hso y Hy) as [Hy1|Hy1]; [by apply mark_sound|].
          right. eapply reaches_index; [apply list_elem_of_here|done..].
        * intros Hc y Hy. destruct Hco as [Hc1 Hc2]; [by eapply consistent_index|].
          destruct (Hc2 y Hy) as [Hy1|]; [|by right].
          apply elem_of_union in Hy1 as [->%elem_of_singleton|]; [|by left].
          right. pose proof (head_type _ _ _ _ Hc) as Ht. split.
          -- intros idx' _ Hv c Hcin. rewrite Ei in Hv. simplify_eq. by apply Hc1.
          -- intros m. rewrite <-Ht, Hdis. done.
      + eexists; split; [done|]. simpl.
        assert (size (dom ∖ seen0) < size (dom ∖ seen)) by (apply subset_size; specialize (Hdom _ _ Ei); subst seen0; clear -Hdom Hsn; set_solver). lia.
      + eexists; split; [done|]. simpl. by eapply unreadable_index.
    - destruct (missing e) eqn:Hm.
      + apply Hplain. intros Hc. pose proof (head_type _ _ _ _ Hc) as Ht.
        split; [congruence|]. intros m. rewrite <-Ht, Hdis. done.
      + eexists; split; [done|]. simpl. eapply unreadable_here; [done|]. by left. }
  destruct (IsImageManifestMediaType (MediaType d)) eqn:Hman.
  { unfold bind, try. rewrite (GetImageManifest_stable _ view) by done.
    destruct (view_manifest view (Digest d)) as [m|e] eqn:Em.
    - set (ref1 := list_to_set (Digest <$> Layers m) ∪ ({[Digest (Config m)]} ∪ ref0)).
      destruct (IH ref1 seen0) as (r&E&Hr). exists r. split; [done|].
      assert (forall y, y ∈ ref1 <-> y ∈ ref0 \/ in_manifest y m) as Href1.
      { intros y. rewrite <-in_layers. subst ref1. set_solver. }
      apply (collect_ok_next _ _ _ _ _ ref1 seen0); [set_solver|done| | |done].
      + intros y [Hy|Hy]%Href1; [by apply mark_sound|].
        right. eapply reaches_manifest; [apply list_elem_of_here|done..].
      + intros Hc. apply mark_gathered. pose proof (head_type _ _ _ _ Hc) as Ht.
        split; [intros idx; rewrite <-Ht, Hidx; done|].
        intros m' _ Hv y Hy. rewrite Em in Hv. simplify_eq. apply Href1. by right.
    - destruct (missing e) eqn:Hm.
      + apply Hplain. intros Hc. pose proof (head_type _ _ _ _ Hc) as Ht.
        split; [intros idx; rewrite <-Ht, Hidx; done|congruence].
      + eexists; split; [done|]. simpl. eapply unreadable_here; [done|]. by right. }
  apply Hplain. intros Hc. pose proof (head_type _ _ _ _ Hc) as Ht.
  split; intros ?; rewrite <-Ht; congruence.
Qed.

Lemma collect_referenced_ok n idx referenced seen : exists r,
  collectReferencedBlobs n repo idx referenced seen s = (r, s) /\
  collect_ok n (Manifests idx) referenced seen r.
Proof.
  revert idx referenced seen. induction n as [|n IH]; intros idx referenced seen; simpl.
  - eexists; split; [done|]. simpl. lia.
  - by apply collect_loop_ok.
Qed.

(** A gathered graph has all it reaches. *)
Lemma gathered_reached ms referenced seen :
  consistent view mt ms ->
  (forall d, d ∈ ms -> Digest d ∈ referenced /\ Digest d ∈ seen) ->
  (forall y, y ∈ seen -> gathered y referenced seen) ->
  forall x, reaches view x ms -> x ∈ referenced.
Proof.
  intros Hc Hh Hg x Hr. revert Hc Hh.
  induction Hr as [ms d Hd Ex|ms d idx Hd Hidx Hv Hr IH|ms d m Hd Hman Hv Hm]; intros Hc Hh.
  - subst. by apply Hh.
  - assert (MediaType d = mt (Digest d)) as Ht by by apply Hc, listed_here.
    destruct (Hg (Digest d)) as [Hg1 _]; [by apply Hh|]. apply IH.
    + intros c Hcc. apply Hc. eapply listed_index; eauto.
    + intros c Hcc. apply (Hg1 idx); [by rewrite <-Ht|done..].
  - assert (MediaType d = mt (Digest d)) as Ht by by apply Hc, listed_here.
    destruct (Hg (Digest d)) as [_ Hg2]; [by apply Hh|]. apply (Hg2 m); [by rewrite <-Ht|done..].
Qed.
End collect.

(** ** Properties *)
Section properties.
Context `{GoDigest} `{OciCodec} {S : Type} `{ImageStoreI S}.
Context (repo : string) (view : string -> res string) (s : S) (dom : gset string)
  (mt : string -> string) (index : Index).

(** What the two walks need: reads that leave the store alone, finitely many
    readable indexes, one media type per digest, an index.json to start from. *)
Record walkable : Prop := {
  w_stable : stable_at repo view s;
  w_dom : forall d idx, view_index view d = Ok idx -> d ∈ dom;
  w_consistent : consistent view mt (Manifests index);
  w_dir : DirExists (repo_dir repo s) s = true;
  w_index : GetIndex repo s = (Ok index, s)
  }.

Lemma is_referenced_run (x : string) (n : nat) : walkable -> size dom < n ->
  exists r, IsBlobReferenced n repo x s = (r, s) /\
    match r with
    | Ok (Some b) => b = true <-> reaches view x (Manifests index)
    | Ok None => False
    | Err e => unreadable view e (Manifests index)
    end.
Proof.
  intros [Hs Hdom Hc Hd Hi] Hn. unfold IsBlobReferenced, IsBlobReferencedInImageIndex, bind, get.
  rewrite Hd. cbn [negb]. rewrite Hi.
  destruct (is_referenced_ok repo view s Hs dom Hdom mt x n index ∅) as (r&E&Hr).
  rewrite E. destruct r as [[[[] seen]|]|e]; simpl in Hr.
  - eexists; split; [done|]. done.
  - eexists; split; [done|]. simpl. split; [done|]. intros Hx. destruct Hr as [_ He].
    exfalso. by eapply (explored_not_reached repo view s Hs dom Hdom); [exact Hc|apply He|].
  - assert (dom ∖ ∅ = dom) as Ed by set_solver. rewrite Ed in Hr. lia.
  - eexists; split; [done|]. done.
Qed.

Lemma referenced_blobs_run (n : nat) : walkable -> size dom < n ->
  exists r, GetReferencedBlobs n repo s = (r, s) /\
    match r with
    | Ok (Some referenced) => forall x, x ∈ referenced <-> reaches view x (Manifests index)
    | Ok None => False
    | Err e => unreadable view e (Manifests index)
    end.
Proof.
  intros [Hs Hdom Hc Hd Hi] Hn. unfold GetReferencedBlobs, bind, get. rewrite Hd. cbn [negb]. rewrite Hi.
  destruct (collect_referenced_ok repo view s Hs dom Hdom mt n index ∅ ∅) as (r&E&Hr).
  rewrite E. destruct r as [[[referenced seen]|]|e]; simpl in Hr.
  - eexists; split; [done|]. simpl. destruct Hr as (_&_&Hso&Hco).
    destruct (Hco Hc) as [Hc1 Hc2]. intros x. split.
    + intros Hx. destruct (Hso x Hx); [set_solver|done].
    + apply (gathered_reached view mt _ referenced seen); [done|done|].
      intros y Hy. destruct (Hc2 y Hy); [set_solver|done].
  - assert (dom ∖ ∅ = dom) as Ed by set_solver. rewrite Ed in Hr. lia.
  - eexists; split; [done|]. done.
Qed.
End properties.


(** GetReferencedBlobs returns exactly the digests reachable from
    index.json, under the same conditions. *)
Theorem get_referenced_blobs_exact `{GoDigest} `{OciCodec} {S : Type} `{ImageStoreI S}
    (repo : string) (view : string -> res string) (s : S) (dom : gset string)
    (mt : string -> string) (index : Index) (n : nat) :
  walkable repo view s dom mt index -> size dom < n ->
  exists r, GetReferencedBlobs n repo s = (r, s) /\
    match r with
    | Ok (Some referenced) => forall x, x ∈ referenced <-> reaches view x (Manifests index)
    | Ok None => False
    | Err e => unreadable view e (Manifests index)
    end.
Proof. by apply referenced_blobs_run. Qed.

(** The check of a single delete and the set used by garbage collection
    agree whenever both return. *)
Theorem referenced_walks_agree `{GoDigest} `{OciCodec} {S : Type} `{ImageStoreI S}
    (repo : string) (view : string -> res string) (s : S) (dom : gset string)
    (mt : string -> string) (index : Index) (x : string) (n : nat) (b : bool)
    (referenced : gset string) :
  walkable repo view s dom mt index -> size dom < n ->
  fst (IsBlobReferenced n repo x s) = Ok (Some b) ->
  fst (GetReferencedBlobs n repo s) = Ok (Some referenced) ->
  b = bool_decide (x ∈ referenced).
Proof.
  intros Hw Hn H1' H2'.
  destruct (is_referenced_run repo view s dom mt index x n Hw Hn) as (r1&E1&Hr1).
  destruct (referenced_blobs_run repo view s dom mt index n Hw Hn) as (r2&E2&Hr2).
  rewrite E1 in H1'. rewrite E2 in H2'. simpl in *. subst.
  destruct b; symmetry; [apply bool_decide_eq_true|apply bool_decide_eq_false].
  - apply Hr2. by apply Hr1.
  - intros Hx%Hr2. by apply Hr1 in Hx.
Qed.

(** ** Checking the hypotheses on a concrete store *)
Section check.
Context `{GoDigest} `{OciCodec} (view : string -> res string).

(** [l] holds every descriptor of the graph, each with its media type. *)
Definition covers (mt : string -> string) (l : list Descriptor) : bool :=
  forallb (fun d => bool_decide (MediaType d = mt (Digest d)) &&
    match view_index view (Digest d) with
    | Ok idx => forallb (contains l) (Manifests idx)
    | Err _ => true
    end) l.

Lemma covers_consistent mt l ms :
  covers mt l = true -> forallb (contains l) ms = true -> consistent view mt ms.
Proof.
  intros Hl Hms d Hd. unfold covers in Hl. rewrite forallb_forall in Hl.
  assert (forall ms, forallb (contains l) ms = true -> forall c, c ∈ ms -> In c l) as Hin.
  { intros ms' Hf c Hc%list_elem_of_In. rewrite forallb_forall in Hf. apply Hf in Hc.
    by apply bool_decide_eq_true, list_elem_of_In in Hc. }
  induction Hd as [ms Hd|ms d' idx Hd' Hv Hd IH].
  - apply (Hin _ Hms) in Hd. apply Hl, andb_prop in Hd as [?%bool_decide_eq_true _]. done.
  - apply IH. apply (Hin _ Hms) in Hd'. apply Hl, andb_prop in Hd' as [_ Hf]. by rewrite Hv in Hf.
Qed.
End check.

Lemma toy_walkable (s : toy_store) (mt : string -> string) (index : Index) (l : list Descriptor) :
  toy_index s = marshal_index index ->
  covers (toy_view s) mt l = true -> forallb (contains l) (Manifests index) = true ->
  walkable "repo" (toy_view s) s (base.dom (toy_blobs s)) mt index.
Proof.
  intros Hi Hl Hms. split.
  - intros d. done.
  - intros d idx. unfold view_index, toy_view. destruct (Validate d); [done|].
    destruct (toy_blobs s !! d) eqn:E; [|done]. intros _. by apply elem_of_dom.
  - by eapply covers_consistent.
  - done.
  - unfold GetIndex, bind, try, GetIndexContent, toy_image_store. rewrite Hi.
    by rewrite (index_roundtrip (text := fun _ => True)).
Qed.

(** A repository with an image index over one image, itself also listed. *)
Module Sample.
Definition cfg : Descriptor := desc_of MediaTypeImageConfig "c".
Definition layer : Descriptor := desc_of "layer" "l".
Definition image : string := toy_manifest (manifest_of cfg [layer]).
Definition image_desc : Descriptor := desc_of MediaTypeImageManifest image.
Definition multi : string := marshal_index (index_of [image_desc]).
Definition multi_desc : Descriptor := desc_of MediaTypeImageIndex multi.
Definition index : Index := index_of [tagged "v1" multi_desc; image_desc].
Definition store : toy_store := toy_of index ["c"; "l"; image; multi]%string.
Definition types (d : string) : string :=
  if decide (d = Digest multi_desc) then MediaTypeImageIndex else MediaTypeImageManifest.
Definition all : list Descriptor := image_desc :: Manifests index.

(** The same digest listed first with a media type the walks do not follow. *)
Definition odd_index : Index :=
  index_of [desc_of "application/octet-stream" image; image_desc].
Definition odd_store : toy_store := toy_of odd_index ["c"; "l"; image]%string.
End Sample.

Lemma sample_walkable : walkable "repo" (toy_view Sample.store) Sample.store
  (base.dom (toy_blobs Sample.store)) Sample.types Sample.index.
Proof. by apply (toy_walkable _ _ _ Sample.all); vm_compute. Qed.


Lemma get_referenced_blobs_exact_witness :
  exists r, GetReferencedBlobs 10 "repo" Sample.store = (r, Sample.store) /\
    match r with
    | Ok (Some referenced) => forall x, x ∈ referenced <->
        reaches (toy_view Sample.store) x (Manifests Sample.index)
    | Ok None => False
    | Err e => unreadable (toy_view Sample.store) e (Manifests Sample.index)
    end.
Proof.
  apply (get_referenced_blobs_exact "repo" (toy_view Sample.store) Sample.store
    (base.dom (toy_blobs Sample.store)) Sample.types Sample.index 10).
  - apply sample_walkable.
  - vm_compute. lia.
Defined.

Lemma referenced_walks_agree_witness :
  true = bool_decide (Digest Sample.layer ∈
    ({[Digest Sample.cfg; Digest Sample.layer; Digest Sample.image_desc; Digest Sample.multi_desc]}
       : gset string)).
Proof.
  apply (referenced_walks_agree "repo" (toy_view Sample.store) Sample.store
    (base.dom (toy_blobs Sample.store)) Sample.types Sample.index (Digest Sample.layer) 10).
  - apply sample_walkable.
  - vm_compute. lia.
  - vm_compute. reflexivity.
  - apply (bool_decide_eq_true_1 _). vm_compute. reflexivity.
Defined.

(** Without one media type per digest the two walks disagree: when a digest
    is listed first under a media type neither walk follows and again as an
    image manifest, GetReferencedBlobs skips the second occurrence, so the
    image's config and layers are missing from the set although
    IsBlobReferenced reports them as referenced. *)
Theorem referenced_walks_disagree :
  fst (IsBlobReferenced 10 "repo" (Digest Sample.layer) Sample.odd_store) = Ok (Some true) /\
  exists referenced,
    fst (GetReferencedBlobs 10 "repo" Sample.odd_store) = Ok (Some referenced) /\
    Digest Sample.layer ∉ referenced /\ Digest Sample.cfg ∉ referenced.
Proof.
  split; [vm_compute; reflexivity|].
  exists ({[Digest Sample.image_desc]} : gset string).
  split; [apply (bool_decide_eq_true_1 _); vm_compute; reflexivity|].
  split; apply (bool_decide_eq_true_1 _); vm_compute; reflexivity.
Qed.
