(* ===== verification/Pruning.v ===== *)
(** * What pruning an image index removes from index.json

    PruneImageManifestsFromIndex and UpdateIndexWithPrunedImageManifests of
    storage/common, on a store whose reads do not change it. *)

From Stdlib Require Import ZArith String.
From stdpp Require Import base tactics list gmap strings.
From S2P Require Import Prelude Oci IndexOps StorageCommon Concrete RefGraph.

Section pruning.
Context `{GoDigest} `{OciCodec} {S : Type} `{ImageStoreI S}.
Context (repo : string) (view : string -> res string) (s : S) (Hs : stable_at repo view s).

(** Occurrences of an encoded digest in a list of descriptors. *)
Definition occ (k : string) (ms : list Descriptor) : nat :=
  length (filter (fun m => Encoded (Digest m) = k) ms).

(** Occurrences in the indexes of [others] that can be read. *)
Fixpoint occ_others (k : string) (others : list Descriptor) : nat :=
  match others with
  | [] => 0
  | o :: rest =>
      match view_index view (Digest o) with
      | Ok idx => occ k (Manifests idx)
      | Err _ => 0
      end + occ_others k rest
  end.

Lemma occ_cons k m ms :
  occ k (m :: ms) = (if decide (Encoded (Digest m) = k) then 1 else 0) + occ k ms.
Proof. unfold occ. rewrite filter_cons. by case_decide. Qed.

Lemma occ_app k ms1 ms2 : occ k (ms1 ++ ms2) = occ k ms1 + occ k ms2.
Proof. unfold occ. by rewrite filter_app, length_app. Qed.

Lemma occ_others_app k o1 o2 : occ_others k (o1 ++ o2) = occ_others k o1 + occ_others k o2.
Proof. induction o1 as [|o o1 IH]; simpl; [done|]. rewrite IH. lia. Qed.

Lemma incr_fold ms (m0 : gmap string nat) k :
  default 0 (foldl (fun m d => incr m (Encoded (Digest d))) m0 ms !! k) = default 0 (m0 !! k) + occ k ms
  /\ (is_Some (foldl (fun m d => incr m (Encoded (Digest d))) m0 ms !! k) <->
      is_Some (m0 !! k) \/ occ k ms <> 0).
Proof.
  revert m0. induction ms as [|d ms IH]; intros m0; simpl.
  { unfold occ. simpl. split; [lia|]. intuition. }
  destruct (IH (incr m0 (Encoded (Digest d)))) as [IH1 IH2]. rewrite IH1, IH2, occ_cons.
  unfold incr. rewrite lookup_insert. case_decide as Hd; subst; simpl.
  - split; [lia|]. split; [by right; lia|]. left; eauto.
  - split; [lia|]. intuition.
Qed.

Lemma incr_present_fold ms (m0 : gmap string nat) k :
  foldl (fun m d => incr_present m (Encoded (Digest d))) m0 ms !! k = (fun n => n + occ k ms) <$> m0 !! k.
Proof.
  revert m0. induction ms as [|d ms IH]; intros m0; simpl.
  { unfold occ. simpl. destruct (m0 !! k); simpl; [f_equal; lia|done]. }
  rewrite IH, occ_cons. unfold incr_present.
  destruct (m0 !! Encoded (Digest d)) as [n|] eqn:E.
  - rewrite lookup_insert. case_decide as Hd; subst; rewrite ?E; simpl.
    + f_equal. lia.
    + destruct (m0 !! k); simpl; [f_equal; lia|done].
  - case_decide as Hd; subst; rewrite ?E; simpl; [done|]. done.
Qed.

Lemma count_others_run others : forall inUse counts s',
  count_others repo inUse others s = (Ok counts, s') ->
  s' = s /\ forall k, counts !! k = (fun n => n + occ_others k others) <$> inUse !! k.
Proof.
  induction others as [|o rest IH]; intros inUse counts s'; simpl.
  - intros [= <- <-]. split; [done|]. intros k. destruct (inUse !! k); simpl; [f_equal; lia|done].
  - unfold bind, try. rewrite (GetImageIndex_stable _ view) by done.
    destruct (view_index view (Digest o)) as [idx|e].
    + intros [-> Hk]%IH. split; [done|]. intros k. rewrite Hk, incr_present_fold.
      destruct (inUse !! k); simpl; [f_equal; lia|done].
    + destruct (missing e); [|done]. intros [-> Hk]%IH. split; [done|]. intros k. by rewrite Hk.
Qed.

Lemma count_others_readable others : forall inUse counts s',
  count_others repo inUse others s = (Ok counts, s') ->
  forall o e, o ∈ others -> view_index view (Digest o) = Err e -> missing e = true.
Proof.
  induction others as [|o rest IH]; intros inUse counts s'; simpl.
  - intros _ o e Ho. set_solver.
  - unfold bind, try. rewrite (GetImageIndex_stable _ view) by done.
    destruct (view_index view (Digest o)) as [idx|e] eqn:E.
    + intros Hr o' e [->|Ho]%elem_of_cons Hv; [congruence|eauto].
    + destruct (missing e) eqn:Hm; [|done].
      intros Hr o' e' [->|Ho]%elem_of_cons Hv; [congruence|eauto].
Qed.

(** The descriptors pruning drops: untagged image manifests listed once in
    the old index and in none of the other indexes. *)
Definition prunable (old : Index) (others : list Descriptor) (m : Descriptor) : Prop :=
  IsImageManifestMediaType (MediaType m) = true /\ ref_name m = None /\
  occ (Encoded (Digest m)) (Manifests old) = 1 /\ occ_others (Encoded (Digest m)) others = 0.
#[global] Instance prunable_dec old others m : Decision (prunable old others m).
Proof. unfold prunable. apply _. Defined.

Lemma prune_keeps_spec old others counts m :
  (forall k, counts !! k = (fun n => n + occ_others k others) <$>
     foldl (fun m d => incr m (Encoded (Digest d))) ∅ (Manifests old) !! k) ->
  prune_keeps counts m = true <-> ~ prunable old others m.
Proof.
  intros Hc. unfold prune_keeps, prunable.
  destruct (IsImageManifestMediaType (MediaType m)); simpl; [|naive_solver].
  destruct (ref_name m); [naive_solver|]. rewrite Hc.
  destruct (incr_fold (Manifests old) ∅ (Encoded (Digest m))) as [E1 E2].
  rewrite lookup_empty in E1, E2. simpl in E1.
  destruct (_ !! _) as [n|]; simpl in *.
  - rewrite negb_true_iff, Nat.eqb_neq. subst n.
    assert (occ (Encoded (Digest m)) (Manifests old) <> 0).
    { destruct E2 as [E2 _]. destruct E2 as [[? [=]]|]; eauto. }
    split; [intros ? (?&?&?&?); lia|]. intros Hn. intros ?. apply Hn.
    repeat split; lia.
  - split; [|done]. intros _ (_&_&Ho&_).
    destruct E2 as [_ E2]. destruct E2 as [? [=]]. right. lia.
Qed.

Lemma prune_run digest outIndex others kept s' :
  PruneImageManifestsFromIndex repo digest outIndex others s = (Ok kept, s') ->
  s' = s /\ exists buf old, view digest = Ok buf /\ unmarshal_index buf = Some old /\
    kept = filter (fun m => ~ prunable old others m) (Manifests outIndex) /\
    (forall o e, o ∈ others -> view_index view (Digest o) = Err e -> missing e = true).
Proof.
  unfold PruneImageManifestsFromIndex. intros (buf&s1&E1&E2)%bind_ok. rewrite Hs in E1.
  injection E1 as E1 <-. destruct (unmarshal_index buf) as [old|] eqn:Eu; [|done].
  apply bind_ok in E2 as (counts&s2&E2&[= <- <-]).
  pose proof (count_others_readable _ _ _ _ E2) as Hre.
  apply count_others_run in E2 as [-> Hk]. split; [done|]. exists buf, old.
  split; [done|]. split; [done|]. split; [|done].
  apply list_filter_iff. intros m. by apply prune_keeps_spec.
Qed.
End pruning.

(** Pruning an old index keeps the order of index.json and drops exactly
    the untagged image manifests that the old index lists once and no readable
    other index lists; it reads but never changes the store. *)
Theorem prune_exact `{GoDigest} `{OciCodec} {S : Type} `{ImageStoreI S}
    (repo : string) (view : string -> res string) (s s' : S) (digest : string)
    (outIndex : Index) (others kept : list Descriptor) :
  stable_at repo view s ->
  PruneImageManifestsFromIndex repo digest outIndex others s = (Ok kept, s') ->
  s' = s /\ exists buf old, view digest = Ok buf /\ unmarshal_index buf = Some old /\
    kept = filter (fun m => ~ prunable view old others m) (Manifests outIndex).
Proof.
  intros Hs (->&buf&old&?&?&?&_)%(prune_run _ view); [|done]. split; [done|]. by exists buf, old.
Qed.

(** When the old index and the new descriptor are the same, as when an
    image index is deleted, nothing is pruned: the descriptor is one of the
    "other" indexes, so each of its manifests counts as still in use. *)
Theorem delete_prunes_nothing `{GoDigestLaws} `{OciCodec} {S : Type} `{ImageStoreI S}
    (repo : string) (view : string -> res string) (s s' : S) (index index' : Index)
    (desc : Descriptor) :
  stable_at repo view s ->
  UpdateIndexWithPrunedImageManifests index repo desc (Digest desc) s = (Ok index', s') ->
  Manifests index' = Manifests index.
Proof.
  intros Hs. unfold UpdateIndexWithPrunedImageManifests. case_match; [|by intros [= <- _]].
  intros (kept&s1&(->&buf&old&Hv&Hu&->&Hre)%(prune_run _ view)&[= <- <-])%bind_ok; [|done].
  simpl. apply filter_all. intros m _ (_&_&H1'&H2').
  assert (view_index view (Digest desc) = Ok old) as Ei.
  { destruct (view_index view (Digest desc)) as [idx|e] eqn:Ev; unfold view_index in Ev.
    - destruct (Validate (Digest desc)); [done|]. rewrite Hv, Hu in Ev. congruence.
    - destruct (Validate (Digest desc)) as [e'|] eqn:Ed; [|by rewrite Hv, Hu in Ev].
      assert (missing e' = true) as Hm.
      { apply (Hre desc); [set_solver|]. unfold view_index. by rewrite Ed. }
      apply validate_error in Ed as ->. done. }
  rewrite occ_others_app in H2'. simpl in H2'. rewrite Ei in H2'. lia.
Qed.

Lemma prune_exact_witness :
  exists buf old, toy_view Sample.store (Digest Sample.multi_desc) = Ok buf /\
    unmarshal_index buf = Some old /\
    [tagged "v1" Sample.multi_desc] =
      filter (fun m => ~ prunable (toy_view Sample.store) old [] m) (Manifests Sample.index).
Proof.
  apply (prune_exact "repo" (toy_view Sample.store) Sample.store Sample.store
    (Digest Sample.multi_desc) Sample.index [] [tagged "v1" Sample.multi_desc]).
  - intros d. reflexivity.
  - vm_compute. reflexivity.
Defined.

Lemma delete_prunes_nothing_witness :
  Manifests Sample.index = Manifests Sample.index.
Proof.
  apply (delete_prunes_nothing "repo" (toy_view Sample.store) Sample.store Sample.store
    Sample.index Sample.index (tagged "v1" Sample.multi_desc)).
  - intros d. reflexivity.
  - vm_compute. reflexivity.
Defined.
