(* ===== verification/ImageStore.v ===== *)
(** * The image store (pkg/storage/imagestore/imagestore.go)

    One definition per method of ImageStore, over any storage driver and any
    optional blob cache. The state is what the methods change: the storage, the
    cache, the dedupeRebuildDone flag, the events recorded, and the supply of
    random UUIDs. Each method runs as one step: the store's read-write lock is
    not part of the model. Metrics and logging are left out. *)

From Stdlib Require Import ZArith Ascii String.
From stdpp Require Import base tactics list gmap strings.
From S2P Require Import Prelude Regexp Driver BlobCache Oci IndexOps StorageCommon.

Local Open Scope string_scope.
Local Open Scope list_scope.

Definition ImageBlobsDir : string := "blobs".
Definition ImageLayoutFile : string := "oci-layout".
Definition ImageIndexFile : string := "index.json".
Definition BlobUploadDir : string := ".uploads".
Definition SyncBlobUploadDir : string := ".sync".
Definition DedupeRestoreCompleteMarker : string := "_restore_complete".
Definition DedupeRestoreMarkerComplete : string := "1".
Definition DedupeRestoreMarkerInvalid : string := "0".

(** events.Recorder: the calls made to it. *)
Inductive event : Type :=
  | RepositoryCreated (name : string)
  | ImageUpdated (repo reference digest mediaType manifest : string)
  | ImageLintFailed (repo reference digest mediaType manifest : string)
  | ImageDeleted (repo reference digest mediaType : string).

Record store (F C : Type) : Type := mkStore {
  st_drv : F;
  st_cache : option C;
  st_rebuildDone : bool;
  st_events : list event;
  st_uuids : list string
}.
Arguments mkStore {F C} _ _ _ _ _.
Arguments st_drv {F C} _.
Arguments st_cache {F C} _.
Arguments st_rebuildDone {F C} _.
Arguments st_events {F C} _.
Arguments st_uuids {F C} _.

(** The fields fixed when the store is made. *)
Record config (F C : Type) : Type := mkConfig {
  cf_rootDir : path;
  cf_dedupe : bool;
  cf_compat : list string;
  cf_recorder : bool;
  cf_linter : option (string -> string -> ST (store F C) bool);
  cf_fuel : nat  (* bound on nesting of image indexes and on the dedupe loop *)
}.
Arguments mkConfig {F C} _ _ _ _ _ _.
Arguments cf_rootDir {F C} _.
Arguments cf_dedupe {F C} _.
Arguments cf_compat {F C} _.
Arguments cf_recorder {F C} _.
Arguments cf_linter {F C} _.
Arguments cf_fuel {F C} _.

Module IS.
Section store.
Context {F C : Type} `{Driver F} `{Cache C} `{GoDigest} `{OciCodec}.
Variable cfg : config F C.
Abbreviation store := (store F C).
Abbreviation root := (cf_rootDir cfg).

(** ** Access to the parts of the state *)
Definition drv {A} (m : ST F A) : ST store A := fun s =>
  let '(r, d) := m (st_drv s) in
  (r, mkStore d (st_cache s) (st_rebuildDone s) (st_events s) (st_uuids s)).

(** A call of the cache; on a nil cache the source panics. *)
Definition cache {A} (m : ST C A) : ST store A := fun s =>
  match st_cache s with
  | None => (Err (ErrOther "nil pointer dereference"), s)
  | Some c =>
      let '(r, c) := m c in
      (r, mkStore (st_drv s) (Some c) (st_rebuildDone s) (st_events s) (st_uuids s))
  end.
Definition has_cache (s : store) : bool := match st_cache s with Some _ => true | None => false end.
Definition relative_cache (s : store) : bool :=
  match st_cache s with Some c => UsesRelativePaths c | None => false end.
Definition cache_has (digest : string) (p : path) (s : store) : bool :=
  match st_cache s with Some c => HasBlob digest p c | None => false end.

Definition set_rebuildDone (b : bool) : ST store unit :=
  modify (fun s => mkStore (st_drv s) (st_cache s) b (st_events s) (st_uuids s)).
Definition record (e : event) : ST store unit := fun s =>
  if cf_recorder cfg
  then (Ok tt, mkStore (st_drv s) (st_cache s) (st_rebuildDone s) (st_events s ++ [e]) (st_uuids s))
  else (Ok tt, s).

(** guuid.NewV4 *)
Definition NewV4 : ST store string := fun s =>
  match st_uuids s with
  | [] => (Err (ErrOther "uuid"), s)
  | u :: us => (Ok u, mkStore (st_drv s) (st_cache s) (st_rebuildDone s) (st_events s) us)
  end.

Definition not_found (e : err) : bool := bool_decide (e = ErrPathNotFound).

(** [_ = m], for calls whose error is ignored. *)
Definition ignore {A} (m : ST store A) : ST store unit := try m ;;; ret tt.

(** ** Paths *)
Definition repo_path (repo : string) : path := path_join root repo.
Definition BlobPath (repo digest : string) : path :=
  path_join (path_join (path_join (repo_path repo) ImageBlobsDir) (Algorithm digest)) (Encoded digest).
Definition BlobUploadPath (repo uuid : string) : path :=
  path_join (path_join (repo_path repo) BlobUploadDir) uuid.
Definition index_path (repo : string) : path := path_join (repo_path repo) ImageIndexFile.

(** A cache record as a path: the empty string is the empty path. *)
Definition record_path (r : option path) : path := default [] r.
(** path.Join(is.rootDir, dstRecord) when the cache stores relative paths. *)
Definition full_record (r : option path) (s : store) : path :=
  if relative_cache s then foldl join_step root (record_path r) else record_path r.

(** ** Repositories *)
Definition validateRepoName (name : string) : ST store unit :=
  if negb (utf8_valid name) then throw ErrInvalidRepositoryName
  else if negb (match_string FullNameRegexp name) then throw ErrInvalidRepositoryName
  else ret tt.

Definition new_index : Index := mkIndex 2 "" "" [] None ∅.

Definition initRepo (name : string) : ST store unit :=
  let repoDir := path_join root name in
  validateRepoName name ;;;
  drv (EnsureDir (path_join repoDir ImageBlobsDir)) ;;;
  drv (EnsureDir (path_join repoDir BlobUploadDir)) ;;;
  let ilPath := path_join repoDir ImageLayoutFile in
  let* r := try (drv (Stat ilPath)) in
  (if is_ok r then ret tt else (drv (WriteFile ilPath marshal_layout) ;;; ret tt)) ;;;
  let indexPath := path_join repoDir ImageIndexFile in
  let* r := try (drv (Stat indexPath)) in
  if is_ok r then ret tt
  else (drv (WriteFile indexPath (marshal_index new_index)) ;;; record (RepositoryCreated name)).

Definition InitRepo (name : string) : ST store unit := initRepo name.

Definition ValidateRepo (name : string) : ST store bool :=
  if negb (match_string FullNameRegexp name) then throw ErrInvalidRepositoryName
  else
    let dir := path_join root name in
    let* r := try (drv (List dir)) in
    match r with
    | Err _ => throw ErrRepoNotFound
    | Ok files =>
        if (length files <? 2)%nat then throw ErrRepoBadVersion
        else
          let foundIndex := existsb (fun f => bool_decide (path_base f = ImageIndexFile)) files in
          let foundLayout := existsb (fun f => has_suffix (path_str f) ImageLayoutFile) files in
          let* s := get in
          if bool_decide (Name (st_drv s) = LocalStorageDriverName)
             && negb (drv_DirExists (path_join dir ImageBlobsDir) (st_drv s)) then ret false
          else ret (foundLayout && foundIndex)
    end.

(** ** Reading blobs *)
Definition isEmptyContentDigest (digest : string) : bool :=
  bool_decide (FromBytes (Algorithm digest) "" = digest).

Definition checkCacheBlob (digest : string) : ST store path :=
  match Validate digest with
  | Some e => throw e
  | None =>
      let* s := get in
      if negb (has_cache s) then throw ErrBlobNotFound
      else
        let* r := cache (BlobCache.GetBlob digest) in
        let dstRecord := full_record r s in
        let* st := try (drv (Stat dstRecord)) in
        match st with
        | Err _ => cache (BlobCache.DeleteBlob digest dstRecord) ;;; throw ErrBlobNotFound
        | Ok _ => ret dstRecord
        end
  end.

Definition originalBlobInfo (repo digest : string) : ST store FileInfo :=
  let* r := try (drv (Stat (BlobPath repo digest))) in
  match r with
  | Err _ => throw ErrBlobNotFound
  | Ok binfo =>
      if (fi_Size binfo =? 0)%Z then
        if isEmptyContentDigest digest then ret binfo
        else
          let* r := try (checkCacheBlob digest) in
          match r with
          | Err _ => throw ErrBlobNotFound
          | Ok dstRecord =>
              let* r := try (drv (Stat dstRecord)) in
              match r with
              | Err _ => throw ErrBlobNotFound
              | Ok binfo =>
                  if (fi_Size binfo =? 0)%Z then throw ErrBlobNotFound else ret binfo
              end
          end
      else ret binfo
  end.

(** [let* m := … in] for [if err := digest.Validate(); err != nil]. *)
Definition valid (digest : string) : ST store unit :=
  match Validate digest with Some e => throw e | None => ret tt end.

Definition StatBlob (repo digest : string) : ST store (bool * Z * Z) :=
  valid digest ;;;
  let* binfo := originalBlobInfo repo digest in
  ret (true, fi_Size binfo, fi_ModTime binfo).

(** The stream of GetBlob, read to its end, and the size. *)
Definition GetBlob (repo digest : string) : ST store (string * Z) :=
  valid digest ;;;
  let* binfo := originalBlobInfo repo digest in
  let* data := drv (Reader (fi_Path binfo) 0) in
  ret (data, fi_Size binfo).

(** newBlobStream: at most [to - from + 1] bytes of what the reader yields. *)
Definition newBlobStream (data : string) (from to : Z) : res string :=
  if (from <? 0)%Z || (to <? from)%Z then Err ErrBadRange
  else Ok (String.substring 0 (Z.to_nat (to - from + 1)) data).

Definition GetBlobPartial (repo digest : string) (from to : Z) : ST store (string * Z * Z) :=
  valid digest ;;;
  let* binfo := originalBlobInfo repo digest in
  let theEnd := if (to <? 0)%Z || (fi_Size binfo <=? to)%Z then (fi_Size binfo - 1)%Z else to in
  let* blobHandle := drv (Reader (fi_Path binfo) from) in
  let* stream := lift_res (newBlobStream blobHandle from theEnd) in
  ret (stream, (theEnd - from + 1)%Z, fi_Size binfo).

Definition GetBlobContent (repo digest : string) : ST store string :=
  valid digest ;;;
  let* binfo := originalBlobInfo repo digest in
  drv (ReadFile (fi_Path binfo)).

(** godigest.FromReader computes the digest with the canonical algorithm. *)
Definition VerifyBlobDigestValue (repo digest : string) : ST store unit :=
  valid digest ;;;
  let* binfo := originalBlobInfo repo digest in
  let* data := drv (Reader (fi_Path binfo) 0) in
  let computedDigest := FromBytes Canonical data in
  if negb (bool_decide (computedDigest = digest)) then throw ErrBadBlobDigest else ret tt.

(** The driver's PathNotFoundError carries the path, so the comparison with
    the zero PathNotFoundError never holds and the error goes out as it is. *)
Definition GetIndexContent (repo : string) : ST store string :=
  drv (ReadFile (index_path repo)).

Definition StatIndex (repo : string) : ST store (bool * Z * Z) :=
  let* r := try (drv (Stat (index_path repo))) in
  match r with
  | Err e => throw (if not_found e then ErrRepoNotFound else e)
  | Ok fi => ret (true, fi_Size fi, fi_ModTime fi)
  end.

(** ** The store as storage/common sees it *)
#[local] Instance image_store : ImageStoreI store := {|
  RootDir _ := root;
  DirExists d s := drv_DirExists d (st_drv s);
  StorageCommon.GetBlobContent := GetBlobContent;
  StorageCommon.GetIndexContent := GetIndexContent;
  StorageCommon.StatBlob := StatBlob
|}.

(** A walk whose fuel ran out: a state the theorems rule out. *)
Definition fueled {A} (m : ST store (option A)) : ST store A :=
  let* r := m in match r with Some a => ret a | None => throw ErrFuel end.

Definition GetReferrers (repo gdigest : string) (artifactTypes : list string) : ST store Index :=
  StorageCommon.GetReferrers repo gdigest artifactTypes.

(** [fi, err := Stat(dir); err != nil || !fi.IsDir()] *)
Definition repo_is_dir (repo : string) : ST store bool :=
  let* r := try (drv (Stat (repo_path repo))) in
  ret (match r with Ok fi => fi_IsDir fi | Err _ => false end).

Definition GetImageTags (repo : string) : ST store (list string) :=
  let* ok := repo_is_dir repo in
  if negb ok then throw ErrRepoNotFound
  else
    let* index := GetIndex repo in
    ret (GetTagsByIndex index).

Definition GetImageManifest (repo reference : string) : ST store (string * string * string) :=
  let* ok := repo_is_dir repo in
  if negb ok then throw ErrRepoNotFound
  else
    let* index := GetIndex repo in
    let '(manifestDesc, found) := GetManifestDescByReference index reference in
    if negb found then throw ErrManifestNotFound
    else
      let* r := try (GetBlobContent repo (Digest manifestDesc)) in
      match r with
      | Err e => throw (if decide (e = ErrBlobNotFound) then ErrManifestNotFound else e)
      | Ok buf =>
          match unmarshal_manifest buf with
          | None => throw ErrJSON
          | Some _ => ret (buf, Digest manifestDesc, MediaType manifestDesc)
          end
      end.

(** ** Writing index.json *)

(** writeFileViaStaging; its deferred cleanup runs on every exit but the last. *)
Definition writeFileViaStaging (repo : string) (destination : path) (content : string)
    : ST store unit :=
  let* uuid := NewV4 in
  let stagingPath := BlobUploadPath repo uuid in
  let cleanup := ignore (drv (Delete stagingPath)) in
  let* r := try (drv (WriteFile stagingPath content)) in
  match r with
  | Err e => cleanup ;;; throw e
  | Ok nbytes =>
      if negb (nbytes =? Z.of_nat (String.length content))%Z then cleanup ;;; throw ErrShortWrite
      else
        let* m := try (drv (Move stagingPath destination)) in
        match m with
        | Ok _ => ret tt
        | Err moveErr =>
            let* stored := try (drv (ReadFile destination)) in
            if bool_decide (stored = Ok content) then cleanup else (cleanup ;;; throw moveErr)
        end
  end.

Definition PutIndexContent (repo : string) (index : Index) : ST store unit :=
  writeFileViaStaging repo (index_path repo) (marshal_index index).

(** ** Pushing a manifest *)

(** The digest of the subject and the artifact type of the pushed body. *)
Definition parse_subject (mediaType body : string) : res (string * string) :=
  if IsImageManifestMediaType mediaType then
    match unmarshal_manifest body with
    | None => Err ErrJSON
    | Some m => Ok (match m_Subject m with Some d => Digest d | None => "" end,
                    GetManifestArtifactType m)
    end
  else if IsImageIndexMediaType mediaType then
    match unmarshal_index body with
    | None => Err ErrJSON
    | Some i => Ok (match idx_Subject i with Some d => Digest d | None => "" end,
                    GetIndexArtifactType i)
    end
  else Ok ("", "").

(** Writing the body under blobs/, unless the same bytes are already there. *)
Definition write_manifest (manifestPath : path) (body : string) : ST store unit :=
  let* statErr := try (drv (Stat manifestPath)) in
  let* needsWrite :=
    match statErr with
    | Err _ => ret true
    | Ok binfo =>
        if negb (fi_Size binfo =? Z.of_nat (String.length body))%Z then ret true
        else
          let* stored := try (drv (ReadFile manifestPath)) in
          ret (negb (bool_decide (stored = Ok body)))
    end in
  if (needsWrite : bool) then
    let* nbytes := drv (WriteFile manifestPath body) in
    if negb (nbytes =? Z.of_nat (String.length body))%Z then throw ErrShortWrite else ret tt
  else ret tt.

Definition tag_annotation (tag : string) : gmap string string := {[AnnotationRefName := tag]}.

(** The loop over the tags of a digest push: the index and the changed tags. *)
Fixpoint put_extra_tags (repo mediaType mDigest : string) (size : Z) (extraTags : list string)
    (index : Index) (changedTags : list string) : ST store (Index * list string) :=
  match extraTags with
  | [] => ret (index, changedTags)
  | tag :: rest =>
      let descLocal := mkDescriptor mediaType mDigest size (tag_annotation tag) "" in
      let '(index, updateIndex, oldDgst) := CheckIfIndexNeedsUpdate index descLocal in
      if negb updateIndex then put_extra_tags repo mediaType mDigest size rest index changedTags
      else
        let* index := UpdateIndexWithPrunedImageManifests index repo descLocal oldDgst in
        put_extra_tags repo mediaType mDigest size rest
          (with_manifests index (Manifests index ++ [descLocal])) (changedTags ++ [tag])
  end.

(** What the update of index.json produces: nothing to do, or the new index,
    the descriptor to lint and the tags that changed. *)
Definition update_index (repo reference mediaType mDigest : string) (refIsDigest : bool) (size : Z)
    (extraTags : list string) (artifactType : string) (index : Index)
    : ST store (option (Index * Descriptor * list string)) :=
  match extraTags with
  | _ :: _ =>
      let index := with_manifests index (drop_untagged mDigest (Manifests index)) in
      let* (index, changedTags) := put_extra_tags repo mediaType mDigest size extraTags index [] in
      match changedTags with
      | [] => ret None
      | tag :: _ =>
          ret (Some (index, mkDescriptor mediaType mDigest size (tag_annotation tag) artifactType,
                     changedTags))
      end
  | [] =>
      let desc := mkDescriptor mediaType mDigest size
                    (if refIsDigest then ∅ else tag_annotation reference) "" in
      let '(index, updateIndex, oldDgst) := CheckIfIndexNeedsUpdate index desc in
      if negb updateIndex then ret None
      else
        let* index := UpdateIndexWithPrunedImageManifests index repo desc oldDgst in
        let index := with_manifests index (drop_untagged mDigest (Manifests index) ++ [desc]) in
        ret (Some (index, mkDescriptor mediaType mDigest size (Annotations desc) artifactType,
                   [reference]))
  end.

Fixpoint record_updates (repo mDigest mediaType body : string) (refs : list string) : ST store unit :=
  match refs with
  | [] => ret tt
  | r :: rs => record (ImageUpdated repo r mDigest mediaType body) ;;;
               record_updates repo mDigest mediaType body rs
  end.

(** The lint check, the write of index.json and the events. *)
Definition commit_index (repo mediaType mDigest body : string) (index : Index)
    (lintDesc : Descriptor) (changedTags : list string) : ST store unit :=
  let* pass := try (ApplyLinter (cf_linter cfg) repo lintDesc) in
  match pass with
  | Err e =>
      record (ImageLintFailed repo (default "" (head changedTags)) mDigest mediaType body) ;;; throw e
  | Ok _ =>
      PutIndexContent repo index ;;; record_updates repo mDigest mediaType body changedTags
  end.

(** The reference of a push: the digest of the body and whether the reference
    is itself a digest. *)
Definition push_reference (body reference : string) (extraTags : list string) : res (string * bool) :=
  match GetAndValidateRequestDigest body reference with
  | (mDigest, None) => Ok (mDigest, true)
  | (mDigest, Some e) =>
      if decide (e = ErrBadManifest) then Err e
      else match extraTags with _ :: _ => Err ErrBadManifest | [] => Ok (mDigest, false) end
  end.

(** The digest of the manifest and the digest of its subject. *)
Definition PutImageManifest (repo reference mediaType body : string) (extraTags : list string)
    : ST store (string * string) :=
  InitRepo repo ;;;
  let* (mDigest, refIsDigest) := lift_res (push_reference body reference extraTags) in
  ValidateManifest (cf_compat cfg) repo mediaType body ;;;
  let* index := GetIndex repo in
  let* (subjectDigest, artifactType) := lift_res (parse_subject mediaType body) in
  write_manifest (BlobPath repo mDigest) body ;;;
  let* u := update_index repo reference mediaType mDigest refIsDigest
              (Z.of_nat (String.length body)) extraTags artifactType index in
  match u with
  | None => ret (mDigest, subjectDigest)
  | Some (index, lintDesc, changedTags) =>
      commit_index repo mediaType mDigest body index lintDesc changedTags ;;;
      ret (mDigest, subjectDigest)
  end.

(** ** Deleting a manifest *)
Fixpoint check_not_referenced (repo digest : string) (ms : list Descriptor) : ST store unit :=
  match ms with
  | [] => ret tt
  | mDesc :: rest =>
      if IsImageIndexMediaType (MediaType mDesc) then
        let* ok := fueled (IsBlobReferencedInImageIndex (cf_fuel cfg) repo digest
                             (mkIndex 0 "" "" [mDesc] None ∅)) in
        if (ok : bool) then throw ErrManifestReferenced else check_not_referenced repo digest rest
      else check_not_referenced repo digest rest
  end.

Definition deleteImageManifest (repo reference : string) (detectCollisions : bool) : ST store unit :=
  let* index := GetIndex repo in
  let* (manifestDesc, index) := lift_res (RemoveManifestDescByReference index reference detectCollisions) in
  (if IsDigest reference && (IsImageManifestMediaType (MediaType manifestDesc)
                             || IsImageIndexMediaType (MediaType manifestDesc))
   then check_not_referenced repo (Digest manifestDesc) (Manifests index) else ret tt) ;;;
  let* index := UpdateIndexWithPrunedImageManifests index repo manifestDesc (Digest manifestDesc) in
  drv (WriteFile (index_path repo) (marshal_index index)) ;;;
  (if existsb (fun m => bool_decide (Digest manifestDesc = Digest m)) (Manifests index) then ret tt
   else drv (Delete (BlobPath repo (Digest manifestDesc)))) ;;;
  record (ImageDeleted repo reference (Digest manifestDesc) (MediaType manifestDesc)).

Definition DeleteImageManifest (repo reference : string) (detectCollisions : bool) : ST store unit :=
  let* ok := repo_is_dir repo in
  if negb ok then throw ErrRepoNotFound
  else deleteImageManifest repo reference detectCollisions.

(** ** Blob uploads *)
Definition ListBlobUploads (repo : string) : ST store (list string) :=
  let* r := try (drv (List (path_join (repo_path repo) BlobUploadDir))) in
  match r with
  | Ok blobUploadPaths => ret (path_base <$> blobUploadPaths)
  | Err e => if not_found e then ret [] else throw e
  end.

Definition StatBlobUpload (repo uuid : string) : ST store (bool * Z * Z) :=
  let* binfo := drv (Stat (BlobUploadPath repo uuid)) in
  ret (true, fi_Size binfo, fi_ModTime binfo).

Definition NewBlobUpload (repo : string) : ST store string :=
  InitRepo repo ;;;
  let* uid := NewV4 in
  let* w := try (drv (Writer (BlobUploadPath repo uid) false)) in
  match w with
  | Err _ => throw ErrRepoNotFound
  | Ok writer => ignore (drv (fw_Close writer)) ;;; ret uid
  end.

(** Writer(path, true) and the size it reports, as GetBlobUpload and
    BlobUploadInfo do it. *)
Definition upload_size (blobUploadPath : path) : ST store Z :=
  let* w := try (drv (Writer blobUploadPath true)) in
  match w with
  | Err e => throw (if not_found e then ErrUploadNotFound else e)
  | Ok writer => ignore (drv (fw_Close writer)) ;;; ret (fw_Size writer)
  end.

Definition GetBlobUpload (repo uuid : string) : ST store Z :=
  let blobUploadPath := BlobUploadPath repo uuid in
  if negb (utf8_valid (path_str blobUploadPath)) then throw ErrInvalidRepositoryName
  else upload_size blobUploadPath.

Definition BlobUploadInfo (repo uuid : string) : ST store Z := upload_size (BlobUploadPath repo uuid).

Definition prepareBlobUploadDir (ctxErr : option err) (repo : string) : ST store unit :=
  match ctxErr with
  | Some e => throw e
  | None =>
      validateRepoName repo ;;; drv (EnsureDir (path_join (repo_path repo) BlobUploadDir))
  end.

Definition openBlobUploadWriter (ctxErr : option err) (repo uuid : string) : ST store FileWriter :=
  prepareBlobUploadDir ctxErr repo ;;;
  let* file := try (drv (Writer (BlobUploadPath repo uuid) true)) in
  match file with
  | Err e => throw (if not_found e then ErrUploadNotFound else e)
  | Ok file => ret file
  end.

(** io.Copy into an upload followed by the deferred Close: the bytes read are
    kept even when the reader ends with an error. *)
Definition copy_and_close (file : FileWriter) (body : reader) : ST store Z :=
  let* r := try (drv (io_Copy file body)) in
  match r with
  | Err e => ignore (drv (fw_Close file)) ;;; throw e
  | Ok (n, e, file) =>
      ignore (drv (fw_Close file)) ;;;
      match e with Some e => throw e | None => ret n end
  end.

Definition PutBlobChunkStreamed (ctxErr : option err) (repo uuid : string) (body : reader) : ST store Z :=
  let* file := openBlobUploadWriter ctxErr repo uuid in
  copy_and_close file body.

Definition PutBlobChunk (ctxErr : option err) (repo uuid : string) (from to : Z) (body : reader)
    : ST store Z :=
  let* file := openBlobUploadWriter ctxErr repo uuid in
  let fsize := fw_Size file in
  if negb (from =? fsize)%Z then ignore (drv (fw_Close file)) ;;; throw ErrBadUploadRange
  else
    let* n := copy_and_close file body in
    ret (n + fsize)%Z.

(** DedupeBlob: the loop goes round again after it drops a cache record whose
    file is gone; [fuel] bounds the rounds. *)
Fixpoint dedupe_loop (fuel : nat) (src : path) (dstDigest dstRepo : string) (dst : path)
    : ST store unit :=
  match fuel with
  | 0 => throw ErrFuel
  | Datatypes.S fuel =>
      let* r := try (cache (BlobCache.GetBlob dstDigest)) in
      let* dstRecord := match r with
                        | Ok p => ret p
                        | Err e => if decide (e = ErrCacheMiss) then ret None else throw e
                        end in
      match dstRecord with
      | None =>
          cache (BlobCache.PutBlob dstDigest (Some dst)) ;;; drv (Move src dst)
      | Some _ =>
          let* s := get in
          let dstRecord := full_record dstRecord s in
          let* r := try (drv (Stat dstRecord)) in
          match r with
          | Err _ =>
              cache (BlobCache.DeleteBlob dstDigest dstRecord) ;;;
              dedupe_loop fuel src dstDigest dstRepo dst
          | Ok blobInfo =>
              let* s := get in
              if negb (SameFile dst dstRecord (st_drv s)) then
                drv (Link dstRecord dst) ;;;
                cache (BlobCache.PutBlob dstDigest (Some dst)) ;;;
                drv (Delete src)
              else
                let* r := GetBlobDescriptorFromRepo (cf_fuel cfg) dstRepo dstDigest in
                match r with
                | None => throw ErrFuel
                | Some (Ok desc) =>
                    if negb (Size desc =? fi_Size blobInfo)%Z then drv (Move src dst)
                    else drv (Delete src)
                | Some (Err _) => drv (Delete src)
                end
          end
      end
  end.

Definition DedupeBlob (src : path) (dstDigest dstRepo : string) (dst : path) : ST store unit :=
  dedupe_loop (cf_fuel cfg) src dstDigest dstRepo dst.

(** [is.dedupe && is.cache != nil] *)
Definition dedupe_on (s : store) : bool := cf_dedupe cfg && has_cache s.

(** The last steps of an upload, under the store's lock. *)
Definition place_blob (src : path) (repo dstDigest : string) : ST store unit :=
  let dst := BlobPath repo dstDigest in
  initRepo repo ;;;
  drv (EnsureDir (path_join (path_join (repo_path repo) ImageBlobsDir) (Algorithm dstDigest))) ;;;
  let* s := get in
  if dedupe_on s then DedupeBlob src dstDigest repo dst else drv (Move src dst).

Definition getBlobDigest (p : path) (digestAlgorithm : string) : ST store string :=
  let* r := try (drv (Reader p 0)) in
  match r with
  | Err _ => throw ErrUploadNotFound
  | Ok data => ret (FromBytes digestAlgorithm data)
  end.

Definition FinishBlobUpload (repo uuid dstDigest : string) : ST store unit :=
  valid dstDigest ;;;
  let src := BlobUploadPath repo uuid in
  let* r := try (drv (Writer src true)) in
  match r with
  | Err _ => throw ErrUploadNotFound
  | Ok fileWriter =>
      let* fileWriter := drv (fw_Commit fileWriter) in
      drv (fw_Close fileWriter) ;;;
      let* srcDigest := getBlobDigest src (Algorithm dstDigest) in
      if negb (bool_decide (srcDigest = dstDigest)) then throw ErrBadBlobDigest
      else place_blob src repo dstDigest
  end.

Definition FullBlobUpload (ctxErr : option err) (repo : string) (body : reader) (dstDigest : string)
    : ST store (string * Z) :=
  valid dstDigest ;;;
  let* uuid := NewV4 in
  let src := BlobUploadPath repo uuid in
  prepareBlobUploadDir ctxErr repo ;;;
  let* r := try (drv (Writer src false)) in
  match r with
  | Err _ => throw ErrUploadNotFound
  | Ok blobFile =>
      let* c := try (drv (io_Copy blobFile body)) in
      match c with
      | Err e => ignore (drv (fw_Close blobFile)) ;;; throw e
      | Ok (_, Some e, blobFile) => ignore (drv (fw_Close blobFile)) ;;; throw e
      | Ok (nbytes, None, blobFile) =>
          let* r := try (drv (fw_Commit blobFile)) in
          match r with
          | Err e => ignore (drv (fw_Close blobFile)) ;;; throw e
          | Ok blobFile =>
              drv (fw_Close blobFile) ;;;
              let srcDigest := FromBytes (Algorithm dstDigest) (rd_data body) in
              if negb (bool_decide (srcDigest = dstDigest)) then throw ErrBadBlobDigest
              else place_blob src repo dstDigest ;;; ret (uuid, nbytes)
          end
      end
  end.

Definition DeleteBlobUpload (repo uuid : string) : ST store unit :=
  let* r := try (drv (Writer (BlobUploadPath repo uuid) true)) in
  match r with
  | Err e => throw (if not_found e then ErrUploadNotFound else e)
  | Ok writer =>
      let* r := try (drv (fw_Cancel writer)) in
      match r with
      | Err e => ignore (drv (fw_Close writer)) ;;; throw e
      | Ok writer => ignore (drv (fw_Close writer))
      end
  end.

(** ** Cross-repository mounts and deduplicated blobs *)
Definition repo_of_record (r : option path) (s : store) : res string :=
  let p := record_path r in
  let p := if negb (relative_cache s) && is_abs p then default [] (path_rel root p) else p in
  (* strings.LastIndex(blobPath, "/blobs/"): -1 makes the slicing panic *)
  match last (filter (fun i => (1 <= i)%nat /\ (i + 1 < length p)%nat /\ p !! i = Some ImageBlobsDir)
                (List.seq 0 (length p))) with
  | Some i => Ok (join_with slash (take i p))
  | None => Err (ErrOther "slice bounds out of range")
  end.

Fixpoint repos_of_records (rs : list (option path)) (s : store) : res (list string) :=
  match rs with
  | [] => Ok []
  | r :: rs => res_bind (repo_of_record r s) (fun x =>
               res_bind (repos_of_records rs s) (fun xs => Ok (x :: xs)))
  end.

Definition GetAllDedupeReposCandidates (digest : string) : ST store (list string) :=
  valid digest ;;;
  let* s := get in
  if negb (has_cache s) then ret []
  else
    let* r := try (cache (BlobCache.GetAllBlobs digest)) in
    match r with
    | Err e => if decide (e = ErrCacheMiss) then ret [] else throw e
    | Ok blobsPaths => lift_res (repos_of_records blobsPaths s)
    end.

Definition copyBlob (repo : string) (blobPath dstRecord : path) : ST store Z :=
  initRepo repo ;;;
  ignore (drv (EnsureDir (path_dir blobPath))) ;;;
  let* l := try (drv (Link dstRecord blobPath)) in
  match l with
  | Err _ => throw ErrBlobNotFound
  | Ok _ =>
      let* r := try (drv (Stat dstRecord)) in
      match r with Ok binfo => ret (fi_Size binfo) | Err _ => throw ErrBlobNotFound end
  end.

(** The blob is taken from the cache; [empty_ok] is whether a zero size is
    right for this digest. *)
Definition blob_from_cache (repo digest : string) (blobPath : path) (empty_ok : bool)
    : ST store (bool * Z) :=
  let* r := try (checkCacheBlob digest) in
  match r with
  | Err _ => throw ErrBlobNotFound
  | Ok dstRecord =>
      let* r := try (copyBlob repo blobPath dstRecord) in
      match r with
      | Err _ => throw ErrBlobNotFound
      | Ok blobSize =>
          if (blobSize =? 0)%Z && negb empty_ok then throw ErrBlobNotFound
          else cache (BlobCache.PutBlob digest (Some blobPath)) ;;; ret (true, blobSize)
      end
  end.

Definition CheckBlob (repo digest : string) : ST store (bool * Z) :=
  valid digest ;;;
  let blobPath := BlobPath repo digest in
  let* st := try (drv (Stat blobPath)) in
  match st with
  | Err _ => blob_from_cache repo digest blobPath (isEmptyContentDigest digest)
  | Ok binfo =>
      if (0 <? fi_Size binfo)%Z then
        let* r := GetBlobDescriptorFromRepo (cf_fuel cfg) repo digest in
        match r with
        | None => throw ErrFuel
        | Some (Err _) => ret (true, fi_Size binfo)
        | Some (Ok desc) =>
            if (Size desc =? fi_Size binfo)%Z then ret (true, fi_Size binfo) else throw ErrBlobNotFound
        end
      else if isEmptyContentDigest digest then ret (true, 0%Z)
      else blob_from_cache repo digest blobPath false
  end.

(** ** Deleting blobs *)
Definition deleteBlobChecked (repo digest : string) (isReferenced : ST store bool) : ST store unit :=
  let blobPath := BlobPath repo digest in
  let* st := try (drv (Stat blobPath)) in
  match st with
  | Err e => throw (if not_found e then ErrBlobNotFound else e)
  | Ok binfo =>
      let* referenced := isReferenced in
      if (referenced : bool) then throw ErrBlobReferenced
      else
        let remove_file :=
          let* r := try (drv (Delete blobPath)) in
          match r with
          | Err e => if not_found e then ret tt else throw e
          | Ok _ => ret tt
          end in
        let* s := get in
        if has_cache s then
          let* r := try (cache (BlobCache.GetBlob digest)) in
          let* dstRecord := match r with
                            | Ok p => ret p
                            | Err e => if decide (e = ErrCacheMiss) then ret None else throw e
                            end in
          let* s := get in
          if bool_decide (dstRecord = None) && (0 <? fi_Size binfo)%Z && negb (st_rebuildDone s)
          then throw ErrDedupeRebuildInProgress
          else
            (if cache_has digest blobPath s then cache (BlobCache.DeleteBlob digest blobPath)
             else ret tt) ;;;
            if bool_decide (dstRecord = Some blobPath) then
              let* r := try (cache (BlobCache.GetBlob digest)) in
              let* dstRecord := match r with
                                | Ok p => ret p
                                | Err e => if decide (e = ErrCacheMiss) then ret None else throw e
                                end in
              match dstRecord with
              | Some dstRecord =>
                  let* binfo := drv (Stat dstRecord) in
                  if (fi_Size binfo =? 0)%Z then drv (Move blobPath dstRecord) else ret tt
              | None => remove_file
              end
            else remove_file
        else if (0 <? fi_Size binfo)%Z && negb (st_rebuildDone s)
        then throw ErrDedupeRebuildInProgress
        else remove_file
  end.

Definition deleteBlob (repo digest : string) : ST store unit :=
  deleteBlobChecked repo digest (fueled (IsBlobReferenced (cf_fuel cfg) repo digest)).

Definition DeleteBlob (repo digest : string) : ST store unit :=
  valid digest ;;; deleteBlob repo digest.

(** The count with the error, both of which the caller gets. *)
Fixpoint cleanup_loop (repo : string) (blobs : list string) (count : nat) : ST store (nat * option err) :=
  match blobs with
  | [] => ret (count, None)
  | digest :: rest =>
      let* r := try (deleteBlobChecked repo digest (ret false)) in
      match r with
      | Ok _ => cleanup_loop repo rest (Datatypes.S count)
      | Err e =>
          if decide (e = ErrBlobNotFound) then cleanup_loop repo rest (Datatypes.S count)
          else ret (count, Some e)
      end
  end.
Definition CleanupRepo (repo : string) (blobs : list string) : ST store (nat * option err) :=
  cleanup_loop repo blobs 0.

Fixpoint digests_under (algorithmPaths : list path) : ST store (list string) :=
  match algorithmPaths with
  | [] => ret []
  | algorithmPath :: rest =>
      let algorithm := path_base algorithmPath in
      if negb (Available algorithm) then digests_under rest
      else
        let* digestPaths := drv (List algorithmPath) in
        let* ds := digests_under rest in
        ret (((fun f => NewDigestFromEncoded algorithm (path_base f)) <$> digestPaths) ++ ds)
  end.

Definition GetAllBlobs (repo : string) : ST store (list string) :=
  let* r := try (drv (List (path_join (repo_path repo) ImageBlobsDir))) in
  match r with
  | Err e => if not_found e then ret [] else throw e
  | Ok algorithmPaths => digests_under algorithmPaths
  end.

(** The sweep of an idle repository; [now] is the current time. *)
Fixpoint remove_idle_blobs (now maxBlobAge : Z) (repo : string) (blobs : list string) : ST store unit :=
  match blobs with
  | [] => ret tt
  | digest :: rest =>
      let* young :=
        (if (0 <? maxBlobAge)%Z then
           let* (_, _, modtime) := StatBlob repo digest in ret (now <? modtime + maxBlobAge)%Z
         else ret false) in
      if (young : bool) then remove_idle_blobs now maxBlobAge repo rest
      else deleteBlobChecked repo digest (ret false) ;;; remove_idle_blobs now maxBlobAge repo rest
  end.

Definition RemoveIdleRepository (now maxBlobAge : Z) (repo : string) : ST store bool :=
  let dir := repo_path repo in
  let* s := get in
  if negb (drv_DirExists dir (st_drv s)) then ret false
  else
    let* index := GetIndex repo in
    match Manifests index with
    | _ :: _ => ret false
    | [] =>
        let* blobUploads := ListBlobUploads repo in
        match blobUploads with
        | _ :: _ => ret false
        | [] =>
            let* blobs := GetAllBlobs repo in
            remove_idle_blobs now maxBlobAge repo blobs ;;;
            let* blobs := GetAllBlobs repo in
            match blobs with
            | _ :: _ => ret false
            | [] => drv (Delete dir) ;;; ret true
            end
        end
    end.

(** ** Rebuilding and undoing deduplication *)
Fixpoint getOriginalBlobFromDisk (duplicateBlobs : list path) : ST store path :=
  match duplicateBlobs with
  | [] => throw ErrBlobNotFound
  | blobPath :: rest =>
      let* r := try (drv (Stat blobPath)) in
      match r with
      | Err e => if not_found e then getOriginalBlobFromDisk rest else throw ErrBlobNotFound
      | Ok binfo => if (0 <? fi_Size binfo)%Z then ret blobPath else getOriginalBlobFromDisk rest
      end
  end.

Definition getOriginalBlob (digest : string) (duplicateBlobs : list path) : ST store path :=
  let* r := try (checkCacheBlob digest) in
  match r with
  | Ok originalBlob => ret originalBlob
  | Err e =>
      if decide (e = ErrBlobNotFound \/ e = ErrCacheMiss) then getOriginalBlobFromDisk duplicateBlobs
      else throw e
  end.

Definition put_unless_known (digest : string) (blobPath : path) : ST store unit :=
  let* s := get in
  if cache_has digest blobPath s then ret tt else cache (BlobCache.PutBlob digest (Some blobPath)).

(** The loop of dedupeBlobs; [originalBlob] is [None] for the empty string and
    [ctxErr] the error of a context that is done. *)
Fixpoint dedupe_blobs_loop (ctxErr : option err) (digest : string) (all duplicateBlobs : list path)
    (originalBlob : option path) : ST store unit :=
  match duplicateBlobs with
  | [] => ret tt
  | blobPath :: rest =>
      match ctxErr with
      | Some e => throw e
      | None =>
          let* r := try (drv (Stat blobPath)) in
          match r with
          | Err e => if not_found e then dedupe_blobs_loop ctxErr digest all rest originalBlob else throw e
          | Ok binfo =>
              if (fi_Size binfo =? 0)%Z then
                let* originalBlob :=
                  match originalBlob with
                  | Some o => ret o
                  | None =>
                      let* r := try (getOriginalBlob digest all) in
                      match r with
                      | Err _ => throw ErrDedupeRebuild
                      | Ok o =>
                          let* g := try (cache (BlobCache.GetBlob digest)) in
                          (if is_ok g then ret tt else cache (BlobCache.PutBlob digest (Some o))) ;;; ret o
                      end
                  end in
                put_unless_known digest blobPath ;;;
                dedupe_blobs_loop ctxErr digest all rest (Some originalBlob)
              else
                (match originalBlob with
                 | Some o => drv (Link o blobPath)
                 | None => ret tt
                 end) ;;;
                put_unless_known digest blobPath ;;;
                dedupe_blobs_loop ctxErr digest all rest (Some blobPath)
          end
      end
  end.

Definition dedupeBlobs (ctxErr : option err) (digest : string) (duplicateBlobs : list path) : ST store unit :=
  let* s := get in
  if negb (has_cache s) then throw ErrDedupeRebuild
  else dedupe_blobs_loop ctxErr digest duplicateBlobs duplicateBlobs None.

Fixpoint anyBlobExists (blobPaths : list path) : ST store bool :=
  match blobPaths with
  | [] => ret false
  | blobPath :: rest =>
      let* r := try (drv (Stat blobPath)) in
      match r with
      | Err e => if not_found e then anyBlobExists rest else ret true
      | Ok _ => ret true
      end
  end.

(** The write of one placeholder, under the lock. *)
Definition restore_one (blobPath : path) (buf : string) : ST store unit :=
  let* recheck := try (drv (Stat blobPath)) in
  let write := drv (WriteFile blobPath buf) ;;; ret tt in
  match recheck with
  | Ok fi => if (0 <? fi_Size fi)%Z then ret tt else write
  | Err e => if not_found e then write else throw e
  end.

Fixpoint restore_loop (ctxErr : option err) (originalBlob : path) (duplicateBlobs : list path) : ST store unit :=
  match duplicateBlobs with
  | [] => ret tt
  | blobPath :: rest =>
      match ctxErr with
      | Some e => throw e
      | None =>
          let* r := try (drv (Stat blobPath)) in
          match r with
          | Err e => if not_found e then restore_loop ctxErr originalBlob rest else throw e
          | Ok binfo =>
              if (fi_Size binfo =? 0)%Z then
                let* buf := drv (ReadFile originalBlob) in
                restore_one blobPath buf ;;; restore_loop ctxErr originalBlob rest
              else restore_loop ctxErr originalBlob rest
          end
      end
  end.

Definition restoreDedupedBlobs (ctxErr : option err) (digest : string) (duplicateBlobs : list path)
    : ST store unit :=
  let* r := try (getOriginalBlob digest duplicateBlobs) in
  match r with
  | Err _ =>
      let* any := anyBlobExists duplicateBlobs in
      if negb any then ret tt else throw ErrDedupeRebuild
  | Ok originalBlob => restore_loop ctxErr originalBlob duplicateBlobs
  end.

Definition RunDedupeForDigest (ctxErr : option err) (digest : string) (dedupe : bool)
    (duplicateBlobs : list path) : ST store unit :=
  if dedupe then dedupeBlobs ctxErr digest duplicateBlobs
  else restoreDedupedBlobs ctxErr digest duplicateBlobs.

Definition markerPath : path := path_join root DedupeRestoreCompleteMarker.

(** RunDedupeBlobs up to the submission of the generator: whether it submits. *)
Definition RunDedupeBlobs : ST store bool :=
  let* s := get in
  (if bool_decide (Name (st_drv s) = LocalStorageDriverName) then ret tt else set_rebuildDone false) ;;;
  if cf_dedupe cfg then
    let* r := try (drv (Delete markerPath)) in
    match r with
    | Err e => if not_found e then ret true
               else ignore (drv (WriteFile markerPath DedupeRestoreMarkerInvalid)) ;;; ret true
    | Ok _ => ret true
    end
  else
    let* r := try (drv (ReadFile markerPath)) in
    match r with
    | Ok data =>
        if decide (TrimSpace data = DedupeRestoreMarkerComplete)
        then set_rebuildDone true ;;; ret false
        else ret true
    | Err _ => ret true
    end.

(** The callback RunDedupeBlobs gives the generator. *)
Definition OnRunComplete : ST store unit :=
  set_rebuildDone true ;;;
  if cf_dedupe cfg then ret tt
  else ignore (drv (WriteFile markerPath DedupeRestoreMarkerComplete)).

(** ** Walking the storage *)
Definition at_drv (s : store) (d : F) : store :=
  mkStore d (st_cache s) (st_rebuildDone s) (st_events s) (st_uuids s).

(** Walk over the root with closure variables [acc]; [cf_fuel] bounds the depth. *)
Definition walk_root {A} (fn : FileInfo -> A -> F -> option err * A) (acc : A) (s : store) : option err * A :=
  Walk A (cf_fuel cfg) root fn acc (st_drv s).

(** errors.Is(err, io.EOF) || the driver's error wraps io.EOF *)
Definition stopped (e : err) : bool := bool_decide (e = ErrEOF \/ e = ErrDriver ErrEOF).

Definition skipped_dir (p : path) : bool :=
  has_suffix (path_str p) SyncBlobUploadDir || has_suffix (path_str p) ImageBlobsDir
  || has_suffix (path_str p) BlobUploadDir.

(** The part of the callbacks the three listings share: [None] when the
    callback returns early with the given error, else the repository. *)
Definition walked_repo (s : store) (fi : FileInfo) (d : F) (processed : string -> bool)
    : option err + string :=
  if negb (fi_IsDir fi) then inl None
  else if skipped_dir (fi_Path fi) then inl (Some ErrSkipDir)
  else match path_rel root (fi_Path fi) with
  | None => inl None
  | Some rel =>
      let rel := path_str rel in
      if processed rel then inl None
      else match fst (ValidateRepo rel (at_drv s d)) with
      | Err e => if decide (e = ErrInvalidRepositoryName) then inl (Some ErrSkipDir) else inl None
      | Ok false => inl None
      | Ok true => inr rel
      end
  end.

Definition GetRepositories : ST store (list string) := fun s =>
  let '(e, stores) :=
    walk_root (fun fi stores d =>
      match walked_repo s fi d (fun _ => false) with
      | inl e => (e, stores)
      | inr rel => (None, stores ++ [rel])
      end) [] s in
  match e with
  | None => (Ok stores, s)
  | Some e => if not_found e then (Ok stores, s) else (Err e, s)
  end.

(** The closure variables of GetNextRepositories. *)
Record page : Type := mkPage {
  pg_stores : list string;
  pg_more : bool;
  pg_entries : Z;
  pg_found : bool
}.

Definition next_page_step (s : store) (lastRepo : string) (maxEntries : Z) (filterFn : string -> res bool)
    (fi : FileInfo) (pg : page) (d : F) : option err * page :=
  if (pg_entries pg =? maxEntries)%Z
  then (Some ErrEOF, mkPage (pg_stores pg) true (pg_entries pg) (pg_found pg))
  else match walked_repo s fi d (fun _ => false) with
  | inl e => (e, pg)
  | inr rel =>
      if decide (lastRepo = rel) then (None, mkPage (pg_stores pg) (pg_more pg) (pg_entries pg) true)
      else
        let found := pg_found pg || bool_decide (lastRepo = "") in
        match filterFn rel with
        | Err e => (Some e, mkPage (pg_stores pg) (pg_more pg) (pg_entries pg) found)
        | Ok ok =>
            if found && ok
            then (None, mkPage (pg_stores pg ++ [rel]) (pg_more pg) (pg_entries pg + 1)%Z found)
            else (None, mkPage (pg_stores pg) (pg_more pg) (pg_entries pg) found)
        end
  end.

Definition GetNextRepositories (lastRepo : string) (maxEntries : Z) (filterFn : string -> res bool)
    : ST store (list string * bool) := fun s =>
  let '(e, pg) := walk_root (next_page_step s lastRepo maxEntries filterFn) (mkPage [] false 0 false) s in
  match e with
  | None => (Ok (pg_stores pg, pg_more pg), s)
  | Some e =>
      if not_found e then (Ok (pg_stores pg, false), s)
      else if stopped e then (Ok (pg_stores pg, pg_more pg), s)
      else (Err e, s)
  end.

Definition GetNextRepository (processedRepos : gset string) : ST store string := fun s =>
  match fst (List root (st_drv s)) with
  | Err e => if not_found e then (Ok "", s) else (Err e, s)
  | Ok _ =>
      let '(e, next) :=
        walk_root (fun fi next d =>
          match walked_repo s fi d (fun rel => bool_decide (rel ∈ processedRepos)) with
          | inl e => (e, next)
          | inr rel => (Some ErrEOF, rel)
          end) "" s in
      match e with
      | None => (Ok next, s)
      | Some e => if not_found e then (Ok "", s) else if stopped e then (Ok next, s) else (Err e, s)
      end
  end.

(** Does the walk for blobs enter the directory [rel]? *)
Definition descends (repos : list string) (rel : string) : bool :=
  existsb (fun r => bool_decide (rel = r) || has_prefix r (rel ++ "/")%string || has_prefix rel (r ++ "/")%string) repos.

Definition next_digest_step (repos lastDigests : list string) (fi : FileInfo) (acc : string * list path)
    : option err * (string * list path) :=
  let '(digest, duplicateBlobs) := acc in
  let p := fi_Path fi in
  if has_suffix (path_str p) SyncBlobUploadDir || has_suffix (path_str p) BlobUploadDir
  then (Some ErrSkipDir, acc)
  else if fi_IsDir fi then
    match path_rel root p with
    | None => (None, acc)
    | Some rel => if descends repos (path_str rel) then (None, acc) else (Some ErrSkipDir, acc)
    end
  else
    let baseName := path_base p in
    if contains [ImageLayoutFile; ImageIndexFile; "meta.db"; "cache.db"] baseName then (None, acc)
    else
      let parentDir := path_dir p in
      if negb (bool_decide (path_base (path_dir parentDir) = ImageBlobsDir)) then (None, acc)
      else
        let digestAlgorithm := path_base parentDir in
        if negb (Available digestAlgorithm) then (None, acc)
        else
          let blobDigest := NewDigestFromEncoded digestAlgorithm baseName in
          match Validate blobDigest with
          | Some _ => (None, acc)
          | None =>
              let digest := if bool_decide (digest = "") && negb (contains lastDigests blobDigest)
                            then blobDigest else digest in
              (None, (digest, if bool_decide (blobDigest = digest) then duplicateBlobs ++ [p]
                              else duplicateBlobs))
          end.

Definition GetNextDigestWithBlobPaths (repos lastDigests : list string)
    : ST store (string * list path) := fun s =>
  let '(e, acc) := walk_root (fun fi acc _ => next_digest_step repos lastDigests fi acc) ("", []) s in
  match e with
  | None => (Ok acc, s)
  | Some e => if not_found e then (Ok acc, s) else (Err e, s)
  end.

End store.
#[export] Existing Instance image_store.
End IS.
