(* ===== verification/Content.v ===== *)
(** * Content addressing on a file system

    Which paths are blobs, the invariant "a blob path holds content of its
    digest", and its preservation by the operations of the local driver. Hard
    links make this global: a write through one path changes every path of the
    same inode, so the invariant also says which paths may share an inode. *)

From Stdlib Require Import ZArith Lia Ascii String.
From stdpp Require Import base tactics list gmap strings sorting.
From S2P Require Import Prelude Regexp Driver Oci ImageStore.

Local Open Scope string_scope.
Local Open Scope list_scope.

(** ** Blob paths *)
Definition repo_ok (repo : string) : Prop := match_string FullNameRegexp repo = true.

Section blobs.
Context `{GoDigestLaws} (root : path).

Definition is_blob (p : path) (d : string) : Prop :=
  exists repo, repo_ok repo /\ Validate d = None /\
    p = (root ++ split_on slash repo) ++ [ImageBlobsDir; Algorithm d; Encoded d].
Definition not_blob (p : path) : Prop := forall d, ~ is_blob p d.

Lemma snoc3_inj {A} (l l' : list A) a b c a' b' c' :
  l ++ [a; b; c] = l' ++ [a'; b'; c'] -> a = a' /\ b = b' /\ c = c'.
Proof.
  intros E. apply (f_equal reverse) in E. rewrite !reverse_app in E. simpl in E. by simplify_eq/=.
Qed.

Lemma is_blob_fun p d d' : is_blob p d -> is_blob p d' -> d = d'.
Proof.
  intros (r&_&Hv&->) (r'&_&Hv'&(_&Ha&He)%snoc3_inj).
  by rewrite <-(validate_parts d Hv), <-(validate_parts d' Hv'), Ha, He.
Qed.

Lemma not_blob_last p c : all_chars alnum c = false -> not_blob (p ++ [c]).
Proof.
  intros Hc d (r&_&Hv&E). destruct (validate_names d Hv) as [_ [_ He]].
  change [ImageBlobsDir; Algorithm d; Encoded d] with ([ImageBlobsDir; Algorithm d] ++ [Encoded d]) in E.
  rewrite app_assoc in E. apply app_inj_tail in E as [_ ->]. congruence.
Qed.

Lemma not_blob_last2 p a c : all_chars alnum a = false -> not_blob (p ++ [a; c]).
Proof.
  intros Hc d (r&_&Hv&E). destruct (validate_names d Hv) as [[_ Ha] _].
  change [ImageBlobsDir; Algorithm d; Encoded d] with ([ImageBlobsDir] ++ [Algorithm d; Encoded d]) in E.
  rewrite app_assoc in E. apply (f_equal reverse) in E. rewrite !reverse_app in E. simpl in E.
  simplify_eq/=. congruence.
Qed.

(** ** The invariant *)
Definition file_at (s : fs) (p : path) (i : nat) : Prop := fs_nodes s !! p = Some (NFile i).
Definition content (s : fs) (i : nat) : string := i_content (inode_at s i).

Record fs_inv (s : fs) : Prop := {
  inv_sound : forall p d i, is_blob p d -> file_at s p i -> FromBytes (Algorithm d) (content s i) = d;
  inv_alias : forall p q i, file_at s p i -> file_at s q i ->
    p = q \/ exists d, is_blob p d /\ is_blob q d;
  inv_fresh : forall p i, file_at s p i -> i < fs_next s
  }.

(** A file that must keep its content, next to the invariant. *)
Definition holds (s : fs) (p : path) (c : string) : Prop := exists i, file_at s p i /\ content s i = c.
Definition fs_ok (guard : option (path * string)) (s : fs) : Prop :=
  fs_inv s /\ match guard with Some (p, c) => not_blob p /\ holds s p c | None => True end.
Definition off_guard (guard : option (path * string)) (p : path) : Prop :=
  match guard with Some (q, _) => p <> q | None => True end.

(** ** Changes that only remove files *)
Definition fewer (s s' : fs) : Prop :=
  fs_inodes s' = fs_inodes s /\ fs_next s' = fs_next s /\
  forall p i, file_at s' p i -> file_at s p i.

Lemma fewer_refl s : fewer s s.
Proof. by split. Qed.

Lemma content_ext s s' i : fs_inodes s' = fs_inodes s -> content s' i = content s i.
Proof. intros E. unfold content, inode_at. by rewrite E. Qed.

Lemma fs_inv_fewer s s' : fewer s s' -> fs_inv s -> fs_inv s'.
Proof.
  intros (E&En&Hf) [H1 H2 H3]. split.
  - intros p d i Hb Hp. rewrite (content_ext s s') by done. eauto.
  - intros p q i Hp Hq. eauto.
  - intros p i Hp. rewrite En. eauto.
Qed.

Lemma fs_ok_fewer g s s' :
  fewer s s' -> (forall p c i, g = Some (p, c) -> file_at s p i -> file_at s' p i) ->
  fs_ok g s -> fs_ok g s'.
Proof.
  intros Hf Hg [Hi Hh]. split; [by eapply fs_inv_fewer|].
  destruct g as [[p c]|]; [|done]. destruct Hh as [Hn (i&Hp&Hc)]. split; [done|].
  exists i. split; [eauto|]. rewrite (content_ext s s'); [done|]. apply Hf.
Qed.

(** ** Changing the content of one inode *)
Lemma content_set_inodes s i c m j :
  content (set_inodes <[i := mkInode c m]> s) j = if decide (i = j) then c else content s j.
Proof.
  unfold content, inode_at. simpl. destruct (decide (i = j)) as [->|Hn].
  - by rewrite lookup_insert_eq.
  - by rewrite lookup_insert_ne.
Qed.

Lemma fs_inv_write s i c m :
  (forall q d, file_at s q i -> is_blob q d -> FromBytes (Algorithm d) c = d) ->
  fs_inv s -> fs_inv (set_inodes <[i := mkInode c m]> s).
Proof.
  intros Hc [H1 H2 H3]. split; [|done|done].
  intros p d j Hb Hp. rewrite content_set_inodes. case_decide; [subst|]; eauto.
Qed.

Lemma fs_ok_write g s i c m :
  (forall q d, file_at s q i -> is_blob q d -> FromBytes (Algorithm d) c = d) ->
  (forall p c', g = Some (p, c') -> file_at s p i -> c = c') ->
  fs_ok g s -> fs_ok g (set_inodes <[i := mkInode c m]> s).
Proof.
  intros Hc Hg [Hi Hh]. split; [by apply fs_inv_write|].
  destruct g as [[p c']|]; [|done]. destruct Hh as [Hn (j&Hp&Hj)]. split; [done|].
  exists j. split; [done|]. rewrite content_set_inodes. case_decide; [subst; eauto|done].
Qed.

(** ** Putting an inode at a path *)
Lemma fs_inv_place s s' p i :
  (forall q, q <> p -> forall j, file_at s' q j -> file_at s q j) ->
  file_at s' p i ->
  (forall j, j <> fs_next s -> content s' j = content s j) ->
  fs_next s <= fs_next s' -> i < fs_next s' ->
  (forall d, is_blob p d -> FromBytes (Algorithm d) (content s' i) = d) ->
  (forall q, q <> p -> file_at s' q i -> exists d, is_blob p d /\ is_blob q d) ->
  fs_inv s -> fs_inv s'.
Proof.
  intros Hq Hp Hc Hn Hi Hd Ha [H1 H2 H3].
  assert (forall q, q <> p -> forall j, file_at s' q j -> j < fs_next s /\ content s' j = content s j) as Hold.
  { intros q Hqp j Hj. apply Hq in Hj; [|done]. split; [eauto|]. apply Hc. apply H3 in Hj. lia. }
  split.
  - intros q d j Hb Hj. destruct (decide (q = p)) as [->|Hqp].
    + unfold file_at in *. assert (j = i) as -> by congruence. eauto.
    + destruct (Hold q Hqp j Hj) as [_ ->]. eauto.
  - intros q r j Hj Hj'. destruct (decide (q = r)) as [->|Hqr]; [by left|]. right.
    destruct (decide (q = p)) as [->|Hqp]; [|destruct (decide (r = p)) as [->|Hrp]].
    + unfold file_at in *. assert (j = i) as -> by congruence. eauto.
    + unfold file_at in *. assert (j = i) as -> by congruence.
      destruct (Ha q Hqp Hj) as (d&?&?). eauto.
    + apply Hq in Hj, Hj'; [|done..]. destruct (H2 _ _ _ Hj Hj') as [?|?]; [done|]. done.
  - intros q j Hj. destruct (decide (q = p)) as [->|Hqp].
    + unfold file_at in *. assert (j = i) as -> by congruence. done.
    + destruct (Hold q Hqp j Hj). lia.
Qed.
End blobs.

(** ** What the operations of the local driver do to the files *)
Definition same_files (s s' : fs) : Prop :=
  fs_inodes s' = fs_inodes s /\ fs_next s' = fs_next s /\
  forall p i, file_at s' p i <-> file_at s p i.

Lemma same_files_refl s : same_files s s.
Proof. by split. Qed.
Lemma same_files_trans s1 s2 s3 : same_files s1 s2 -> same_files s2 s3 -> same_files s1 s3.
Proof.
  intros (A1&B1&C1) (A2&B2&C2). split; [congruence|]. split; [congruence|].
  intros p i. by rewrite C2, C1.
Qed.
Lemma same_files_fewer s s' : same_files s s' -> fewer s s'.
Proof. intros (A&B&C1). split; [done|]. split; [done|]. intros p i. apply C1. Qed.

Lemma foldr_mkdir_lookup (l : list path) (m : gmap path node) q :
  foldr (fun q m => <[q := NDir]> m) m l !! q = if decide (q ∈ l) then Some NDir else m !! q.
Proof.
  induction l as [|p l IH]; cbn [foldr].
  - rewrite decide_False; [done|]. apply not_elem_of_nil.
  - destruct (decide (p = q)) as [->|Hn].
    + rewrite lookup_insert_eq. rewrite decide_True; [done|]. apply list_elem_of_here.
    + rewrite lookup_insert_ne, IH by done. apply decide_ext. rewrite elem_of_cons. naive_solver.
Qed.

Lemma mkdir_all_spec p s r s' : os_MkdirAll p s = (r, s') -> same_files s s'.
Proof.
  unfold os_MkdirAll. destruct (existsb (is_file s) (prefixes p)) eqn:E.
  { intros [= <- <-]. apply same_files_refl. }
  intros [= <- <-]. split; [done|]. split; [done|]. intros q i. unfold file_at. simpl.
  rewrite foldr_mkdir_lookup. case_decide as Hq; [|done]. split; [done|]. intros Hf.
  assert (existsb (is_file s) (prefixes p) = true); [|congruence].
  apply existsb_exists. exists q. split; [by apply list_elem_of_In|]. unfold is_file. by rewrite Hf.
Qed.

Lemma fmt_state {A} (m : ST fs A) s r s' :
  Local.fmt m s = (r, s') -> exists r0, m s = (r0, s') /\
    (forall a, r = Ok a <-> r0 = Ok a).
Proof.
  unfold Local.fmt. destruct (m s) as [[a|e] s1]; intros [= <- <-]; eexists; (split; [done|]); naive_solver.
Qed.
Lemma map_err_state {A} f (m : ST fs A) s r s' :
  Local.map_err f m s = (r, s') -> exists r0, m s = (r0, s') /\ (forall a, r = Ok a <-> r0 = Ok a).
Proof.
  unfold Local.map_err. destruct (m s) as [[a|e] s1]; intros [= <- <-]; eexists; (split; [done|]); naive_solver.
Qed.

Lemma ensure_dir_spec p s r s' : Local.EnsureDir p s = (r, s') -> same_files s s'.
Proof. intros (r0&E&_)%fmt_state. by eapply mkdir_all_spec. Qed.

Lemma os_stat_state p s : snd (os_Stat p s) = s.
Proof. unfold os_Stat. by destruct (lookup_node s p) as [[]|]. Qed.
Lemma os_readdir_state p s : snd (os_ReadDir p s) = s.
Proof. unfold os_ReadDir. by destruct (lookup_node s p) as [[]|]. Qed.

Lemma stat_spec p s r s' : Local.Stat p s = (r, s') -> s' = s /\
  forall fi, r = Ok fi -> fi_Path fi = p /\ exists n, fs_nodes s !! p = Some n /\
    match n with
    | NDir => fi_Size fi = 0%Z /\ fi_IsDir fi = true
    | NFile i => fi_Size fi = Z.of_nat (String.length (content s i)) /\ fi_IsDir fi = false
    end.
Proof.
  intros (r0&E&Hr)%map_err_state. pose proof (os_stat_state p s) as Hs. rewrite E in Hs. simpl in Hs.
  split; [done|]. intros fi Hfi%Hr. subst r0. unfold os_Stat, lookup_node in E.
  destruct (fs_nodes s !! p) as [[|i]|] eqn:En.
  - simplify_eq/=. split; [done|]. by exists NDir.
  - simplify_eq/=. split; [done|]. by exists (NFile i).
  - by destruct (existsb _ _).
Qed.

Lemma reader_spec p off s r s' : Local.Reader p off s = (r, s') -> s' = s /\
  forall data, r = Ok data -> exists i, file_at s p i /\ (0 <= off)%Z /\
    data = String.substring (Z.to_nat off) (String.length (content s i)) (content s i).
Proof.
  unfold Local.Reader, lookup_node, file_at. destruct (fs_nodes s !! p) as [[|i]|].
  - intros [= <- <-]. by split.
  - case_decide; intros [= <- <-]; (split; [done|]); intros data [= <-].
    exists i. split; [done|]. split; [lia|done].
  - destruct (existsb _ _); intros [= <- <-]; by split.
Qed.

Lemma substring_all (t : string) n : String.length t <= n -> String.substring 0 n t = t.
Proof.
  revert t. induction n as [|n IH]; intros [|c t]; simpl; try done; [lia|].
  intros Hl. rewrite IH; [done|lia].
Qed.
Lemma substring_end (t : string) n m : String.length t <= n -> String.substring n m t = "".
Proof.
  revert n. induction t as [|c t IH]; intros [|n]; simpl; try done; try lia.
  - by destruct m.
  - intros Hl. apply IH. lia.
Qed.

Lemma read_file_spec p s r s' : Local.ReadFile p s = (r, s') -> s' = s /\
  forall data, r = Ok data -> exists i, file_at s p i /\ data = content s i.
Proof.
  intros [H1 H2]%reader_spec. split; [done|]. intros data Hd. destruct (H2 data Hd) as (i&Hi&_&->).
  exists i. split; [done|]. by apply substring_all.
Qed.

Lemma delete_spec p s r s' : Local.Delete p s = (r, s') -> fewer s s' /\
  forall q i, under p q = false -> file_at s q i -> file_at s' q i.
Proof.
  unfold Local.Delete. destruct (fst (os_Stat p s)).
  - intros [= <- <-]. split; [split; [done|split; [done|]]|].
    + intros q i Hq. unfold file_at in *. simpl in Hq. by apply map_lookup_filter_Some in Hq as [? _].
    + intros q i Hu Hq. unfold file_at in *. simpl. apply map_lookup_filter_Some. by split.
  - intros [= <- <-]. split; [apply fewer_refl|done].
Qed.

Lemma remove_spec p s r s' : os_Remove p s = (r, s') -> fewer s s' /\
  forall q i, q <> p -> file_at s q i -> file_at s' q i.
Proof.
  assert (forall s', s' = s \/ s' = set_nodes (delete p) s ->
    fewer s s' /\ forall q i, q <> p -> file_at s q i -> file_at s' q i) as H.
  { intros s1 [->| ->]; [split; [apply fewer_refl|done]|]. split; [split; [done|split; [done|]]|].
    - intros q i Hq. unfold file_at in *. simpl in Hq. by apply lookup_delete_Some in Hq as [_ ?].
    - intros q i Hu Hq. unfold file_at in *. simpl. by rewrite lookup_delete_ne. }
  unfold os_Remove. destruct (lookup_node s p) as [[|i]|]; [destruct (has_child s p)| |];
    intros [= <- <-]; apply H; auto.
Qed.

(** [p] now names inode [i], with content [c], and nothing else changed but
    perhaps what other names of the same inode read. *)
Record writes (s s' : fs) (p : path) (i : nat) (c : string) : Prop := {
  w_at : file_at s' p i;
  w_other : forall q j, q <> p -> file_at s' q j <-> file_at s q j;
  w_content : content s' i = c;
  w_else : forall j, j <> i -> content s' j = content s j;
  w_next : (file_at s p i /\ fs_next s' = fs_next s) \/
           ((forall j, ~ file_at s p j) /\ i = fs_next s /\ fs_next s' = S (fs_next s))
}.

Lemma writes_set s p i c m : file_at s p i -> writes s (set_inodes <[i := mkInode c m]> s) p i c.
Proof.
  intros Hp. split; try done.
  - by rewrite content_set_inodes, decide_True.
  - intros j Hj. rewrite content_set_inodes. by rewrite decide_False.
  - by left.
Qed.

Lemma writes_trans s1 s2 s3 p i c1 c2 :
  writes s1 s2 p i c1 -> writes s2 s3 p i c2 -> writes s1 s3 p i c2.
Proof.
  intros [A1 B1 C1 D1 E1] [A2 B2 C2 D2 E2]. split; try done.
  - intros q j Hq. by rewrite B2, B1.
  - intros j Hj. by rewrite D2, D1.
  - destruct E2 as [[_ E2]|(Hno&_)]; [|by destruct (Hno i)]. rewrite E2. done.
Qed.

Lemma writes_after s1 s2 s3 p i c : same_files s1 s2 -> writes s2 s3 p i c -> writes s1 s3 p i c.
Proof.
  intros (E1&E2&E3) [A B C1 D E]. split; try done.
  - intros q j Hq. by rewrite B, E3.
  - intros j Hj. rewrite D by done. by apply content_ext.
  - rewrite <-E2. destruct E as [[Hp E]|(Hno&Hi&E)]; [left|right].
    + by rewrite <-E3.
    + split; [|done]. intros j. rewrite <-E3. apply Hno.
Qed.

Lemma open_create_spec p s r s' : os_OpenCreate p s = (r, s') ->
  match r with
  | Err _ => s' = s
  | Ok i => (s' = s /\ file_at s p i) \/ writes s s' p i ""
  end.
Proof.
  unfold os_OpenCreate. destruct (fs_nodes s !! p) as [[|i]|] eqn:En.
  - by intros [= <- <-].
  - intros [= <- <-]. by left.
  - destruct (parent_ok s p); intros [= <- <-]; [|done]. right. split.
    + unfold file_at. simpl. apply lookup_insert_eq.
    + intros q j Hq. unfold file_at. simpl. by rewrite lookup_insert_ne.
    + unfold content, inode_at. simpl. by rewrite lookup_insert_eq.
    + intros j Hj. unfold content, inode_at. simpl. by rewrite lookup_insert_ne.
    + right. split; [|done]. intros j. unfold file_at. by rewrite En.
Qed.

(** A writer with nothing buffered, positioned at its end. *)
Definition fresh_writer (w : Local.fileWriter) (p : path) (i : nat) (n : nat) : Prop :=
  w = Local.mkWriter p i n "" (Z.of_nat n) false false false.

Lemma mkdir_all_dirs p s r s' q :
  os_MkdirAll p s = (r, s') -> fs_nodes s !! q = Some NDir -> fs_nodes s' !! q = Some NDir.
Proof.
  unfold os_MkdirAll. destruct (existsb _ _); intros [= <- <-]; [done|]. intros Hq.
  cbn [set_nodes fs_nodes]. rewrite foldr_mkdir_lookup. by case_decide.
Qed.

Lemma fmt_ok {A} (m : ST fs A) s a s' : Local.fmt m s = (Ok a, s') -> m s = (Ok a, s').
Proof. unfold Local.fmt. by destruct (m s) as [[|] ?]. Qed.
Lemma fmt_err {A} (m : ST fs A) s e s' : Local.fmt m s = (Err e, s') -> exists e', m s = (Err e', s').
Proof. unfold Local.fmt. destruct (m s) as [[|] ?]; intros [= <- <-]; eauto. Qed.

Lemma writer_append_spec p s r s' : Local.Writer p true s = (r, s') ->
  same_files s s' /\ forall w, r = Ok w -> exists i, file_at s p i /\
    fresh_writer w p i (String.length (content s i)).
Proof.
  unfold Local.Writer. unfold bind at 1, get at 1. destruct (fst (os_Stat p s)) as [fi|e] eqn:Est.
  2:{ intros [= <- <-]. split; [apply same_files_refl|done]. }
  intros Hw. steps Hw.
  { apply fmt_err in E as [? E]. split; [by eapply mkdir_all_spec|done]. }
  apply fmt_ok in E. pose proof (mkdir_all_spec _ _ _ _ E) as Hs.
  pose proof (mkdir_all_dirs _ _ _ _ p E) as Hd. steps Hw.
  { apply fmt_err in E0 as [? E0%open_create_spec]. by subst. }
  apply fmt_ok in E0. unfold os_Stat, lookup_node in Est.
  destruct (fs_nodes s !! p) as [[|i]|] eqn:En; [| |by destruct (existsb _ _)].
  - unfold os_OpenCreate in E0. by rewrite Hd in E0.
  - assert (file_at s0 p i) as Hp by by apply Hs. unfold os_OpenCreate in E0. rewrite Hp in E0.
    injection E0 as <- <-. unfold bind, get in Hw. injection Hw as <- <-. split; [done|]. intros w [= <-].
    exists i. split; [done|]. unfold fresh_writer.
    change (i_content (inode_at s0 i)) with (content s0 i). rewrite (content_ext s s0); [done|apply Hs].
Qed.

Lemma writer_create_spec p s r s' : Local.Writer p false s = (r, s') ->
  match r with
  | Err _ => same_files s s'
  | Ok w => exists i, writes s s' p i "" /\ fresh_writer w p i 0
  end.
Proof.
  unfold Local.Writer. unfold bind at 1, get at 1. intros Hw.
  assert ((Local.fmt (os_MkdirAll (path_dir p));;;
    (let* i := Local.fmt (os_OpenCreate p) in
     (Local.fmt (os_Truncate i);;; ret (Local.mkWriter p i 0 "" 0 false false false)))) s = (r, s')) as Hw'.
  { by destruct (fst (os_Stat p s)). }
  clear Hw. rename Hw' into Hw. steps Hw.
  { apply fmt_err in E as [? E]. by eapply mkdir_all_spec. }
  apply fmt_ok, mkdir_all_spec in E. steps Hw.
  { apply fmt_err in E0 as [? E0%open_create_spec]. by subst. }
  apply fmt_ok, open_create_spec in E0. unfold bind, Local.fmt, os_Truncate, ret in Hw.
  injection Hw as <- <-. exists a0. split; [|done]. eapply writes_after; [exact E|].
  destruct E0 as [[-> Hp]|Hp].
  - by apply writes_set.
  - eapply writes_trans; [exact Hp|]. apply writes_set, Hp.
Qed.

(** ** Writing through a writer: the bytes written are appended on Close *)
Lemma splice_append (c t : string) : splice c t (String.length c) = (c ++ t)%string.
Proof.
  unfold splice. rewrite substring_all by lia. rewrite substring_end by lia.
  by rewrite string_app_nil_r.
Qed.

(** The state after [data] went through a writer on inode [i]. *)
Definition appended (s : fs) (i : nat) (data : string) : fs :=
  if decide (data = "") then s
  else set_inodes <[i := mkInode (content s i ++ data) (fs_clock s)]> s.

Lemma write_at_appended s i data :
  os_WriteAt i data (String.length (content s i)) s = (Ok tt, appended s i data).
Proof.
  unfold os_WriteAt, appended. case_decide; [done|]. do 4 f_equal. apply splice_append.
Qed.

Lemma appended_writes s p i data :
  file_at s p i -> writes s (appended s i data) p i (content s i ++ data).
Proof.
  intros Hp. unfold appended. case_decide as Hd; [|by apply writes_set].
  subst. rewrite string_app_nil_r. split; try done. by left.
Qed.

Lemma close_spec s p i n data z cm cc : n = String.length (content s i) ->
  Local.Close (Local.mkWriter p i n data z false cm cc) s =
    (Ok (Local.mkWriter p i (n + String.length data) "" z true cm cc), appended s i data).
Proof.
  intros ->. unfold Local.Close, Local.Flush, bind.
  cbn [Local.w_closed Local.w_ino Local.w_buf Local.w_pos]. by rewrite write_at_appended.
Qed.

Lemma write_file_spec p c s r s' : Local.WriteFile p c s = (r, s') ->
  (exists e, r = Err e /\ same_files s s') \/
  (r = Ok (Z.of_nat (String.length c)) /\ exists i, writes s s' p i c).
Proof.
  unfold Local.WriteFile. intros Hw. steps Hw.
  { left. apply writer_create_spec in E. eauto. }
  apply writer_create_spec in E as (i&Hi&->).
  assert (content s0 i = "") as Hc by apply Hi.
  unfold bind, Local.Write in Hw. simpl in Hw. rewrite close_spec in Hw by by rewrite Hc.
  injection Hw as <- <-. right. split; [done|]. exists i. eapply writes_trans; [exact Hi|].
  pose proof (appended_writes s0 p i c (w_at _ _ _ _ _ Hi)) as Hx. by rewrite Hc in Hx.
Qed.

(** ** Renames and links *)
Record moved (s s' : fs) (src dst : path) (i : nat) : Prop := {
  m_inodes : fs_inodes s' = fs_inodes s;
  m_nextino : fs_next s' = fs_next s;
  m_dst : file_at s' dst i;
  m_others : forall q j, q <> dst -> file_at s' q j -> q <> src /\ file_at s q j;
  m_kept : forall q j, q <> dst -> q <> src -> file_at s q j -> file_at s' q j
}.

Lemma lookup_file s p i : file_at s p i -> lookup_node s p = Ok (NFile i).
Proof. intros Hp. unfold lookup_node. by rewrite Hp. Qed.

Lemma os_stat_file s p i : file_at s p i -> exists fi, os_Stat p s = (Ok fi, s).
Proof. intros Hp. unfold os_Stat. rewrite (lookup_file s p i Hp). eauto. Qed.

(** Moving a file: it is moved, or its destination is another name of the same
    file and nothing happens, or the move fails and nothing changes. *)
Lemma move_spec src dst s r s' i :
  file_at s src i -> Local.Move src dst s = (r, s') ->
  (r = Ok tt /\ moved s s' src dst i) \/
  (r = Ok tt /\ file_at s dst i /\ same_files s s') \/
  (exists e, r = Err e /\ same_files s s').
Proof.
  intros Hp. unfold Local.Move. destruct (os_stat_file s src i Hp) as [fi ->]. simpl. intros Hw.
  steps Hw.
  { apply fmt_err in E as [? E%mkdir_all_spec]. eauto. }
  apply fmt_ok, mkdir_all_spec in E. assert (file_at s0 src i) as Hp0 by by apply E.
  unfold Local.fmt, os_Rename in Hw. rewrite (lookup_file _ _ _ Hp0) in Hw.
  destruct (parent_ok s0 dst); [|injection Hw as <- <-; eauto].
  assert (forall r s', (r, s') = (Ok tt, set_nodes (fun m => <[dst := NFile i]> (delete src m)) s0) ->
    r = Ok tt /\ moved s s' src dst i) as Hmv.
  { intros r1 s1 [= -> ->]. split; [done|]. destruct E as (E1&E2&E3). split; [done|done| | |].
    - unfold file_at. simpl. apply lookup_insert_eq.
    - intros q j Hq. unfold file_at at 1. simpl. rewrite lookup_insert_ne by done.
      intros [Hn Hj]%lookup_delete_Some. split; [done|]. by apply E3.
    - intros q j Hq Hn Hj. unfold file_at. simpl. rewrite lookup_insert_ne, lookup_delete_ne by done.
      by apply E3. }
  destruct (fs_nodes s0 !! dst) as [[|j]|] eqn:Ed.
  - injection Hw as <- <-. eauto.
  - case_decide as Hij.
    + injection Hw as <- <-. subst j. right. left. split; [done|]. split; [|done]. by apply E.
    + injection Hw as <- <-. left. by apply Hmv.
  - injection Hw as <- <-. left. by apply Hmv.
Qed.

(** What is not a file cannot be moved onto something that exists. *)
Lemma move_onto_spec src dst s r s' :
  (forall i, ~ file_at s src i) -> fs_nodes s !! dst <> None ->
  Local.Move src dst s = (r, s') -> same_files s s'.
Proof.
  intros Hno Hdn.
  assert (forall r s', (let* _ := Local.fmt (os_MkdirAll (path_dir dst)) in
    Local.fmt (os_Rename src dst)) s = (r, s') -> same_files s s') as Hgen.
  { intros r1 s1 Hw. steps Hw.
    { apply fmt_err in E as [? E]. by eapply mkdir_all_spec. }
    apply fmt_ok in E. assert (fs_nodes s0 !! dst <> None) as Hdn0.
    { destruct (fs_nodes s !! dst) as [[|j]|] eqn:Ed; [| |done].
      - by rewrite (mkdir_all_dirs _ _ _ _ dst E Ed).
      - apply mkdir_all_spec in E as (_&_&E). apply E in Ed. unfold file_at in Ed. congruence. }
    apply mkdir_all_spec in E. unfold Local.fmt, os_Rename, lookup_node in Hw.
    destruct (fs_nodes s0 !! src) as [[|i]|] eqn:Es.
    - destruct (under src dst); [by injection Hw as <- <-|].
      destruct (parent_ok s0 dst); [|by injection Hw as <- <-].
      destruct (fs_nodes s0 !! dst) as [[|j]|]; [by injection Hw as <- <-..|done].
    - apply E in Es. by destruct (Hno i).
    - destruct (existsb _ _); by injection Hw as <- <-. }
  unfold Local.Move. destruct (fst (os_Stat src s)) as [fi|e]; [by apply Hgen|].
  destruct (Local.IsNotExist e); [intros [= <- <-]; apply same_files_refl|by apply Hgen].
Qed.

(** [dst] becomes another name of the inode of [src]. *)
Record linked (s s' : fs) (src dst : path) (i : nat) : Prop := {
  l_src : file_at s src i;
  l_dst : file_at s' dst i;
  l_others : forall q j, q <> dst -> file_at s' q j <-> file_at s q j;
  l_content : forall j, content s' j = content s j;
  l_next : fs_next s' = fs_next s
}.

Lemma chtimes_spec p s r s' : os_Chtimes_now p s = (r, s') ->
  (forall q j, file_at s' q j <-> file_at s q j) /\ (forall j, content s' j = content s j) /\
  fs_next s' = fs_next s.
Proof.
  unfold os_Chtimes_now. destruct (lookup_node s p) as [[|i]|]; intros [= <- <-]; [done| |done].
  split; [done|]. split; [|done]. intros j. rewrite content_set_inodes. by case_decide; [subst|].
Qed.

Lemma os_link_spec src dst s r s' : os_Link src dst s = (r, s') ->
  s' = s \/ exists i, linked s s' src dst i.
Proof.
  unfold os_Link, lookup_node. destruct (fs_nodes s !! src) as [[|i]|] eqn:Es.
  - intros [= <- <-]. by left.
  - destruct (parent_ok s dst); [|intros [= <- <-]; by left].
    destruct (fs_nodes s !! dst) eqn:Ed; intros [= <- <-]; [by left|]. right. exists i.
    split; try done; unfold file_at; simpl.
    + apply lookup_insert_eq.
    + intros q j Hq. by rewrite lookup_insert_ne.
  - destruct (existsb _ _); intros [= <- <-]; by left.
Qed.

Lemma link_spec src dst s r s' : Local.Link src dst s = (r, s') ->
  exists s0, fewer s s0 /\ (forall q i, q <> dst -> file_at s q i -> file_at s0 q i) /\
    (s' = s0 \/ exists i, linked s0 s' src dst i).
Proof.
  unfold Local.Link. intros Hw. steps Hw; [by unfold try in E; destruct (os_Remove dst s)|].
  assert (exists r0, os_Remove dst s = (r0, s0)) as [r0 Hr].
  { unfold try in E. destruct (os_Remove dst s) as [r0 s1]. injection E as <- <-. eauto. }
  apply remove_spec in Hr as [Hr Hk]. exists s0. split; [done|]. split; [done|].
  assert (forall r s', (let* _ := Local.fmt (os_Link src dst) in Local.fmt (os_Chtimes_now dst)) s0 = (r, s') ->
    s' = s0 \/ exists i, linked s0 s' src dst i) as Hgen.
  { clear Hw s' r. intros r s' Hw. steps Hw.
    { apply fmt_err in E0 as [? E0]. by eapply os_link_spec. }
    apply fmt_ok in E0. assert (exists r1, os_Chtimes_now dst s1 = (r1, s')) as [r1 Hc].
    { apply fmt_state in Hw as (?&?&_). eauto. }
    apply chtimes_spec in Hc as (C1&C2&C3). unfold os_Link, lookup_node in E0.
    destruct (fs_nodes s0 !! src) as [[|i]|] eqn:Es; [done| |by destruct (existsb _ _)].
    destruct (parent_ok s0 dst); [|done]. destruct (fs_nodes s0 !! dst) eqn:Ed; [done|].
    injection E0 as <- <-. right. exists i. split; [done| | | |].
    - apply C1. unfold file_at. simpl. apply lookup_insert_eq.
    - intros q j Hq. rewrite C1. unfold file_at. simpl. by rewrite lookup_insert_ne.
    - intros j. by rewrite C2.
    - by rewrite C3. }
  destruct a as [|e].
  - by eapply Hgen.
  - destruct (Local.IsNotExist e); [by eapply Hgen|]. injection Hw as <- <-. by left.
Qed.

(** ** The invariant is kept *)
Section keeps.
Context `{GoDigestLaws} (root : path) (g : option (path * string)).
Local Notation ok := (fs_ok root g).

Lemma ok_same s s' : same_files s s' -> ok s -> ok s'.
Proof.
  intros Hs. apply fs_ok_fewer; [by apply same_files_fewer|]. intros p c i _ Hp. by apply Hs.
Qed.

Lemma ok_writes s s' p i c :
  writes s s' p i c -> off_guard g p -> (forall d, is_blob root p d -> FromBytes (Algorithm d) c = d) ->
  ok s -> ok s'.
Proof.
  intros [W1 W2 W3 W4 W5] Hg Hc [[I1 I2 I3] Hh]. split.
  - destruct W5 as [[Hp Hn]|(Hno&Hi&Hn)].
    + assert (forall q j, file_at s' q j -> file_at s q j) as Hback.
      { intros q j Hq. destruct (decide (q = p)) as [->|]; [|by apply W2].
        unfold file_at in *. congruence. }
      split.
      * intros q d j Hb Hq. destruct (decide (j = i)) as [->|Hj]; [|rewrite W4; eauto].
        rewrite W3. destruct (I2 p q i Hp (Hback _ _ Hq)) as [->|(d'&B1&B2)]; [by apply Hc|].
        rewrite (is_blob_fun root q d d'); eauto.
      * intros q q' j Hq Hq'. eauto.
      * intros q j Hq. rewrite Hn. eauto.
    + subst i. apply (fs_inv_place root s s' p (fs_next s)); try done; try lia.
      * intros q Hq j Hj. by apply W2.
      * intros d Hb. rewrite W3. by apply Hc.
      * intros q Hq Hj. apply W2 in Hj; [|done]. apply I3 in Hj. lia.
  - destruct g as [[q c']|]; [|done]. destruct Hh as [Hn (j&Hq&Hj)]. split; [done|]. exists j.
    split; [by apply W2|]. rewrite W4; [done|]. intros ->.
    destruct W5 as [[Hp _]|(_&Hi&_)]; [|apply I3 in Hq; lia].
    destruct (I2 _ _ _ Hp Hq) as [->|(d&_&B)]; [done|]. by destruct (Hn d).
Qed.

Lemma ok_moved s s' src dst i :
  moved s s' src dst i -> file_at s src i -> off_guard g src -> off_guard g dst ->
  (forall d, is_blob root dst d -> FromBytes (Algorithm d) (content s i) = d) ->
  not_blob root src \/ (exists d, is_blob root src d /\ is_blob root dst d) ->
  ok s -> ok s'.
Proof.
  intros [M1 M2 M3 M4 M5] Hs Hg1 Hg2 Hc Hb [[I1 I2 I3] Hh].
  assert (forall j, content s' j = content s j) as Hcc by (intros j; by apply content_ext).
  split.
  - apply (fs_inv_place root s s' dst i); try done; try lia.
    + intros q Hq j Hj. apply M4 in Hj as [_ Hj]; done.
    + rewrite M2. eauto.
    + intros d Hd. rewrite Hcc. by apply Hc.
    + intros q Hq Hj. apply M4 in Hj as [Hn Hj]; [|done].
      destruct (I2 _ _ _ Hs Hj) as [->|(d&B1&B2)]; [done|].
      destruct Hb as [Hb|(d'&B1'&B2')]; [by destruct (Hb d)|]. exists d'. split; [done|].
      by rewrite (is_blob_fun root src d' d).
  - destruct g as [[q c']|]; [|done]. destruct Hh as [Hn (j&Hq&Hj)]. split; [done|]. exists j.
    split; [by apply M5|]. by rewrite Hcc.
Qed.

Lemma ok_linked s s' src dst i d :
  linked s s' src dst i -> off_guard g dst -> is_blob root src d -> is_blob root dst d -> ok s -> ok s'.
Proof.
  intros [L1 L2 L3 L4 L5] Hg B1 B2 [[I1 I2 I3] Hh]. split.
  - apply (fs_inv_place root s s' dst i); try done; try lia.
    + intros q Hq j Hj. by apply L3.
    + rewrite L5. eauto.
    + intros d' Hd. rewrite L4. rewrite (is_blob_fun root dst d' d) by done. eauto.
    + intros q Hq Hj. apply L3 in Hj; [|done]. exists d. split; [done|].
      destruct (I2 _ _ _ L1 Hj) as [->|(d'&B1'&B2')]; [done|].
      by rewrite (is_blob_fun root src d d').
  - destruct g as [[q c']|]; [|done]. destruct Hh as [Hn (j&Hq&Hj)]. split; [done|]. exists j.
    split; [by apply L3|]. by rewrite L4.
Qed.

(** The operations of the driver, one by one. *)
Lemma ok_EnsureDir p : preserves ok (EnsureDir p).
Proof. intros s r s' Hi Hs%ensure_dir_spec. by eapply ok_same. Qed.

Lemma ok_Stat p : preserves ok (Stat p).
Proof. intros s r s' Hi [-> _]%stat_spec. done. Qed.

Lemma ok_Reader p off : preserves ok (Reader p off).
Proof. intros s r s' Hi [-> _]%reader_spec. done. Qed.

Lemma ok_ReadFile p : preserves ok (ReadFile p).
Proof. intros s r s' Hi [-> _]%read_file_spec. done. Qed.

Lemma ok_List p : preserves ok (Driver.List p).
Proof.
  intros s r s' Hi Hl. simpl in Hl. unfold Local.List in Hl. apply bind_state in Hl.
  assert (forall r0 s0, Local.map_err Local.not_found (os_ReadDir p) s = (r0, s0) -> s0 = s) as Hr.
  { intros r0 s0 (r1&E&_)%map_err_state. pose proof (os_readdir_state p s) as Hx. by rewrite E in Hx. }
  destruct Hl as [(e&E&_)|(a&s1&E&Hx)]; [by apply Hr in E; subst|].
  apply Hr in E. injection Hx as <- <-. by subst.
Qed.

Lemma ok_WriteFile p c :
  off_guard g p -> (forall d, is_blob root p d -> FromBytes (Algorithm d) c = d) ->
  preserves ok (WriteFile p c).
Proof.
  intros Hg Hc s r s' Hi [(e&_&Hs)|(_&i&Hs)]%write_file_spec; [by eapply ok_same|].
  by eapply ok_writes.
Qed.

Lemma ok_Delete p : (forall q c, g = Some (q, c) -> under p q = false) -> preserves ok (Delete p).
Proof.
  intros Hg s r s' Hi [Hf Hk]%delete_spec. eapply fs_ok_fewer; [done| |done].
  intros q c i Eg Hq. apply Hk; [|done]. by eapply Hg.
Qed.

Lemma ok_Link src dst d : off_guard g dst -> is_blob root src d -> is_blob root dst d ->
  preserves ok (Link src dst).
Proof.
  intros Hg B1 B2 s r s' Hi (s0&Hf&Hk&Hs)%link_spec.
  assert (ok s0) as Hi0.
  { eapply fs_ok_fewer; [done| |done]. intros q c i Eg Hq. apply Hk; [|done].
    subst. simpl in Hg. congruence. }
  destruct Hs as [->|(i&Hl)]; [done|]. by eapply ok_linked.
Qed.

(** Moving a file to a place that may hold its content. *)
Lemma ok_Move_file src dst s r s' i :
  file_at s src i -> off_guard g src -> off_guard g dst ->
  (forall d, is_blob root dst d -> FromBytes (Algorithm d) (content s i) = d) ->
  not_blob root src \/ (exists d, is_blob root src d /\ is_blob root dst d) ->
  ok s -> Move src dst s = (r, s') -> ok s'.
Proof.
  intros Hs Hg1 Hg2 Hc Hb Hi Hm.
  destruct (move_spec _ _ _ _ _ _ Hs Hm) as [[_ Hx]|[(_&_&Hx)|(e&_&Hx)]].
  - by eapply ok_moved.
  - by eapply ok_same.
  - by eapply ok_same.
Qed.

Lemma under_self p : under p p = true.
Proof. induction p as [|x p IH]; simpl; [done|]. by rewrite bool_decide_eq_true_2, IH. Qed.

(** Uploads: a writer opened on a path that is not a blob. *)
Lemma ok_Writer p append : off_guard g p -> not_blob root p -> preserves ok (Writer p append).
Proof.
  intros Hg Hn s r s' Hi Hw. simpl in Hw. destruct append.
  - apply writer_append_spec in Hw as [Hs _]. by eapply ok_same.
  - apply writer_create_spec in Hw. destruct r as [w|e]; [|by eapply ok_same].
    destruct Hw as (i&Hw&_). eapply ok_writes; [done|done| |done]. intros d Hb. by destruct (Hn d).
Qed.

Lemma ok_appended s p i data : file_at s p i -> off_guard g p -> not_blob root p -> ok s ->
  ok (appended s i data).
Proof.
  intros Hp Hg Hn Hi. eapply ok_writes; [by apply appended_writes|done| |done].
  intros d Hb. by destruct (Hn d).
Qed.
End keeps.
