(* ===== verification/ConcreteStore.v ===== *)
(** * A concrete registry

    An image store on an empty file system with a BoltDB cache, the stand-ins
    of Concrete.v for digests and JSON, and a few contents to push: the inputs
    on which the theorems about the image store are shown to apply. *)

From Stdlib Require Import ZArith Ascii String.
From stdpp Require Import base tactics list gmap strings.
From S2P Require Import Prelude Regexp Driver BlobCache Oci IndexOps StorageCommon Concrete ImageStore.

Local Open Scope string_scope.
Local Open Scope list_scope.

Definition zot_root : path := [""; "zot"].
Definition zot_cfg (dedupe : bool) : config fs Bolt.db := mkConfig zot_root dedupe [] true None 20.
Definition zot_new : store fs Bolt.db :=
  mkStore (set_nodes (fun m => <[zot_root := NDir]> m) empty_fs) (Some (new_db zot_root true)) true []
    ["u1"; "u2"; "u3"; "u4"; "u5"; "u6"; "u7"; "u8"].

Definition sha256 (content : string) : string := FromBytes "sha256" content.
Definition sha512 (content : string) : string := FromBytes "sha512" content.

Definition a_config : string := "cfg".
Definition a_layer : string := "layer".
Definition a_manifest : string :=
  toy_manifest (manifest_of (desc_of MediaTypeImageConfig a_config) [desc_of "l" a_layer]).
