(* ===== verification/Addressing.v ===== *)
(** * Content addressing of the image store

    Every operation of the image store, on local storage with any cache that
    meets its contract, keeps the invariant that a blob path only ever holds
    content of its digest. What a client downloads therefore always hashes to
    the digest it asked for, however uploads, mounts, deduplication, deletions
    and rebuilds are interleaved. *)

From Stdlib Require Import ZArith Lia Ascii String.
From stdpp Require Import base tactics list gmap strings sorting.
From S2P Require Import Prelude Regexp Driver BlobCache Oci IndexOps StorageCommon Concrete ImageStore Content ConcreteStore.

Local Open Scope string_scope.
Local Open Scope list_scope.

(** ** Sequencing towards a weaker invariant *)
Section ends.
Context {S : Type} (P Q : S -> Prop).

Definition ends {A} (m : ST S A) : Prop := forall s r s', P s -> m s = (r, s') -> Q s'.

Lemma ends_bind {A B} (m : ST S A) (k : A -> ST S B) :
  (forall s, P s -> Q s) -> preserves P m -> (forall a, ends (k a)) -> ends (bind m k).
Proof.
  intros Hpq Hm Hk s r s' HP. unfold bind. destruct (m s) as [[a|e] s1] eqn:E.
  - apply Hk. eauto.
  - intros [= <- <-]. eauto.
Qed.
Lemma ends_preserves {A} (m : ST S A) : (forall s, P s -> Q s) -> preserves P m -> ends m.
Proof. intros Hpq Hm s r s' HP E. eauto. Qed.
Lemma ends_throw {A} e : (forall s, P s -> Q s) -> ends (A:=A) (throw e).
Proof. intros Hpq s r s' HP [= <- <-]. auto. Qed.
Lemma ends_ret {A} (a : A) : (forall s, P s -> Q s) -> ends (ret a).
Proof. intros Hpq s r s' HP [= <- <-]. auto. Qed.
End ends.

(** ** Paths of the store *)
Lemma repo_components repo : repo_ok repo ->
  Forall (fun c => plain c /\ exists a c', c = String a c' /\ alnum a = true) (split_on slash repo).
Proof.
  unfold repo_ok. rewrite match_string_spec. intros Hm. apply name_components in Hm.
  eapply Forall_impl; [exact Hm|]. intros c Hc. split; [by apply component_plain|by apply component_first].
Qed.

Lemma repo_join root repo : repo_ok repo -> path_join root repo = root ++ split_on slash repo.
Proof.
  intros Hr. apply path_join_plain. eapply Forall_impl; [by apply repo_components|]. by intros c [? _].
Qed.

Definition uuid_ok (u : string) : Prop := plain u /\ no_char slash u = true.

Section paths.
Context {F C : Type} `{GoDigestLaws} (cfg : config F C) (repo : string).
Hypothesis Hrepo : repo_ok repo.
Local Notation root := (cf_rootDir cfg).
Local Notation dir := (root ++ split_on slash repo).

Lemma join_const p c : no_char slash c = true -> plain c -> path_join p c = p ++ [c].
Proof. apply path_join_one. Qed.

Lemma repo_path_eq : IS.repo_path cfg repo = dir.
Proof. by apply repo_join. Qed.

Lemma sub_path_eq c : no_char slash c = true -> plain c -> path_join (IS.repo_path cfg repo) c = dir ++ [c].
Proof. intros. by rewrite repo_path_eq, join_const. Qed.

Lemma BlobPath_eq d : Validate d = None ->
  IS.BlobPath cfg repo d = dir ++ [ImageBlobsDir; Algorithm d; Encoded d].
Proof.
  intros Hv. destruct (validate_names d Hv) as [Ha He]. unfold IS.BlobPath.
  rewrite sub_path_eq by done.
  rewrite join_const by auto using name_like_no_slash, name_like_plain.
  rewrite join_const by auto using name_like_no_slash, name_like_plain.
  by rewrite <-!app_assoc.
Qed.

Lemma BlobPath_is_blob d : Validate d = None -> is_blob root (IS.BlobPath cfg repo d) d.
Proof. intros Hv. exists repo. split; [done|]. split; [done|]. by rewrite BlobPath_eq. Qed.

Lemma upload_path_eq u : uuid_ok u -> IS.BlobUploadPath cfg repo u = dir ++ [BlobUploadDir; u].
Proof.
  intros [Hu1 Hu2]. unfold IS.BlobUploadPath. rewrite sub_path_eq by done. rewrite join_const by done.
  by rewrite <-app_assoc.
Qed.

Lemma upload_not_blob u : uuid_ok u -> not_blob root (IS.BlobUploadPath cfg repo u).
Proof. intros Hu. rewrite upload_path_eq by done. by apply not_blob_last2. Qed.

(** Files of a repository's directory are neither blobs nor uploads. *)
Lemma top_file_not_blob c : all_chars alnum c = false -> not_blob root (dir ++ [c]).
Proof. apply not_blob_last. Qed.

(** The same repository's upload file is none of them. *)
Lemma top_file_off_upload c u : uuid_ok u -> IS.BlobUploadPath cfg repo u <> dir ++ [c].
Proof.
  intros Hu. rewrite upload_path_eq by done. intros E. by apply app_inv_head in E.
Qed.
End paths.

(** ** The invariant of the store *)
Section store.
Context {C : Type} `{CacheLaws C} `{GoDigestLaws} `{OciCodec} (cfg : config fs C).
Local Notation root := (cf_rootDir cfg).
Local Notation store := (store fs C).
Hypothesis Hroot : is_abs root = true.

Lemma root_nonempty : root <> [].
Proof. intros E. by rewrite E in Hroot. Qed.

Definition full (c : C) (k : path) : path :=
  if UsesRelativePaths c then foldl join_step root k else k.

(** Every record of the cache is a blob path of its digest. *)
Definition cache_ok (c : C) : Prop :=
  cache_root c = root /\ cache_wf c /\ forall d k, recorded c d k ->
    is_blob root (full c k) d /\ (UsesRelativePaths c = true -> is_abs k = false).

Definition store_ok (g : option (path * string)) (s : store) : Prop :=
  fs_ok root g (st_drv s) /\ (forall c, st_cache s = Some c -> cache_ok c) /\
  Forall uuid_ok (st_uuids s).

Lemma store_ok_weaken g s : store_ok g s -> store_ok None s.
Proof. intros ([Hi _]&Hc&Hu). by split. Qed.

Lemma is_blob_key p d : is_blob root p d ->
  exists q, p = root ++ q /\ foldl join_step root q = root ++ q /\ path_rel root p = Some q /\
    is_abs q = false.
Proof.
  intros (r&Hr&Hv&->). destruct (validate_names d Hv) as [Ha He].
  exists (split_on slash r ++ [ImageBlobsDir; Algorithm d; Encoded d]). rewrite <-app_assoc.
  split; [done|].
  assert (Forall plain (split_on slash r ++ [ImageBlobsDir; Algorithm d; Encoded d])) as Hp.
  { apply Forall_app. split.
    - eapply Forall_impl; [by apply repo_components|]. by intros c [? _].
    - repeat constructor; try done; by apply name_like_plain. }
  split; [|split; [apply path_rel_under, root_nonempty|]].
  - generalize root. induction Hp as [|c l Hc Hl IH]; intros acc; simpl; [by rewrite app_nil_r|].
    rewrite join_step_plain by done. rewrite IH. by rewrite <-app_assoc.
  - destruct (split_on slash r ++ _) as [|c l]; [done|]. simpl. inversion Hp as [|? ? [? _]]; subst.
    by apply bool_decide_eq_false.
Qed.

Section guarded.
Context (g : option (path * string)).
Local Notation ok := (store_ok g).

Lemma pres_drv {A} (m : ST fs A) : preserves (fs_ok root g) m -> preserves ok (IS.drv m).
Proof.
  intros Hm s r s' (Hf&Hc&Hu). unfold IS.drv. destruct (m (st_drv s)) as [r0 d] eqn:E.
  intros [= <- <-]. split; [by eapply Hm|done].
Qed.

Lemma pres_cache {A} (m : ST C A) :
  (forall c r c', cache_ok c -> m c = (r, c') -> cache_ok c') -> preserves ok (IS.cache m).
Proof.
  intros Hm s r s' (Hf&Hc&Hu). unfold IS.cache. destruct (st_cache s) as [c|] eqn:Ec.
  - destruct (m c) as [r0 c'] eqn:E. intros [= <- <-]. split; [done|]. split; [|done].
    simpl. intros c0 [= <-]. eapply Hm; [|exact E]. by apply Hc.
  - intros [= <- <-]. split; [done|]. split; [|done]. by rewrite Ec.
Qed.

Lemma pres_cache_get d : preserves ok (IS.cache (BlobCache.GetBlob d)).
Proof. apply pres_cache. intros c r c' Hc E. by rewrite (get_same _ _ _ _ E). Qed.
Lemma pres_cache_all d : preserves ok (IS.cache (BlobCache.GetAllBlobs d)).
Proof. apply pres_cache. intros c r c' Hc E. by rewrite (get_all_same _ _ _ _ E). Qed.
Lemma pres_cache_delete d p : preserves ok (IS.cache (BlobCache.DeleteBlob d p)).
Proof.
  apply pres_cache. intros c r c' (Hc1&Hw&Hc2) E. destruct (delete_const _ _ _ _ _ E) as [K1 K2].
  split; [congruence|]. split; [by eapply delete_wf|]. intros d' k Hk. unfold full. rewrite K2. apply Hc2.
  by eapply delete_recorded.
Qed.
Lemma pres_cache_put d p : is_blob root p d -> preserves ok (IS.cache (BlobCache.PutBlob d (Some p))).
Proof.
  intros Hb. apply pres_cache. intros c r c' (Hc1&Hw&Hc2) E. destruct (put_const _ _ _ _ _ E) as [K1 K2].
  split; [congruence|]. split; [by eapply put_wf|]. intros d' k Hk. unfold full. rewrite K2.
  destruct (put_recorded _ _ _ _ _ _ _ E Hk) as [Hr|[-> Hr]]; [by apply Hc2|].
  destruct (is_blob_key p d Hb) as (q&->&Hj&Hq&Hab). unfold cache_key in Hr. rewrite Hc1 in Hr.
  destruct (UsesRelativePaths c).
  - rewrite Hq in Hr. injection Hr as <-. by rewrite Hj.
  - injection Hr as <-. by split.
Qed.

Lemma pres_NewV4 : preserves ok IS.NewV4.
Proof.
  intros s r s' (Hf&Hc&Hu). unfold IS.NewV4. destruct (st_uuids s) as [|u us] eqn:Eu; intros [= <- <-].
  - split; [done|]. split; [done|]. by rewrite Eu.
  - split; [done|]. split; [done|]. by inversion Hu.
Qed.
Lemma NewV4_uuid s u s' : ok s -> IS.NewV4 s = (Ok u, s') -> uuid_ok u.
Proof.
  intros (_&_&Hu). unfold IS.NewV4. destruct (st_uuids s) as [|u' us]; intros [= <- <-].
  by inversion Hu.
Qed.
Lemma pres_record e : preserves ok (IS.record cfg e).
Proof. intros s r s' Hs. unfold IS.record. destruct (cf_recorder cfg); intros [= <- <-]; done. Qed.
Lemma pres_set_rebuildDone b : preserves ok (IS.set_rebuildDone b).
Proof. intros s r s' Hs [= <- <-]. done. Qed.
Lemma pres_ignore {A} (m : ST store A) : preserves ok m -> preserves ok (IS.ignore m).
Proof. intros Hm. unfold IS.ignore. pres. Qed.
Lemma pres_valid d : preserves ok (IS.valid d).
Proof. unfold IS.valid. pres. Qed.
Lemma pres_fueled {A} (m : ST store (option A)) : preserves ok m -> preserves ok (IS.fueled m).
Proof. intros Hm. unfold IS.fueled. pres. Qed.
#[local] Hint Resolve pres_cache_get pres_cache_all pres_cache_delete pres_NewV4 pres_record
  pres_set_rebuildDone pres_ignore pres_valid pres_fueled : pres.
#[local] Hint Resolve ok_EnsureDir ok_Stat ok_Reader ok_ReadFile ok_List ok_WriteFile ok_Delete ok_Link
  ok_Writer pres_drv : pres.

Lemma pres_checkCacheBlob d : preserves ok (IS.checkCacheBlob cfg d).
Proof. unfold IS.checkCacheBlob. pres. Qed.
#[local] Hint Resolve pres_checkCacheBlob : pres.
Lemma pres_originalBlobInfo repo d : preserves ok (IS.originalBlobInfo cfg repo d).
Proof. unfold IS.originalBlobInfo. pres. Qed.
#[local] Hint Resolve pres_originalBlobInfo : pres.

Lemma pres_StatBlob repo d : preserves ok (IS.StatBlob cfg repo d).
Proof. unfold IS.StatBlob. pres. Qed.
Lemma pres_GetBlob repo d : preserves ok (IS.GetBlob cfg repo d).
Proof. unfold IS.GetBlob. pres. Qed.
Lemma pres_GetBlobPartial repo d a b : preserves ok (IS.GetBlobPartial cfg repo d a b).
Proof. unfold IS.GetBlobPartial. pres. Qed.
Lemma pres_GetBlobContent repo d : preserves ok (IS.GetBlobContent cfg repo d).
Proof. unfold IS.GetBlobContent. pres. Qed.
Lemma pres_VerifyBlobDigestValue repo d : preserves ok (IS.VerifyBlobDigestValue cfg repo d).
Proof. unfold IS.VerifyBlobDigestValue. pres. Qed.
Lemma pres_GetIndexContent repo : preserves ok (IS.GetIndexContent cfg repo).
Proof. unfold IS.GetIndexContent. pres. Qed.
Lemma pres_StatIndex repo : preserves ok (IS.StatIndex cfg repo).
Proof. unfold IS.StatIndex. pres. Qed.
#[local] Hint Resolve pres_StatBlob pres_GetBlobContent pres_GetIndexContent : pres.

#[local] Instance interface : ImageStoreI store := IS.image_store cfg.

Lemma pres_common {A} (m : ImageStoreI store -> ST store A) :
  (forall i : ImageStoreI store,
     (forall repo d, preserves ok (@StorageCommon.GetBlobContent _ i repo d)) ->
     (forall repo, preserves ok (@StorageCommon.GetIndexContent _ i repo)) ->
     (forall repo d, preserves ok (@StorageCommon.StatBlob _ i repo d)) -> preserves ok (m i)) ->
  preserves ok (m (IS.image_store cfg)).
Proof. intros Hm. apply Hm; intros; simpl; eauto with pres. Qed.

Lemma pres_get_index repo : preserves ok (GetIndex repo).
Proof. apply (pres_common (fun iface => GetIndex repo)). eauto with pres. Qed.
Lemma pres_validate compats repo mt body :
  preserves ok (ValidateManifest compats repo mt body).
Proof. apply (pres_common (fun iface => ValidateManifest compats repo mt body)). eauto with pres. Qed.
Lemma pres_update index repo desc old :
  preserves ok (UpdateIndexWithPrunedImageManifests index repo desc old).
Proof. apply (pres_common (fun iface => UpdateIndexWithPrunedImageManifests index repo desc old)). eauto with pres. Qed.
Lemma pres_in_index n repo d i :
  preserves ok (IsBlobReferencedInImageIndex n repo d i).
Proof. apply (pres_common (fun iface => IsBlobReferencedInImageIndex n repo d i)). eauto with pres. Qed.
Lemma pres_referenced n repo d :
  preserves ok (IsBlobReferenced n repo d).
Proof. apply (pres_common (fun iface => IsBlobReferenced n repo d)). eauto with pres. Qed.
Lemma pres_descriptor n repo d :
  preserves ok (GetBlobDescriptorFromRepo n repo d).
Proof. apply (pres_common (fun iface => GetBlobDescriptorFromRepo n repo d)). eauto with pres. Qed.
Lemma pres_referrers repo d ts :
  preserves ok (GetReferrers repo d ts).
Proof. apply (pres_common (fun iface => GetReferrers repo d ts)). eauto with pres. Qed.
#[local] Hint Resolve pres_get_index pres_validate pres_update pres_in_index pres_referenced
  pres_descriptor pres_referrers : pres.

(** The guarded file, if any, is an upload of the repository at hand. *)
Definition guard_ok (repo : string) : Prop :=
  match g with
  | Some (p, _) => exists u, uuid_ok u /\ p = IS.BlobUploadPath cfg repo u
  | None => True
  end.

Lemma guard_top repo c : repo_ok repo -> guard_ok repo -> off_guard g ((root ++ split_on slash repo) ++ [c]).
Proof.
  unfold guard_ok, off_guard. destruct g as [[p ?]|]; [|done]. intros Hr (u&Hu&->) E.
  symmetry in E. by apply top_file_off_upload in E.
Qed.

Lemma pres_write_top repo c content :
  repo_ok repo -> guard_ok repo -> no_char slash c = true -> plain c -> all_chars alnum c = false ->
  preserves ok (IS.drv (WriteFile (path_join (IS.repo_path cfg repo) c) content)).
Proof.
  intros Hr Hg Hc1 Hc2 Hc3. apply pres_drv. rewrite sub_path_eq by done. apply ok_WriteFile.
  - by apply guard_top.
  - intros d Hb. by destruct (not_blob_last root (root ++ split_on slash repo) c Hc3 d).
Qed.

Lemma pres_validateRepoName name : preserves ok (IS.validateRepoName name).
Proof. unfold IS.validateRepoName. pres. Qed.
#[local] Hint Resolve pres_validateRepoName : pres.

Lemma pres_initRepo repo : repo_ok repo -> guard_ok repo -> preserves ok (IS.initRepo cfg repo).
Proof.
  intros Hr Hg. unfold IS.initRepo. change (path_join root repo) with (IS.repo_path cfg repo).
  assert (forall c content, no_char slash c = true -> plain c -> all_chars alnum c = false ->
  preserves ok (IS.drv (WriteFile (path_join (IS.repo_path cfg repo) c) content))) as Hw
  by (intros; by apply pres_write_top).
  assert (preserves ok (IS.drv (WriteFile (path_join (IS.repo_path cfg repo) ImageLayoutFile) marshal_layout)))
  by by apply Hw.
  assert (preserves ok (IS.drv (WriteFile (path_join (IS.repo_path cfg repo) ImageIndexFile)
  (marshal_index IS.new_index)))) by by apply Hw.
  pres.
Qed.

Lemma pres_repo_is_dir repo : preserves ok (IS.repo_is_dir cfg repo).
Proof. unfold IS.repo_is_dir. pres. Qed.
End guarded.

#[local] Hint Resolve pres_cache_get pres_cache_all pres_cache_delete pres_NewV4 pres_record
  pres_set_rebuildDone pres_ignore pres_valid pres_fueled : pres.
#[local] Hint Resolve ok_EnsureDir ok_Stat ok_Reader ok_ReadFile ok_List pres_drv : pres.
#[local] Hint Resolve pres_checkCacheBlob pres_originalBlobInfo pres_StatBlob pres_GetBlobContent
  pres_GetIndexContent pres_get_index pres_validate pres_update pres_in_index pres_referenced
  pres_descriptor pres_referrers pres_validateRepoName pres_repo_is_dir : pres.

(** ** What the cache hands out *)
Lemma drv_state {A} (m : ST fs A) (s : store) r s' : IS.drv m s = (r, s') ->
  exists d, m (st_drv s) = (r, d) /\
    s' = mkStore d (st_cache s) (st_rebuildDone s) (st_events s) (st_uuids s).
Proof. unfold IS.drv. destruct (m (st_drv s)) as [r0 d]. intros [= <- <-]. eauto. Qed.

Lemma cache_state {A} (m : ST C A) (s : store) a s' : IS.cache m s = (Ok a, s') ->
  exists c c', st_cache s = Some c /\ m c = (Ok a, c') /\
    s' = mkStore (st_drv s) (Some c') (st_rebuildDone s) (st_events s) (st_uuids s).
Proof.
  unfold IS.cache. destruct (st_cache s) as [c|]; [|done]. destruct (m c) as [r0 c'] eqn:E.
  intros [= -> <-]. eauto.
Qed.

Lemma try_state {S A} (m : ST S A) s r s' : try m s = (r, s') -> exists r0, r = Ok r0 /\ m s = (r0, s').
Proof. unfold try. destruct (m s) as [r0 s1]. intros [= <- <-]. eauto. Qed.

(** The record of a digest, as a full path, is a blob path of that digest. *)
Lemma cached_record_blob g d s r s' :
  store_ok g s -> IS.cache (BlobCache.GetBlob d) s = (Ok r, s') ->
  is_blob root (IS.full_record cfg r s) d.
Proof.
  intros (_&Hc&_) (c&c'&Ec&E&_)%cache_state. destruct (Hc c Ec) as (_&Hw&Hr).
  destruct r as [k|]; [|by destruct (get_some d c c' Hw)].
  apply get_recorded in E. destruct (Hr d k E) as [Hb _]. unfold IS.full_record, IS.relative_cache. by rewrite Ec.
Qed.

Lemma checkCacheBlob_blob g d s p s' :
  store_ok g s -> IS.checkCacheBlob cfg d s = (Ok p, s') -> is_blob root p d.
Proof.
  intros Hs. unfold IS.checkCacheBlob. destruct (Validate d); [done|].
  unfold bind at 1, get at 1. destruct (negb (IS.has_cache s)); [done|]. intros Hm.
  stepo Hm. eapply cached_record_blob in E; [|exact Hs]. stepo Hm.
  apply try_state in E0 as (r0&[= ->]&_). destruct r0 as [fi|e].
  - injection Hm as <- <-. done.
  - by stepo Hm.
Qed.

Lemma stat_same p (s : store) r s' : IS.drv (Stat p) s = (r, s') ->
  s' = s /\ forall fi, r = Ok fi -> fi_Path fi = p.
Proof.
  intros (f&E&->)%drv_state. apply stat_spec in E as [-> Hfi]. split; [by destruct s|].
  intros fi Er. by destruct (Hfi fi Er).
Qed.

(** The file a read goes to: a blob path of the digest, just stat'ed. *)
Lemma originalBlobInfo_blob g repo d s fi s' :
  repo_ok repo -> Validate d = None ->
  store_ok g s -> IS.originalBlobInfo cfg repo d s = (Ok fi, s') ->
  is_blob root (fi_Path fi) d /\ IS.drv (Stat (fi_Path fi)) s' = (Ok fi, s').
Proof.
  intros Hr Hv Hs. unfold IS.originalBlobInfo. intros Hm. stepo Hm.
  apply try_state in E as (r0&[= ->]&E). pose proof (stat_same _ _ _ _ E) as [-> Hfi].
  destruct r0 as [fi0|]; [|done]. specialize (Hfi fi0 eq_refl).
  assert (is_blob root (fi_Path fi0) d /\ IS.drv (Stat (fi_Path fi0)) s = (Ok fi0, s)) as Hb.
  { rewrite Hfi. split; [by apply BlobPath_is_blob|done]. }
  destruct (_ =? _)%Z; [|by injection Hm as <- <-].
  destruct (IS.isEmptyContentDigest d); [by injection Hm as <- <-|].
  stepo Hm. apply try_state in E0 as (r0&[= ->]&E0). destruct r0 as [p|]; [|done].
  apply (checkCacheBlob_blob g) in E0; [|done].
  stepo Hm. apply try_state in E1 as (r1&[= ->]&E1). pose proof (stat_same _ _ _ _ E1) as [-> Hfi1].
  destruct r1 as [fi1|]; [|done]. specialize (Hfi1 fi1 eq_refl).
  destruct (_ =? _)%Z; [done|]. injection Hm as <- <-. by rewrite Hfi1.
Qed.

Lemma cache_get_state d (s : store) r s' : IS.cache (BlobCache.GetBlob d) s = (r, s') -> s' = s.
Proof.
  unfold IS.cache. destruct (st_cache s) as [c|] eqn:Ec; [|by intros [= <- <-]].
  destruct (BlobCache.GetBlob d c) as [r0 c'] eqn:E. intros [= <- <-].
  apply get_same in E as ->. rewrite <-Ec. by destruct s.
Qed.

(** ** Placing an uploaded blob *)
Section place.
Context (repo u d c : string).
Hypothesis (Hrepo : repo_ok repo) (Hu : uuid_ok u) (Hv : Validate d = None)
  (Hc : FromBytes (Algorithm d) c = d).
Local Notation src := (IS.BlobUploadPath cfg repo u).
Local Notation dst := (IS.BlobPath cfg repo d).
Local Notation before := (store_ok (Some (src, c))).
Local Notation after := (store_ok None).

Lemma before_after s : before s -> after s.
Proof. apply store_ok_weaken. Qed.
#[local] Hint Resolve before_after : pres.

Lemma dst_blob : is_blob root dst d.
Proof. by apply BlobPath_is_blob. Qed.

Lemma dst_off_guard : off_guard (Some (src, c)) dst.
Proof.
  simpl. intros E. apply (upload_not_blob cfg repo Hrepo u Hu d). rewrite <-E. apply dst_blob.
Qed.

Lemma guard_place : guard_ok (Some (src, c)) repo.
Proof. by exists u. Qed.

Lemma ends_move : ends before after (IS.drv (Move src dst)).
Proof.
  intros s r s' ([Hi Hh]&Hcs&Hus) (f&E&->)%drv_state. split; [|done]. simpl.
  destruct Hh as [Hn (i&Hp&Hci)].
  eapply (ok_Move_file root None); [exact Hp|done|done| | |by split|exact E].
  - intros d' Hb. rewrite Hci. by rewrite (is_blob_fun root dst d' d Hb dst_blob).
  - by left.
Qed.

Lemma ends_delete : ends before after (IS.drv (Delete src)).
Proof.
  intros s r s' Hs E. eapply pres_drv; [by apply ok_Delete|by apply before_after|exact E].
Qed.

Lemma ends_dedupe n : ends before after (IS.dedupe_loop cfg n src d repo dst).
Proof.
  induction n as [|n IH]; [by apply ends_throw, before_after|].
  intros s r s' Hs. cbn [IS.dedupe_loop]. intros Hm. steps Hm.
  { apply try_state in E as (?&[=]&_). }
  apply try_state in E as (r0&[= ->]&E). pose proof (cache_get_state _ _ _ _ E) as Es. subst s0.
  match type of Hm with bind _ ?K _ = _ =>
  assert (forall dstRecord, r0 = Ok dstRecord \/ dstRecord = None ->
      K dstRecord s = (r, s') -> after s') as Hrest
  end.
  { intros dstRecord Hrec. destruct dstRecord as [k|].
    2:{ refine (ends_bind before after _ _ before_after _ _ s r s' Hs);
          [by apply pres_cache_put, dst_blob|]. intros _. apply ends_move. }
    destruct Hrec as [->|]; [|done].
    pose proof (cached_record_blob _ d _ _ _ Hs E) as Hb.
    cbv beta iota. unfold bind at 1, get at 1. cbv beta iota zeta.
    refine (ends_bind before after _ _ before_after _ _ s r s' Hs); [pres|].
    intros [fi|e].
    - apply ends_bind; [by apply before_after|apply preserves_get|]. intros s1.
      destruct (negb _).
      + apply ends_bind; [by apply before_after| |intros _].
        { apply pres_drv. by apply (ok_Link root _ _ _ d dst_off_guard Hb dst_blob). }
        apply ends_bind; [by apply before_after|by apply pres_cache_put, dst_blob|].
        intros _. apply ends_delete.
      + apply ends_bind; [by apply before_after|pres|]. intros [[desc|e]|].
        * destruct (negb _); [apply ends_move|apply ends_delete].
        * apply ends_delete.
        * by apply ends_throw, before_after.
    - apply ends_bind; [by apply before_after|pres|]. intros _. apply IH. }
  destruct r0 as [k|e].
  - unfold bind at 1, ret at 1 in Hm. apply (Hrest k); [by left|exact Hm].
  - destruct (decide (e = ErrCacheMiss)).
  + unfold bind at 1, ret at 1 in Hm. apply (Hrest None); [by right|exact Hm].
  + unfold bind at 1, throw in Hm. injection Hm as <- <-. by apply before_after.
Qed.

Lemma ends_place : ends before after (IS.place_blob cfg src repo d).
Proof.
  unfold IS.place_blob. cbv zeta.
  apply ends_bind; [by apply before_after|by apply pres_initRepo, guard_place|]. intros _.
  apply ends_bind; [by apply before_after|pres|]. intros _.
  apply ends_bind; [by apply before_after|apply preserves_get|]. intros s.
  destruct (IS.dedupe_on cfg s); [apply ends_dedupe|apply ends_move].
Qed.
End place.

(** ** Uploads *)
Lemma mkdir_upload repo : preserves (store_ok None)
  (IS.drv (EnsureDir (path_join (IS.repo_path cfg repo) BlobUploadDir))).
Proof. pres. Qed.

Lemma pres_prepare g ctx repo : preserves (store_ok g) (IS.prepareBlobUploadDir cfg ctx repo).
Proof. unfold IS.prepareBlobUploadDir. pres. Qed.
#[local] Hint Resolve pres_prepare : pres.

Section upload.
Context (repo u : string).
Hypothesis (Hrepo : repo_ok repo) (Hu : uuid_ok u).
Local Notation src := (IS.BlobUploadPath cfg repo u).
Local Notation ok := (store_ok None).

Lemma pres_upload_writer append : preserves ok (IS.drv (Writer src append)).
Proof. apply pres_drv. apply ok_Writer; [done|]. by apply upload_not_blob. Qed.
Lemma pres_upload_write content : preserves ok (IS.drv (WriteFile src content)).
Proof.
  apply pres_drv. apply ok_WriteFile; [done|]. intros d Hb. by destruct (upload_not_blob cfg repo Hrepo u Hu d).
Qed.
#[local] Hint Resolve pres_upload_writer pres_upload_write : pres.

(** The state in which a writer is open on the upload. *)
Definition opened (append : bool) (w : Local.fileWriter) (s : store) : Prop :=
  ok s /\ exists i, file_at (st_drv s) src i /\
  fresh_writer w src i (String.length (content (st_drv s) i)) /\
  (append = false -> content (st_drv s) i = "").

Definition with_drv (s : store) (f : fs) : store :=
  mkStore f (st_cache s) (st_rebuildDone s) (st_events s) (st_uuids s).

Lemma ok_with_appended s i data : file_at (st_drv s) src i -> ok s ->
  ok (with_drv s (appended (st_drv s) i data)).
Proof.
  intros Hp (Hf&Hc&Hus). split; [|done]. simpl. eapply ok_appended; [exact Hp|done| |done].
  by apply upload_not_blob.
Qed.

Lemma ignore_close_fresh b w s r s' : opened b w s -> IS.ignore (IS.drv (fw_Close w)) s = (r, s') ->
  r = Ok tt /\ s' = s.
Proof.
  intros [_ (i&Hp&->&_)]. unfold IS.ignore, bind, try, IS.drv. cbn [fw_Close local_driver].
  rewrite close_spec by done. intros [= <- <-]. split; [done|]. by destruct s.
Qed.

(** The data goes to the end of the file, whatever error the reader ends with. *)
Lemma copy_and_close_spec w body s r s' i n :
  file_at (st_drv s) src i -> fresh_writer w src i n -> n = String.length (content (st_drv s) i) ->
  IS.copy_and_close w body s = (r, s') ->
  s' = with_drv s (appended (st_drv s) i (rd_data body)) /\
  r = match rd_err body with
      | Some e => Err e
      | None => Ok (Z.of_nat (String.length (rd_data body)))
      end.
Proof.
  intros Hp -> -> . unfold IS.copy_and_close, IS.ignore, bind, try, IS.drv, io_Copy, bind, ret.
  cbn [fw_Write fw_Close local_driver]. unfold Local.Write.
  cbn [Local.w_state_err Local.w_closed Local.w_committed Local.w_cancelled ret].
  unfold ret. cbn [Local.w_path Local.w_ino Local.w_pos Local.w_buf Local.w_size Local.w_closed
  Local.w_committed Local.w_cancelled].
  simpl String.append. rewrite close_spec by done.
  destruct (rd_err body); intros [= <- <-]; done.
Qed.

Lemma pres_bind_writer {A} append (k : res Local.fileWriter -> ST store A) :
  (forall w, ends (opened append w) ok (k (Ok w))) -> (forall e, preserves ok (k (Err e))) ->
  preserves ok (bind (try (IS.drv (Writer src append))) k).
Proof.
  intros Hk He s r s' Hs Hm. steps Hm; [by apply try_state in E as (?&[=]&_)|].
  apply try_state in E as (r0&[= ->]&E). pose proof (pres_upload_writer append _ _ _ Hs E) as Hs0.
  destruct r0 as [w|e]; [|by eapply He]. eapply Hk; [|exact Hm]. split; [done|].
  apply drv_state in E as (f&E&->). simpl. simpl in E. destruct append.
  - apply writer_append_spec in E as [Hsf Hw]. destruct (Hw w eq_refl) as (i&Hp&Hf).
    exists i. split; [by apply Hsf|]. by rewrite (content_ext (st_drv s) f) by apply Hsf.
  - apply writer_create_spec in E as (i&Hw&Hf). exists i. split; [apply Hw|].
    by rewrite (w_content _ _ _ _ _ Hw).
Qed.

Lemma ends_copy_and_close b w body : ends (opened b w) ok (IS.copy_and_close w body).
Proof.
  intros s r s' [Hs (i&Hp&Hf&_)] Hm. eapply copy_and_close_spec in Hm as [-> _]; [|done..].
  by apply ok_with_appended.
Qed.

Lemma ends_close_then {A} b w (m : ST store A) : preserves ok m ->
  ends (opened b w) ok (IS.ignore (IS.drv (fw_Close w)) ;;; m).
Proof.
  intros Hk s r s' Hs Hm. steps Hm; (apply (ignore_close_fresh b w) in E as [? ->]; [|done]);
  destruct Hs as [Hs _]; [done|]. by eapply Hk.
Qed.

Lemma pres_upload_size : preserves ok (IS.upload_size src).
Proof.
  unfold IS.upload_size. apply pres_bind_writer.
  - intros w. apply ends_close_then. pres.
  - intros e. pres.
Qed.

(** The writer opened by openBlobUploadWriter. *)
Lemma pres_bind_open {A} ctx (k : Local.fileWriter -> ST store A) :
  (forall w, ends (opened true w) ok (k w)) ->
  preserves ok (bind (IS.openBlobUploadWriter cfg ctx repo u) k).
Proof.
  intros Hk s r s' Hs Hm. unfold IS.openBlobUploadWriter in Hm.
  assert ((let* _ := IS.prepareBlobUploadDir cfg ctx repo in
  bind (try (IS.drv (Writer src true)))
      (fun file => match file with
                   | Err e => throw (if IS.not_found e then ErrUploadNotFound else e)
                   | Ok file => k file
                   end)) s = (r, s')) as Hm'.
  { rewrite <-Hm. unfold bind. destruct (IS.prepareBlobUploadDir cfg ctx repo s) as [[]]; [|done].
    destruct (try _ _) as [[[]|]]; done. }
  revert Hs Hm'. apply preserves_bind; [pres|]. intros _. apply pres_bind_writer; [done|].
  intros e. pres.
Qed.

Lemma pres_PutBlobChunkStreamed ctx body : preserves ok (IS.PutBlobChunkStreamed cfg ctx repo u body).
Proof. apply pres_bind_open. intros w. apply ends_copy_and_close. Qed.

Lemma pres_PutBlobChunk ctx from to body : preserves ok (IS.PutBlobChunk cfg ctx repo u from to body).
Proof.
  apply pres_bind_open. intros w. cbv zeta. destruct (negb _).
  - apply ends_close_then. pres.
  - intros s r s' Hs Hm. steps Hm; [by eapply ends_copy_and_close|].
    injection Hm as <- <-. by eapply ends_copy_and_close.
Qed.

Lemma commit_spec s p i n data z : n = String.length (content s i) ->
Local.Commit (Local.mkWriter p i n data z false false false) s =
  (Ok (Local.mkWriter p i (n + String.length data) "" z false true false), appended s i data).
Proof.
  intros ->. unfold Local.Commit, Local.Flush, bind.
  cbn [Local.w_state_err Local.w_closed Local.w_committed Local.w_cancelled Local.w_ino Local.w_buf Local.w_pos].
  by rewrite write_at_appended.
Qed.

Lemma length_appended s i data :
  String.length (content s i) + String.length data = String.length (content (appended s i data) i).
Proof.
  unfold appended. case_decide; [subst; simpl; lia|].
  rewrite content_set_inodes, decide_True by done. by rewrite string_length_app.
Qed.

(** An uploaded file that hashes to [d], about to be placed. *)
Lemma before_place c s : ok s -> holds (st_drv s) src c -> store_ok (Some (src, c)) s.
Proof. intros ([Hi _]&Hc&Hus) Hh. split; [|done]. split; [done|]. split; [by apply upload_not_blob|done]. Qed.

Lemma pres_FinishBlobUpload d : preserves ok (IS.FinishBlobUpload cfg repo u d).
Proof.
  unfold IS.FinishBlobUpload, IS.valid. destruct (Validate d) eqn:Hv; [by intros s r s' Hs [= <- <-]|].
  apply preserves_bind; [pres|]. intros _. cbv zeta. apply pres_bind_writer; [|intros e; pres].
  intros w s r s' [Hs (i&Hp&->&_)] Hm.
  steps Hm; apply drv_state in E as (f&E&->); cbn [fw_Commit local_driver] in E;
  rewrite commit_spec in E by done; [done|]. injection E as <- <-.
  steps Hm; apply drv_state in E as (f&E&->); cbn [fw_Close local_driver st_drv] in E;
  rewrite close_spec in E by apply (length_appended (st_drv s) i ""); [done|]. injection E as _ <-.
  assert (forall A (m : ST store A) r s', m (mkStore (appended (st_drv s) i "") (st_cache s)
  (st_rebuildDone s) (st_events s) (st_uuids s)) = (r, s') -> m s = (r, s')) as Hsame.
  { intros A m r1 s1. unfold appended. rewrite decide_True by done. by destruct s. }
  cbn [st_cache st_rebuildDone st_events st_uuids] in Hm.
  change (appended (appended (st_drv s) i "") i "") with (appended (st_drv s) i "") in Hm.
  apply Hsame in Hm. clear Hsame. unfold IS.getBlobDigest in Hm.
  steps Hm.
  { revert Hs E. assert (preserves ok (let* r := try (IS.drv (Reader src 0)) in
      match r with Ok data => ret (FromBytes (Algorithm d) data) | Err _ => throw ErrUploadNotFound end)) as Hp' by pres.
    intros Hs E. by eapply Hp'. }
  stepo E. apply try_state in E0 as (r0&[= ->]&E0). apply drv_state in E0 as (f&E0&->).
  apply reader_spec in E0 as [-> Hdata]. destruct r0 as [data|]; [|done]. injection E as <- <-.
  destruct (Hdata data eq_refl) as (j&Hj&_&->). unfold file_at in *.
  assert (j = i) as -> by congruence. rewrite substring_all in Hm by done.
  destruct (negb _) eqn:Eb; [injection Hm as <- <-; by destruct s|].
  apply negb_false_iff, bool_decide_eq_true in Eb.
  eapply (ends_place repo u d (content (st_drv s) i)); [done|done|done|done| |exact Hm].
  apply before_place; [by destruct s|]. by exists i.
Qed.

(** FullBlobUpload after the UUID is drawn. *)
Lemma pres_full_upload ctx body d : Validate d = None ->
  preserves ok (IS.prepareBlobUploadDir cfg ctx repo ;;;
  let* r := try (IS.drv (Writer src false)) in
  match r with
  | Err _ => throw ErrUploadNotFound
  | Ok blobFile =>
        let* c := try (IS.drv (io_Copy blobFile body)) in
        match c with
        | Err e => IS.ignore (IS.drv (fw_Close blobFile)) ;;; throw e
        | Ok (_, Some e, blobFile) => IS.ignore (IS.drv (fw_Close blobFile)) ;;; throw e
        | Ok (nbytes, None, blobFile) =>
            let* r := try (IS.drv (fw_Commit blobFile)) in
            match r with
            | Err e => IS.ignore (IS.drv (fw_Close blobFile)) ;;; throw e
            | Ok blobFile =>
                IS.drv (fw_Close blobFile) ;;;
                let srcDigest := FromBytes (Algorithm d) (rd_data body) in
                if negb (bool_decide (srcDigest = d)) then throw ErrBadBlobDigest
                else IS.place_blob cfg src repo d ;;; ret (u, nbytes)
            end
        end
  end).
Proof.
  intros Hv. apply preserves_bind; [pres|]. intros _. apply pres_bind_writer; [|intros e; pres].
  intros w s r s' [Hs (i&Hp&->&Hempty)] Hm. specialize (Hempty eq_refl).
  unfold bind at 1, try at 1, IS.drv at 1, io_Copy, bind at 1 in Hm.
  cbn [fw_Write fw_Commit fw_Close local_driver] in Hm. unfold Local.Write in Hm.
  cbn [Local.w_state_err Local.w_closed Local.w_committed Local.w_cancelled] in Hm.
  unfold ret at 1 2 in Hm. cbn [Local.w_path Local.w_ino Local.w_pos Local.w_buf Local.w_size
  Local.w_closed Local.w_committed Local.w_cancelled] in Hm. simpl String.append in Hm.
  assert (mkStore (st_drv s) (st_cache s) (st_rebuildDone s) (st_events s) (st_uuids s) = s) as Es by by destruct s.
  rewrite Es in Hm. set (len := String.length (content (st_drv s) i)) in *.
  pose proof (ok_with_appended s i (rd_data body) Hp Hs) as Hs1.
  destruct (rd_err body) as [e|].
  - unfold IS.ignore, bind, try, IS.drv in Hm. rewrite close_spec in Hm by done.
    injection Hm as <- <-. exact Hs1.
  - unfold bind at 1, try at 1, IS.drv at 1 in Hm. rewrite commit_spec in Hm by done.
    steps Hm; apply drv_state in E as (f&E&->); cbn [st_drv] in E;
      rewrite close_spec in E by apply length_appended; [done|]. injection E as _ <-.
    change (appended (appended (st_drv s) i (rd_data body)) i "") with (appended (st_drv s) i (rd_data body)) in Hm.
    cbn [st_cache st_rebuildDone st_events st_uuids] in Hm. fold (with_drv s (appended (st_drv s) i (rd_data body))) in Hm.
    destruct (negb _) eqn:Eb; [by injection Hm as <- <-|].
    apply negb_false_iff, bool_decide_eq_true in Eb.
    assert (store_ok (Some (src, rd_data body)) (with_drv s (appended (st_drv s) i (rd_data body)))) as Hb.
    { apply before_place; [done|]. exists i. pose proof (appended_writes (st_drv s) src i (rd_data body) Hp) as Hw.
      rewrite Hempty in Hw. split; apply Hw. }
    pose proof (ends_place repo u d (rd_data body) Hrepo Hu Hv Eb) as Hpl.
    steps Hm; [by eapply Hpl|]. injection Hm as <- <-. by eapply Hpl.
Qed.

Lemma remove_upload : preserves ok (IS.drv (fun s => os_Remove src s)).
Proof.
  apply pres_drv. intros s r s' Hs [Hf _]%remove_spec. eapply fs_ok_fewer; [done| |done]. done.
Qed.

(** Closing a writer with nothing buffered changes nothing. *)
Lemma close_empty p i n z cm cc (s : store) :
  IS.ignore (IS.drv (fw_Close (Local.mkWriter p i n "" z false cm cc))) s = (Ok tt, s).
Proof.
  unfold IS.ignore, bind, try, IS.drv. cbn [fw_Close local_driver].
  unfold Local.Close, Local.Flush, bind, os_WriteAt.
  cbn [Local.w_closed Local.w_ino Local.w_buf Local.w_pos]. rewrite decide_True by done. by destruct s.
Qed.

Lemma pres_DeleteBlobUpload : preserves ok (IS.DeleteBlobUpload cfg repo u).
Proof.
  unfold IS.DeleteBlobUpload. apply pres_bind_writer; [|intros e; pres].
  intros w s r s' [Hs (i&Hp&->&_)] Hm. steps Hm; [by apply try_state in E as (?&[=]&_)|].
  apply try_state in E as (r0&[= ->]&E). apply drv_state in E as (f&E&->).
  assert (forall f, fewer (st_drv s) f -> ok (with_drv s f)) as Hfew.
  { intros f0 Hf. destruct Hs as (Hi&Hc&Hus). split; [|done]. simpl.
    by apply (fs_ok_fewer root None (st_drv s)). }
  cbn [fw_Cancel local_driver] in E. unfold Local.Cancel in E. cbn [Local.w_closed] in E.
  unfold bind in E. destruct (os_Remove _ (st_drv s)) as [[[]|e] f0] eqn:Er;
  apply remove_spec in Er as [Er%Hfew _]; injection E as <- <-.
  - cbn [Local.w_path Local.w_ino Local.w_pos Local.w_buf Local.w_size Local.w_closed
      Local.w_committed Local.w_cancelled] in Hm.
    rewrite close_empty in Hm. injection Hm as <- <-. exact Er.
  - unfold bind in Hm. rewrite close_empty in Hm. injection Hm as <- <-. exact Er.
Qed.
End upload.

Local Notation ok := (store_ok None).

Lemma pres_bind_uuid {A} (k : string -> ST store A) :
  (forall u, uuid_ok u -> preserves ok (k u)) -> preserves ok (bind IS.NewV4 k).
Proof.
  intros Hk s r s' Hs Hm. pose proof (pres_NewV4 None) as Hp. steps Hm; [by eapply Hp|].
  eapply Hk; [by eapply NewV4_uuid|by eapply Hp|done].
Qed.

Lemma pres_InitRepo repo : repo_ok repo -> preserves ok (IS.InitRepo cfg repo).
Proof. intros Hr. by apply pres_initRepo. Qed.
#[local] Hint Resolve pres_InitRepo : pres.

Lemma pres_NewBlobUpload repo : repo_ok repo -> preserves ok (IS.NewBlobUpload cfg repo).
Proof.
  intros Hr. unfold IS.NewBlobUpload. apply preserves_bind; [pres|]. intros _.
  apply pres_bind_uuid. intros u Hu. apply pres_bind_writer; [done|done| |intros e; pres].
  intros w. apply ends_close_then. pres.
Qed.

Lemma pres_FullBlobUpload ctx repo body d : repo_ok repo -> preserves ok (IS.FullBlobUpload cfg ctx repo body d).
Proof.
  intros Hr. unfold IS.FullBlobUpload, IS.valid.
  destruct (Validate d) eqn:Hv; [by intros s r s' Hs [= <- <-]|].
  apply preserves_bind; [pres|]. intros _. apply pres_bind_uuid. intros u Hu.
  by apply (pres_full_upload repo u Hr Hu ctx body d).
Qed.

(** ** index.json *)
Lemma index_path_eq repo : repo_ok repo ->
  IS.index_path cfg repo = (root ++ split_on slash repo) ++ [ImageIndexFile].
Proof. intros Hr. by apply sub_path_eq. Qed.

Lemma index_not_blob repo : repo_ok repo -> not_blob root (IS.index_path cfg repo).
Proof. intros Hr. rewrite index_path_eq by done. by apply not_blob_last. Qed.

Lemma pres_delete_any p : preserves ok (IS.drv (Delete p)).
Proof. apply pres_drv, ok_Delete. done. Qed.
#[local] Hint Resolve pres_delete_any : pres.

Lemma pres_PutIndexContent repo index : repo_ok repo -> preserves ok (IS.PutIndexContent cfg repo index).
Proof.
  intros Hr. unfold IS.PutIndexContent, IS.writeFileViaStaging. apply pres_bind_uuid. intros u Hu.
  cbv zeta. set (content := marshal_index index). set (src := IS.BlobUploadPath cfg repo u).
  assert (not_blob root src) as Hn by by apply upload_not_blob.
  intros s r s' Hs Hm. steps Hm; [by apply try_state in E as (?&[=]&_)|].
  apply try_state in E as (r0&[= ->]&E).
  pose proof (pres_upload_write repo u Hr Hu content _ _ _ Hs E) as Hs0.
  destruct r0 as [n|e].
  2:{ revert Hs0 Hm. assert (preserves ok (IS.ignore (IS.drv (Delete src)) ;;; throw (A:=unit) e)) as Hp by pres.
      apply Hp. }
  destruct (negb _).
  { revert Hs0 Hm. assert (preserves ok (IS.ignore (IS.drv (Delete src)) ;;; throw (A:=unit) ErrShortWrite)) as Hp by pres.
    apply Hp. }
  apply drv_state in E as (f&E&->). simpl in E. apply write_file_spec in E as [(e&[=]&_)|(_&i&Hw)].
  match type of Hm with bind ?m ?K ?s0 = _ => assert (preserves ok (K (Ok tt))) as HK1 by apply preserves_ret;
    assert (forall e, preserves ok (K (Err e))) as HK2 end.
  { intros e. cbv beta iota. pres. }
  steps Hm; [by apply try_state in E as (?&[=]&_)|]. apply try_state in E as (r1&[= ->]&E).
  assert (ok s0) as Hs1.
  { apply drv_state in E as (f1&E&->). destruct Hs0 as (Hi&Hc&Hus). split; [|done]. simpl in E |- *.
    eapply (ok_Move_file root None src (IS.index_path cfg repo) f r1 f1 i);
      [apply Hw|done|done| |by left|exact Hi|exact E].
    intros d Hb. by destruct (index_not_blob repo Hr d). }
  destruct r1 as [[]|e]; [by eapply HK1|by eapply HK2].
Qed.
#[local] Hint Resolve pres_PutIndexContent : pres.

(** ** Manifests *)
Hypothesis Hlint : forall lint, cf_linter cfg = Some lint -> forall repo d s, snd (lint repo d s) = s.

Lemma pres_lint repo d : preserves ok (ApplyLinter (cf_linter cfg) repo d).
Proof.
  apply (pres_common None (fun iface => ApplyLinter (cf_linter cfg) repo d)). intros iface _ _ _.
  apply pres_ApplyLinter. intros lint r x El s rr s' Hs E.
  specialize (Hlint lint El r x s). rewrite E in Hlint. simpl in Hlint. by subst.
Qed.
#[local] Hint Resolve pres_lint : pres.

Lemma pres_write_manifest repo d body : repo_ok repo -> Validate d = None ->
FromBytes (Algorithm d) body = d -> preserves ok (IS.write_manifest (IS.BlobPath cfg repo d) body).
Proof.
  intros Hr Hv Hd. assert (preserves ok (IS.drv (WriteFile (IS.BlobPath cfg repo d) body))).
  { apply pres_drv, ok_WriteFile; [done|]. intros d' Hb.
    by rewrite (is_blob_fun root _ d' d Hb (BlobPath_is_blob cfg repo Hr d Hv)). }
  unfold IS.write_manifest. pres.
Qed.

Lemma pres_put_extra_tags repo mt d size tags : forall index changed,
  preserves ok (IS.put_extra_tags cfg repo mt d size tags index changed).
Proof. induction tags as [|t tags IH]; intros index changed; simpl; pres. Qed.
#[local] Hint Resolve pres_put_extra_tags : pres.

Lemma pres_update_index repo ref mt d isd size tags at_ index :
  preserves ok (IS.update_index cfg repo ref mt d isd size tags at_ index).
Proof. unfold IS.update_index. pres. Qed.
#[local] Hint Resolve pres_update_index : pres.

Lemma pres_record_updates repo d mt body refs : preserves ok (IS.record_updates cfg repo d mt body refs).
Proof. induction refs as [|r refs IH]; simpl; pres. Qed.
#[local] Hint Resolve pres_record_updates : pres.

Lemma pres_commit_index repo mt d body index ld tags : repo_ok repo ->
  preserves ok (IS.commit_index cfg repo mt d body index ld tags).
Proof. intros Hr. unfold IS.commit_index. pres. Qed.
#[local] Hint Resolve pres_commit_index : pres.

(** The digest a push stores the body under is the digest of the body. *)
Lemma push_reference_digest body reference tags d b :
  IS.push_reference body reference tags = Ok (d, b) -> Validate d = None /\ FromBytes (Algorithm d) body = d.
Proof.
  unfold IS.push_reference, GetAndValidateRequestDigest, Parse.
  assert (forall a, Available a = true -> Validate (FromBytes a body) = None /\
    FromBytes (Algorithm (FromBytes a body)) body = FromBytes a body) as Hd.
  { intros a Ha. split; [by apply frombytes_valid|]. by rewrite frombytes_alg. }
  destruct (Validate reference) as [e|] eqn:Hv.
  - destruct (decide (e = ErrBadManifest)); [done|]. destruct tags; [|done]. intros [= <- <-].
    apply Hd, canonical_available.
  - destruct (negb _); [by destruct (decide _)|]. intros [= <- <-]. by apply Hd, validate_available.
Qed.

Lemma pres_PutImageManifest repo ref mt body tags : repo_ok repo ->
  preserves ok (IS.PutImageManifest cfg repo ref mt body tags).
Proof.
  intros Hr. unfold IS.PutImageManifest. apply preserves_bind; [pres|]. intros _.
  destruct (IS.push_reference body ref tags) as [[d b]|e] eqn:Ed; [|by intros s r s' Hs [= <- <-]].
  apply push_reference_digest in Ed as [Hv Hd].
  match goal with |- preserves _ (bind _ ?K) => change (preserves ok (K (d, b))) end. cbv beta iota.
  assert (preserves ok (IS.write_manifest (IS.BlobPath cfg repo d) body)) by by apply pres_write_manifest.
  pres.
Qed.

Lemma pres_check_not_referenced repo d ms : preserves ok (IS.check_not_referenced cfg repo d ms).
Proof. induction ms as [|m ms IH]; simpl; pres. Qed.
#[local] Hint Resolve pres_check_not_referenced : pres.

Lemma pres_deleteImageManifest repo ref dc : repo_ok repo -> preserves ok (IS.deleteImageManifest cfg repo ref dc).
Proof.
  intros Hr. assert (forall c, preserves ok (IS.drv (WriteFile (IS.index_path cfg repo) c))).
  { intros c. apply pres_drv, ok_WriteFile; [done|]. intros d Hb. by destruct (index_not_blob repo Hr d). }
  unfold IS.deleteImageManifest. pres.
Qed.
#[local] Hint Resolve pres_deleteImageManifest : pres.
Lemma pres_DeleteImageManifest repo ref dc : repo_ok repo -> preserves ok (IS.DeleteImageManifest cfg repo ref dc).
Proof. intros Hr. unfold IS.DeleteImageManifest. pres. Qed.

(** ** Mounts *)
Lemma pres_copyBlob repo d p q : repo_ok repo -> is_blob root p d -> is_blob root q d ->
  preserves ok (IS.copyBlob cfg repo p q).
Proof.
  intros Hr Hp Hq. assert (preserves ok (IS.drv (Link q p))) by by apply pres_drv, (ok_Link root None q p d).
  assert (preserves ok (IS.initRepo cfg repo)) by by apply pres_initRepo.
  unfold IS.copyBlob. pres.
Qed.

Lemma pres_blob_from_cache repo d b : repo_ok repo -> Validate d = None ->
  preserves ok (IS.blob_from_cache cfg repo d (IS.BlobPath cfg repo d) b).
Proof.
  intros Hr Hv. assert (is_blob root (IS.BlobPath cfg repo d) d) as Hb by by apply BlobPath_is_blob.
  unfold IS.blob_from_cache. intros s r s' Hs Hm. steps Hm; [by apply try_state in E as (?&[=]&_)|].
  apply try_state in E as (r0&[= ->]&E). pose proof (pres_checkCacheBlob None d _ _ _ Hs E) as Hs0.
  destruct r0 as [p|e]; [|by injection Hm as <- <-]. apply (checkCacheBlob_blob None) in E; [|done].
  pose proof (pres_copyBlob repo d _ p Hr Hb E). pose proof (pres_cache_put None d _ Hb).
  revert Hs0 Hm. match goal with |- _ -> ?m _ = _ -> _ => assert (preserves ok m) as Hp by pres end. apply Hp.
Qed.
#[local] Hint Resolve pres_blob_from_cache : pres.

Lemma pres_CheckBlob repo d : repo_ok repo -> preserves ok (IS.CheckBlob cfg repo d).
Proof.
  intros Hr. unfold IS.CheckBlob, IS.valid. destruct (Validate d) eqn:Hv; [by intros s r s' Hs [= <- <-]|].
  pres.
Qed.

Lemma pres_candidates d : preserves ok (IS.GetAllDedupeReposCandidates cfg d).
Proof. unfold IS.GetAllDedupeReposCandidates. pres. Qed.

(** ** Deletion *)
(** A cache that gave an absolute path stores full paths. *)
Definition full_paths (s : store) : Prop :=
  ok s /\ forall c, st_cache s = Some c -> UsesRelativePaths c = false.

Lemma full_paths_ok s : full_paths s -> ok s.
Proof. by intros [? _]. Qed.

Lemma cached_absolute d (s s' : store) k :
  ok s -> IS.cache (BlobCache.GetBlob d) s = (Ok (Some k), s') -> is_abs k = true -> full_paths s.
Proof.
  intros Hs (c&c'&Ec&E&_)%cache_state Hk. split; [done|]. intros c0 Ec0.
  assert (c0 = c) as -> by congruence. destruct Hs as (_&Hc&_). destruct (Hc c Ec) as (_&_&Hr).
  apply get_recorded in E. destruct (Hr d k E) as [_ Hrel].
  destruct (UsesRelativePaths c); [|done]. rewrite Hrel in Hk; done.
Qed.

Lemma cached_full d (s s' : store) k :
  full_paths s -> IS.cache (BlobCache.GetBlob d) s = (Ok (Some k), s') -> is_blob root k d.
Proof.
  intros [Hs Hf] E. apply cached_record_blob with (g := None) in E; [|done].
  unfold IS.full_record, IS.relative_cache in E. destruct (st_cache s) as [c|] eqn:Ec; [|done].
  by rewrite (Hf c) in E.
Qed.

Lemma pres_full_delete d p : preserves full_paths (IS.cache (BlobCache.DeleteBlob d p)).
Proof.
  intros s r s' [Hs Hf] Hm. split; [by eapply pres_cache_delete|]. intros c0. unfold IS.cache in Hm.
  destruct (st_cache s) as [c|] eqn:Ec; [|injection Hm as <- <-; by rewrite Ec].
  destruct (BlobCache.DeleteBlob d p c) as [r0 c'] eqn:E. injection Hm as <- <-. simpl. intros [= <-].
  apply delete_const in E as [_ ->]. by apply Hf.
Qed.

(** Moving the content of a deleted blob to another path of the same digest. *)
Lemma pres_move_blob p q d s r s' : is_blob root p d -> is_blob root q d -> ok s ->
  fs_nodes (st_drv s) !! q <> None -> IS.drv (Move p q) s = (r, s') -> ok s'.
Proof.
  intros Hp Hq (Hi&Hc&Hus) Hn (f&E&->)%drv_state. split; [|done]. simpl in E |- *.
  destruct (fs_nodes (st_drv s) !! p) as [[|i]|] eqn:Ep.
  - apply move_onto_spec in E; [by eapply ok_same| |done]. intros i Hf. unfold file_at in Hf. by rewrite Ep in Hf.
  - eapply (ok_Move_file root None p q (st_drv s) r f i Ep); [done|done| |by right; exists d|exact Hi|exact E].
    intros d' Hb. rewrite (is_blob_fun root q d' d Hb Hq). destruct Hi as [[Hsound _ _] _]. exact (Hsound p d i Hp Ep).
  - apply move_onto_spec in E; [by eapply ok_same| |done]. intros i Hf. unfold file_at in Hf. by rewrite Ep in Hf.
Qed.

Lemma stat_exists p (s : store) fi s' : IS.drv (Stat p) s = (Ok fi, s') ->
  s' = s /\ fs_nodes (st_drv s') !! p <> None.
Proof.
  intros (f&E&->)%drv_state. apply stat_spec in E as [-> Hfi]. destruct (Hfi fi eq_refl) as (_&n&Hn&_).
  split; [by destruct s|]. simpl. by rewrite Hn.
Qed.

Lemma is_abs_blob p d : is_blob root p d -> is_abs p = true.
Proof.
  intros (r&_&_&->). rewrite <-app_assoc. revert Hroot. destruct root; [done|]. done.
Qed.

Lemma pres_deleteBlobChecked repo d m : repo_ok repo -> preserves ok m ->
  preserves ok (IS.deleteBlobChecked cfg repo d m).
Proof.
  intros Hr Hmm. unfold IS.deleteBlobChecked. cbv zeta.
  apply preserves_bind; [pres|]. intros [binfo|e]; [|pres]. apply preserves_bind; [done|].
  intros [|]; [pres|]. apply preserves_bind; [pres|]. intros s1. destruct (IS.has_cache s1); [|pres].
  intros s r s' Hs Hm. steps Hm; [by apply try_state in E as (?&[=]&_)|].
  apply try_state in E as (r0&[= ->]&E). pose proof (cache_get_state _ _ _ _ E) as ->.
  steps Hm.
  { destruct r0; [done|]. destruct (decide _); [done|]. by injection E0 as _ <-. }
  assert (s0 = s /\ (a = None \/ r0 = Ok a)) as [-> Ha].
  { destruct r0; [injection E0 as <- <-; auto|]. destruct (decide _); [injection E0 as <- <-; auto|done]. }
  clear E0. unfold bind at 1, get at 1 in Hm. destruct (_ && _); [by injection Hm as <- <-|].
  case_bool_decide as Heq.
  2:{ revert Hs Hm. match goal with |- _ -> ?m0 _ = _ -> _ => assert (preserves ok m0) as Hp by pres end. apply Hp. }
  subst a. destruct Ha as [|Ha]; [done|]. subst r0.
  assert (Validate d = None) as Hv.
  { destruct (cached_record_blob None d _ _ _ Hs E) as (?&_&Hv&_). done. }
  assert (is_blob root (IS.BlobPath cfg repo d) d) as Hb by by apply BlobPath_is_blob.
  pose proof (cached_absolute d s s _ Hs E (is_abs_blob _ _ Hb)) as Hf.
  revert Hf Hm. clear Hs E. apply (ends_bind full_paths ok); [apply full_paths_ok| |].
  { destruct (IS.cache_has _ _ _); [apply pres_full_delete|apply preserves_ret]. }
  intros _. clear s s' r. intros s r s' Hf Hm. steps Hm; [by apply try_state in E as (?&[=]&_)|].
  apply try_state in E as (r0&[= ->]&E). pose proof (cache_get_state _ _ _ _ E) as ->.
  pose proof (full_paths_ok s Hf) as Hs. steps Hm.
  { destruct r0; [done|]. destruct (decide _); [done|]. by injection E0 as _ <-. }
  assert (s0 = s /\ (a = None \/ r0 = Ok a)) as [-> Ha].
  { destruct r0; [injection E0 as <- <-; auto|]. destruct (decide _); [injection E0 as <- <-; auto|done]. }
  clear E0. destruct a as [k|].
  2:{ revert Hs Hm. match goal with |- _ -> ?m0 _ = _ -> _ => assert (preserves ok m0) as Hp by pres end. apply Hp. }
  destruct Ha as [|Ha]; [done|]. subst r0. apply cached_full in E; [|done].
  steps Hm; [by eapply (pres_drv None), E0; [apply ok_Stat|]|].
  apply stat_exists in E0 as [-> Hn]. destruct (_ =? _)%Z; [|by injection Hm as <- <-].
  exact (pres_move_blob _ k d s r s' Hb E Hs Hn Hm).
Qed.

Lemma pres_DeleteBlob repo d : repo_ok repo -> preserves ok (IS.DeleteBlob cfg repo d).
Proof.
  intros Hr. unfold IS.DeleteBlob, IS.deleteBlob. apply preserves_bind; [pres|]. intros _.
  apply pres_deleteBlobChecked; [done|]. pres.
Qed.

Lemma pres_delete_unchecked repo d : repo_ok repo -> preserves ok (IS.deleteBlobChecked cfg repo d (ret false)).
Proof. intros Hr. apply pres_deleteBlobChecked; [done|]. pres. Qed.
#[local] Hint Resolve pres_delete_unchecked : pres.

Lemma pres_CleanupRepo repo ds : repo_ok repo -> preserves ok (IS.CleanupRepo cfg repo ds).
Proof.
  intros Hr. unfold IS.CleanupRepo. generalize 0 as n.
  induction ds as [|d ds IH]; intros n; simpl; pres.
Qed.

Lemma pres_ListBlobUploads g repo : preserves (store_ok g) (IS.ListBlobUploads cfg repo).
Proof. unfold IS.ListBlobUploads. pres. Qed.
Lemma pres_digests_under g ps : preserves (store_ok g) (IS.digests_under ps).
Proof. induction ps as [|p ps IH]; simpl; pres. Qed.
#[local] Hint Resolve pres_ListBlobUploads pres_digests_under : pres.
Lemma pres_GetAllBlobs g repo : preserves (store_ok g) (IS.GetAllBlobs cfg repo).
Proof. unfold IS.GetAllBlobs. pres. Qed.
#[local] Hint Resolve pres_GetAllBlobs : pres.

Lemma pres_remove_idle_blobs now age repo ds : repo_ok repo ->
  preserves ok (IS.remove_idle_blobs cfg now age repo ds).
Proof. intros Hr. induction ds as [|d ds IH]; simpl; pres. Qed.
#[local] Hint Resolve pres_remove_idle_blobs : pres.

Lemma pres_RemoveIdleRepository now age repo : repo_ok repo ->
  preserves ok (IS.RemoveIdleRepository cfg now age repo).
Proof. intros Hr. unfold IS.RemoveIdleRepository. pres. Qed.

(** ** Rebuilding and undoing deduplication *)
Section rebuild.
Context (ctx : option err) (d : string).
Implicit Types (l all : list path).
Local Notation blobs := (Forall (fun p => is_blob root p d)).

Lemma pres_getOriginalBlobFromDisk l : preserves ok (IS.getOriginalBlobFromDisk l).
Proof. induction l as [|p l IH]; simpl; pres. Qed.
#[local] Hint Resolve pres_getOriginalBlobFromDisk : pres.
Lemma pres_getOriginalBlob l : preserves ok (IS.getOriginalBlob cfg d l).
Proof. unfold IS.getOriginalBlob. pres. Qed.

Lemma from_disk_blob l (s : store) p s' : blobs l ->
  IS.getOriginalBlobFromDisk l s = (Ok p, s') -> is_blob root p d.
Proof.
  intros Hl. revert s. induction Hl as [|q l Hq Hl IH]; intros s Hm; [done|].
  simpl in Hm. stepo Hm. destruct a as [fi|e].
  - destruct (0 <? _)%Z; [by injection Hm as <- _|by eapply IH].
  - destruct (IS.not_found e); [by eapply IH|done].
Qed.

Lemma original_blob l s p s' : blobs l -> ok s ->
  IS.getOriginalBlob cfg d l s = (Ok p, s') -> is_blob root p d.
Proof.
  intros Hl Hs Hm. unfold IS.getOriginalBlob in Hm. stepo Hm. apply try_state in E as (r0&[= ->]&E).
  destruct r0 as [q|e].
  - injection Hm as <- _. by eapply checkCacheBlob_blob.
  - destruct (decide _); [by eapply from_disk_blob|done].
Qed.

Lemma pres_put_unless_known p : is_blob root p d -> preserves ok (IS.put_unless_known d p).
Proof. intros Hp. pose proof (pres_cache_put None d p Hp). unfold IS.put_unless_known. pres. Qed.

(** The step of dedupeBlobs that looks for the original of a placeholder. *)
Lemma find_original_ok all (o : option path) s r s' : blobs all ->
  (forall p, o = Some p -> is_blob root p d) -> ok s ->
  match o with
  | Some q => ret q
  | None =>
      let* r := try (IS.getOriginalBlob cfg d all) in
      match r with
      | Err _ => throw ErrDedupeRebuild
      | Ok o =>
          let* g := try (IS.cache (BlobCache.GetBlob d)) in
          (if is_ok g then ret tt else IS.cache (BlobCache.PutBlob d (Some o))) ;;; ret o
      end
  end s = (r, s') -> ok s' /\ forall q, r = Ok q -> is_blob root q d.
Proof.
  intros Hall Ho Hs Hm. destruct o as [q|].
  { injection Hm as <- <-. split; [done|]. intros ? [= <-]. auto. }
  steps Hm; [by apply try_state in E as (?&[=]&_)|]. apply try_state in E as (r0&[= ->]&E).
  pose proof (pres_getOriginalBlob all _ _ _ Hs E) as Hs0.
  destruct r0 as [q|e]; [|by injection Hm as <- <-].
  pose proof (original_blob all _ _ _ Hall Hs E) as Hq. pose proof (pres_cache_put None d q Hq) as Hput.
  pose proof (pres_cache_get None d) as Hget.
  steps Hm; [by apply try_state in E0 as (?&[=]&_)|]. apply try_state in E0 as (r0&[= ->]&E0).
  eapply Hget in E0; [|done].
  assert (preserves ok (if is_ok r0 then ret tt else IS.cache (BlobCache.PutBlob d (Some q)))) as Hx by pres.
  steps Hm; [by split; [exact (Hx _ _ _ E0 E1)|]|]. injection Hm as <- <-.
  split; [exact (Hx _ _ _ E0 E1)|]. by intros ? [= <-].
Qed.

Lemma pres_dedupe_blobs_loop all : blobs all -> forall l o, blobs l ->
  (forall p, o = Some p -> is_blob root p d) -> preserves ok (IS.dedupe_blobs_loop cfg ctx d all l o).
Proof.
  intros Hall l. induction l as [|p l IH]; intros o Hl Ho; simpl; [pres|].
  apply Forall_cons in Hl as [Hp Hl]. destruct ctx as [e|]; [pres|].
  pose proof (pres_put_unless_known p Hp). apply preserves_bind; [pres|]. intros [binfo|e].
  2:{ destruct (IS.not_found e); [by apply IH|pres]. }
  destruct (_ =? _)%Z.
  - intros s r s' Hs Hm. steps Hm; (eapply (find_original_ok all o) in E as [Hs0 Ha]; [|done..]); [done|].
    specialize (Ha a eq_refl).
    revert Hs0 Hm. apply preserves_bind; [done|]. intros _. apply IH; [done|]. by intros ? [= <-].
  - apply preserves_bind.
  + destruct o as [q|]; [|pres]. by apply pres_drv, (ok_Link root None q p d); [|apply Ho|].
  + intros _. apply preserves_bind; [done|]. intros _. apply IH; [done|]. by intros ? [= <-].
Qed.

Lemma pres_anyBlobExists l : preserves ok (IS.anyBlobExists l).
Proof. induction l as [|p l IH]; simpl; pres. Qed.
#[local] Hint Resolve pres_anyBlobExists : pres.

Lemma pres_restore_one p buf : is_blob root p d -> FromBytes (Algorithm d) buf = d ->
  preserves ok (IS.restore_one p buf).
Proof.
  intros Hp Hbuf. assert (preserves ok (IS.drv (WriteFile p buf))).
  { apply pres_drv, ok_WriteFile; [done|]. intros d' Hb. by rewrite (is_blob_fun root p d' d). }
  unfold IS.restore_one. pres.
Qed.

(** What is read from a blob path of [d] hashes to [d]. *)
Lemma read_blob_digest p s buf s' : is_blob root p d -> ok s ->
  IS.drv (ReadFile p) s = (Ok buf, s') -> FromBytes (Algorithm d) buf = d.
Proof.
  intros Hp ([[Hsound _ _] _]&_) (f&E&->)%drv_state. apply read_file_spec in E as [_ Hd].
  destruct (Hd buf eq_refl) as (i&Hi&->). by eapply Hsound.
Qed.

Lemma pres_restore_loop q l : is_blob root q d -> blobs l -> preserves ok (IS.restore_loop ctx q l).
Proof.
  intros Hq Hl. induction Hl as [|p l Hp Hl IH]; simpl; [pres|]. destruct ctx as [e|]; [pres|].
  apply preserves_bind; [pres|]. intros [binfo|e]; [|pres]. destruct (_ =? _)%Z; [|done].
  intros s r s' Hs Hm. assert (preserves ok (IS.drv (ReadFile q))) as Hread by pres.
  steps Hm; [by eapply Hread|]. pose proof (read_blob_digest q s _ _ Hq Hs E) as Hbuf.
  pose proof (pres_restore_one p a Hp Hbuf). eapply Hread in E; [|done].
  revert E Hm. apply preserves_bind; [done|]. intros _. done.
Qed.

Lemma pres_RunDedupeForDigest dedupe l : blobs l -> preserves ok (IS.RunDedupeForDigest cfg ctx d dedupe l).
Proof.
  intros Hl. unfold IS.RunDedupeForDigest. destruct dedupe.
  - unfold IS.dedupeBlobs. apply preserves_bind; [pres|]. intros s. destruct (negb _); [pres|].
    by apply pres_dedupe_blobs_loop.
  - unfold IS.restoreDedupedBlobs. intros s r s' Hs Hm.
    steps Hm; [by apply try_state in E as (?&[=]&_)|]. apply try_state in E as (r0&[= ->]&E).
    pose proof (pres_getOriginalBlob l _ _ _ Hs E) as Hs0. destruct r0 as [q|e].
  + apply original_blob in E; [|done..]. by eapply pres_restore_loop.
  + revert Hs0 Hm. match goal with |- _ -> ?m _ = _ -> _ => assert (preserves ok m) as Hx by pres end. apply Hx.
Qed.
End rebuild.

(** ** The restore marker *)
Lemma marker_not_blob : not_blob root (IS.markerPath cfg).
Proof.
  unfold IS.markerPath. rewrite join_const by done. by apply not_blob_last.
Qed.
Lemma pres_write_marker c : preserves ok (IS.drv (WriteFile (IS.markerPath cfg) c)).
Proof.
  apply pres_drv, ok_WriteFile; [done|]. intros d Hb. by destruct (marker_not_blob d).
Qed.
#[local] Hint Resolve pres_write_marker : pres.
Lemma pres_RunDedupeBlobs : preserves ok (IS.RunDedupeBlobs cfg).
Proof. unfold IS.RunDedupeBlobs. pres. Qed.
Lemma pres_OnRunComplete : preserves ok (IS.OnRunComplete cfg).
Proof. unfold IS.OnRunComplete. pres. Qed.

Lemma pres_get_manifest repo ref : preserves ok (IS.GetImageManifest cfg repo ref).
Proof. unfold IS.GetImageManifest. pres. Qed.

(** ** Requests

    Every call that can change the store, with its arguments. *)
Inductive request : Type :=
  | RInitRepo (repo : string)
  | RPutImageManifest (repo reference mediaType body : string) (extraTags : list string)
  | RDeleteImageManifest (repo reference : string) (detectCollisions : bool)
  | RPutIndexContent (repo : string) (index : Index)
  | RNewBlobUpload (repo : string)
  | RGetBlobUpload (repo uuid : string)
  | RBlobUploadInfo (repo uuid : string)
  | RPutBlobChunkStreamed (ctxErr : option err) (repo uuid : string) (body : reader)
  | RPutBlobChunk (ctxErr : option err) (repo uuid : string) (from to : Z) (body : reader)
  | RFinishBlobUpload (repo uuid dstDigest : string)
  | RFullBlobUpload (ctxErr : option err) (repo : string) (body : reader) (dstDigest : string)
  | RDeleteBlobUpload (repo uuid : string)
  | RCheckBlob (repo digest : string)
  | RStatBlob (repo digest : string)
  | RGetBlob (repo digest : string)
  | RGetBlobPartial (repo digest : string) (from to : Z)
  | RGetBlobContent (repo digest : string)
  | RVerifyBlobDigestValue (repo digest : string)
  | RGetImageManifest (repo reference : string)
  | RGetReferrers (repo digest : string) (artifactTypes : list string)
  | RGetAllDedupeReposCandidates (digest : string)
  | RDeleteBlob (repo digest : string)
  | RCleanupRepo (repo : string) (blobs : list string)
  | RRemoveIdleRepository (now maxBlobAge : Z) (repo : string)
  | RRunDedupeForDigest (ctxErr : option err) (digest : string) (dedupe : bool) (duplicateBlobs : list path)
  | RRunDedupeBlobs
  | ROnRunComplete.

(** What the callers of the store guarantee: repository names match the
    grammar (the router only passes such names), upload ids are single path
    components, and the rebuild is given paths of the digest it is about. *)
Definition request_ok (r : request) : Prop :=
  match r with
  | RInitRepo repo | RPutImageManifest repo _ _ _ _ | RDeleteImageManifest repo _ _
  | RPutIndexContent repo _ | RNewBlobUpload repo | RFullBlobUpload _ repo _ _
  | RCheckBlob repo _ | RDeleteBlob repo _ | RCleanupRepo repo _
  | RRemoveIdleRepository _ _ repo => repo_ok repo
  | RGetBlobUpload repo uuid | RBlobUploadInfo repo uuid | RPutBlobChunkStreamed _ repo uuid _
  | RPutBlobChunk _ repo uuid _ _ _ | RFinishBlobUpload repo uuid _
  | RDeleteBlobUpload repo uuid => repo_ok repo /\ uuid_ok uuid
  | RRunDedupeForDigest _ digest _ duplicateBlobs =>
      Forall (fun p => is_blob root p digest) duplicateBlobs
  | _ => True
  end.

Definition serve (r : request) (s : store) : store :=
  match r with
  | RInitRepo repo => snd (IS.InitRepo cfg repo s)
  | RPutImageManifest repo reference mediaType body extraTags =>
      snd (IS.PutImageManifest cfg repo reference mediaType body extraTags s)
  | RDeleteImageManifest repo reference dc => snd (IS.DeleteImageManifest cfg repo reference dc s)
  | RPutIndexContent repo index => snd (IS.PutIndexContent cfg repo index s)
  | RNewBlobUpload repo => snd (IS.NewBlobUpload cfg repo s)
  | RGetBlobUpload repo uuid => snd (IS.GetBlobUpload cfg repo uuid s)
  | RBlobUploadInfo repo uuid => snd (IS.BlobUploadInfo cfg repo uuid s)
  | RPutBlobChunkStreamed ctx repo uuid body => snd (IS.PutBlobChunkStreamed cfg ctx repo uuid body s)
  | RPutBlobChunk ctx repo uuid from to body => snd (IS.PutBlobChunk cfg ctx repo uuid from to body s)
  | RFinishBlobUpload repo uuid d => snd (IS.FinishBlobUpload cfg repo uuid d s)
  | RFullBlobUpload ctx repo body d => snd (IS.FullBlobUpload cfg ctx repo body d s)
  | RDeleteBlobUpload repo uuid => snd (IS.DeleteBlobUpload cfg repo uuid s)
  | RCheckBlob repo d => snd (IS.CheckBlob cfg repo d s)
  | RStatBlob repo d => snd (IS.StatBlob cfg repo d s)
  | RGetBlob repo d => snd (IS.GetBlob cfg repo d s)
  | RGetBlobPartial repo d from to => snd (IS.GetBlobPartial cfg repo d from to s)
  | RGetBlobContent repo d => snd (IS.GetBlobContent cfg repo d s)
  | RVerifyBlobDigestValue repo d => snd (IS.VerifyBlobDigestValue cfg repo d s)
  | RGetImageManifest repo reference => snd (IS.GetImageManifest cfg repo reference s)
  | RGetReferrers repo d ts => snd (IS.GetReferrers cfg repo d ts s)
  | RGetAllDedupeReposCandidates d => snd (IS.GetAllDedupeReposCandidates cfg d s)
  | RDeleteBlob repo d => snd (IS.DeleteBlob cfg repo d s)
  | RCleanupRepo repo blobs => snd (IS.CleanupRepo cfg repo blobs s)
  | RRemoveIdleRepository now age repo => snd (IS.RemoveIdleRepository cfg now age repo s)
  | RRunDedupeForDigest ctx d dedupe blobs => snd (IS.RunDedupeForDigest cfg ctx d dedupe blobs s)
  | RRunDedupeBlobs => snd (IS.RunDedupeBlobs cfg s)
  | ROnRunComplete => snd (IS.OnRunComplete cfg s)
  end.

Definition serve_all (rs : list request) (s : store) : store := foldl (fun s r => serve r s) s rs.

(** A store with no file and no cache record yet. *)
Definition initial (s : store) : Prop :=
  (forall p i, ~ file_at (st_drv s) p i) /\
  (forall c, st_cache s = Some c ->
     cache_root c = root /\ cache_wf c /\ forall d k, ~ recorded c d k) /\
  Forall uuid_ok (st_uuids s).

Lemma initial_ok s : initial s -> ok s.
Proof.
  intros (Hf&Hc&Hu). split; [|split; [|done]].
  - split; [|done]. split; [intros p d i _|intros p q i|intros p i]; intros Hp; by destruct (Hf _ _ Hp).
  - intros c Ec. destruct (Hc c Ec) as (H1'&H2'&H3'). split; [done|]. split; [done|].
    intros d k Hk. by destruct (H3' d k).
Qed.

Lemma preserves_snd {A} (m : ST store A) s : preserves ok m -> ok s -> ok (snd (m s)).
Proof. intros Hm Hs. destruct (m s) as [r s'] eqn:E. by eapply Hm. Qed.

Lemma serve_ok r s : request_ok r -> ok s -> ok (serve r s).
Proof.
  intros Hr. destruct r; simpl in Hr |- *; apply preserves_snd;
  lazymatch type of Hr with _ /\ _ => destruct Hr as [Hr Hu] | _ => idtac end;
  eauto using pres_InitRepo, pres_PutImageManifest, pres_DeleteImageManifest, pres_PutIndexContent,
    pres_NewBlobUpload, pres_upload_size, pres_PutBlobChunkStreamed, pres_PutBlobChunk,
    pres_FinishBlobUpload, pres_FullBlobUpload, pres_DeleteBlobUpload, pres_CheckBlob, pres_StatBlob,
    pres_GetBlob, pres_GetBlobPartial, pres_GetBlobContent, pres_VerifyBlobDigestValue,
    pres_get_manifest, pres_candidates, pres_DeleteBlob, pres_CleanupRepo,
    pres_RemoveIdleRepository, pres_RunDedupeForDigest, pres_RunDedupeBlobs, pres_OnRunComplete.
  - unfold IS.GetBlobUpload. cbv zeta. destruct (negb _); [apply preserves_throw|by apply pres_upload_size].
  - unfold IS.GetReferrers. pres.
Qed.

Lemma serve_all_ok rs : forall s, Forall request_ok rs -> ok s -> ok (serve_all rs s).
Proof.
  induction rs as [|r rs IH]; intros s Hf Hs; [done|]. apply Forall_cons in Hf as [Hr Hf].
  simpl. apply IH; [done|]. by apply serve_ok.
Qed.

Lemma valid_state d (s : store) s' : IS.valid d s = (Ok tt, s') -> Validate d = None /\ s' = s.
Proof. unfold IS.valid. destruct (Validate d); [done|]. by intros [= <-]. Qed.

(** What is read from a blob path. *)
Lemma read_original d s fi off data s' : is_blob root (fi_Path fi) d -> ok s ->
  IS.drv (Stat (fi_Path fi)) s = (Ok fi, s) -> IS.drv (Reader (fi_Path fi) off) s = (Ok data, s') ->
  exists whole, FromBytes (Algorithm d) whole = d /\ (0 <= off)%Z /\
    data = String.substring (Z.to_nat off) (String.length whole) whole /\
    fi_Size fi = Z.of_nat (String.length whole).
Proof.
  intros Hp ([[Hsound _ _] _]&_) (f2&E2&_)%drv_state (f&E&->)%drv_state. apply reader_spec in E as [_ Hd].
  destruct (Hd data eq_refl) as (i&Hi&Hoff&->). exists (content (st_drv s) i).
  split; [by eapply Hsound|]. split; [done|]. split; [done|].
  apply stat_spec in E2 as [_ Hfi].
  destruct (Hfi fi eq_refl) as (_&n&Hn&Hsz). unfold file_at in Hi. rewrite Hi in Hn.
  injection Hn as <-. by destruct Hsz.
Qed.

Lemma GetBlob_content repo d s data n s' : repo_ok repo -> ok s ->
  IS.GetBlob cfg repo d s = (Ok (data, n), s') ->
FromBytes (Algorithm d) data = d /\ n = Z.of_nat (String.length data).
Proof.
  intros Hr Hs Hm. unfold IS.GetBlob in Hm. stepo Hm. destruct a. apply valid_state in E as [Hv ->].
  stepo Hm. pose proof (pres_originalBlobInfo None _ _ _ _ _ Hs E) as Hs1.
  apply (originalBlobInfo_blob None) in E as [Hb Hst]; [|done..]. stepo Hm. injection Hm as <- <- <-.
  destruct (read_original _ _ _ _ _ _ Hb Hs1 Hst E) as (whole&Hw&_&->&Hn).
  rewrite substring_all by done. done.
Qed.

Lemma GetBlobContent_content repo d s data s' : repo_ok repo -> ok s ->
  IS.GetBlobContent cfg repo d s = (Ok data, s') -> FromBytes (Algorithm d) data = d.
Proof.
  intros Hr Hs Hm. unfold IS.GetBlobContent in Hm. stepo Hm. destruct a. apply valid_state in E as [Hv ->].
  stepo Hm. pose proof (pres_originalBlobInfo None _ _ _ _ _ Hs E) as Hs1.
  apply (originalBlobInfo_blob None) in E as [Hb _]; [|done..]. by eapply read_blob_digest.
Qed.

(** [LimitReader] never runs short: the requested range is inside the file. *)
Lemma substring_substring (t : string) a m n : n <= m ->
  String.substring 0 n (String.substring a m t) = String.substring a n t.
Proof.
  revert a m n. induction t as [|c t IH]; intros a m n Hn; [by destruct a, m, n|].
  destruct a as [|a]; [|by apply IH]. destruct m as [|m], n as [|n]; try done; [lia|].
  simpl. f_equal. apply (IH 0). lia.
Qed.

Lemma GetBlobPartial_content repo d from to s data len size s' : repo_ok repo -> ok s ->
  IS.GetBlobPartial cfg repo d from to s = (Ok (data, len, size), s') ->
  exists whole, FromBytes (Algorithm d) whole = d /\ size = Z.of_nat (String.length whole) /\
    (0 <= from)%Z /\ (0 < len)%Z /\ (from + len <= size)%Z /\
    ((0 <= to < size)%Z -> len = (to - from + 1)%Z) /\
    data = String.substring (Z.to_nat from) (Z.to_nat len) whole.
Proof.
  intros Hr Hs Hm. unfold IS.GetBlobPartial in Hm. stepo Hm. destruct a. apply valid_state in E as [Hv ->].
  stepo Hm. pose proof (pres_originalBlobInfo None _ _ _ _ _ Hs E) as Hs1.
  apply (originalBlobInfo_blob None) in E as [Hb Hst]; [|done..]. cbv zeta in Hm. stepo Hm. stepo Hm.
  injection Hm as <- <- <- <-.
  destruct (read_original _ _ _ _ _ _ Hb Hs1 Hst E) as (whole&Hw&Hoff&->&Hn). exists whole.
  unfold IS.newBlobStream, lift_res in E0.
  set (theEnd := if (to <? 0)%Z || (fi_Size a <=? to)%Z then (fi_Size a - 1)%Z else to) in *.
  assert (theEnd < fi_Size a)%Z as Hend.
  { subst theEnd. destruct ((to <? 0)%Z) eqn:E1; simpl; [lia|]. destruct (fi_Size a <=? to)%Z eqn:E2; lia. }
  destruct ((from <? 0)%Z) eqn:Ef; [done|]. destruct (theEnd <? from)%Z eqn:Et; [done|]. simpl in E0.
  injection E0 as <- <-. split; [done|]. split; [done|]. split; [lia|]. split; [lia|]. split; [lia|].
  split.
  - intros Ht. subst theEnd. destruct ((to <? 0)%Z) eqn:E1; simpl; [lia|].
    destruct (fi_Size a <=? to)%Z eqn:E2; lia.
  - apply substring_substring. lia.
Qed.

Lemma GetImageManifest_content repo reference s body d mt s' : repo_ok repo -> ok s ->
  IS.GetImageManifest cfg repo reference s = (Ok (body, d, mt), s') -> FromBytes (Algorithm d) body = d.
Proof.
  intros Hr Hs Hm. unfold IS.GetImageManifest in Hm.
  pose proof (pres_repo_is_dir None repo) as Hp1. pose proof (pres_get_index None repo) as Hp2.
  stepo Hm. eapply Hp1 in E; [|done]. destruct a; [|done]. simpl in Hm. stepo Hm. eapply Hp2 in E0; [|done].
  destruct (GetManifestDescByReference a reference) as [md [|]]; [|done]. simpl in Hm. stepo Hm.
  apply try_state in E1 as (r0&[= ->]&E1). destruct r0 as [buf|e]; [|by destruct (decide _)].
  apply GetBlobContent_content in E1; [|done..]. destruct (unmarshal_manifest buf); [|done].
  by injection Hm as <- <- _ _.
Qed.
End store.

(** ** Properties *)

(** C2 Every request keeps the invariant of the store: each blob path, in every
    repository, holds content of its digest, only blob paths of one digest
    share an inode, and every cache record is a blob path of its digest. *)
Theorem requests_keep_addressing {C} `{CacheLaws C} `{GoDigestLaws} `{OciCodec}
    (cfg : config fs C) (r : request) (s : store fs C) :
  is_abs (cf_rootDir cfg) = true ->
  (forall lint, cf_linter cfg = Some lint -> forall repo d s, snd (lint repo d s) = s) ->
  request_ok cfg r -> store_ok cfg None s -> store_ok cfg None (serve cfg r s).
Proof. intros Hroot Hlint Hr Hs. by apply serve_ok. Qed.

(** C1 What is downloaded is what was asked for: after any sequence of pushes,
    uploads, mounts, deletions and dedupe runs on a new store, a blob that
    GetBlob or GetBlobContent returns hashes to the requested digest, and the
    length GetBlob announces is the length of the content. *)
Theorem downloads_match_digest {C} `{CacheLaws C} `{GoDigestLaws} `{OciCodec}
    (cfg : config fs C) (rs : list request) (s0 : store fs C) (repo d : string) :
  is_abs (cf_rootDir cfg) = true ->
  (forall lint, cf_linter cfg = Some lint -> forall repo d s, snd (lint repo d s) = s) ->
  initial cfg s0 -> Forall (request_ok cfg) rs -> repo_ok repo ->
  let s := serve_all cfg rs s0 in
  (forall data n s', IS.GetBlob cfg repo d s = (Ok (data, n), s') ->
     FromBytes (Algorithm d) data = d /\ n = Z.of_nat (String.length data)) /\
  (forall data s', IS.GetBlobContent cfg repo d s = (Ok data, s') ->
     FromBytes (Algorithm d) data = d).
Proof.
  intros Hroot Hlint Hi Hrs Hr s.
  assert (store_ok cfg None s) as Hs by by apply serve_all_ok, initial_ok.
  split; intros; [by eapply GetBlob_content|by eapply GetBlobContent_content].
Qed.

(** A range that GetBlobPartial serves is that range of content hashing to
    the digest: non-empty, inside the blob, with the announced length and total
    size; an end inside the blob is respected, any other is cut to the last
    byte. *)
Theorem ranges_match_digest {C} `{CacheLaws C} `{GoDigestLaws} `{OciCodec}
    (cfg : config fs C) (rs : list request) (s0 : store fs C) (repo d : string) (from to : Z)
    (data : string) (len size : Z) (s' : store fs C) :
  is_abs (cf_rootDir cfg) = true ->
  (forall lint, cf_linter cfg = Some lint -> forall repo d s, snd (lint repo d s) = s) ->
  initial cfg s0 -> Forall (request_ok cfg) rs -> repo_ok repo ->
  IS.GetBlobPartial cfg repo d from to (serve_all cfg rs s0) = (Ok (data, len, size), s') ->
  exists whole, FromBytes (Algorithm d) whole = d /\ size = Z.of_nat (String.length whole) /\
    (0 <= from)%Z /\ (0 < len)%Z /\ (from + len <= size)%Z /\
    ((0 <= to < size)%Z -> len = (to - from + 1)%Z) /\
    data = String.substring (Z.to_nat from) (Z.to_nat len) whole.
Proof.
  intros Hroot Hlint Hi Hrs Hr. apply GetBlobPartial_content; [done..|].
  by apply serve_all_ok, initial_ok.
Qed.

(** The manifest a reference resolves to hashes to the digest that is
    returned with it. *)
Theorem manifest_matches_digest {C} `{CacheLaws C} `{GoDigestLaws} `{OciCodec}
    (cfg : config fs C) (rs : list request) (s0 : store fs C) (repo reference body d mt : string)
    (s' : store fs C) :
  is_abs (cf_rootDir cfg) = true ->
  (forall lint, cf_linter cfg = Some lint -> forall repo d s, snd (lint repo d s) = s) ->
  initial cfg s0 -> Forall (request_ok cfg) rs -> repo_ok repo ->
  IS.GetImageManifest cfg repo reference (serve_all cfg rs s0) = (Ok (body, d, mt), s') ->
  FromBytes (Algorithm d) body = d.
Proof.
  intros Hroot Hlint Hi Hrs Hr Hm. eapply GetImageManifest_content; [done..| |exact Hm].
  by apply serve_all_ok, initial_ok.
Qed.

(** ** Witnesses: two repositories share a layer; one is deleted, the other
    still serves it. *)
Lemma zot_new_initial dedupe : initial (zot_cfg dedupe) zot_new.
Proof.
  split; [|split].
  - intros p i. unfold file_at. simpl. rewrite !lookup_insert_Some, lookup_singleton_Some. naive_solver.
  - intros c [= <-]. split; [done|]. split; [by apply map_Forall_empty|].
    intros d k (b&o&Hb&_). discriminate Hb.
  - repeat constructor; done.
Qed.

Definition pushes : list request :=
  [RFullBlobUpload None "a" (reader_of a_config) (sha256 a_config);
   RNewBlobUpload "a";
   RPutBlobChunk None "a" "u2" 0 2 (reader_of "lay");
   RPutBlobChunk None "a" "u2" 3 4 (reader_of "er");
   RFinishBlobUpload "a" "u2" (sha256 a_layer);
   RPutImageManifest "a" "v1" MediaTypeImageManifest a_manifest ["latest"];
   RCheckBlob "b/c" (sha256 a_layer);
   RCheckBlob "b/c" (sha256 a_config);
   RPutImageManifest "b/c" "v2" MediaTypeImageManifest a_manifest [];
   RDeleteImageManifest "a" "v1" false;
   RDeleteImageManifest "a" "latest" false;
   RDeleteBlob "a" (sha256 a_layer)].

Lemma pushes_ok : Forall (request_ok (zot_cfg true)) pushes.
Proof. repeat constructor; vm_compute; by repeat split. Qed.

(** The store they leave. *)
Local Notation pushed := (serve_all (zot_cfg true) pushes zot_new).

Lemma requests_keep_addressing_witness :
  store_ok (zot_cfg true) None (serve (zot_cfg true) (RNewBlobUpload "a") zot_new).
Proof.
  apply requests_keep_addressing; [reflexivity|discriminate|vm_compute; reflexivity|].
  apply initial_ok, zot_new_initial.
Defined.
Lemma downloads_match_digest_witness :
  fst (IS.GetBlob (zot_cfg true) "b/c" (sha256 a_layer) pushed) = Ok (a_layer, 5%Z) /\
  FromBytes (Algorithm (sha256 a_layer)) a_layer = sha256 a_layer.
Proof.
  assert (fst (IS.GetBlob (zot_cfg true) "b/c" (sha256 a_layer) pushed) = Ok (a_layer, 5%Z)) as E
    by (vm_compute; reflexivity).
  split; [exact E|].
  edestruct (downloads_match_digest (zot_cfg true) pushes zot_new "b/c" (sha256 a_layer)) as [Hb _];
    [reflexivity|discriminate|apply zot_new_initial|apply pushes_ok|vm_compute; reflexivity|].
  exact (proj1 (Hb _ _ _ (pair_fst _ _ E))).
Defined.
Lemma ranges_match_digest_witness :
  fst (IS.GetBlobPartial (zot_cfg true) "b/c" (sha256 a_layer) 1 2 pushed) = Ok ("ay", 2%Z, 5%Z) /\
  exists whole, FromBytes (Algorithm (sha256 a_layer)) whole = sha256 a_layer /\
    "ay" = String.substring 1 2 whole.
Proof.
  assert (fst (IS.GetBlobPartial (zot_cfg true) "b/c" (sha256 a_layer) 1 2 pushed) = Ok ("ay", 2%Z, 5%Z)) as E
    by (vm_compute; reflexivity).
  split; [exact E|].
  edestruct (ranges_match_digest (zot_cfg true) pushes zot_new "b/c" (sha256 a_layer) 1 2)
    as (w&Hw&_&_&_&_&_&Hs);
    [reflexivity|discriminate|apply zot_new_initial|apply pushes_ok|vm_compute; reflexivity|exact (pair_fst _ _ E)|].
  exists w. split; [exact Hw|exact Hs].
Defined.
Lemma manifest_matches_digest_witness :
  fst (IS.GetImageManifest (zot_cfg true) "b/c" "v2" pushed) =
    Ok (a_manifest, sha256 a_manifest, MediaTypeImageManifest) /\
  FromBytes (Algorithm (sha256 a_manifest)) a_manifest = sha256 a_manifest.
Proof.
  assert (fst (IS.GetImageManifest (zot_cfg true) "b/c" "v2" pushed) =
    Ok (a_manifest, sha256 a_manifest, MediaTypeImageManifest)) as E by (vm_compute; reflexivity).
  split; [exact E|].
  eapply (manifest_matches_digest (zot_cfg true) pushes zot_new "b/c" "v2" a_manifest
    (sha256 a_manifest) MediaTypeImageManifest);
    [reflexivity|discriminate|apply zot_new_initial|apply pushes_ok|vm_compute; reflexivity|exact (pair_fst _ _ E)].
Defined.
