(* ===== verification/Frame.v ===== *)
(** * What the methods of the image store leave alone

    Addressing.v shows what every method keeps true of the storage; here is
    what the methods that garbage collection calls do not touch. [steady W]
    says that the files of [W] are as they were, for a store on a local file
    system whose cache holds relative paths, as pkg/storage/cache.go sets it up
    for local storage. With it come the shape of the tree (names are names, no
    directory stands where a blob belongs) and the fact that reads of blobs
    leave the state as it is. *)

From Stdlib Require Import ZArith Lia Ascii String.
From stdpp Require Import base tactics list gmap strings sorting.
From S2P Require Import Prelude Regexp Driver BlobCache Oci IndexOps StorageCommon ImageStore Content Addressing.

Local Open Scope string_scope.
Local Open Scope list_scope.

(** ** The nodes of a tree *)
Section shape.
Context (good : path -> node -> Prop).
Definition shaped (f : fs) : Prop := map_Forall good (fs_nodes f).

Lemma shaped_nodes f f' : fs_nodes f' = fs_nodes f -> shaped f -> shaped f'.
Proof. unfold shaped. by intros ->. Qed.
Lemma shaped_fewer f f' : fs_nodes f' ⊆ fs_nodes f -> shaped f -> shaped f'.
Proof. intros Hs Hf p n Hp. eapply Hf, lookup_weaken; eauto. Qed.
Lemma shaped_insert p n f : good p n -> shaped f -> shaped (set_nodes <[p := n]> f).
Proof. intros. by apply map_Forall_insert_2. Qed.

Definition dirs_ok (p : path) : Prop := forall q, q ∈ prefixes p -> good q NDir.
Lemma shaped_mkdir p f r f' : dirs_ok p -> os_MkdirAll p f = (r, f') -> shaped f -> shaped f'.
Proof.
  unfold os_MkdirAll. intros Hp. destruct (existsb _ _); intros [= <- <-] Hf; [done|].
  intros q n. cbn [set_nodes fs_nodes]. rewrite foldr_mkdir_lookup. case_decide; [|apply Hf].
  intros [= <-]. by apply Hp.
Qed.
Lemma shaped_open p f r f' : (forall i, good p (NFile i)) -> os_OpenCreate p f = (r, f') -> shaped f -> shaped f'.
Proof.
  unfold os_OpenCreate. intros Hp. destruct (fs_nodes f !! p) as [[|i]|]; [by intros [= <- <-]..|].
  destruct (parent_ok f p); intros [= <- <-] Hf; [|done]. by apply map_Forall_insert_2.
Qed.
Lemma shaped_delete p : preserves shaped (Local.Delete p).
Proof.
  intros f r f' Hf. unfold Local.Delete. destruct (fst (os_Stat p f)); intros [= <- <-]; [|done].
  eapply shaped_fewer, Hf. cbn [set_nodes fs_nodes]. apply map_filter_subseteq.
Qed.
Lemma shaped_remove p : preserves shaped (os_Remove p).
Proof.
  intros f r f' Hf. unfold os_Remove. destruct (lookup_node f p) as [[|i]|]; [destruct (has_child f p)| |];
    intros [= <- <-]; try done; (eapply shaped_fewer, Hf; cbn [set_nodes fs_nodes]; apply delete_subseteq).
Qed.
Lemma shaped_fmt {A} (m : ST fs A) : preserves shaped m -> preserves shaped (Local.fmt m).
Proof. intros Hm f r f' Hf (r0&E&_)%fmt_state. by eapply Hm. Qed.

Section file.
Context (p : path).
Hypothesis (Hdirs : dirs_ok (path_dir p)) (Hp : forall i, good p (NFile i)).

Lemma shaped_writer append : preserves shaped (Local.Writer p append).
Proof.
  assert (preserves shaped (Local.fmt (os_MkdirAll (path_dir p)))) as H1.
  { apply shaped_fmt. intros f r f' Hf E. by eapply shaped_mkdir. }
  assert (preserves shaped (Local.fmt (os_OpenCreate p))) as H2.
  { apply shaped_fmt. intros f r f' Hf E. by eapply shaped_open. }
  assert (forall i, preserves shaped (Local.fmt (os_Truncate i))) as H3.
  { intros i. apply shaped_fmt. intros f r f' Hf [= <- <-]. done. }
  unfold Local.Writer. pres.
Qed.
Lemma shaped_write_file c : preserves shaped (Local.WriteFile p c).
Proof.
  unfold Local.WriteFile. apply preserves_bind; [apply shaped_writer|]. intros w. apply preserves_bind.
  - intros f r f' Hf. unfold Local.Write. destruct (Local.w_state_err w); by intros [= <- <-].
  - intros [n w']. apply preserves_bind; [|intros ?; apply preserves_ret].
    intros f r f' Hf. unfold Local.Close. destruct (Local.w_closed w'); [by intros [= <- <-]|].
    unfold bind, Local.Flush, bind, os_WriteAt. case_decide; by intros [= <- <-].
Qed.
End file.

Lemma shaped_move_file src dst i f r f' : file_at f src i -> dirs_ok (path_dir dst) -> good dst (NFile i) ->
  Local.Move src dst f = (r, f') -> shaped f -> shaped f'.
Proof.
  intros Hs Hd Hg. unfold Local.Move. destruct (os_stat_file f src i Hs) as [fi ->]. simpl. intros Hm Hf.
  steps Hm; [by apply fmt_err in E as [e' E]; eapply shaped_mkdir|].
  apply fmt_ok in E. pose proof (mkdir_all_spec _ _ _ _ E) as Hsame.
  assert (shaped s) as Hs1 by by eapply shaped_mkdir.
  assert (file_at s src i) as Hsrc by by apply Hsame.
  unfold Local.fmt, os_Rename in Hm. rewrite (lookup_file _ _ _ Hsrc) in Hm.
  assert (shaped (set_nodes (fun m => <[dst := NFile i]> (delete src m)) s)) as Hmv.
  { apply map_Forall_insert_2; [done|]. by apply map_Forall_delete. }
  destruct (parent_ok s dst); [|by injection Hm as <- <-].
  destruct (fs_nodes s !! dst) as [[|j]|]; [by injection Hm as <- <-| |by injection Hm as <- <-].
  case_decide; by injection Hm as <- <-.
Qed.
End shape.

(** ** Files that stay as they are *)
Section kept.
Context `{GoDigestLaws} (root : path) (good : path -> node -> Prop) (W : path -> Prop) (f0 : fs).

Record kept (f : fs) : Prop := {
  k_inv : fs_inv root f;
  k_same : forall p c, W p -> holds f p c <-> holds f0 p c;
  k_shape : shaped good f
}.

Lemma kept_same f f' : same_files f f' -> shaped good f' -> kept f -> kept f'.
Proof.
  intros Hs Hg [Hi Hw _]. split; [|intros p c Hp; rewrite <-Hw by done|done].
  - by eapply fs_inv_fewer; [apply same_files_fewer|].
  - destruct Hs as (Hin&_&Hf). unfold holds. split; intros (i&Hfi&Hc); exists i; (split; [by apply Hf|]).
    + by rewrite <-(content_ext f f').
    + by rewrite (content_ext f f').
Qed.

Lemma kept_fewer f f' : fewer f f' -> (forall q i, W q -> file_at f q i -> file_at f' q i) -> shaped good f' -> kept f -> kept f'.
Proof.
  intros Hf Hk Hg [Hi Hw _]. split; [by eapply fs_inv_fewer|intros p c Hp; rewrite <-Hw by done|done].
  destruct Hf as (Hin&_&Hf). split; intros (i&Hfi&Hc); exists i.
  - split; [by apply Hf|]. by rewrite <-(content_ext f f').
  - split; [by apply Hk|]. by rewrite (content_ext f f').
Qed.

Lemma kept_Delete p : (forall q, W q -> under p q = false) -> preserves kept (Delete p).
Proof.
  intros Hp f r f' Hf E. pose proof (shaped_delete good p _ _ _ (k_shape f Hf) E) as Hg.
  apply delete_spec in E as [He Hk]. apply (kept_fewer f); [done| |done|done]. intros q i Hq. by apply Hk, Hp.
Qed.
Lemma kept_remove p : ~ W p -> preserves kept (os_Remove p).
Proof.
  intros Hp f r f' Hf E. pose proof (shaped_remove good p _ _ _ (k_shape f Hf) E) as Hg.
  apply remove_spec in E as [He Hk]. apply (kept_fewer f); [done| |done|done]. intros q i Hq. apply Hk. by intros ->.
Qed.

(** An inode behind a path that is not a blob has no other name. *)
Lemma kept_writes f f' p i c : not_blob root p -> ~ W p -> writes f f' p i c -> shaped good f' -> kept f -> kept f'.
Proof.
  intros Hn Hp Hwr Hg [Hi Hw Hs].
  assert (forall q j, q <> p -> file_at f q j -> j <> i) as Hne.
  { intros q j Hq Hj ->. destruct (w_next _ _ _ _ _ Hwr) as [[Hpi _]|(_&->&_)]; [|apply Hi in Hj; lia].
    destruct (inv_alias _ _ Hi p q i Hpi Hj) as [->|(d&Hb&_)]; [done|]. by destruct (Hn d). }
  split; [|intros q c' Hq; rewrite <-Hw by done|done].
  - eapply (ok_writes root None f f' p i c); [exact Hwr|done| |by split]. intros d Hb. by destruct (Hn d).
  - assert (q <> p) as Hqp by by intros ->. unfold holds. split; intros (j&Hj&Hc); exists j.
    + apply (w_other _ _ _ _ _ Hwr) in Hj; [|done]. split; [done|]. rewrite <-(w_else _ _ _ _ _ Hwr); [done|eauto].
    + split; [by apply (w_other _ _ _ _ _ Hwr)|]. rewrite (w_else _ _ _ _ _ Hwr); [done|eauto].
Qed.

Section file.
Context (p : path).
Hypothesis (Hn : not_blob root p) (Hp : ~ W p) (Hdirs : dirs_ok good (path_dir p)) (Hgood : forall i, good p (NFile i)).
Lemma kept_write_file c : preserves kept (WriteFile p c).
Proof.
  intros f r f' Hf E. pose proof (shaped_write_file good p Hdirs Hgood c _ _ _ (k_shape f Hf) E) as Hg.
  apply write_file_spec in E as [(e&_&Hs)|(_&i&Hw)]; [by eapply kept_same|by eapply kept_writes].
Qed.
Lemma kept_writer : preserves kept (Writer p true).
Proof.
  intros f r f' Hf E. pose proof (shaped_writer good p Hdirs Hgood true _ _ _ (k_shape f Hf) E) as Hg.
  apply writer_append_spec in E as [Hs _]. by eapply kept_same.
Qed.
End file.

Lemma kept_move src dst i f r f' : file_at f src i -> not_blob root src -> not_blob root dst -> ~ W src -> ~ W dst ->
  dirs_ok good (path_dir dst) -> good dst (NFile i) -> Move src dst f = (r, f') -> kept f -> kept f'.
Proof.
  intros Hs Hn1 Hn2 Hw1 Hw2 Hd Hg E Hf.
  pose proof (shaped_move_file good _ _ _ _ _ _ Hs Hd Hg E (k_shape f Hf)) as Hsh.
  destruct (move_spec _ _ _ _ _ _ Hs E) as [[_ Hx]|[(_&_&Hx)|(e&_&Hx)]]; [|by eapply kept_same..].
  split; [|intros q c Hq; rewrite <-(k_same f Hf) by done|done].
  - eapply (ok_Move_file root None); [exact Hs|done|done| |by left|split; [apply Hf|done]|exact E].
    intros d Hb. by destruct (Hn2 d).
  - assert (q <> src /\ q <> dst) as [Hq1 Hq2] by (split; by intros ->). unfold holds.
    split; intros (j&Hj&Hc); exists j.
    + apply (m_others _ _ _ _ _ Hx) in Hj as [_ Hj]; [|done]. split; [done|]. by rewrite <-(content_ext f f') by apply Hx.
    + split; [by apply (m_kept _ _ _ _ _ Hx)|]. by rewrite (content_ext f f') by apply Hx.
Qed.
End kept.

(** ** The store *)
Section store.
Context {C : Type} `{CacheLaws C} `{GoDigestLaws} `{OciCodec} (cfg : config fs C) (repo : string).
Local Notation root := (cf_rootDir cfg).
Local Notation dir := (root ++ split_on slash repo).
Local Notation store := (store fs C).
Hypothesis (Hroot : is_abs root = true) (Hnames : Forall uuid_ok (tail root)) (Hrepo : repo_ok repo).

(** Below the root of the file system names are names, and no directory is
    where a blob of the repository belongs. *)
Definition good_node (q : path) (n : node) : Prop :=
  Forall uuid_ok (tail q) /\ (n = NDir -> forall d, Validate d = None -> q <> IS.BlobPath cfg repo d).

(** Local storage keeps relative paths in its cache. *)
Definition relative_records (s : store) : Prop := forall c, st_cache s = Some c -> UsesRelativePaths c = true.

Definition steady (W : path -> Prop) (f0 : fs) (s : store) : Prop :=
  store_ok cfg None s /\ relative_records s /\ kept root good_node W f0 (st_drv s).

Lemma repo_names : Forall uuid_ok (split_on slash repo).
Proof.
  pose proof Hrepo as Hm. unfold repo_ok in Hm. rewrite match_string_spec in Hm. apply name_components in Hm.
  eapply Forall_impl; [exact Hm|]. intros c. apply component_plain.
Qed.
Lemma tail_dir l : tail (dir ++ l) = tail root ++ split_on slash repo ++ l.
Proof. rewrite <-app_assoc. revert Hroot. by destruct root. Qed.
Lemma below_names l : Forall uuid_ok l -> Forall uuid_ok (tail (dir ++ l)).
Proof. intros Hl. rewrite tail_dir. rewrite !Forall_app. split; [done|]. split; [apply repo_names|done]. Qed.

Lemma blob_below d : Validate d = None -> IS.BlobPath cfg repo d = dir ++ [ImageBlobsDir; Algorithm d; Encoded d].
Proof. apply BlobPath_eq, Hrepo. Qed.

(** Paths of the repository that are too short, or elsewhere, for a blob. *)
Lemma short_good q n : Forall uuid_ok (tail q) -> length q <= length dir + 2 -> good_node q n.
Proof.
  intros Hq Hl. split; [done|]. intros _ d Hv ->. revert Hl. rewrite blob_below, length_app by done. simpl. lia.
Qed.
Lemma file_good q i : Forall uuid_ok (tail q) -> good_node q (NFile i).
Proof. by split. Qed.
Lemma short_dirs q : Forall uuid_ok (tail q) -> length q <= length dir + 2 -> dirs_ok good_node q.
Proof.
  intros Hq Hl p Hp. unfold prefixes in Hp. apply list_elem_of_fmap in Hp as (n&->&Hn%elem_of_seq).
  apply short_good; [|rewrite length_take; lia].
  destruct q as [|a q]; [by rewrite take_nil|]. destruct n as [|n]; [done|]. simpl in *. by apply Forall_take.
Qed.

(** The shape is decidable: a directory as deep as a blob is not under blobs. *)
Definition good_nodeb (q : path) (n : node) : bool :=
  forallb (fun c => bool_decide (plain c) && no_char slash c) (tail q) &&
  match n with NDir => negb (under (dir ++ [ImageBlobsDir]) q) || (length q <=? length dir + 2)%nat | NFile _ => true end.
Lemma good_nodeb_spec q n : good_nodeb q n = true -> good_node q n.
Proof.
  intros [Hn Hd]%andb_prop. split.
  - rewrite forallb_forall in Hn. apply list.Forall_forall. intros c Hc%list_elem_of_In%Hn. unfold uuid_ok.
    by apply andb_prop in Hc as [?%bool_decide_eq_true ?].
  - intros -> d Hv ->. rewrite blob_below in Hd by done. rewrite !length_app in Hd. simpl in Hd. apply orb_true_iff in Hd as [Hd|Hd].
    + change [ImageBlobsDir; Algorithm d; Encoded d] with ([ImageBlobsDir] ++ [Algorithm d; Encoded d]) in Hd.
      rewrite app_assoc in Hd. revert Hd. generalize (dir ++ [ImageBlobsDir]). intros p. induction p as [|x p IH]; simpl; [done|].
      by rewrite bool_decide_eq_true_2.
    + apply Nat.leb_le in Hd. lia.
Qed.
Lemma shapedb_spec (f : fs) : forallb (fun kv => good_nodeb (fst kv) (snd kv)) (map_to_list (fs_nodes f)) = true -> shaped good_node f.
Proof.
  rewrite forallb_forall. intros Hf q n Hq. apply good_nodeb_spec, (Hf (q, n)). by apply list_elem_of_In, elem_of_map_to_list.
Qed.

Section watched.
Context (W : path -> Prop) (f0 : fs).
Local Notation quiet := (steady W f0).

Lemma steady_drv {A} (m : ST fs A) : preserves (kept root good_node W f0) m -> preserves quiet (IS.drv m).
Proof.
  intros Hm s r s' ((_&Hc&Hu)&Hrel&Hk). unfold IS.drv. destruct (m (st_drv s)) as [r0 d] eqn:E.
  intros [= <- <-]. assert (kept root good_node W f0 d) as Hk' by by eapply Hm. split; [|done].
  split; [split; [apply Hk'|done]|done].
Qed.

Lemma steady_cache_delete d p : preserves quiet (IS.cache (BlobCache.DeleteBlob d p)).
Proof.
  intros s r s' (Hs&Hrel&Hk) E. pose proof (pres_cache_delete cfg None d p _ _ _ Hs E) as Hs'. split; [done|].
  unfold IS.cache in E. destruct (st_cache s) as [c|] eqn:Ec; [|by injection E as <- <-].
  destruct (BlobCache.DeleteBlob d p c) as [r0 c'] eqn:Ed. injection E as <- <-. split; [|done].
  intros c1 [= <-]. apply delete_const in Ed as [_ ->]. by apply Hrel.
Qed.
Lemma steady_uuid {A} (k : string -> ST store A) :
  (forall u, uuid_ok u -> preserves quiet (k u)) -> preserves quiet (bind IS.NewV4 k).
Proof.
  intros Hk s r s' (Hs&Hrel&Hf) Hm. unfold bind, IS.NewV4 in Hm. destruct (st_uuids s) as [|u us] eqn:Eu.
  - by injection Hm as <- <-.
  - destruct Hs as (Hi&Hc&Hu). rewrite Eu in Hu. apply Forall_cons_1 in Hu as [Hu1 Hu2].
    eapply Hk; [exact Hu1| |exact Hm]. split; [|done]. by split.
Qed.
End watched.

(** *** Reads *)
Definition is_state (s0 s : store) : Prop := s = s0.
Definition reads {A} (m : ST store A) : Prop := forall s0, preserves (is_state s0) m.
Lemma reads_drv {A} (m : ST fs A) : (forall f r f', m f = (r, f') -> f' = f) -> reads (IS.drv m).
Proof. intros Hm s0 s r s' -> (f&->%Hm&->)%drv_state. by destruct s0. Qed.
Lemma reads_stat p : reads (IS.drv (Stat p)).
Proof. apply reads_drv. by intros f r f' [-> _]%stat_spec. Qed.
Lemma reads_reader p off : reads (IS.drv (Reader p off)).
Proof. apply reads_drv. by intros f r f' [-> _]%reader_spec. Qed.
Lemma reads_file p : reads (IS.drv (ReadFile p)).
Proof. apply reads_drv. by intros f r f' [-> _]%read_file_spec. Qed.
Lemma reads_list p : reads (IS.drv (Driver.List p)).
Proof.
  apply reads_drv. intros f r f' E. cbn [Driver.List local_driver] in E. unfold Local.List in E.
  assert (forall r0 f1, Local.map_err Local.not_found (os_ReadDir p) f = (r0, f1) -> f1 = f) as Hr.
  { intros r0 f1 (r1&E1&_)%map_err_state. pose proof (os_readdir_state p f) as Hx. by rewrite E1 in Hx. }
  apply bind_state in E as [(e&E&_)|(a&f1&E&Hx)]; apply Hr in E as ->; [done|]. by injection Hx as _ <-.
Qed.
Lemma reads_cache_get d : reads (IS.cache (BlobCache.GetBlob d)).
Proof. intros s0 s r s' -> E. by apply cache_get_state in E. Qed.
#[local] Hint Extern 1 (preserves (is_state _) (IS.drv (Stat _))) => apply reads_stat : pres.
#[local] Hint Extern 1 (preserves (is_state _) (IS.drv (Driver.List _))) => apply reads_list : pres.
#[local] Hint Extern 1 (preserves (is_state _) (IS.drv (ReadFile _))) => apply reads_file : pres.

Lemma reads_index : reads (IS.GetIndexContent cfg repo).
Proof. intros s0. unfold IS.GetIndexContent. pres. Qed.
Lemma reads_uploads : reads (IS.ListBlobUploads cfg repo).
Proof. intros s0. unfold IS.ListBlobUploads. pres. Qed.
Lemma reads_blobs : reads (IS.GetAllBlobs cfg repo).
Proof.
  intros s0. unfold IS.GetAllBlobs. assert (forall ps, preserves (is_state s0) (IS.digests_under ps)).
  { intros ps. induction ps as [|p ps IH]; cbn [IS.digests_under]; pres. }
  pres.
Qed.

Lemma reads_get_index : reads (GetIndex (H1 := IS.image_store cfg) repo).
Proof. intros s0. pose proof (reads_index s0). unfold GetIndex. cbn [StorageCommon.GetIndexContent IS.image_store]. pres. Qed.

(** *** Reading a blob of the repository *)
Section blobs.
Context (W : path -> Prop) (f0 : fs) (s : store).
Hypothesis Hs : steady W f0 s.

Lemma blob_not_dir d : Validate d = None -> fs_nodes (st_drv s) !! IS.BlobPath cfg repo d <> Some NDir.
Proof.
  intros Hv E. destruct Hs as (_&_&Hk). destruct (k_shape _ _ _ _ _ Hk _ _ E) as [_ Hd]. by eapply Hd.
Qed.

Lemma original_run d : Validate d = None ->
  (exists fi i, IS.originalBlobInfo cfg repo d s = (Ok fi, s) /\ fi_Path fi = IS.BlobPath cfg repo d /\ file_at (st_drv s) (IS.BlobPath cfg repo d) i) \/
  (IS.originalBlobInfo cfg repo d s = (Err ErrBlobNotFound, s) /\ forall i, ~ file_at (st_drv s) (IS.BlobPath cfg repo d) i).
Proof.
  intros Hv. unfold IS.originalBlobInfo, bind, try. set (P := IS.BlobPath cfg repo d).
  destruct (IS.drv (Stat P) s) as [r s1] eqn:E. pose proof (reads_stat P s _ _ _ eq_refl E) as ->.
  apply drv_state in E as (f&E&_). destruct r as [fi|e].
  - apply stat_spec in E as [_ Hfi]. destruct (Hfi fi eq_refl) as (Hp&n&Hn&Hsz).
    pose proof (blob_not_dir d Hv) as Hd. fold P in Hd. destruct n as [|i]; [by destruct Hd|]. left. exists fi, i.
    split; [|done]. destruct (Z.eqb_spec (fi_Size fi) 0) as [Hz|]; [|done].
    assert (content (st_drv s) i = "") as Hc.
    { destruct Hsz as [Hsz _]. rewrite Hz in Hsz. destruct (content (st_drv s) i); [done|]. simpl in Hsz. lia. }
    assert (IS.isEmptyContentDigest d = true) as ->; [|done]. unfold IS.isEmptyContentDigest. apply bool_decide_eq_true.
    rewrite <-Hc. destruct Hs as (_&_&Hk). eapply (inv_sound _ _ (k_inv _ _ _ _ _ Hk)); [|exact Hn]. by apply BlobPath_is_blob.
  - right. split; [done|]. intros i Hi. destruct (os_stat_file _ _ _ Hi) as [fi Hfi].
    change (Stat P (st_drv s)) with (Local.Stat P (st_drv s)) in E. unfold Local.Stat, Local.map_err in E. by rewrite Hfi in E.
Qed.

Lemma read_file_run f p i : file_at f p i -> Local.ReadFile p f = (Ok (content f i), f).
Proof.
  intros Hi. unfold Local.ReadFile, Local.Reader. rewrite (lookup_file _ _ _ Hi). rewrite decide_False by lia.
  rewrite substring_all; [done|]. simpl. lia.
Qed.

Lemma GetBlobContent_run d : exists r, IS.GetBlobContent cfg repo d s = (r, s) /\ forall c, r = Ok c <-> Validate d = None /\ holds (st_drv s) (IS.BlobPath cfg repo d) c.
Proof.
  unfold IS.GetBlobContent, IS.valid, bind at 1. destruct (Validate d) as [e|] eqn:Hv.
  { eexists. split; [done|]. intros c. split; [done|by intros [? _]]. }
  unfold bind, ret. destruct (original_run d Hv) as [(fi&i&->&Hp&Hi)|[-> Hno]].
  - rewrite Hp. unfold IS.drv. cbn [ReadFile local_driver]. rewrite (read_file_run _ _ _ Hi).
    eexists. split; [by destruct s|]. intros c. split.
    + intros [= <-]. split; [done|]. by exists i.
    + intros [_ (j&Hj&<-)]. unfold file_at in *. congruence.
  - eexists. split; [done|]. intros c. split; [done|]. intros [_ (i&Hi&_)]. by destruct (Hno i).
Qed.
Lemma StatBlob_run d : exists r, IS.StatBlob cfg repo d s = (r, s).
Proof.
  unfold IS.StatBlob, IS.valid, bind at 1. destruct (Validate d) as [e|] eqn:Hv; [by eexists|].
  unfold bind, ret. destruct (original_run d Hv) as [(fi&i&->&_)|[-> _]]; by eexists.
Qed.
End blobs.

(** *** Deletes and writes *)
Section changes.
Context (W : path -> Prop) (f0 : fs).
Local Notation quiet := (steady W f0).

Lemma steady_is_ok s : quiet s -> store_ok cfg None s.
Proof. by intros [? _]. Qed.
Lemma steady_of_reads {A} (m : ST store A) : reads m -> preserves quiet m.
Proof. intros Hm s r s' Hs E. by rewrite (Hm s _ _ _ eq_refl E). Qed.
#[local] Hint Extern 1 (preserves (steady _ _) (IS.drv (Stat _))) => apply steady_of_reads, reads_stat : pres.
#[local] Hint Extern 1 (preserves (steady _ _) (IS.drv (ReadFile _))) => apply steady_of_reads, reads_file : pres.
#[local] Hint Extern 1 (preserves (steady _ _) (IS.cache (BlobCache.GetBlob _))) => apply steady_of_reads, reads_cache_get : pres.
#[local] Hint Resolve steady_cache_delete : pres.

Lemma steady_delete p : (forall q, W q -> under p q = false) -> preserves quiet (IS.drv (Delete p)).
Proof. intros Hp. by apply steady_drv, kept_Delete. Qed.

(** A blob path goes only when the file there goes: a relative cache never
    hands out the path that was asked about. *)
Definition deletable (p : path) : Prop := is_abs p = true /\ forall q, W q -> under p q = false.
Lemma steady_delete_blob d : deletable (IS.BlobPath cfg repo d) ->
  preserves quiet (IS.deleteBlobChecked cfg repo d (ret false)).
Proof.
  intros [Habs Hp]. pose proof (steady_delete _ Hp) as Hdel. unfold IS.deleteBlobChecked. cbv zeta.
  apply preserves_bind; [pres|]. intros [binfo|e]; [|pres]. apply preserves_bind; [pres|]. intros [|]; [pres|].
  apply preserves_bind; [pres|]. intros s1. destruct (IS.has_cache s1); [|pres].
  intros s r s' Hs Hm. steps Hm; [by apply try_state in E as (?&[=]&_)|].
  apply try_state in E as (r0&[= ->]&E). pose proof (cache_get_state _ _ _ _ E) as ->.
  steps Hm.
  { destruct r0; [done|]. destruct (decide _); [done|]. by injection E0 as _ <-. }
  assert (s0 = s /\ (a = None \/ r0 = Ok a)) as [-> Ha].
  { destruct r0; [injection E0 as <- <-; auto|]. destruct (decide _); [injection E0 as <- <-; auto|done]. }
  clear E0. unfold bind at 1, get at 1 in Hm. destruct (_ && _); [by injection Hm as <- <-|].
  case_bool_decide as Heq.
  2:{ revert Hs Hm. match goal with |- _ -> ?m0 _ = _ -> _ => assert (preserves quiet m0) as Hpr by pres end. apply Hpr. }
  subst a. destruct Ha as [|Ha]; [done|]. subst r0. exfalso.
  destruct (cached_absolute cfg d s s _ (steady_is_ok s Hs) E Habs) as [_ Hf].
  apply cache_state in E as (c&c'&Ec&_). destruct Hs as (_&Hrel&_). specialize (Hf c Ec). by rewrite (Hrel c Ec) in Hf.
Qed.
Lemma steady_cleanup ds : Forall (fun d => deletable (IS.BlobPath cfg repo d)) ds -> preserves quiet (IS.CleanupRepo cfg repo ds).
Proof.
  intros Hds. unfold IS.CleanupRepo. generalize 0 as n. induction Hds as [|d ds Hd _ IH]; intros n; simpl; [pres|].
  pose proof (steady_delete_blob d Hd). pres.
Qed.

Section upload.
Context (u : string).
Hypothesis (Hu : uuid_ok u) (Hw : forall q, W q -> under (IS.BlobUploadPath cfg repo u) q = false).
Local Notation src := (IS.BlobUploadPath cfg repo u).

Lemma upload_names : Forall uuid_ok (tail src).
Proof. rewrite upload_path_eq by done. apply below_names. repeat apply Forall_cons_2; done. Qed.
Lemma upload_dirs : dirs_ok good_node (path_dir src).
Proof.
  rewrite upload_path_eq by done. change [BlobUploadDir; u] with ([BlobUploadDir] ++ [u]). rewrite app_assoc, path_dir_snoc.
  apply short_dirs; [apply below_names; by apply Forall_singleton|]. rewrite !length_app. simpl. lia.
Qed.
Lemma upload_unwatched : ~ W src.
Proof. intros Hs%Hw. by rewrite under_self in Hs. Qed.
#[local] Hint Resolve upload_names upload_dirs upload_unwatched : core.

Lemma steady_write_upload c : preserves quiet (IS.drv (WriteFile src c)).
Proof. apply steady_drv, kept_write_file; [by apply upload_not_blob|done|done|]. intros i. by apply file_good. Qed.
Lemma steady_DeleteBlobUpload : preserves quiet (IS.DeleteBlobUpload cfg repo u).
Proof.
  assert (preserves quiet (IS.drv (Writer src true))) as Hwr.
  { apply steady_drv, kept_writer; [done|]. intros i. by apply file_good. }
  assert (preserves quiet (IS.drv (fun f => os_Remove src f))) as Hrm by by apply steady_drv, kept_remove.
  unfold IS.DeleteBlobUpload. intros s r s' Hs Hm. steps Hm; [by apply try_state in E as (?&[=]&_)|].
  apply try_state in E as (r0&[= ->]&E). pose proof (Hwr _ _ _ Hs E) as Hs0.
  destruct r0 as [w|e]; [|by injection Hm as _ <-]. apply drv_state in E as (f&E&->). cbn [Writer local_driver] in E.
  apply writer_append_spec in E as [_ Hfw]. destruct (Hfw w eq_refl) as (i&_&->). clear Hfw.
  match type of Hs0 with quiet ?s0 => set (s1 := s0) in * end.
  steps Hm; [by apply try_state in E as (?&[=]&_)|]. apply try_state in E as (r1&[= ->]&E).
  assert (quiet s0 /\ (r1 = Ok (Local.mkWriter src i (String.length (content (st_drv s) i)) "" 
     (Z.of_nat (String.length (content (st_drv s) i))) false false true) \/ exists e, r1 = Err e)) as [Hs2 Hr1].
  { apply drv_state in E as (f1&E&->). cbn [fw_Cancel local_driver] in E. unfold Local.Cancel in E.
    cbn [Local.w_closed Local.w_path] in E. unfold bind in E. destruct (os_Remove src (st_drv s1)) as [[[]|e] f2] eqn:Er;
      injection E as <- <-; (split; [|eauto]); (eapply Hrm; [exact Hs0|]); unfold IS.drv; rewrite Er; reflexivity. }
  destruct Hr1 as [->|[e ->]].
  - by rewrite close_empty in Hm; injection Hm as _ <-.
  - unfold bind in Hm. by rewrite close_empty in Hm; injection Hm as _ <-.
Qed.
End upload.
End changes.

Lemma dir_root l : is_abs (dir ++ l) = true.
Proof. revert Hroot. rewrite <-app_assoc. by destruct root. Qed.

(** The staged write of index.json. *)
Section put_index.
Context (W : path -> Prop) (f0 : fs).
Hypothesis (Hindex : ~ W (IS.index_path cfg repo))
  (Huploads : forall u q, uuid_ok u -> W q -> under (IS.BlobUploadPath cfg repo u) q = false).
Local Notation quiet := (steady W f0).

Lemma index_names : Forall uuid_ok (tail (IS.index_path cfg repo)).
Proof. rewrite index_path_eq by done. apply below_names. by apply Forall_singleton. Qed.
Lemma index_dirs : dirs_ok good_node (path_dir (IS.index_path cfg repo)).
Proof.
  rewrite index_path_eq, path_dir_snoc by done. apply short_dirs; [|lia]. rewrite <-(app_nil_r dir). by apply below_names.
Qed.
Lemma steady_move_index u i s r s' : uuid_ok u -> file_at (st_drv s) (IS.BlobUploadPath cfg repo u) i -> quiet s ->
  IS.drv (Move (IS.BlobUploadPath cfg repo u) (IS.index_path cfg repo)) s = (r, s') -> quiet s'.
Proof.
  intros Hu Hi (Hs&Hrel&Hk) (f&E&->)%drv_state.
  assert (kept root good_node W f0 f) as Hk'.
  { eapply (kept_move root good_node W f0 _ (IS.index_path cfg repo) i); [exact Hi|by apply upload_not_blob|
      by apply index_not_blob|by eapply upload_unwatched; eauto|done|apply index_dirs|apply file_good, index_names|exact E|exact Hk]. }
  split; [|done]. destruct Hs as (_&Hc&Hus). split; [split; [apply Hk'|done]|done].
Qed.
Lemma steady_put_index index : preserves quiet (IS.PutIndexContent cfg repo index).
Proof.
  unfold IS.PutIndexContent, IS.writeFileViaStaging. apply steady_uuid. intros u Hu. cbv zeta.
  set (c := marshal_index index). set (src := IS.BlobUploadPath cfg repo u).
  pose proof (steady_delete W f0 src (fun q => Huploads u q Hu)) as Hdel.
  assert (preserves quiet (IS.ignore (IS.drv (Delete src)))) as Hclean by (unfold IS.ignore; pres).
  intros s r s' Hs Hm. steps Hm; [by apply try_state in E as (?&[=]&_)|].
  apply try_state in E as (r0&[= ->]&E).
  pose proof (steady_write_upload W f0 u Hu (fun q => Huploads u q Hu) c _ _ _ Hs E) as Hs0.
  assert (forall e, preserves quiet (IS.ignore (IS.drv (Delete src)) ;;; throw (A := unit) e)) as Hthrow by (intros e; pres).
  destruct r0 as [n|e]; [|by eapply Hthrow]. destruct (negb _); [by eapply Hthrow|].
  apply drv_state in E as (f&E&->). cbn [WriteFile local_driver] in E.
  apply write_file_spec in E as [(e&[=]&_)|(_&i&Hw)].
  steps Hm; [by apply try_state in E as (?&[=]&_)|]. apply try_state in E as (r1&[= ->]&E).
  apply (steady_move_index u i) in E; [|done|apply Hw|done]. destruct r1 as [[]|e]; [by injection Hm as _ <-|].
  revert E Hm. match goal with |- _ -> ?m0 _ = _ -> _ => assert (preserves quiet m0) as Hpr end; [|apply Hpr].
  apply preserves_bind; [apply preserves_try, steady_of_reads, reads_file|]. intros a. pres.
Qed.
End put_index.

(** *** What a directory lists *)
Lemma list_children p (s : store) l s' : p <> [] -> shaped good_node (st_drv s) -> IS.drv (Driver.List p) s = (Ok l, s') ->
  Forall (fun q => exists c, q = p ++ [c] /\ uuid_ok c) l.
Proof.
  intros Hp Hs (f&E&_)%drv_state. cbn [Driver.List local_driver] in E. unfold Local.List in E. stepo E.
  injection E as <- _. unfold Local.map_err, os_ReadDir in E0.
  destruct (lookup_node (st_drv s) p) as [[|i]|]; [|done..]. injection E0 as <- _. apply Forall_fmap, list.Forall_forall.
  intros c Hc. rewrite (merge_sort_Permutation str_le) in Hc. unfold child_names in Hc. apply list_elem_of_omap in Hc as ([q n]&Hq&E).
  apply elem_of_map_to_list in Hq. simpl in E. destruct (drop (length p) q) as [|c' [|]] eqn:Ed; [done| |done].
  destruct (under p q) eqn:Eu; [|done]. injection E as ->. exists c. split; [done|].
  destruct (Hs _ _ Hq) as [Hn _]. assert (c ∈ tail q) as Hin; [|by eapply list.Forall_forall in Hn].
  assert (c ∈ drop (length p) q) as Hin by (rewrite Ed; left). destruct p as [|a p]; [done|]. destruct q as [|b q]; [done|].
  simpl in *. rewrite <-(take_drop (length p) q). apply elem_of_app. by right.
Qed.
Lemma uploads_listed W f0 s l s' : steady W f0 s -> IS.ListBlobUploads cfg repo s = (Ok l, s') -> Forall uuid_ok l.
Proof.
  intros (_&_&Hk) E. unfold IS.ListBlobUploads in E. stepo E. apply try_state in E0 as (r0&[= ->]&E0).
  destruct r0 as [ps|e]; [|destruct (IS.not_found e); [injection E as <- _; constructor|done]]. injection E as <- _.
  assert (path_join (IS.repo_path cfg repo) BlobUploadDir <> []) as Hne by (by rewrite sub_path_eq; [by destruct root|..]).
  pose proof (list_children _ _ _ _ Hne (k_shape _ _ _ _ _ Hk) E0) as Hl. apply Forall_fmap. eapply Forall_impl; [exact Hl|].
  intros q (c&->&Hc). simpl. rewrite path_base_snoc; [done|]. intros ->. by destruct Hc as [[Hn _] _].
Qed.

Lemma available_name a : Available a = true -> name_like a.
Proof. intros Ha. destruct (validate_names _ (frombytes_valid a "" Ha)) as [Hn _]. by rewrite frombytes_alg in Hn. Qed.
(** A digest that a listing makes of a name, valid or not. *)
Definition listed_digest (d : string) : Prop := exists a c, Available a = true /\ uuid_ok c /\ d = NewDigestFromEncoded a c.
Lemma listed_below d : listed_digest d -> exists l, IS.BlobPath cfg repo d = dir ++ l /\ length l = 3.
Proof.
  intros (a&c&Ha&[Hp Hn]&->). destruct (new_parts a c Ha) as [Ea Ee]. pose proof (available_name a Ha) as Hna.
  exists [ImageBlobsDir; a; c]. split; [|done]. unfold IS.BlobPath. rewrite Ea, Ee, sub_path_eq by done.
  do 2 (rewrite join_const; [|by auto using name_like_no_slash, name_like_plain..]). by rewrite <-!app_assoc.
Qed.
Lemma digests_listed ps : Forall (fun q => q <> []) ps -> forall (s : store) l s', shaped good_node (st_drv s) ->
  IS.digests_under ps s = (Ok l, s') -> Forall listed_digest l.
Proof.
  induction 1 as [|p ps Hp _ IH]; intros s l s' Hs E; cbn [IS.digests_under] in E; [injection E as <- _; constructor|].
  destruct (negb (Available (path_base p))) eqn:Ea; [by eapply IH|]. apply negb_false_iff in Ea.
  stepo E. pose proof (reads_list p s _ _ _ eq_refl E0) as ->. apply list_children in E0; [|done..].
  stepo E. injection E as <- _. apply Forall_app. split; [|by eapply IH]. apply Forall_fmap. eapply Forall_impl; [exact E0|].
  intros q (c&->&Hc). exists (path_base p), c. split; [done|]. split; [done|]. rewrite path_base_snoc; [done|].
  intros ->. by destruct Hc as [[Hn _] _].
Qed.
Lemma blobs_listed W f0 s l s' : steady W f0 s -> IS.GetAllBlobs cfg repo s = (Ok l, s') -> Forall listed_digest l.
Proof.
  intros (_&_&Hk) E. unfold IS.GetAllBlobs in E. stepo E. apply try_state in E0 as (r0&[= ->]&E0).
  pose proof (reads_list _ s _ _ _ eq_refl E0) as ->.
  destruct r0 as [ps|e]; [|destruct (IS.not_found e); [injection E as <- _; constructor|done]].
  assert (path_join (IS.repo_path cfg repo) ImageBlobsDir <> []) as Hne by (by rewrite sub_path_eq; [by destruct root|..]).
  apply digests_listed in E; [done| |apply Hk]. eapply Forall_impl; [exact (list_children _ _ _ _ Hne (k_shape _ _ _ _ _ Hk) E0)|].
  intros q (c&->&_). by destruct (path_join _ _).
Qed.

(** *** The sweep of an idle repository *)
Lemma under_app_l p q l : under (p ++ l) q = true -> under p q = true.
Proof.
  revert q. induction p as [|x p IH]; intros [|y q]; simpl; try done. intros [-> Hu]%andb_prop. by rewrite IH.
Qed.
(** Unless index.json reads as one without rows, nothing happens. *)
Lemma idle_busy now age s r s' : (forall i, fst (GetIndex (H1 := IS.image_store cfg) repo s) = Ok i -> Manifests i <> []) ->
  IS.RemoveIdleRepository cfg now age repo s = (r, s') -> s' = s.
Proof.
  intros Hi. unfold IS.RemoveIdleRepository, bind at 1, get at 1. destruct (negb _); [by intros [= _ <-]|].
  unfold bind at 1. destruct (GetIndex _ s) as [ri s1] eqn:E. pose proof (reads_get_index s _ _ _ eq_refl E) as ->.
  destruct ri as [i|e]; [|by intros [= _ <-]]. specialize (Hi i eq_refl). destruct (Manifests i); [done|]. by intros [= _ <-].
Qed.

Section idle.
Context (W : path -> Prop) (f0 : fs).
Hypothesis Hblobs : forall l q, length l = 3 -> W q -> under (dir ++ l) q = false.
Local Notation quiet := (steady W f0).
Lemma listed_deletable d : listed_digest d -> deletable W (IS.BlobPath cfg repo d).
Proof. intros (l&->&Hl)%listed_below. split; [apply dir_root|]. intros q Hq. by apply Hblobs. Qed.
Lemma steady_idle_blobs now age ds : Forall listed_digest ds -> preserves quiet (IS.remove_idle_blobs cfg now age repo ds).
Proof.
  induction 1 as [|d ds Hd _ IH]; cbn [IS.remove_idle_blobs]; [apply preserves_ret|].
  pose proof (steady_delete_blob W f0 d (listed_deletable d Hd)) as Hp.
  assert (preserves quiet (IS.StatBlob cfg repo d)) as Hst.
  { intros s r s' Hs E. destruct (StatBlob_run W f0 s Hs d) as [r0 E0]. rewrite E0 in E. by injection E as _ <-. }
  pres.
Qed.

(** The directory of the repository and all below it are gone. *)
Definition wiped (f f' : fs) : Prop := f' = set_nodes (filter (fun kv => under dir (fst kv) = false)) f.
Lemma idle_outcome now age s r s' : quiet s -> IS.RemoveIdleRepository cfg now age repo s = (r, s') ->
  (quiet s' /\ r <> Ok true) \/
  (r = Ok true /\ exists s1, quiet s1 /\ wiped (st_drv s1) (st_drv s') /\ relative_records s' /\ store_ok cfg None s').
Proof.
  intros Hs Hm. unfold IS.RemoveIdleRepository in Hm. unfold bind at 1, get at 1 in Hm.
  destruct (negb _); [injection Hm as <- <-; by left|].
  steps Hm; [left; split; [by eapply steady_of_reads, E; [apply reads_get_index|]|done]|].
  apply (steady_of_reads W f0 _ reads_get_index s _ _ Hs) in E. destruct (Manifests a); [|injection Hm as <- <-; by left].
  steps Hm; [left; split; [by eapply steady_of_reads, E0; [apply reads_uploads|]|done]|].
  apply (steady_of_reads W f0 _ reads_uploads _ _ _ E) in E0. destruct a0; [|injection Hm as <- <-; by left].
  steps Hm; [left; split; [by eapply steady_of_reads, E1; [apply reads_blobs|]|done]|].
  pose proof (blobs_listed _ _ _ _ _ E0 E1) as Hl. apply (steady_of_reads W f0 _ reads_blobs _ _ _ E0) in E1.
  pose proof (steady_idle_blobs now age _ Hl) as Hp.
  steps Hm; [left; split; [by eapply Hp|done]|]. apply Hp in E2; [|done].
  steps Hm; [left; split; [by eapply steady_of_reads, E3; [apply reads_blobs|]|done]|].
  apply (steady_of_reads W f0 _ reads_blobs _ _ _ E2) in E3. destruct a2; [|injection Hm as <- <-; by left].
  unfold bind in Hm. destruct (IS.drv (Delete (IS.repo_path cfg repo)) _) as [r1 s6] eqn:Ed.
  pose proof (pres_drv cfg None _ (ok_Delete root None _ ltac:(done)) _ _ _ (steady_is_ok W f0 _ E3) Ed) as Hok.
  apply drv_state in Ed as (f&Ed&->). cbn [Delete local_driver] in Ed. unfold Local.Delete in Ed.
  destruct (fst (os_Stat _ _)); injection Ed as <- <-; injection Hm as <- <-.
  - right. split; [done|]. eexists. split; [exact E3|]. split; [|split; [apply E3|done]].
    unfold wiped. simpl. by rewrite repo_path_eq.
  - left. split; [|done]. revert E3. match goal with |- quiet ?x -> _ => by destruct x end.
Qed.
End idle.
End store.
