(* ===== verification/Listing.v ===== *)
(** * Listing repositories and blobs

    The walks of the image store over local storage: Walk is a left-to-right
    run of its callback over the entries of the tree, which decides what the
    listings of repositories, their pages and the listing of the blobs of one
    digest contain. *)

From Stdlib Require Import ZArith Lia Ascii String.
From stdpp Require Import base tactics list gmap strings sorting.
From S2P Require Import Prelude Regexp Driver BlobCache Oci IndexOps StorageCommon Concrete ImageStore Content ConcreteStore Addressing.

Local Open Scope string_scope.
Local Open Scope list_scope.

(** ** The entries a walk goes through *)

(** Directory entries below [p] in the order of the walk; [skip] says which
    directories are not entered. *)
Fixpoint tree (fuel : nat) (skip : path -> bool) (s : fs) (p : path) : list FileInfo :=
  match fuel with
  | 0 => []
  | S fuel =>
      match fst (Local.List p s) with
      | Err _ => []
      | Ok children =>
          merge_sort path_le children ≫= (fun c =>
            match fst (Local.Stat c s) with
            | Err _ => []
            | Ok fi => fi :: (if fi_IsDir fi && negb (skip c) then tree fuel skip s c else [])
            end)
      end
  end.

(** The callback on each entry in turn, until it fails. *)
Fixpoint run {A} (fn : FileInfo -> A -> fs -> option err * A) (s : fs) (l : list FileInfo) (acc : A)
    : option err * A :=
  match l with
  | [] => (None, acc)
  | fi :: l =>
      match fn fi acc s with
      | (None, acc) => run fn s l acc
      | (Some e, acc) => if decide (e = ErrSkipDir) then run fn s l acc else (Some (Local.formatErr e), acc)
      end
  end.

Lemma run_app {A} fn s l1 l2 (acc : A) :
  run fn s (l1 ++ l2) acc =
    match run fn s l1 acc with (None, acc) => run fn s l2 acc | r => r end.
Proof.
  revert acc. induction l1 as [|fi l1 IH]; intros acc; simpl; [done|].
  destruct (fn fi acc s) as [[e|] acc']; [|apply IH]. case_decide; [apply IH|done].
Qed.

(** Nodes of the tree. *)
Definition info (s : fs) (p : path) : option FileInfo :=
  match fst (os_Stat p s) with Ok fi => Some fi | Err _ => None end.

Lemma stat_node s p n : fs_nodes s !! p = Some n ->
  exists fi, Local.Stat p s = (Ok fi, s) /\ info s p = Some fi /\ fi_Path fi = p /\ fi_IsDir fi = is_dir s p.
Proof.
  intros Hn. unfold Local.Stat, Local.map_err, info, os_Stat, lookup_node, is_dir. rewrite Hn.
  destruct n; eexists; by repeat split.
Qed.

Lemma under_app (p q : path) : under p (p ++ q) = true.
Proof. induction p as [|x p IH]; [by destruct q|]. simpl. by rewrite bool_decide_eq_true_2, IH. Qed.
Lemma under_split p q : under p q = true -> q = p ++ drop (length p) q.
Proof.
  revert q. induction p as [|x p IH]; intros [|y q]; simpl; try done.
  intros [Hx%bool_decide_eq_true Hu]%andb_prop. subst. f_equal. by apply IH.
Qed.

Lemma elem_of_child_names s p c :
  c ∈ child_names s p <-> fs_nodes s !! (p ++ [c]) <> None.
Proof.
  unfold child_names. rewrite list_elem_of_omap. split.
  - intros ([q n]&Hq%elem_of_map_to_list&Hc). simpl in Hc.
    destruct (drop (length p) q) as [|c' [|]] eqn:Ed; [done| |done].
    destruct (under p q) eqn:Eu; [|done]. injection Hc as <-.
    assert (q = p ++ [c']) as <-; [|by rewrite Hq].
    rewrite <-Ed. by apply under_split.
  - destruct (fs_nodes s !! (p ++ [c])) as [n|] eqn:En; [|done]. intros _.
    exists (p ++ [c], n). split; [by apply elem_of_map_to_list|]. simpl. by rewrite drop_app_length, under_app.
Qed.

Lemma NoDup_child_names s p : NoDup (child_names s p).
Proof.
  unfold child_names. pose proof (NoDup_fst_map_to_list (fs_nodes s)) as Hn. revert Hn.
  generalize (map_to_list (fs_nodes s)). intros l. induction l as [|[q n] l IH]; [constructor|].
  simpl. intros [Hq Hl]%NoDup_cons. specialize (IH Hl).
  destruct (drop (length p) q) as [|c [|]] eqn:Ed; [done| |done].
  destruct (under p q) eqn:Eu; [|done]. apply NoDup_cons. split; [|done].
  intros ([q' n']&Hq'&Hc)%list_elem_of_omap. simpl in Hc.
  destruct (drop (length p) q') as [|c' [|]] eqn:Ed'; [done| |done].
  destruct (under p q') eqn:Eu'; [|done]. injection Hc as ->. apply Hq.
  apply list_elem_of_fmap. exists (q', n'). split; [|done]. simpl.
  apply under_split in Eu, Eu'. rewrite Ed in Eu. rewrite Ed' in Eu'. by rewrite Eu, Eu'.
Qed.

(** The children of a directory, as Walk and List give them. *)
Lemma list_dir s p : is_dir s p = true ->
  exists cs, Local.List p s = (Ok cs, s) /\ NoDup cs /\
    forall q, q ∈ cs <-> exists c, q = p ++ [c] /\ fs_nodes s !! q <> None.
Proof.
  unfold is_dir. intros Hd. destruct (fs_nodes s !! p) as [[|]|] eqn:En; try done.
  unfold Local.List, Local.map_err, bind, os_ReadDir, lookup_node. rewrite En.
  eexists. split; [done|]. split.
  - apply NoDup_fmap_2; [intros a b E; by simplify_list_eq|].
    rewrite merge_sort_Permutation. apply NoDup_child_names.
  - intros q. rewrite list_elem_of_fmap. split.
    + intros (c&->&Hc). rewrite merge_sort_Permutation in Hc. exists c. split; [done|].
      by apply elem_of_child_names.
    + intros (c&->&Hc). exists c. split; [done|]. rewrite merge_sort_Permutation.
      by apply elem_of_child_names.
Qed.

(** [fuel] exceeds the depth of every directory below [p]. *)
Definition depth_ok (s : fs) (p : path) (fuel : nat) : Prop :=
  forall q, is_dir s q = true -> under p q = true -> length q < length p + fuel.

Lemma depth_child s p c fuel : depth_ok s p (S fuel) -> depth_ok s (p ++ [c]) fuel.
Proof.
  intros Hd q Hq Hu. pose proof (under_split _ _ Hu) as E.
  specialize (Hd q Hq). rewrite E, <-app_assoc, length_app in Hd |- *.
  rewrite !length_app in *. simpl in *.
  specialize (Hd (under_app _ _)). lia.
Qed.

(** A callback that leaves exactly the directories of [skip]. *)
Definition skips {A} (skip : path -> bool) (s : fs) (fn : FileInfo -> A -> fs -> option err * A) : Prop :=
  forall fi acc, (fst (fn fi acc s) = None -> fi_IsDir fi = true -> skip (fi_Path fi) = false) /\
    (fst (fn fi acc s) = Some ErrSkipDir -> fi_IsDir fi = true /\ skip (fi_Path fi) = true).

(** Walk with enough fuel runs the callback over the entries of the tree. *)
Lemma walk_run {A} skip s (fn : FileInfo -> A -> fs -> option err * A) :
  skips skip s fn -> forall fuel p acc, is_dir s p = true -> depth_ok s p fuel ->
  Local.Walk fuel p fn acc s = run fn s (tree fuel skip s p) acc.
Proof.
  intros Hs. induction fuel as [|fuel IH]; intros p acc Hp Hd.
  { specialize (Hd p Hp). specialize (Hd (under_self p)). lia. }
  simpl. destruct (list_dir s p Hp) as (cs&E&_&Hcs). rewrite E. simpl.
  assert (forall q, q ∈ merge_sort path_le cs -> exists c, q = p ++ [c] /\ fs_nodes s !! q <> None) as Hc.
  { intros q Hq. rewrite merge_sort_Permutation in Hq. by apply Hcs. }
  clear E Hcs. revert acc Hc. induction (merge_sort path_le cs) as [|q l IHl]; intros acc Hc; [done|].
  destruct (Hc q (list_elem_of_here _ _)) as (c&Eq&Hn).
  assert (forall q, q ∈ l -> exists c, q = p ++ [c] /\ fs_nodes s !! q <> None) as Hl
    by (intros; apply Hc; by apply list_elem_of_further).
  destruct (fs_nodes s !! q) as [n|] eqn:En; [|done]. clear Hn.
  destruct (stat_node s q n En) as (fi&Est&_&Efi&Edir). simpl. rewrite Est. simpl.
  destruct (Hs fi acc) as [H1 H2]. destruct (fn fi acc s) as [[e|] acc'] eqn:Ef; simpl in H1, H2.
  - case_decide as He; [|done]. subst e. destruct (H2 eq_refl) as [Hdir Hsk].
    rewrite Efi in Hsk. rewrite Hdir, Hsk. simpl. by apply IHl.
  - destruct (fi_IsDir fi) eqn:Hdir; simpl; [|by apply IHl].
    specialize (H1 eq_refl eq_refl). rewrite Efi in H1. rewrite H1. simpl.
    rewrite run_app, <-IH.
    + destruct (Local.Walk fuel q fn acc' s) as [[e|] acc'']; [done|]. by apply IHl.
    + congruence.
    + rewrite Eq. by apply depth_child.
Qed.

Lemma info_spec s p fi : info s p = Some fi <->
  fs_nodes s !! p <> None /\ Local.Stat p s = (Ok fi, s).
Proof.
  destruct (fs_nodes s !! p) as [n|] eqn:En.
  - destruct (stat_node s p n En) as (fi'&->&->&_). naive_solver.
  - unfold info, os_Stat, lookup_node. rewrite En. destruct (existsb _ _); naive_solver.
Qed.
Lemma info_fields s p fi : info s p = Some fi -> fi_Path fi = p /\ fi_IsDir fi = is_dir s p.
Proof.
  intros [Hn Hs]%info_spec. destruct (fs_nodes s !! p) as [n|] eqn:En; [|done].
  destruct (stat_node s p n En) as (fi'&Hs'&_&?&?). rewrite Hs in Hs'. by simplify_eq.
Qed.

(** The walk from [p] enters every directory on the way to [p ++ q]. *)
Definition open_to (skip : path -> bool) (s : fs) (p q : path) : Prop :=
  forall n, 0 < n < length q -> is_dir s (p ++ take n q) = true /\ skip (p ++ take n q) = false.

Lemma elem_of_tree skip s : forall fuel p fi, is_dir s p = true -> depth_ok s p fuel ->
  (fi ∈ tree fuel skip s p <->
   exists q, q <> [] /\ info s (p ++ q) = Some fi /\ open_to skip s p q).
Proof.
  induction fuel as [|fuel IH]; intros p fi Hp Hd.
  { specialize (Hd p Hp (under_self p)). lia. }
  simpl. destruct (list_dir s p Hp) as (cs&E&_&Hcs). rewrite E. simpl.
  rewrite list_elem_of_bind. setoid_rewrite (merge_sort_Permutation path_le cs).
  assert (forall x (l : list FileInfo), fi ∈ x :: l <-> fi = x \/ fi ∈ l) as Hcons by (intros; apply elem_of_cons).
  split.
  - intros (c0&Hfi&(c&->&Hn)%Hcs). destruct (fs_nodes s !! (p ++ [c])) as [n|] eqn:En; [|done].
    destruct (stat_node s _ n En) as (fi'&Est&Einfo&Efi&Edir). rewrite Est in Hfi. simpl in Hfi.
    apply Hcons in Hfi as [->|Hfi].
    { exists [c]. split; [done|]. split; [done|]. intros k Hk. simpl in Hk. lia. }
    destruct (fi_IsDir fi') eqn:Hdir; simpl in Hfi; [|by apply elem_of_nil in Hfi].
    destruct (skip _) eqn:Hsk; simpl in Hfi; [by apply elem_of_nil in Hfi|].
    apply IH in Hfi as (q&Hq&Hi&Ho); [|congruence|by apply depth_child].
    exists (c :: q). split; [done|]. rewrite <-app_assoc in Hi. split; [done|].
    intros [|[|k]] Hk; [lia|by simpl; rewrite take_0, <-Edir|].
    specialize (Ho (S k)). rewrite <-app_assoc in Ho. apply Ho. simpl in Hk. lia.
  - intros ([|c q]&Hq&Hi&Ho); [done|]. exists (p ++ [c]).
    assert (fs_nodes s !! (p ++ [c]) <> None) as Hn.
    { destruct q as [|c' q]; [by apply info_spec in Hi as [? _]|].
      specialize (Ho 1 ltac:(simpl; lia)) as [Hdir _]. unfold is_dir in Hdir. simpl in Hdir. by destruct (_ !! _). }
    split; [|apply Hcs; eauto]. destruct (fs_nodes s !! (p ++ [c])) as [n|] eqn:En; [|done].
    destruct (stat_node s _ n En) as (fi'&Est&Einfo&Efi&Edir). rewrite Est. simpl. apply Hcons.
    destruct q as [|c' q]; [left; congruence|]. right.
    destruct (Ho 1 ltac:(simpl; lia)) as [Hdir Hsk]. simpl in Hdir, Hsk. rewrite Edir, Hdir, Hsk. simpl.
    apply IH; [done|by apply depth_child|]. exists (c' :: q). split; [done|]. rewrite <-app_assoc.
    split; [done|]. intros k Hk. rewrite <-app_assoc. apply (Ho (S k)). simpl in *. lia.
Qed.

Lemma NoDup_tree skip s : forall fuel p, is_dir s p = true -> depth_ok s p fuel ->
  NoDup (tree fuel skip s p).
Proof.
  induction fuel as [|fuel IH]; intros p Hp Hd; [constructor|].
  simpl. destruct (list_dir s p Hp) as (cs&E&Hnd&Hcs). rewrite E. simpl.
  set (seg := fun c => _).
  assert (forall q fi, q ∈ merge_sort path_le cs -> fi ∈ seg q -> exists c r, q = p ++ [c] /\ fi_Path fi = p ++ c :: r) as Hseg.
  { intros q fi Hq Hfi. rewrite merge_sort_Permutation in Hq. apply Hcs in Hq as (c&->&Hn). exists c. unfold seg in Hfi.
    destruct (fs_nodes s !! (p ++ [c])) as [n|] eqn:En; [|done].
    destruct (stat_node s _ n En) as (fi'&Est&Einfo&Efi&Edir). rewrite Est in Hfi. simpl in Hfi.
    apply elem_of_cons in Hfi as [->|Hfi]; [by exists []|].
    destruct (fi_IsDir fi') eqn:Hdir; simpl in Hfi; [|by apply elem_of_nil in Hfi].
    destruct (skip _) eqn:Hsk; simpl in Hfi; [by apply elem_of_nil in Hfi|].
    apply elem_of_tree in Hfi as (r&_&Hi&_); [|congruence|by apply depth_child].
    apply info_fields in Hi as [-> _]. exists r. by rewrite <-app_assoc. }
  apply NoDup_bind.
  - intros q1 q2 fi H1 H2 (c1&r1&->&E1)%Hseg (c2&r2&->&E2)%Hseg; [|done..]. rewrite E1 in E2.
    apply app_inv_head in E2. by injection E2 as -> ->.
  - intros q Hq. pose proof Hq as Hq'. rewrite merge_sort_Permutation in Hq'.
    apply Hcs in Hq' as (c&->&Hn). unfold seg.
    destruct (fs_nodes s !! (p ++ [c])) as [n|] eqn:En; [|done].
    destruct (stat_node s _ n En) as (fi'&Est&Einfo&Efi&Edir). rewrite Est. simpl.
    destruct (fi_IsDir fi' && negb (skip (p ++ [c]))) eqn:Hb; [|apply NoDup_singleton].
    apply andb_prop in Hb as [Hdir _].
    apply NoDup_cons. split; [|apply IH; [congruence|by apply depth_child]].
    intros Hfi. apply elem_of_tree in Hfi as (r&Hr&Hi&_); [|congruence|by apply depth_child].
    apply info_fields in Hi as [Hi _]. rewrite Efi in Hi. apply (f_equal length) in Hi.
    rewrite !length_app in Hi. destruct r; [done|]. simpl in Hi. lia.
  - by rewrite merge_sort_Permutation.
Qed.

(** What the callback keeps, the walk keeps, whatever stops it. *)
Lemma walk_keeps {A} (P : A -> Prop) (fn : FileInfo -> A -> fs -> option err * A) s :
  (forall fi acc, P acc -> P (snd (fn fi acc s))) ->
  forall fuel p acc, P acc -> P (snd (Local.Walk fuel p fn acc s)).
Proof.
  intros Hf. induction fuel as [|fuel IH]; intros p acc Ha; [done|].
  simpl. destruct (fst (Local.List p s)) as [cs|e]; [|done].
  revert acc Ha. induction (merge_sort path_le cs) as [|c l IHl]; intros acc Ha; [done|]. simpl.
  destruct (fst (Local.Stat c s)) as [fi|e]; [|case_bool_decide; auto].
  pose proof (Hf fi acc Ha) as Ha'. destruct (fn fi acc s) as [[e|] acc']; simpl in Ha'.
  - case_decide; [|done]. destruct (fi_IsDir fi); [by apply IHl|done].
  - destruct (fi_IsDir fi); [|by apply IHl]. pose proof (IH c acc' Ha') as Hw.
    destruct (Local.Walk fuel c fn acc' s) as [[e|] acc'']; [done|by apply IHl].
Qed.

(** ** Names of entries *)

(** Below [p], no entry has a slash in its name or an empty name, as in any
    file system. *)
Definition clean (s : fs) (p : path) : Prop :=
  forall q, fs_nodes s !! (p ++ q) <> None -> Forall (fun c => no_char slash c = true /\ c <> "") q.

Lemma split_join l : l <> [] -> Forall (fun c => no_char slash c = true) l ->
  split_on slash (join_with slash l) = l.
Proof.
  intros Hne Hl. destruct Hl as [|c l Hc Hl]; [done|]. clear Hne. revert c Hc.
  induction Hl as [|d l Hd Hl IH]; intros c Hc; [by apply split_on_no_char|].
  change (join_with slash (c :: d :: l)) with (c ++ String slash (join_with slash (d :: l)))%string.
  by rewrite split_app_slash, IH.
Qed.

Lemma path_str_join q : q <> [] -> Forall (fun c => no_char slash c = true /\ c <> "") q ->
  path_str q = join_with slash q.
Proof.
  intros Hne Hq. destruct Hq as [|c q [_ Hc] Hq]; [done|].
  destruct c as [|a c], q as [|d q]; try done.
Qed.

Lemma split_path_str q : q <> [] -> Forall (fun c => no_char slash c = true /\ c <> "") q ->
  split_on slash (path_str q) = q.
Proof.
  intros Hne Hq. rewrite path_str_join by done. apply split_join; [done|].
  eapply Forall_impl; [exact Hq|]. by intros c [? _].
Qed.

(** ** Listing repositories *)
(** A directory that is entered and has a child is not the last entry. *)
Lemma last_bind {A B} (f : A -> list B) (l : list A) y : list.last (l ≫= f) = Some y ->
  exists x, x ∈ l /\ list.last (f x) = Some y.
Proof.
  induction l as [|x l IH]; [done|]. csimpl. rewrite last_app. destruct (list.last (l ≫= f)) as [z|].
  - intros [= ->]. destruct (IH eq_refl) as (x'&?&?). exists x'. split; [by right|done].
  - intros E. exists x. split; [by left|done].
Qed.
Lemma tree_child skip s fuel p c : is_dir s p = true -> fs_nodes s !! (p ++ [c]) <> None -> tree (S fuel) skip s p <> [].
Proof.
  intros Hd Hc. simpl. destruct (list_dir s p Hd) as (cs&->&_&Hcs). simpl.
  assert (p ++ [c] ∈ merge_sort path_le cs) as Hin by (rewrite merge_sort_Permutation; apply Hcs; by exists c).
  destruct (fs_nodes s !! (p ++ [c])) as [n|] eqn:En; [|done]. destruct (stat_node _ _ _ En) as (fi&Hfi&_).
  apply list_elem_of_split in Hin as (l1&l2&->). rewrite bind_app. csimpl. rewrite Hfi. simpl.
  intros E%(f_equal length). rewrite length_app in E. simpl in E. lia.
Qed.
Lemma tree_last skip s : forall fuel p fi, is_dir s p = true -> depth_ok s p fuel ->
  list.last (tree fuel skip s p) = Some fi -> fi_IsDir fi = true -> skip (fi_Path fi) = false ->
  forall c, fs_nodes s !! (fi_Path fi ++ [c]) = None.
Proof.
  induction fuel as [|fuel IH]; intros p fi Hd Hdep; [done|]. simpl.
  destruct (list_dir s p Hd) as (cs&->&_&Hcs). simpl. intros (q&Hq&Hl)%last_bind Hdir Hsk c.
  rewrite merge_sort_Permutation in Hq. apply Hcs in Hq as (c0&->&Hn).
  destruct (fs_nodes s !! (p ++ [c0])) as [n|] eqn:En; [|done]. destruct (stat_node _ _ _ En) as (fi0&Hst&_&Hp0&Hd0).
  rewrite Hst in Hl. simpl in Hl. apply depth_child with (c := c0) in Hdep.
  destruct (fi_IsDir fi0 && negb (skip (p ++ [c0]))) eqn:Eb.
  - apply andb_prop in Eb as [Ed _]. rewrite Hd0 in Ed.
    destruct (tree fuel skip s (p ++ [c0])) as [|fi1 l] eqn:Et.
    + injection Hl as <-. destruct (fs_nodes s !! (fi_Path fi0 ++ [c])) eqn:Ec; [|done]. exfalso.
      destruct fuel as [|fuel]; [specialize (Hdep _ Ed (under_self _)); lia|]. rewrite Hp0 in Ec.
      by apply (tree_child skip s fuel (p ++ [c0]) c) in Ed; [|by rewrite Ec].
    + rewrite last_cons_cons, <-Et in Hl. by eapply IH.
  - injection Hl as <-. rewrite Hdir, Hp0 in *. by rewrite Hsk in Eb.
Qed.

Section repositories.
Context {C : Type} `{Cache C} `{GoDigest} `{OciCodec} (cfg : config fs C).
Local Notation root := (cf_rootDir cfg).
Local Notation store := (store fs C).
Implicit Types s : store.

(** A storage root that can be walked. *)
Definition walkable_root (s : store) : Prop :=
  root <> [] /\ is_dir (st_drv s) root = true /\ clean (st_drv s) root /\
  depth_ok (st_drv s) root (cf_fuel cfg).

Definition rel_name (p : path) : option string := path_str <$> path_rel root p.

(** The directories the listings do not enter. *)
Definition left_out (p : path) : bool :=
  IS.skipped_dir p ||
  match rel_name p with Some rel => negb (match_string FullNameRegexp rel) | None => false end.

Definition valid_repo (s : store) (r : string) : bool := bool_decide (fst (IS.ValidateRepo cfg r s) = Ok true).

(** The repository an entry is, for the listings. *)
Definition repo_at (s : store) (fi : FileInfo) : option string :=
  if negb (fi_IsDir fi) || IS.skipped_dir (fi_Path fi) then None
  else match rel_name (fi_Path fi) with
       | Some rel => if valid_repo s rel then Some rel else None
       | None => None
       end.

Lemma validate_name r s e :
  fst (IS.ValidateRepo cfg r s) = e ->
  (e = Err ErrInvalidRepositoryName <-> match_string FullNameRegexp r = false).
Proof.
  intros <-. unfold IS.ValidateRepo. destruct (match_string FullNameRegexp r); simpl; [|done].
  unfold bind, try. destruct (IS.drv _ s) as [[files|] s']; [|by split].
  destruct (Nat.ltb _ 2); [by split|]. unfold get. repeat case_match; by split.
Qed.

Lemma at_drv_same s : IS.at_drv s (st_drv s) = s.
Proof. by destruct s. Qed.

(** The cases of the shared part of the callbacks. *)
Lemma walked_repo_cases s fi :
  match IS.walked_repo cfg s fi (st_drv s) (fun _ => false) with
  | inl None => repo_at s fi = None /\ (fi_IsDir fi = true -> left_out (fi_Path fi) = false)
  | inl (Some e) => e = ErrSkipDir /\ repo_at s fi = None /\ fi_IsDir fi = true /\ left_out (fi_Path fi) = true
  | inr rel => repo_at s fi = Some rel /\ (fi_IsDir fi = true -> left_out (fi_Path fi) = false)
  end.
Proof.
  unfold IS.walked_repo, repo_at, left_out, rel_name. rewrite at_drv_same.
  destruct (fi_IsDir fi); simpl; [|done]. destruct (IS.skipped_dir _); simpl; [done|].
  destruct (path_rel _ _) as [rel|]; simpl; [|done].
  pose proof (validate_name (path_str rel) s _ eq_refl) as Hn. unfold valid_repo.
  destruct (fst (IS.ValidateRepo cfg (path_str rel) s)) as [[|]|e].
  - rewrite bool_decide_eq_true_2 by done. split; [done|]. intros _.
    apply negb_false_iff, not_false_iff_true. by intros ?%Hn.
  - rewrite bool_decide_eq_false_2 by done. split; [done|]. intros _.
    apply negb_false_iff, not_false_iff_true. by intros ?%Hn.
  - rewrite bool_decide_eq_false_2 by done. case_decide as He.
    + subst. repeat split. apply negb_true_iff. by apply Hn.
    + split; [done|]. intros _. apply negb_false_iff, not_false_iff_true. intros [= ->]%Hn. done.
Qed.

Definition entries (s : store) : list FileInfo := tree (cf_fuel cfg) left_out (st_drv s) root.

(** The repositories in the order of the walk. *)
Definition repos_in_order (s : store) : list string := omap (repo_at s) (entries s).

Lemma GetRepositories_run s : walkable_root s ->
  IS.GetRepositories cfg s = (Ok (repos_in_order s), s).
Proof.
  intros (_&Hdir&_&Hdepth). unfold IS.GetRepositories, IS.walk_root. simpl.
  rewrite (walk_run left_out); [|intros fi acc; pose proof (walked_repo_cases s fi) as Hc|done..].
  - fold (entries s). unfold repos_in_order.
    assert (forall l acc, run (fun fi stores d =>
      match IS.walked_repo cfg s fi d (fun _ => false) with
      | inl e => (e, stores) | inr rel => (None, stores ++ [rel]) end) (st_drv s) l acc =
      (None, acc ++ omap (repo_at s) l)) as ->; [|done].
    induction l as [|fi l IH]; intros acc; simpl; [by rewrite app_nil_r|].
    pose proof (walked_repo_cases s fi) as Hc.
    destruct (IS.walked_repo _ _ _ _ _) as [[e|]|rel].
    + destruct Hc as (->&->&_). by rewrite decide_True.
    + destruct Hc as [-> _]. apply IH.
    + destruct Hc as [-> _]. rewrite IH, <-app_assoc. done.
  - destruct (IS.walked_repo _ _ _ _ _) as [[e|]|rel]; simpl; naive_solver.
Qed.

Lemma repo_at_some s q fi r : walkable_root s -> q <> [] -> info (st_drv s) (root ++ q) = Some fi ->
  (repo_at s fi = Some r <->
   q = split_on slash r /\ is_dir (st_drv s) (root ++ q) = true /\
   IS.skipped_dir (root ++ q) = false /\ fst (IS.ValidateRepo cfg r s) = Ok true).
Proof.
  intros (Hroot&_&Hclean&_) Hq Hi. pose proof (info_fields _ _ _ Hi) as [Hp Hdir].
  apply info_spec in Hi as [Hn _]. specialize (Hclean q Hn).
  unfold repo_at, rel_name, valid_repo. rewrite Hp, Hdir, path_rel_under by done. simpl.
  destruct (is_dir _ _); simpl; [|split; [done|naive_solver]].
  destruct (IS.skipped_dir _); simpl; [split; [done|naive_solver]|]. split.
  - case_bool_decide as Hv; [|done]. intros [= <-]. by rewrite split_path_str.
  - intros (->&_&_&Hv). pose proof (split_path_str _ Hq Hclean) as Es. apply split_on_inj in Es.
    rewrite Es, bool_decide_eq_true_2; done.
Qed.

(** The directories from the root down to a repository are entered and kept. *)
Definition reachable_repo (s : store) (r : string) : Prop :=
  forall n, 0 < n <= length (split_on slash r) ->
    is_dir (st_drv s) (root ++ take n (split_on slash r)) = true /\
    IS.skipped_dir (root ++ take n (split_on slash r)) = false.

Lemma left_out_prefix r n : root <> [] -> match_string FullNameRegexp r = true -> 0 < n ->
  left_out (root ++ take n (split_on slash r)) = IS.skipped_dir (root ++ take n (split_on slash r)).
Proof.
  intros Hroot Hr Hn. unfold left_out, rel_name. rewrite path_rel_under by done. simpl.
  rewrite match_string_spec in Hr. pose proof (name_prefix r n Hr Hn) as Hm.
  rewrite path_str_join.
  - apply match_string_spec in Hm. unfold FullNameRegexp. rewrite Hm. apply orb_false_r.
  - destruct n; [lia|]. pose proof (split_on_nonempty slash r). by destruct (split_on slash r).
  - apply Forall_take. eapply Forall_impl; [by apply name_components|].
    intros c Hc%component_plain. by destruct Hc as [(?&?&?) ?].
Qed.

Lemma elem_of_repos s r : walkable_root s ->
  (r ∈ repos_in_order s <-> fst (IS.ValidateRepo cfg r s) = Ok true /\ reachable_repo s r).
Proof.
  intros Hw. pose proof Hw as (Hroot&Hdir&Hclean&Hdepth).
  unfold repos_in_order. rewrite list_elem_of_omap.
  assert (fst (IS.ValidateRepo cfg r s) = Ok true -> match_string FullNameRegexp r = true) as Hname.
  { intros Hv. apply not_false_iff_true. intros Hf. by apply (validate_name _ _ _ Hv) in Hf. }
  split.
  - intros (fi&(q&Hq&Hi&Ho)%elem_of_tree&Hr); [|done..].
    apply (repo_at_some s q fi r Hw Hq Hi) in Hr as (->&Hd&Hs&Hv). split; [done|]. intros n Hn.
    destruct (decide (n = length (split_on slash r))) as [->|]; [by rewrite firstn_all|].
    destruct (Ho n ltac:(lia)) as [Hd' Hl]. split; [done|]. by rewrite left_out_prefix in Hl by (auto; lia).
  - intros [Hv Hre]. assert (split_on slash r <> []) as Hne by apply split_on_nonempty.
    assert (0 < length (split_on slash r)) as Hlen by (destruct (split_on slash r); simpl; [done|lia]).
    destruct (Hre (length (split_on slash r)) ltac:(lia)) as [Hd Hs]. rewrite firstn_all in Hd, Hs.
    destruct (fs_nodes (st_drv s) !! (root ++ split_on slash r)) as [n|] eqn:En;
      [|by unfold is_dir in Hd; rewrite En in Hd].
    destruct (stat_node _ _ _ En) as (fi&_&Hi&_). exists fi. split.
    + apply elem_of_tree; [done..|]. exists (split_on slash r). split; [done|]. split; [done|].
      intros k Hk. destruct (Hre k ltac:(lia)) as [Hd' Hs']. split; [done|].
      rewrite left_out_prefix by (auto; lia). done.
    + by apply (repo_at_some s (split_on slash r)).
Qed.

Lemma NoDup_repos s : walkable_root s -> NoDup (repos_in_order s).
Proof.
  intros Hw. pose proof Hw as (Hroot&Hdir&Hclean&Hdepth).
  apply NoDup_omap_inj; [|by apply NoDup_tree].
  intros fi1 fi2 r (q1&Hq1&Hi1&_)%elem_of_tree (q2&Hq2&Hi2&_)%elem_of_tree E1 E2; [|done..].
  apply (repo_at_some s q1) in E1 as (->&_); [|done..].
  apply (repo_at_some s q2) in E2 as (->&_); [|done..]. congruence.
Qed.

(** Whatever the storage holds, the names listed are names of repositories. *)
Lemma listed_names s l s' : IS.GetRepositories cfg s = (Ok l, s') -> Forall repo_ok l.
Proof.
  unfold IS.GetRepositories, IS.walk_root. intros Hm. simpl in Hm.
  match type of Hm with context [Local.Walk ?f ?p ?fn ?a ?t] =>
    assert (Forall repo_ok (snd (Local.Walk f p fn a t))) as Hl end.
  { apply walk_keeps; [|constructor]. intros fi acc Ha. pose proof (walked_repo_cases s fi) as Hc.
    destruct (IS.walked_repo _ _ _ _ _) as [[e|]|r]; [done..|]. apply Forall_app. split; [done|].
    constructor; [|done]. destruct Hc as [Hr _]. unfold repo_at in Hr.
    destruct (_ || _); [done|]. destruct (rel_name _) as [rel|]; [|done]. unfold valid_repo in Hr.
    case_bool_decide as Hv; [|done]. injection Hr as ->. apply not_false_iff_true. intros Hf.
    by apply (validate_name _ _ _ Hv) in Hf. }
  destruct (Local.Walk _ _ _ _ _) as [[e|] l0]; simpl in Hl.
  - destruct (IS.not_found e); [|done]. by injection Hm as <- _.
  - by injection Hm as <- _.
Qed.

(** ** Pages *)

(** What follows [last] in a listing; everything for the empty string. *)
Fixpoint after (last : string) (l : list string) : list string :=
  match l with
  | [] => []
  | r :: l => if decide (r = last) then l else after last l
  end.
Definition following (last : string) (l : list string) : list string :=
  if decide (last = "") then l else after last l.

Lemma after_lookup l i r : NoDup l -> l !! i = Some r -> after r l = drop (S i) l.
Proof.
  intros Hl. revert i. induction l as [|x l IH]; intros i Hi; [done|]. apply NoDup_cons in Hl as [Hx Hl].
  destruct i as [|i]; simpl in *; [injection Hi as ->; by rewrite decide_True|].
  rewrite decide_False by (intros ->; apply Hx; by eapply list_elem_of_lookup_2). by apply IH.
Qed.

Lemma length_following last l : (length (following last l) <= length l)%nat.
Proof.
  unfold following. destruct (decide _); [done|]. induction l as [|r l IH]; simpl; [done|].
  destruct (decide _); simpl; lia.
Qed.
Lemma length_omap {A B} (f : A -> option B) l : (length (omap f l) <= length l)%nat.
Proof. induction l as [|x l IH]; csimpl; [done|]. destruct (f x); simpl; lia. Qed.

Lemma repos_nonempty s r : r ∈ repos_in_order s -> r <> "".
Proof.
  unfold repos_in_order. intros (fi&_&Hr)%list_elem_of_omap ->. revert Hr. unfold repo_at.
  destruct (_ || _); [done|]. destruct (rel_name _) as [rel|]; [|done]. unfold valid_repo.
  case_bool_decide as Hv; [|done]. intros [= ->]. by vm_compute in Hv.
Qed.

(** What a page still has to list of [rs]. *)
Definition todo (last : string) (f : string -> bool) (pg : IS.page) (rs : list string) : list string :=
  filter (fun r => f r = true) (if IS.pg_found pg then rs else following last rs).

Lemma todo_nil last f pg : todo last f pg [] = [].
Proof. unfold todo, following. destruct (IS.pg_found pg); [done|]. by case_decide. Qed.

(** What is left after the repository [r] came up. *)
Lemma todo_cons last f pg r rs : r <> "" -> (IS.pg_found pg = true -> last <> r) ->
  todo last f pg (r :: rs) =
    if decide (last = r) then filter (fun r => f r = true) rs
    else if IS.pg_found pg || bool_decide (last = "")
         then (if f r then [r] else []) ++ filter (fun r => f r = true) rs
         else todo last f pg rs.
Proof.
  intros Hr Hf. unfold todo, following. destruct (decide (last = r)) as [Hl|Hl].
  - subst. destruct (IS.pg_found pg) eqn:E; [by destruct (Hf eq_refl)|]. rewrite decide_False by done. simpl.
    by rewrite decide_True.
  - destruct (IS.pg_found pg); simpl.
    + rewrite filter_cons. destruct (f r); [by rewrite decide_True|by rewrite decide_False].
    + rewrite (decide_False (P := r = last)) by done. destruct (decide (last = "")) as [He|He];
        [rewrite bool_decide_eq_true_2 by done|by rewrite bool_decide_eq_false_2].
      rewrite filter_cons. destruct (f r); [by rewrite decide_True|by rewrite decide_False].
Qed.
Lemma todo_found last f pg rs : IS.pg_found pg = true -> todo last f pg rs = filter (fun r => f r = true) rs.
Proof. unfold todo. by intros ->. Qed.

(** The run of the page callback over the entries [l] still to come; a
    repository is never the last entry, so a full page is always noticed. *)
Lemma page_run s last max f l : forall pg,
  let rs := omap (repo_at s) l in
  (forall fi, list.last l = Some fi -> repo_at s fi = None) ->
  NoDup rs -> "" ∉ rs -> (IS.pg_found pg = true -> last ∉ rs) ->
  IS.pg_more pg = false -> (IS.pg_entries pg <= max)%Z ->
  exists e pg', run (IS.next_page_step cfg s last max (fun r => Ok (f r))) (st_drv s) l pg = (e, pg') /\
    IS.pg_stores pg' = IS.pg_stores pg ++ take (Z.to_nat (max - IS.pg_entries pg)) (todo last f pg rs) /\
    (e = None /\ IS.pg_more pg' = false /\
       (l <> [] -> Z.of_nat (length (todo last f pg rs)) < max - IS.pg_entries pg)%Z \/
     e = Some (Local.formatErr ErrEOF) /\ IS.pg_more pg' = true /\
       (max - IS.pg_entries pg <= Z.of_nat (length (todo last f pg rs)))%Z).
Proof.
  induction l as [|fi l IH]; intros pg rs Hlast Hnd Hne Hfo Hmo Hen.
  { exists None, pg. subst rs. simpl. rewrite todo_nil, take_nil, app_nil_r. repeat split. by left. }
  assert (forall fi', list.last l = Some fi' -> repo_at s fi' = None) as Hlast'.
  { intros fi' Hl. apply Hlast. by rewrite last_cons, Hl. }
  assert (l = [] -> repo_at s fi = None) as Hfi by (intros ->; by apply Hlast).
  destruct pg as [st mo en fo]. simpl in Hfo, Hmo, Hen. subst rs mo.
  simpl. unfold IS.next_page_step at 1. simpl. destruct (en =? max)%Z eqn:Eq; simpl.
  { eexists _, _. split; [done|]. simpl. apply Z.eqb_eq in Eq. rewrite Eq, Z.sub_diag, take_0, app_nil_r.
    split; [done|right]. split_and!; [done..|lia]. }
  apply Z.eqb_neq in Eq. pose proof (walked_repo_cases s fi) as Hc. simpl in Hnd, Hne, Hfo |- *.
  (* an entry that is not taken leaves the rest to do *)
  assert (forall pg' e pg1, IS.pg_entries pg' = en ->
    (e = None /\ IS.pg_more pg1 = false /\
       (l <> [] -> Z.of_nat (length (todo last f pg' (omap (repo_at s) l))) < max - IS.pg_entries pg')%Z \/
     e = Some (Local.formatErr ErrEOF) /\ IS.pg_more pg1 = true /\
       (max - IS.pg_entries pg' <= Z.of_nat (length (todo last f pg' (omap (repo_at s) l))))%Z) ->
    (e = None /\ IS.pg_more pg1 = false /\
       (fi :: l <> [] -> Z.of_nat (length (todo last f pg' (omap (repo_at s) l))) < max - en)%Z \/
     e = Some (Local.formatErr ErrEOF) /\ IS.pg_more pg1 = true /\
       (max - en <= Z.of_nat (length (todo last f pg' (omap (repo_at s) l))))%Z)) as Hskip.
  { intros pg' e pg1 -> [(?&?&Hl)|?]; [left|by right]. split_and!; [done..|]. intros _.
    destruct l; [simpl; rewrite todo_nil; simpl; lia|by apply Hl]. }
  destruct (IS.walked_repo _ _ _ _ _) as [[e|]|r].
  - destruct Hc as (->&Hr&_). rewrite Hr in *. rewrite decide_True by done.
    destruct (IH (IS.mkPage st false en fo)) as (e&pg'&->&Hst&He); [done..|]. exists e, pg'. split_and!; [done..|by apply Hskip].
  - destruct Hc as [Hr _]. rewrite Hr in *.
    destruct (IH (IS.mkPage st false en fo)) as (e&pg'&->&Hst&He); [done..|]. exists e, pg'. split_and!; [done..|by apply Hskip].
  - destruct Hc as [Hr _]. rewrite Hr in *. change (list_omap _ _ (repo_at s) l) with (omap (repo_at s) l) in *.
    apply NoDup_cons in Hnd as [Hr' Hnd]. apply not_elem_of_cons in Hne as [Hr0 Hne].
    assert (fo = true -> last <> r /\ last ∉ omap (repo_at s) l) as Hfo' by (intros; by apply not_elem_of_cons, Hfo).
    rewrite todo_cons by (simpl; naive_solver). case_decide as Hlst; simpl.
    { subst r. destruct (IH (IS.mkPage st false en true)) as (e&pg'&->&Hp&He); [done..|].
      apply Hskip in He; [|done]. rewrite todo_found in Hp, He by done. by exists e, pg'. }
    destruct (fo || bool_decide (last = "")) eqn:Ef; simpl.
    + assert (last ∉ omap (repo_at s) l) as Hl.
      { apply orb_prop in Ef as [->|Hl%bool_decide_eq_true]; [by apply Hfo'|by subst]. }
      destruct (f r).
      * destruct (IH (IS.mkPage (st ++ [r]) false (en + 1)%Z true)) as (e&pg'&Hrun&Hst&He); [done..|simpl; lia|].
        exists e, pg'. split; [done|]. rewrite Hst. rewrite todo_found in * by done. simpl in *.
        replace (Z.to_nat (max - en)) with (S (Z.to_nat (max - (en + 1)))) by lia. simpl.
        rewrite <-app_assoc. split; [done|]. destruct He as [(?&?&Hlt)|(?&?&?)]; [left|right]; split_and!; try done; [|lia].
        intros _. destruct l; [by discriminate Hfi|]. specialize (Hlt ltac:(done)). lia.
      * destruct (IH (IS.mkPage st false en true)) as (e&pg'&->&Hp&He); [done..|].
        apply Hskip in He; [|done]. rewrite todo_found in Hp, He by done. by exists e, pg'.
    + apply orb_false_iff in Ef as [-> _].
      destruct (IH (IS.mkPage st false en false)) as (e&pg'&Hrun&Hp&He); [done..|].
      apply Hskip in He; [|done]. exists e, pg'. by destruct (f r).
Qed.

Lemma page_skips s last max f : skips left_out (st_drv s) (IS.next_page_step cfg s last max (fun r => Ok (f r))).
Proof.
  intros fi pg. pose proof (walked_repo_cases s fi) as Hc. unfold IS.next_page_step.
  destruct (_ =? _)%Z; [by split|]. destruct (IS.walked_repo _ _ _ _ _) as [[e|]|r]; simpl.
  - naive_solver.
  - split; [naive_solver|done].
  - destruct Hc as [_ Hc]. repeat case_match; simpl; by split; [auto|].
Qed.

(** A repository has at least two entries, so it is not the last one. *)
Lemma last_not_repo s fi : walkable_root s -> list.last (entries s) = Some fi -> repo_at s fi = None.
Proof.
  intros Hw Hl. pose proof Hw as (Hroot&Hdir&Hclean&Hdepth). destruct (repo_at s fi) as [r|] eqn:Er; [|done]. exfalso.
  assert (fi ∈ entries s) as Hin by by eapply last_Some_elem_of.
  apply elem_of_tree in Hin as (q&Hq&Hi&_); [|done..]. pose proof (info_fields _ _ _ Hi) as [Hp Hd].
  pose proof Er as Er'. apply (repo_at_some s q) in Er' as (Eq&Hdq&Hsk&Hv); [|done..].
  assert (left_out (fi_Path fi) = false) as Hlo.
  { rewrite Hp, Eq. destruct (match_string FullNameRegexp r) eqn:Em; [|apply (validate_name _ _ _ Hv) in Em; done].
    rewrite <-(firstn_all (split_on slash r)), left_out_prefix; [|done..|].
    - by rewrite firstn_all, <-Eq.
    - pose proof (split_on_nonempty slash r). by destruct (split_on slash r); simpl; [|lia]. }
  pose proof (tree_last left_out _ _ _ _ Hdir Hdepth Hl) as Hno. rewrite Hd, Hp in Hno. specialize (Hno Hdq).
  rewrite Hp in Hlo. specialize (Hno Hlo).
  unfold IS.ValidateRepo in Hv. destruct (match_string FullNameRegexp r) eqn:Em; [|done]. simpl in Hv.
  rewrite (repo_join _ _ Em), <-Eq in Hv. unfold bind, try, IS.drv in Hv. simpl in Hv.
  destruct (list_dir _ _ Hdq) as (cs&Ecs&_&Hcs). rewrite Ecs in Hv. simpl in Hv.
  destruct cs as [|c cs]; [done|]. destruct (proj1 (Hcs c)) as (x&->&Hx); [by left|]. by rewrite Hno in Hx.
Qed.

(** A negative maximum is no maximum. *)
Lemma run_no_max s last max n f l : forall pg, (max < 0)%Z -> (0 <= IS.pg_entries pg)%Z ->
  (IS.pg_entries pg + Z.of_nat (length l) < n)%Z ->
  run (IS.next_page_step cfg s last max (fun r => Ok (f r))) (st_drv s) l pg =
  run (IS.next_page_step cfg s last n (fun r => Ok (f r))) (st_drv s) l pg.
Proof.
  induction l as [|fi l IH]; intros [st mo en fo] Hm He Hn; [done|]. simpl in *.
  assert (forall m, en <> m -> IS.next_page_step cfg s last m (fun r => Ok (f r)) fi (IS.mkPage st mo en fo) (st_drv s) =
    IS.next_page_step cfg s last (en + 1) (fun r => Ok (f r)) fi (IS.mkPage st mo en fo) (st_drv s)) as Hstep.
  { intros m Hne. unfold IS.next_page_step. simpl. destruct (Z.eqb_spec en m); [lia|]. by destruct (Z.eqb_spec en (en + 1)); [lia|]. }
  assert (forall m, let en' := IS.pg_entries (snd (IS.next_page_step cfg s last m (fun r => Ok (f r)) fi (IS.mkPage st mo en fo) (st_drv s))) in
    (en <= en' <= en + 1)%Z) as Hen.
  { intros m. unfold IS.next_page_step. simpl. repeat (case_match; simpl; try lia). }
  specialize (Hen (en + 1)%Z). rewrite (Hstep max), (Hstep n) by lia.
  destruct (IS.next_page_step _ _ _ _ _ _ _ _) as [[e|] pg]; simpl in Hen; [|apply IH; lia].
  destruct (decide (e = ErrSkipDir)); [apply IH; lia|done].
Qed.

Lemma GetNextRepositories_page s last max f : walkable_root s -> (0 < max)%Z ->
  let rest := filter (fun r => f r = true) (following last (repos_in_order s)) in
  IS.GetNextRepositories cfg last max (fun r => Ok (f r)) s =
    (Ok (take (Z.to_nat max) rest, bool_decide (max <= Z.of_nat (length rest))%Z), s).
Proof.
  intros Hw Hmax rest. pose proof Hw as (_&Hdir&_&Hdepth).
  unfold IS.GetNextRepositories, IS.walk_root. simpl.
  rewrite (walk_run left_out) by auto using page_skips.
  destruct (page_run s last max f (entries s) (IS.mkPage [] false 0 false)) as (e&pg&Hrun&Hst&He);
    [intros fi Hl; by apply last_not_repo|by apply NoDup_repos|by intros []%repos_nonempty|done|done|simpl; lia|].
  unfold entries in Hrun. rewrite Hrun. fold (repos_in_order s) in *.
  unfold todo in *. simpl in *. rewrite Z.sub_0_r in *. rewrite Hst. fold rest in He |- *.
  destruct He as [(->&->&Hlen)|(->&->&Hlen)]; simpl.
  - rewrite bool_decide_eq_false_2; [done|]. destruct (entries s) eqn:En; [|specialize (Hlen ltac:(done)); lia].
    assert (rest = []) as ->; [|simpl; lia]. subst rest. unfold repos_in_order, following. rewrite En. by destruct (decide _).
  - by rewrite bool_decide_eq_true_2.
Qed.
Lemma GetNextRepositories_all s last max f : walkable_root s -> (max < 0)%Z ->
  IS.GetNextRepositories cfg last max (fun r => Ok (f r)) s =
    (Ok (filter (fun r => f r = true) (following last (repos_in_order s)), false), s).
Proof.
  intros Hw Hmax. pose proof Hw as (_&Hdir&_&Hdepth).
  unfold IS.GetNextRepositories, IS.walk_root. simpl.
  rewrite (walk_run left_out) by auto using page_skips.
  pose proof (run_no_max s last max (Z.of_nat (length (entries s)) + 1) f (entries s) (IS.mkPage [] false 0 false)) as Hr.
  destruct (page_run s last (Z.of_nat (length (entries s)) + 1) f (entries s) (IS.mkPage [] false 0 false)) as (e&pg&Hrun&Hst&He);
    [intros fi Hl; by apply last_not_repo|by apply NoDup_repos|by intros []%repos_nonempty|done|done|simpl; lia|].
  fold (entries s). rewrite Hr, Hrun by (simpl; lia). fold (repos_in_order s) in *.
  unfold todo in *. simpl in *. rewrite Z.sub_0_r in *. rewrite Hst.
  set (rest := filter _ _) in *.
  assert (length rest <= length (entries s))%nat as Hlen.
  { subst rest. etrans; [apply length_filter|]. etrans; [apply length_following|apply length_omap]. }
  destruct He as [(->&->&_)|(_&_&Hge)]; [|lia]. simpl. by rewrite take_ge by lia.
Qed.

(** ** One repository at a time *)
Lemma GetNextRepository_first s (processed : gset string) : walkable_root s ->
  (forall r, r ∈ processed -> r ∈ repos_in_order s) ->
  IS.GetNextRepository cfg processed s =
    (Ok (default "" (head (filter (fun r => r ∉ processed) (repos_in_order s)))), s).
Proof.
  intros Hw Hpr. pose proof Hw as (_&Hdir&_&Hdepth).
  assert (forall r, r ∈ processed -> match_string FullNameRegexp r = true) as Hname.
  { intros r [Hv _]%Hpr%elem_of_repos; [|done]. apply not_false_iff_true. intros Hf.
    by apply (validate_name _ _ _ Hv) in Hf. }
  assert (forall fi,
    match IS.walked_repo cfg s fi (st_drv s) (fun rel => bool_decide (rel ∈ processed)) with
    | inl None => (forall r, repo_at s fi = Some r -> r ∈ processed) /\
                  (fi_IsDir fi = true -> left_out (fi_Path fi) = false)
    | inl (Some e) => e = ErrSkipDir /\ repo_at s fi = None /\ fi_IsDir fi = true /\ left_out (fi_Path fi) = true
    | inr rel => repo_at s fi = Some rel /\ rel ∉ processed /\ (fi_IsDir fi = true -> left_out (fi_Path fi) = false)
    end) as Hc.
  { intros fi. pose proof (walked_repo_cases s fi) as Hc. unfold IS.walked_repo in *.
    unfold left_out, rel_name, repo_at in *.
    destruct (negb (fi_IsDir fi)) eqn:Hd; [naive_solver|]. destruct (IS.skipped_dir _); [done|].
    unfold rel_name in *. destruct (path_rel _ _) as [rel|]; [|naive_solver]. simpl in *.
    case_bool_decide as Hin.
    - rewrite (Hname _ Hin). split; [|done]. intros r. destruct (valid_repo _ _); [by intros [= <-]|done].
    - destruct (fst (IS.ValidateRepo _ _ _)) as [[]|]; [| |case_decide; [done|]];
        destruct Hc as [Hc1 Hc2]; repeat split; auto; congruence. }
  unfold IS.GetNextRepository. simpl. destruct (list_dir _ _ Hdir) as (cs&->&_). simpl.
  unfold IS.walk_root. simpl. rewrite (walk_run left_out); [| |done..].
  2:{ intros fi next. specialize (Hc fi). destruct (IS.walked_repo _ _ _ _ _) as [[e|]|r]; naive_solver. }
  fold (entries s). unfold repos_in_order. induction (entries s) as [|fi l IH]; [done|]. simpl.
  specialize (Hc fi). destruct (IS.walked_repo _ _ _ _ _) as [[e|]|r].
  - destruct Hc as (->&->&_). by rewrite decide_True.
  - destruct Hc as [Hr _]. destruct (repo_at s fi) as [r|]; [|done].
    rewrite filter_cons, decide_False by naive_solver. done.
  - destruct Hc as (->&Hr&_). rewrite filter_cons, (decide_True (P := r ∉ processed)) by done. done.
Qed.

(** The same, decided. *)
Definition walkableb (s : store) : bool :=
  negb (bool_decide (root = [])) && is_dir (st_drv s) root &&
  forallb (fun kv =>
    negb (under root (fst kv)) ||
    forallb (fun c => no_char slash c && negb (bool_decide (c = ""))) (drop (length root) (fst kv)) &&
    bool_decide (length (fst kv) < length root + cf_fuel cfg)) (map_to_list (fs_nodes (st_drv s))).

Lemma walkableb_spec s : walkableb s = true -> walkable_root s.
Proof.
  intros [[Hr%negb_true_iff%bool_decide_eq_false Hd]%andb_prop Hf]%andb_prop.
  rewrite forallb_forall in Hf. split; [done|]. split; [done|].
  assert (forall p n, fs_nodes (st_drv s) !! p = Some n -> under root p = true ->
    Forall (fun c => no_char slash c = true /\ c <> "") (drop (length root) p) /\
    length p < length root + cf_fuel cfg) as Hall.
  { intros p n Hp Hu. specialize (Hf (p, n)). simpl in Hf. rewrite Hu in Hf. simpl in Hf.
    destruct (andb_prop _ _ (Hf ltac:(apply list_elem_of_In; by apply elem_of_map_to_list))) as [H1' H2'].
    apply bool_decide_eq_true in H2'. split; [|done]. apply Forall_forall. intros c Hc.
    rewrite forallb_forall in H1'. apply list_elem_of_In, H1', andb_prop in Hc as [? ?%negb_true_iff%bool_decide_eq_false].
    done. }
  split.
  - intros q Hq. destruct (fs_nodes _ !! _) as [n|] eqn:En; [|done].
    destruct (Hall _ _ En (under_app _ _)) as [Hc _]. by rewrite drop_app_length in Hc.
  - intros q Hq Hu. unfold is_dir in Hq. destruct (fs_nodes _ !! q) as [n|] eqn:En; [|done]. by eapply Hall.
Qed.
End repositories.

(** ** Properties *)

(** C30 GetRepositories terminates and lists, without repetition, exactly the
    repositories whose directories, from the root down, exist and are not left
    out by their suffix, and that ValidateRepo accepts. *)
Theorem repositories_listed {C} `{Cache C} `{GoDigest} `{OciCodec} (cfg : config fs C) (s : store fs C) :
  walkable_root cfg s ->
  exists l, IS.GetRepositories cfg s = (Ok l, s) /\ NoDup l /\
    forall r, r ∈ l <-> fst (IS.ValidateRepo cfg r s) = Ok true /\ reachable_repo cfg s r.
Proof.
  intros Hw. exists (repos_in_order cfg s). split; [by apply GetRepositories_run|].
  split; [by apply NoDup_repos|]. intros r. by apply elem_of_repos.
Qed.

(** A page of GetNextRepositories is the first [max] of the accepted
    repositories that follow [last] in the full listing, and more is announced
    exactly when the page is full; without a maximum it is all of them; after
    the page that ends with the [i]-th repository the next one starts at the
    following repository, so that pages neither skip nor repeat. *)
Theorem pages_follow_listing {C} `{Cache C} `{GoDigest} `{OciCodec} (cfg : config fs C) (s : store fs C)
    (max : Z) (f : string -> bool) :
  walkable_root cfg s -> max <> 0%Z ->
  exists l, IS.GetRepositories cfg s = (Ok l, s) /\
    (forall last, let rest := filter (fun r => f r = true) (following last l) in
      IS.GetNextRepositories cfg last max (fun r => Ok (f r)) s =
        (Ok (if (max <? 0)%Z then (rest, false)
             else (take (Z.to_nat max) rest, bool_decide (max <= Z.of_nat (length rest))%Z)), s)) /\
    following "" l = l /\
    (forall i r, l !! i = Some r -> following r l = drop (S i) l).
Proof.
  intros Hw Hmax. exists (repos_in_order cfg s). split; [by apply GetRepositories_run|]. split.
  { intros last rest. destruct (Z.ltb_spec max 0); [by apply GetNextRepositories_all|apply GetNextRepositories_page; [done|lia]]. }
  split; [done|]. intros i r Hi. unfold following. rewrite decide_False.
  - apply after_lookup; [by apply NoDup_repos|done].
  - eapply repos_nonempty, list_elem_of_lookup_2. exact Hi.
Qed.

(** GetNextRepository, given listed repositories already processed, returns
    the first listed one that is not among them, and the empty string when all
    are: processing its answers one after the other goes through the listing. *)
Theorem next_repository_in_order {C} `{Cache C} `{GoDigest} `{OciCodec} (cfg : config fs C) (s : store fs C)
    (processed : gset string) :
  walkable_root cfg s ->
  exists l, IS.GetRepositories cfg s = (Ok l, s) /\
    ((forall r, r ∈ processed -> r ∈ l) ->
     IS.GetNextRepository cfg processed s =
       (Ok (default "" (head (filter (fun r => r ∉ processed) l))), s)).
Proof.
  intros Hw. exists (repos_in_order cfg s). split; [by apply GetRepositories_run|].
  intros Hp. by apply GetNextRepository_first.
Qed.

(** A repository whose name, or an enclosing part of it, ends in "blobs",
    ".sync" or ".uploads" is never listed, although such names are accepted
    and can be pushed to. *)
Theorem suffix_hides_repository {C} `{Cache C} `{GoDigest} `{OciCodec} (cfg : config fs C) (s : store fs C)
    (r : string) (n : nat) (suffix : string) :
  walkable_root cfg s -> suffix ∈ [SyncBlobUploadDir; ImageBlobsDir; BlobUploadDir] ->
  0 < n <= length (split_on slash r) ->
  has_suffix (path_str (cf_rootDir cfg ++ take n (split_on slash r))) suffix = true ->
  forall l, IS.GetRepositories cfg s = (Ok l, s) -> r ∉ l.
Proof.
  intros Hw Hin Hn Hs l Hl. rewrite GetRepositories_run in Hl by done. injection Hl as <-.
  rewrite elem_of_repos by done. intros [_ Hre]. destruct (Hre n Hn) as [_ Hsk]. revert Hsk.
  unfold IS.skipped_dir. apply elem_of_cons in Hin as [<-|[<-|[<-|[]%elem_of_nil]%elem_of_cons]%elem_of_cons];
    rewrite Hs; by rewrite ?orb_true_r.
Qed.

(** ** Witnesses: the two repositories of [pushes], then one named "myblobs". *)
Local Notation pushed := (serve_all (zot_cfg true) pushes zot_new).

Lemma pushed_walkable : walkable_root (zot_cfg true) pushed.
Proof. apply walkableb_spec. vm_compute. reflexivity. Qed.

Lemma repositories_listed_witness :
  fst (IS.GetRepositories (zot_cfg true) pushed) = Ok ["a"; "b/c"] /\
  forall r, r ∈ ["a"; "b/c"] <->
    fst (IS.ValidateRepo (zot_cfg true) r pushed) = Ok true /\ reachable_repo (zot_cfg true) pushed r.
Proof.
  assert (fst (IS.GetRepositories (zot_cfg true) pushed) = Ok ["a"; "b/c"]) as E by (vm_compute; reflexivity).
  split; [exact E|]. destruct (repositories_listed (zot_cfg true) pushed pushed_walkable) as (l&Hl&_&Hr).
  rewrite Hl in E. injection E as ->. exact Hr.
Defined.
Lemma pages_follow_listing_witness :
  fst (IS.GetRepositories (zot_cfg true) pushed) = Ok ["a"; "b/c"] /\
  IS.GetNextRepositories (zot_cfg true) "a" 1 (fun r => Ok true) pushed = (Ok (["b/c"], true), pushed).
Proof.
  assert (fst (IS.GetRepositories (zot_cfg true) pushed) = Ok ["a"; "b/c"]) as E by (vm_compute; reflexivity).
  split; [exact E|].
  destruct (pages_follow_listing (zot_cfg true) pushed 1 (fun _ => true) pushed_walkable) as (l&Hl&Hp&_); [lia|].
  rewrite Hl in E. injection E as ->. exact (Hp "a").
Defined.
Lemma next_repository_in_order_witness :
  fst (IS.GetRepositories (zot_cfg true) pushed) = Ok ["a"; "b/c"] /\
  IS.GetNextRepository (zot_cfg true) {["a"]} pushed = (Ok "b/c", pushed).
Proof.
  assert (fst (IS.GetRepositories (zot_cfg true) pushed) = Ok ["a"; "b/c"]) as E by (vm_compute; reflexivity).
  split; [exact E|].
  destruct (next_repository_in_order (zot_cfg true) pushed {["a"]} pushed_walkable) as (l&Hl&Hn).
  rewrite Hl in E. injection E as ->. apply Hn. intros r ->%elem_of_singleton. constructor.
Defined.
Local Notation hidden := (serve_all (zot_cfg true)
  [RFullBlobUpload None "myblobs" (reader_of a_config) (sha256 a_config);
   RFullBlobUpload None "myblobs" (reader_of a_layer) (sha256 a_layer);
   RPutImageManifest "myblobs" "v1" MediaTypeImageManifest a_manifest []] zot_new).
Lemma suffix_hides_repository_witness :
  fst (IS.GetImageTags (zot_cfg true) "myblobs" hidden) = Ok ["v1"] /\
  forall l, IS.GetRepositories (zot_cfg true) hidden = (Ok l, hidden) -> "myblobs" ∉ l.
Proof.
  split; [vm_compute; reflexivity|].
  apply (suffix_hides_repository (zot_cfg true) hidden "myblobs" 1 ImageBlobsDir).
  - apply walkableb_spec. vm_compute. reflexivity.
  - apply (bool_decide_eq_true_1 _). vm_compute. reflexivity.
  - split; [lia|]. vm_compute. lia.
  - vm_compute. reflexivity.
Defined.
