(* ===== verification/DedupeRun.v ===== *)
(** * The dedupe run (DedupeTaskGenerator in pkg/storage/common/common.go)

    The task generator that walks the blobs of a storage once and makes one
    task per digest, its completion tracking, and the interleavings of the
    scheduler's goroutine with the goroutines of the tasks. A run is an object
    that tasks of the run keep a pointer to, so runs live in a heap. *)

From Stdlib Require Import ZArith Lia Ascii String.
From stdpp Require Import base tactics list gmap strings.
From S2P Require Import Prelude Regexp Driver BlobCache Oci IndexOps StorageCommon Concrete ImageStore Content ConcreteStore Addressing Listing.

Local Open Scope string_scope.
Local Open Scope list_scope.

(** What the generator and its tasks ask of an image store. *)
Class DedupeStoreI (S : Type) : Type := {
  ds_GetRepositories : ST S (list string);
  ds_GetAllBlobs : string -> ST S (list string);
  ds_BlobPath : string -> string -> path;
  ds_RunDedupeForDigest : option err -> string -> bool -> list path -> ST S unit
}.

#[export] Instance image_store_dedupe {F C} `{Driver F} `{Cache C} `{GoDigest} `{OciCodec}
    (cfg : config F C) : DedupeStoreI (store F C) := {|
  ds_GetRepositories := IS.GetRepositories cfg;
  ds_GetAllBlobs := IS.GetAllBlobs cfg;
  ds_BlobPath := IS.BlobPath cfg;
  ds_RunDedupeForDigest := IS.RunDedupeForDigest cfg
|}.

Module Dedupe.
(** restoreRunState; [completed] is whether completeOnce has run. *)
Record restoreRunState : Type := mkRun {
  pendingTaskCount : Z;
  completed : bool;
  done : bool
}.
Definition new_run : restoreRunState := mkRun 0 false false.

(** DedupeTaskGenerator; [blobPaths] is [None] for the nil map and [tracked]
    is whether OnRunComplete is set. *)
Record generator : Type := mkGen {
  dedupe : bool;
  tracked : bool;
  digest : string;
  duplicateBlobs : list path;
  digests : list string;
  blobPaths : option (gmap string (list path));
  nextIndex : nat;
  repos : list string;
  run : option nat
}.
Definition new_generator (dedupe tracked : bool) : generator := mkGen dedupe tracked "" [] [] None 0 [] None.

(** dedupeTask; [onDone] is the run its callback captured. *)
Record task : Type := mkTask {
  t_digest : string;
  t_dedupe : bool;
  t_duplicateBlobs : list path;
  t_onDone : option nat
}.
#[export] Instance task_eq_dec : EqDecision task.
Proof. solve_decision. Defined.

(** The store, the generator, the heap of runs, and the calls of
    checkCompletion that have begun. *)
Record world (S : Type) : Type := mkWorld {
  w_store : S;
  w_gen : generator;
  w_runs : list restoreRunState;
  w_checks : list nat
}.
Arguments mkWorld {S} _ _ _ _.
Arguments w_store {S} _.
Arguments w_gen {S} _.
Arguments w_runs {S} _.
Arguments w_checks {S} _.

Section run.
Context {S : Type} `{DedupeStoreI S} `{GoDigest}.

(** ** Grouping the blobs of a storage by digest *)
Definition grouped : Type := list string * gmap string (list path).

Definition add_blob (repo : string) (acc : grouped) (digest : string) : grouped :=
  let '(digests, blobPaths) := acc in
  match Validate digest with
  | Some _ => acc
  | None =>
      let digests := match blobPaths !! digest with Some _ => digests | None => digests ++ [digest] end in
      (digests, <[digest := default [] (blobPaths !! digest) ++ [ds_BlobPath repo digest]]> blobPaths)
  end.

Fixpoint group_repos (repos : list string) (acc : grouped) : ST S grouped :=
  match repos with
  | [] => ret acc
  | repo :: rest =>
      let* blobs := ds_GetAllBlobs repo in
      group_repos rest (foldl (add_blob repo) acc blobs)
  end.
Definition BlobPathsByDigest (repos : list string) : ST S grouped := group_repos repos ([], ∅).

(** ** The generator *)
Definition on_store {A} (m : ST S A) : ST (world S) A := fun w =>
  let '(r, s) := m (w_store w) in (r, mkWorld s (w_gen w) (w_runs w) (w_checks w)).
Definition set_gen (f : generator -> generator) : ST (world S) unit :=
  modify (fun w => mkWorld (w_store w) (f (w_gen w)) (w_runs w) (w_checks w)).
Definition set_run (r : nat) (f : restoreRunState -> restoreRunState) : ST (world S) unit :=
  modify (fun w => mkWorld (w_store w) (w_gen w) (alter f r (w_runs w)) (w_checks w)).
(** A call of checkCompletion begins; [check_step] carries it out. *)
Definition checkCompletion (r : nat) : ST (world S) unit :=
  modify (fun w => mkWorld (w_store w) (w_gen w) (w_runs w) (w_checks w ++ [r])).

Definition getRun : ST (world S) nat :=
  let* w := get in
  match run (w_gen w) with
  | Some r => ret r
  | None =>
      let r := length (w_runs w) in
      put (mkWorld (w_store w)
             (let g := w_gen w in
              mkGen (dedupe g) (tracked g) (digest g) (duplicateBlobs g) (digests g) (blobPaths g)
                (nextIndex g) (repos g) (Some r))
             (w_runs w ++ [new_run]) (w_checks w)) ;;;
      ret r
  end.

Definition with_repos (l : list string) (g : generator) : generator :=
  mkGen (dedupe g) (tracked g) (digest g) (duplicateBlobs g) (digests g) (blobPaths g) (nextIndex g) l (run g).
Definition with_listing (x : grouped) (g : generator) : generator :=
  mkGen (dedupe g) (tracked g) (digest g) (duplicateBlobs g) (fst x) (Some (snd x)) (nextIndex g) (repos g) (run g).
Definition with_current (d : string) (l : list path) (n : nat) (g : generator) : generator :=
  mkGen (dedupe g) (tracked g) d l (digests g) (blobPaths g) n (repos g) (run g).

Definition set_done (r : restoreRunState) : restoreRunState := mkRun (pendingTaskCount r) (completed r) true.
Definition add_pending (n : Z) (r : restoreRunState) : restoreRunState :=
  mkRun (pendingTaskCount r + n) (completed r) (done r).

(** No digest left, or no repository: the run is done. *)
Definition finish (r : nat) : ST (world S) (option task) :=
  set_run r set_done ;;; checkCompletion r ;;; ret None.

Definition Next : ST (world S) (option task) :=
  let* r := getRun in
  let* w := get in
  (match repos (w_gen w) with
   | _ :: _ => ret tt
   | [] => let* l := on_store ds_GetRepositories in set_gen (with_repos l)
   end) ;;;
  let* w := get in
  match repos (w_gen w) with
  | [] => finish r
  | _ :: _ =>
      (match blobPaths (w_gen w) with
       | Some _ => ret tt
       | None =>
           let* x := on_store (BlobPathsByDigest (repos (w_gen w))) in
           set_gen (with_listing x)
       end) ;;;
      let* w := get in
      let g := w_gen w in
      let d := default "" (digests g !! nextIndex g) in
      let dups := match digests g !! nextIndex g with
                  | Some d => default [] (default ∅ (blobPaths g) !! d)
                  | None => []
                  end in
      set_gen (with_current d dups
                 (if decide (nextIndex g < length (digests g))%nat then Datatypes.S (nextIndex g)
                  else nextIndex g)) ;;;
      if bool_decide (d = "") then finish r
      else
        (if tracked g then set_run r (add_pending 1) else ret tt) ;;;
        ret (Some (mkTask d (dedupe g) dups (if tracked g then Some r else None)))
  end.

Definition run_of (w : world S) (r : nat) : restoreRunState := default new_run (w_runs w !! r).

Definition IsDone : ST (world S) bool :=
  let* r := getRun in let* w := get in ret (done (run_of w r)).

Definition Reset : ST (world S) unit :=
  let* r := getRun in
  let* w := get in
  (if negb (tracked (w_gen w)) || (done (run_of w r) && bool_decide (pendingTaskCount (run_of w r) = 0%Z))
   then
     modify (fun w =>
       let g := w_gen w in
       mkWorld (w_store w)
         (mkGen (dedupe g) (tracked g) (digest g) (duplicateBlobs g) (digests g) (blobPaths g)
            (nextIndex g) (repos g) (Some (length (w_runs w))))
         (w_runs w ++ [new_run]) (w_checks w))
   else ret tt) ;;;
  set_gen (fun g => mkGen (dedupe g) (tracked g) "" [] [] None 0 [] (run g)).

(** ** The goroutines *)

(** dedupeTask.DoWork up to the call of onDone. *)
Definition do_work (ctxErr : option err) (t : task) : ST (world S) unit :=
  on_store (ds_RunDedupeForDigest ctxErr (t_digest t) (t_dedupe t) (t_duplicateBlobs t)).

(** onDone of a run. *)
Definition onDone (r : nat) : ST (world S) unit :=
  set_run r (add_pending (-1)) ;;;
  let* w := get in
  if bool_decide (pendingTaskCount (run_of w r) = 0%Z) then checkCompletion r else ret tt.

(** The scheduler's goroutine runs generate (scheduler.go) on a generator that
    is submitted once, with interval zero: Next, then IsDone; a generator that
    is done is reset and not called again, any other has its task queued. *)
Inductive phase : Type :=
  | Active
  | Returned (t : option task)
  | Finished.

(** [s_tasks] are queued or running, [s_ok] have done their work and are about
    to call onDone, [s_checked] are the calls of checkCompletion that read done
    as true, and [s_fired] the calls of OnRunComplete. *)
Record sys : Type := mkSys {
  s_world : world S;
  s_phase : phase;
  s_tasks : list task;
  s_ok : list task;
  s_checked : list nat;
  s_fired : list nat
}.

Inductive event : Type :=
  | Generated (t : task)
  | Succeeded (t : task)
  | Failed (t : task).

Definition set_store (st : S) (w : world S) : world S := mkWorld st (w_gen w) (w_runs w) (w_checks w).
Definition drop_check (cs : list nat) (w : world S) : world S := mkWorld (w_store w) (w_gen w) (w_runs w) cs.
Definition set_completed (r : restoreRunState) : restoreRunState := mkRun (pendingTaskCount r) true (done r).

Inductive step : sys -> list event -> sys -> Prop :=
  | st_next w o w' ts ok ch fi :
      Next w = (Ok o, w') ->
      step (mkSys w Active ts ok ch fi) [] (mkSys w' (Returned o) ts ok ch fi)
  | st_next_err w e w' ts ok ch fi :
      Next w = (Err e, w') ->
      step (mkSys w Active ts ok ch fi) [] (mkSys w' Active ts ok ch fi)
  | st_queue w o w' ts ok ch fi :
      IsDone w = (Ok false, w') ->
      step (mkSys w (Returned o) ts ok ch fi) (Generated <$> option_list o)
           (mkSys w' Active (ts ++ option_list o) ok ch fi)
  | st_reset w o w' w'' ts ok ch fi :
      IsDone w = (Ok true, w') -> Reset w' = (Ok tt, w'') ->
      step (mkSys w (Returned o) ts ok ch fi) [] (mkSys w'' Finished ts ok ch fi)
  | st_work w ctxErr t w' ph ts1 ts2 ok ch fi :
      do_work ctxErr t w = (Ok tt, w') ->
      step (mkSys w ph (ts1 ++ t :: ts2) ok ch fi) [] (mkSys w' ph (ts1 ++ ts2) (ok ++ [t]) ch fi)
  | st_work_err w ctxErr t e w' ph ts1 ts2 ok ch fi :
      do_work ctxErr t w = (Err e, w') ->
      step (mkSys w ph (ts1 ++ t :: ts2) ok ch fi) [Failed t] (mkSys w' ph (ts1 ++ ts2) ok ch fi)
  | st_onDone w r t w' ph ts ok1 ok2 ch fi :
      t_onDone t = Some r -> onDone r w = (Ok tt, w') ->
      step (mkSys w ph ts (ok1 ++ t :: ok2) ch fi) [Succeeded t] (mkSys w' ph ts (ok1 ++ ok2) ch fi)
  | st_check w r cs1 cs2 ph ts ok ch fi :
      w_checks w = cs1 ++ r :: cs2 ->
      step (mkSys w ph ts ok ch fi) []
           (mkSys (drop_check (cs1 ++ cs2) w) ph ts ok
              (if tracked (w_gen w) && done (run_of w r) then ch ++ [r] else ch) fi)
  | st_complete w r ph ts ok ch1 ch2 fi :
      let fires := bool_decide (pendingTaskCount (run_of w r) = 0%Z) && negb (completed (run_of w r)) in
      step (mkSys w ph ts ok (ch1 ++ r :: ch2) fi) []
           (mkSys (if fires then mkWorld (w_store w) (w_gen w) (alter set_completed r (w_runs w)) (w_checks w) else w)
              ph ts ok (ch1 ++ ch2) (if fires then fi ++ [r] else fi))
  | st_other w st ph ts ok ch fi :
      step (mkSys w ph ts ok ch fi) [] (mkSys (set_store st w) ph ts ok ch fi).

Inductive steps : sys -> list event -> sys -> Prop :=
  | steps_nil x : steps x [] x
  | steps_snoc x tr y ev z : steps x tr y -> step y ev z -> steps x (tr ++ ev) z.

Definition start (st : S) (dedupe : bool) : sys :=
  mkSys (mkWorld st (new_generator dedupe true) [] []) Active [] [] [] [].

Definition generated (tr : list event) : list task :=
  omap (fun e => match e with Generated t => Some t | _ => None end) tr.
Definition succeeded (tr : list event) : list task :=
  omap (fun e => match e with Succeeded t => Some t | _ => None end) tr.
Definition failed (tr : list event) : list task :=
  omap (fun e => match e with Failed t => Some t | _ => None end) tr.
End run.
End Dedupe.

(** ** The completion tracking of one run *)
Section tracking.
Import Dedupe.

(** [n] tasks of the run have neither succeeded nor been dropped, [ended] says
    whether the generator has no task left, [checks] and [checked] are the
    calls of checkCompletion on their way. *)
Record run_inv (r : restoreRunState) (n : nat) (ended : bool) (checks checked fired : list nat) : Prop := {
  ri_pending : pendingTaskCount r = Z.of_nat n;
  ri_done : done r = ended;
  ri_fired : fired = if completed r then [0] else [];
  ri_completed : completed r = true -> ended = true /\ n = 0;
  ri_zero : Forall (eq 0) checks /\ Forall (eq 0) checked;
  ri_checked : checked <> [] -> ended = true;
  ri_tracked : ended = true -> n = 0 -> completed r = true \/ checks <> [] \/ checked <> []
}.

Lemma run_inv_count r n n' ended checks checked fired : n = n' ->
  run_inv r n ended checks checked fired -> run_inv r n' ended checks checked fired.
Proof. by intros ->. Qed.

Lemma run_inv_add r n checks checked fired : run_inv r n false checks checked fired ->
  run_inv (add_pending 1 r) (S n) false checks checked fired.
Proof.
  intros [Hp Hd Hf Hc Hz Hk Ht]. split; simpl; auto; [lia|]. intros Hr. by destruct (Hc Hr).
Qed.

Lemma run_inv_end r n checks checked fired : run_inv r n false checks checked fired ->
  run_inv (set_done r) n true (checks ++ [0]) checked fired.
Proof.
  intros [Hp Hd Hf Hc Hz Hk Ht]. split; simpl; auto.
  - intros Hr. by destruct (Hc Hr).
  - destruct Hz. split; [|done]. apply Forall_app. by repeat constructor.
  - intros _ _. right. left. by destruct checks.
Qed.

Lemma run_inv_finish r n ended checks checked fired : run_inv r (S n) ended checks checked fired ->
  run_inv (add_pending (-1) r) n ended (if decide (n = 0) then checks ++ [0] else checks) checked fired.
Proof.
  intros [Hp Hd Hf Hc Hz Hk Ht]. split; simpl; auto; [lia| | |].
  - intros Hr. by destruct (Hc Hr).
  - destruct Hz. split; [|done]. case_decide; [apply Forall_app; by repeat constructor|done].
  - intros _ ->. right. left. rewrite decide_True by done. by destruct checks.
Qed.

(** checkCompletion reads done. *)
Lemma run_inv_check r n ended cs1 cs2 checked fired : run_inv r n ended (cs1 ++ 0 :: cs2) checked fired ->
  run_inv r n ended (cs1 ++ cs2) (if done r then checked ++ [0] else checked) fired.
Proof.
  intros [Hp Hd Hf Hc Hz Hk Ht]. destruct Hz as [[Hz1 [_ Hz2]%Forall_cons]%Forall_app Hz3].
  split; auto.
  - split; [by apply Forall_app|]. destruct (done r); [apply Forall_app; by repeat constructor|done].
  - destruct (done r); [congruence|done].
  - rewrite Hd. intros -> _. right. right. by destruct checked.
Qed.

(** checkCompletion reads the count and runs completeOnce. *)
Lemma run_inv_complete r n ended checks ch1 ch2 fired :
  run_inv r n ended checks (ch1 ++ 0 :: ch2) fired ->
  let fires := bool_decide (pendingTaskCount r = 0%Z) && negb (completed r) in
  run_inv (if fires then set_completed r else r) n ended checks (ch1 ++ ch2) (if fires then fired ++ [0] else fired).
Proof.
  intros [Hp Hd Hf Hc Hz Hk Ht]. assert (ended = true) as -> by (apply Hk; by destruct ch1).
  destruct Hz as [Hz0 [Hz1 [_ Hz2]%Forall_cons]%Forall_app].
  assert (Forall (eq 0) checks /\ Forall (eq 0) (ch1 ++ ch2)) by (split; [done|by apply Forall_app]).
  case_bool_decide as Hn; simpl.
  - destruct (completed r) eqn:Er; simpl.
    + split; auto. by rewrite Er.
    + split; simpl; auto; [by rewrite Hf|]. intros _. split; [done|lia].
  - split; auto. intros _ ->. lia.
Qed.
End tracking.

(** ** What the generator goes through *)
Section generator.
Import Dedupe.
Context {S : Type} `{DedupeStoreI S} `{GoDigestLaws} (dd : bool).
Implicit Types (w : world S) (out : list task) (x : grouped).

(** The repositories and the blobs that a run worked from. *)
Definition listed (repos : list string) x : Prop :=
  exists st0 st0' st1 st1', ds_GetRepositories st0 = (Ok repos, st0') /\
    BlobPathsByDigest repos st1 = (Ok x, st1').

(** One task per digest, with all its paths. *)
Definition tasks_of x : list task :=
  (fun d => mkTask d dd (default [] (snd x !! d)) (Some 0)) <$> fst x.

(** The tasks of a whole run. *)
Definition complete out : Prop :=
  (exists st st', ds_GetRepositories (S := S) st = (Ok [], st') /\ out = []) \/
  exists repos x, listed repos x /\ out = tasks_of x.

Record gen_inv (g : generator) out : Prop := {
  gi_dedupe : dedupe g = dd;
  gi_tracked : tracked g = true;
  gi_repos : repos g = [] \/ exists st st', ds_GetRepositories (S := S) st = (Ok (repos g), st');
  gi_listing :
    (blobPaths g = None /\ digests g = [] /\ nextIndex g = 0 /\ out = []) \/
    (exists x, repos g <> [] /\ blobPaths g = Some (snd x) /\ digests g = fst x /\ listed (repos g) x /\
       Forall (fun d => d <> "") (fst x) /\ nextIndex g <= length (fst x) /\
       out = take (nextIndex g) (tasks_of x))
}.

Lemma group_repos_valid repos : forall acc st x st',
  Forall (fun d => Validate d = None) (fst acc) -> group_repos repos acc st = (Ok x, st') ->
  Forall (fun d => Validate d = None) (fst x).
Proof.
  induction repos as [|repo repos IH]; intros acc st x st' Ha Hg; simpl in Hg; [by injection Hg as <- _|].
  stepo Hg. eapply IH; [|exact Hg]. clear Hg E IH. revert acc Ha.
  induction a as [|d l IH]; intros acc Ha; [done|]. simpl. apply IH. destruct acc as [ds m]. unfold add_blob.
  destruct (Validate d) eqn:Ev; [done|]. destruct (m !! d); [done|]. apply Forall_app. by repeat constructor.
Qed.

Lemma listing_nonempty repos st x st' : BlobPathsByDigest repos st = (Ok x, st') ->
  Forall (fun d => d <> "") (fst x).
Proof.
  intros Hg. eapply Forall_impl; [eapply (group_repos_valid repos ([], ∅)); [by constructor|exact Hg]|].
  intros d Hd ->. by apply validate_empty.
Qed.

(** The one run of a generator that has not been reset. *)
Definition one_run w : Prop :=
  (run (w_gen w) = None /\ w_runs w = []) \/ (run (w_gen w) = Some 0 /\ w_runs w = [run_of w 0]).

Definition with_run (n : nat) (g : generator) : generator :=
  mkGen (dedupe g) (tracked g) (digest g) (duplicateBlobs g) (digests g) (blobPaths g) (nextIndex g) (repos g) (Some n).

Lemma getRun_spec w : one_run w ->
  getRun w = (Ok 0, mkWorld (w_store w) (with_run 0 (w_gen w)) [run_of w 0] (w_checks w)).
Proof.
  destruct w as [st [dd' tr d l ds m n rs ru] runs cs]. unfold one_run, getRun, bind, get. simpl.
  intros [[-> ->]|[-> ->]]; done.
Qed.

Lemma gen_inv_run g out n : gen_inv g out -> gen_inv (with_run n g) out.
Proof. intros [? ? ? ?]. by split. Qed.

(** The outcome of Next. *)
Definition next_spec w out (r : res (option task)) w' : Prop :=
  run (w_gen w') = Some 0 /\ tracked (w_gen w') = true /\
  match r with
  | Err _ => w_runs w' = [run_of w 0] /\ w_checks w' = w_checks w /\ gen_inv (w_gen w') out
  | Ok None => w_runs w' = [set_done (run_of w 0)] /\ w_checks w' = w_checks w ++ [0] /\ complete out
  | Ok (Some t) =>
      w_runs w' = [add_pending 1 (run_of w 0)] /\ w_checks w' = w_checks w /\
      gen_inv (w_gen w') (out ++ [t]) /\ t_onDone t = Some 0
  end.

Lemma finish_spec st g r cs :
  finish 0 (mkWorld st g [r] cs) = (Ok None, mkWorld (S := S) st g [set_done r] (cs ++ [0])).
Proof. done. Qed.

(** The last part of Next, once the blobs are listed. *)
Lemma next_task_spec st g r cs out res w' :
  gen_inv g out -> repos g <> [] -> blobPaths g <> None -> run g = Some 0 ->
  (let* w := get in
   let g := w_gen w in
   let d := default "" (digests g !! nextIndex g) in
   let dups := match digests g !! nextIndex g with
               | Some d => default [] (default ∅ (blobPaths g) !! d)
               | None => []
               end in
   set_gen (with_current d dups
     (if decide (nextIndex g < length (digests g))%nat then Datatypes.S (nextIndex g) else nextIndex g)) ;;;
   if bool_decide (d = "") then finish 0
   else
     (if tracked g then set_run 0 (add_pending 1) else ret tt) ;;;
     ret (Some (mkTask d (dedupe g) dups (if tracked g then Some 0 else None)))) (mkWorld st g [r] cs)
  = (res, w') -> next_spec (mkWorld st g [r] cs) out res w'.
Proof.
  intros [Hd Ht Hr [(Hb&_)|(x&_&Hb&Hx&Hl&Hne&Hn&->)]] Hrep Hbl Hrun; [done|].
  unfold bind at 1, get. cbn [w_gen]. destruct (digests g !! nextIndex g) as [d|] eqn:Ed; simpl.
  - rewrite Hx in *. assert (nextIndex g < length (fst x)) as Hlt by (by eapply lookup_lt_Some).
    rewrite bool_decide_eq_false_2 by (by eapply (Forall_lookup_1 _ _ _ _ Hne)). rewrite Ht.
    unfold bind, set_gen, set_run, modify, ret, with_current. rewrite decide_True by done. simpl. intros [= <- <-].
    split; [done|]. split; [done|]. split; [done|]. split; [done|]. split; [|done].
    split; try done. right. exists x. simpl. split_and!; [done..|].
    symmetry. apply take_S_r. unfold tasks_of. rewrite list_lookup_fmap, Ed. simpl. by rewrite Hb, Hd.
  - unfold bind, set_gen, modify. simpl. intros [= <- <-].
    split; [done|]. split; [done|]. split; [done|]. split; [done|]. right. exists (repos g), x. split; [done|].
    rewrite Hx in Ed. apply lookup_ge_None in Ed. apply take_ge. unfold tasks_of. by rewrite length_fmap.
Qed.

(** The repositories are read once. *)
Lemma repos_stage st g r cs out o w1 : gen_inv g out ->
  (match repos g with
   | _ :: _ => ret tt
   | [] => let* l := on_store ds_GetRepositories in set_gen (with_repos l)
   end) (mkWorld st g [r] cs) = (o, w1) ->
  exists st1 g1, w1 = mkWorld st1 g1 [r] cs /\ gen_inv g1 out /\ run g1 = run g /\
    (forall a, o = Ok a -> repos g1 = [] -> complete out).
Proof.
  intros Hg. destruct (repos g) as [|x l] eqn:Er.
  2:{ intros [= <- <-]. exists st, g. split_and!; try done. intros a _. congruence. }
  unfold bind, on_store. simpl. destruct (ds_GetRepositories st) as [[l|e] st1] eqn:El.
  2:{ intros [= <- <-]. by exists st1, g. }
  unfold set_gen, modify. simpl. intros [= <- <-]. exists st1, (with_repos l g).
  destruct Hg as [Hd Ht Hr [(Hb&Hx&Hn&->)|(x&Hne&_)]]; [|by rewrite Er in Hne].
  split_and!; [done| |done|].
  - split; simpl; auto. right. by exists st, st1.
  - simpl. intros _ _ ->. left. by exists st, st1.
Qed.

(** The blobs are listed once. *)
Lemma listing_stage st g r cs out o w1 : gen_inv g out -> repos g <> [] ->
  (match blobPaths g with
   | Some _ => ret tt
   | None =>
       let* x := on_store (BlobPathsByDigest (repos g)) in set_gen (with_listing x)
   end) (mkWorld st g [r] cs) = (o, w1) ->
  exists st1 g1, w1 = mkWorld st1 g1 [r] cs /\ gen_inv g1 out /\ run g1 = run g /\ repos g1 <> [] /\
    (forall a, o = Ok a -> blobPaths g1 <> None).
Proof.
  intros Hg Hne. destruct (blobPaths g) as [m|] eqn:Eb.
  { intros [= <- <-]. exists st, g. split_and!; try done. intros a _. congruence. }
  unfold bind, on_store. simpl. destruct (BlobPathsByDigest (repos g) st) as [[x|e] st1] eqn:Ex.
  2:{ intros [= <- <-]. by exists st1, g. }
  unfold set_gen, modify. simpl. intros [= <- <-]. exists st1, (with_listing x g).
  destruct Hg as [Hd Ht Hr [(_&Hx&Hn&->)|(y&_&Hb&_)]]; [|congruence].
  split_and!; try done. split; simpl; auto. right. exists x. rewrite Hn. simpl.
  assert (listed (repos g) x) as Hl.
  { destruct Hr as [|(st0&st0'&Hr)]; [done|]. by exists st0, st0', st, st1. }
  split_and!; try done; [by eapply listing_nonempty|lia].
Qed.

Lemma next_cases w out o w' : gen_inv (w_gen w) out -> one_run w -> Next w = (o, w') -> next_spec w out o w'.
Proof.
  intros Hg Hw Hn. unfold Next, bind at 1 in Hn. rewrite getRun_spec in Hn by done.
  set (r := run_of w 0) in *. set (g := with_run 0 (w_gen w)) in *. unfold next_spec. fold r.
  assert (gen_inv g out) as Hg' by by apply gen_inv_run. assert (run g = Some 0) as Hrun by done.
  clearbody g r. unfold bind at 1, get at 1 in Hn. cbn [w_gen] in Hn.
  steps Hn; apply (repos_stage _ _ _ _ out) in E as (st1&g1&->&Hg1&Hr1&Hc); try done.
  { simpl. by rewrite (gi_tracked _ _ Hg1), Hr1. }
  unfold bind at 1, get at 1 in Hn. cbn [w_gen] in Hn.
  destruct (repos g1) as [|x l] eqn:Er.
  { rewrite finish_spec in Hn. injection Hn as <- <-. simpl. rewrite Hr1.
    split_and!; try done; [by eapply gi_tracked|by eapply Hc]. }
  assert (repos g1 <> []) as Hne by congruence. rewrite <-Er in Hn.
  steps Hn; apply (listing_stage _ _ _ _ out) in E as (st2&g2&->&Hg2&Hr2&Hne2&Hb); try done.
  { simpl. by rewrite (gi_tracked _ _ Hg2), Hr2, Hr1. }
  apply (next_task_spec _ _ _ _ out) in Hn; [done|done|done|by eapply Hb|congruence].
Qed.

(** ** The invariant of the interleaved system *)
Definition ended (ph : phase) : bool :=
  match ph with Returned None | Finished => true | _ => false end.
Definition returned (ph : phase) : list task :=
  match ph with Returned o => option_list o | _ => [] end.

Record sys_inv (x : sys) (tr : list event) : Prop := {
  si_run : run_inv (run_of (s_world x) 0)
    (length (returned (s_phase x)) + length (s_tasks x) + length (s_ok x) + length (failed tr))
    (ended (s_phase x)) (w_checks (s_world x)) (s_checked x) (s_fired x);
  si_tracked : tracked (w_gen (s_world x)) = true;
  si_tasks : Forall (fun t => t_onDone t = Some 0) (returned (s_phase x) ++ s_tasks x ++ s_ok x);
  si_runs : s_phase x <> Finished -> one_run (s_world x);
  si_gen : if ended (s_phase x) then complete (generated tr)
           else gen_inv (w_gen (s_world x)) (generated tr ++ returned (s_phase x));
  si_trace : generated tr ≡ₚ s_tasks x ++ s_ok x ++ succeeded tr ++ failed tr
}.

Lemma start_inv st : sys_inv (start st dd) [].
Proof.
  split; simpl; auto.
  - by split.
  - by left.
  - split; simpl; auto.
Qed.

Lemma run_of_nonempty w : run_of w 0 <> new_run -> exists r rs, w_runs w = r :: rs.
Proof. unfold run_of. destruct (w_runs w); [done|eauto]. Qed.

Lemma run_inv_nonempty w n e cs ch fi : run_inv (run_of w 0) n e cs ch fi -> 0 < n \/ e = true ->
  exists r rs, w_runs w = r :: rs.
Proof.
  intros [Hp Hd _ _ _ _ _] Hn. apply run_of_nonempty. intros E. rewrite E in Hp, Hd. simpl in *.
  destruct Hn; [lia|congruence].
Qed.

(** A step of the heap of runs keeps the one run one. *)
Lemma one_run_alter st g rs cs cs' f : one_run (mkWorld st g rs cs) -> one_run (mkWorld st g (alter f 0 rs) cs').
Proof. unfold one_run, run_of. simpl. intros [[-> ->]|[-> ->]]; [by left|by right]. Qed.

Lemma is_done_spec w b w' : one_run w -> IsDone w = (Ok b, w') ->
  b = done (run_of w 0) /\
  w' = mkWorld (w_store w) (with_run 0 (w_gen w)) [run_of w 0] (w_checks w).
Proof. intros Hw. unfold IsDone, bind at 1. rewrite getRun_spec by done. by intros [= <- <-]. Qed.

Lemma reset_spec st g r cs w'' : tracked g = true -> run g = Some 0 ->
  Reset (mkWorld st g [r] cs) = (Ok tt, w'') ->
  tracked (w_gen w'') = true /\ w_checks w'' = cs /\ run_of w'' 0 = r.
Proof.
  intros Ht Hr. unfold Reset, bind at 1, getRun, bind at 1, get. simpl. rewrite Hr.
  unfold bind, get. simpl. rewrite Ht. simpl. destruct (_ && _); simpl; by intros [= <-].
Qed.

Lemma step_next w o w' ts ok ch fi tr : sys_inv (mkSys w Active ts ok ch fi) tr ->
  Next w = (Ok o, w') -> sys_inv (mkSys w' (Returned o) ts ok ch fi) tr.
Proof.
  intros [Hr Ht Hts Hw Hg Htr] Hn. simpl in *. rewrite app_nil_r in Hg.
  apply (next_cases _ _ _ _ Hg) in Hn as (Hrun&Htk&Hn); [|by apply Hw].
  destruct o as [t|]; [destruct Hn as (Hruns&Hck&Hg'&Hto)|destruct Hn as (Hruns&Hck&Hc)];
    assert (one_run w') by (right; split; [done|unfold run_of; by rewrite Hruns]);
    split; simpl; auto; unfold run_of at 1; rewrite Hruns, Hck; simpl.
  - by apply run_inv_add.
  - by apply run_inv_end.
Qed.

Lemma step_next_err w e w' ts ok ch fi tr : sys_inv (mkSys w Active ts ok ch fi) tr ->
  Next w = (Err e, w') -> sys_inv (mkSys w' Active ts ok ch fi) tr.
Proof.
  intros [Hr Ht Hts Hw Hg Htr] Hn. simpl in *. rewrite app_nil_r in Hg.
  apply (next_cases _ _ _ _ Hg) in Hn as (Hrun&Htk&Hruns&Hc&Hg'); [|by apply Hw].
  split; simpl; auto.
  - rewrite Hc. unfold run_of at 1. by rewrite Hruns.
  - intros _. right. split; [done|]. unfold run_of. by rewrite Hruns.
  - by rewrite app_nil_r.
Qed.

Lemma step_queue w o w' ts ok ch fi tr : sys_inv (mkSys w (Returned o) ts ok ch fi) tr ->
  IsDone w = (Ok false, w') ->
  sys_inv (mkSys w' Active (ts ++ option_list o) ok ch fi) (tr ++ (Generated <$> option_list o)).
Proof.
  intros [Hr Ht Hts Hw Hg Htr] Hd. simpl in *. apply is_done_spec in Hd as [Hd ->]; [|by apply Hw].
  rewrite (ri_done _ _ _ _ _ _ Hr) in Hd. destruct o as [t|]; [|done]. simpl in *.
  apply Forall_cons in Hts as [Hto Hts].
  split; simpl; unfold generated, succeeded, failed in *; rewrite ?omap_snoc; simpl; rewrite ?app_nil_r; auto.
  - eapply run_inv_count, Hr. rewrite length_app. simpl. lia.
  - rewrite <-app_assoc. apply Forall_app in Hts as [??]. apply Forall_app. split; [done|]. by constructor.
  - intros _. by right.
  - by apply gen_inv_run.
  - rewrite Htr. solve_Permutation.
Qed.

Lemma step_reset w o w' w'' ts ok ch fi tr : sys_inv (mkSys w (Returned o) ts ok ch fi) tr ->
  IsDone w = (Ok true, w') -> Reset w' = (Ok tt, w'') ->
  sys_inv (mkSys w'' Finished ts ok ch fi) tr.
Proof.
  intros [Hr Ht Hts Hw Hg Htr] Hd Hre. simpl in *. apply is_done_spec in Hd as [Hd ->]; [|by apply Hw].
  rewrite (ri_done _ _ _ _ _ _ Hr) in Hd. destruct o as [t|]; [done|]. simpl in *.
  apply reset_spec in Hre as (Ht'&Hc&Hro); [|done..]. split; simpl; auto.
  - by rewrite Hc, Hro.
  - done.
Qed.

Lemma set_store_world w st : run_of (set_store st w) 0 = run_of w 0 /\ w_checks (set_store st w) = w_checks w /\
  w_gen (set_store st w) = w_gen w.
Proof. done. Qed.

Lemma do_work_world c t w r w' : do_work c t w = (r, w') -> w' = set_store (w_store w') w.
Proof.
  unfold do_work, on_store. destruct (ds_RunDedupeForDigest _ _ _ _ _) as [r0 st]. by intros [= <- <-].
Qed.

Lemma step_work w st t ph ts1 ts2 ok ch fi tr : sys_inv (mkSys w ph (ts1 ++ t :: ts2) ok ch fi) tr ->
  sys_inv (mkSys (set_store st w) ph (ts1 ++ ts2) (ok ++ [t]) ch fi) tr.
Proof.
  intros [Hr Ht Hts Hw Hg Htr]. simpl in *. split; simpl; auto.
  - eapply run_inv_count, Hr. rewrite !length_app. simpl. lia.
  - revert Hts. rewrite !Forall_app, Forall_cons. naive_solver.
  - rewrite Htr. solve_Permutation.
Qed.

Lemma step_work_err w st t ph ts1 ts2 ok ch fi tr : sys_inv (mkSys w ph (ts1 ++ t :: ts2) ok ch fi) tr ->
  sys_inv (mkSys (set_store st w) ph (ts1 ++ ts2) ok ch fi) (tr ++ [Failed t]).
Proof.
  intros [Hr Ht Hts Hw Hg Htr]. simpl in *.
  split; simpl; unfold generated, succeeded, failed in *; rewrite ?omap_snoc; simpl; rewrite ?app_nil_r; auto.
  - eapply run_inv_count, Hr. rewrite !length_app. simpl. lia.
  - revert Hts. rewrite !Forall_app, Forall_cons. naive_solver.
  - rewrite Htr. solve_Permutation.
Qed.

Lemma step_onDone w r t w' ph ts ok1 ok2 ch fi tr : sys_inv (mkSys w ph ts (ok1 ++ t :: ok2) ch fi) tr ->
  t_onDone t = Some r -> onDone r w = (Ok tt, w') ->
  sys_inv (mkSys w' ph ts (ok1 ++ ok2) ch fi) (tr ++ [Succeeded t]).
Proof.
  intros [Hr Ht Hts Hw Hg Htr] Hto Hd. simpl in *.
  assert (r = 0) as ->.
  { rewrite !Forall_app, Forall_cons in Hts. destruct Hts as (_&_&_&E&_). congruence. }
  set (n := length (returned ph) + length ts + length (ok1 ++ ok2) + length (failed tr)).
  eapply (run_inv_count _ _ (1 + n)) in Hr; [|unfold n; rewrite !length_app; simpl; lia].
  destruct (run_inv_nonempty _ _ _ _ _ _ Hr) as (r0&rs&Ers); [lia|].
  apply run_inv_finish in Hr.
  assert (w_gen w' = w_gen w /\ w_runs w' = alter (add_pending (-1)) 0 (w_runs w) /\
    w_checks w' = (if decide (n = 0) then w_checks w ++ [0] else w_checks w)) as (Eg&Eruns&Ec).
  { pose proof (ri_pending _ _ _ _ _ _ Hr) as Hp. destruct w as [st g runs cs]. simpl in *. subst runs.
    unfold onDone, set_run, bind, modify, get, checkCompletion in Hd. simpl in Hd.
    unfold run_of in Hp, Hd. simpl in Hp, Hd. rewrite Hp in Hd. revert Hd. case_bool_decide; case_decide; try lia;
      by intros [= <-]. }
  assert (run_of w' 0 = add_pending (-1) (run_of w 0)) as Er by (unfold run_of; by rewrite Eruns, Ers).
  split; simpl; rewrite ?Eg; unfold generated, succeeded, failed in *; rewrite ?omap_snoc; simpl; rewrite ?app_nil_r; auto.
  - by rewrite Er, Ec.
  - revert Hts. rewrite !Forall_app, Forall_cons. naive_solver.
  - intros Hph. destruct (Hw Hph) as [[_ E]|[E1 E2]]; [by rewrite E in Ers|]. right.
    split; [congruence|]. rewrite Eruns, E2, Er. done.
  - rewrite Htr. solve_Permutation.
Qed.

Lemma step_check w r cs1 cs2 ph ts ok ch fi tr : sys_inv (mkSys w ph ts ok ch fi) tr ->
  w_checks w = cs1 ++ r :: cs2 ->
  sys_inv (mkSys (drop_check (cs1 ++ cs2) w) ph ts ok
    (if tracked (w_gen w) && done (run_of w r) then ch ++ [r] else ch) fi) tr.
Proof.
  intros [Hr Ht Hts Hw Hg Htr] Hc. simpl in *. rewrite Ht. simpl. rewrite Hc in Hr.
  pose proof (ri_zero _ _ _ _ _ _ Hr) as [[_ [<- _]%Forall_cons]%Forall_app _].
  split; simpl; auto. by apply run_inv_check in Hr.
Qed.

Lemma step_complete w r ph ts ok ch1 ch2 fi tr : sys_inv (mkSys w ph ts ok (ch1 ++ r :: ch2) fi) tr ->
  let fires := bool_decide (pendingTaskCount (run_of w r) = 0%Z) && negb (completed (run_of w r)) in
  sys_inv (mkSys (if fires then mkWorld (w_store w) (w_gen w) (alter set_completed r (w_runs w)) (w_checks w) else w)
    ph ts ok (ch1 ++ ch2) (if fires then fi ++ [r] else fi)) tr.
Proof.
  intros [Hr Ht Hts Hw Hg Htr] fires. simpl in *. pose proof (ri_zero _ _ _ _ _ _ Hr) as [_ [_ [<- _]%Forall_cons]%Forall_app].
  destruct (run_inv_nonempty _ _ _ _ _ _ Hr) as (r0&rs&Ers).
  { right. apply (ri_checked _ _ _ _ _ _ Hr). by destruct ch1. }
  apply run_inv_complete in Hr. cbv zeta in Hr. fold fires in Hr.
  set (w1 := mkWorld (w_store w) (w_gen w) (alter set_completed 0 (w_runs w)) (w_checks w)).
  assert (run_of w1 0 = set_completed (run_of w 0)) as E1 by (unfold run_of; simpl; by rewrite Ers).
  destruct fires; split; simpl; auto.
  - by rewrite E1.
  - intros Hph. destruct w as [st g runs cs]. eapply one_run_alter. apply Hw, Hph.
Qed.

Lemma steps_inv (st : S) tr (z : sys) : steps (start st dd) tr z -> sys_inv z tr.
Proof.
  intros Hs. remember (start st dd) as x0 eqn:E0. induction Hs as [|x0 tr y ev z Hs IH Hst]; subst.
  - apply start_inv.
  - specialize (IH eq_refl). destruct Hst; rewrite ?app_nil_r; eauto using
      step_next, step_next_err, step_queue, step_reset, step_onDone, step_check, step_complete.
    + rewrite (do_work_world _ _ _ _ _ H2). by eapply step_work.
    + rewrite (do_work_world _ _ _ _ _ H2). by eapply step_work_err.
    + destruct IH as [Hr Ht Hts Hw Hg Htr]. by split.
Qed.

(** ** Going through a listing *)

(** Next until it has no task. *)
Fixpoint drain (fuel : nat) w : list task * res unit :=
  match fuel with
  | 0 => ([], Err ErrFuel)
  | Datatypes.S fuel =>
      match Next w with
      | (Err e, _) => ([], Err e)
      | (Ok None, _) => ([], Ok tt)
      | (Ok (Some t), w') => let '(ts, r) := drain fuel w' in (t :: ts, r)
      end
  end.

(** A generator that has listed [x]. *)
Definition has_listed x (n : nat) w : Prop :=
  one_run w /\ tracked (w_gen w) = true /\ dedupe (w_gen w) = dd /\ repos (w_gen w) <> [] /\
  blobPaths (w_gen w) = Some (snd x) /\ digests (w_gen w) = fst x /\ nextIndex (w_gen w) = n.

Lemma next_listed x n w : Forall (fun d => d <> "") (fst x) -> has_listed x n w ->
  match tasks_of x !! n with
  | Some t => exists w', Next w = (Ok (Some t), w') /\ has_listed x (1 + n) w'
  | None => exists w', Next w = (Ok None, w')
  end.
Proof.
  intros Hne (Hw&Ht&Hdd&Hr&Hb&Hd&Hn). unfold tasks_of. rewrite list_lookup_fmap.
  destruct (fst x !! n) as [d|] eqn:Ek; simpl; unfold Next, bind at 1; rewrite getRun_spec by done;
    destruct w as [st [dd' tr d0 l0 ds m k rs ru] runs cs]; simpl in *; subst;
    (destruct rs as [|rp rs]; [done|]); unfold bind, get, ret; simpl; rewrite Ek; simpl; [|by eexists].
  rewrite bool_decide_eq_false_2 by (by eapply (Forall_lookup_1 _ _ _ _ Hne)). simpl.
  eexists. split; [done|]. unfold has_listed. simpl. rewrite decide_True by (by eapply lookup_lt_Some).
  split_and!; try done. by right.
Qed.

Lemma drain_listed x w fuel : Forall (fun d => d <> "") (fst x) -> forall n,
  has_listed x n w -> length (fst x) - n < fuel -> drain fuel w = (drop n (tasks_of x), Ok tt).
Proof.
  intros Hne. revert w. induction fuel as [|fuel IH]; intros w n Hw Hf; [lia|]. simpl.
  pose proof (next_listed x n w Hne Hw) as Hn. destruct (tasks_of x !! n) as [t|] eqn:Et.
  - destruct Hn as (w'&->&Hw'). rewrite (IH w' (1 + n) Hw').
    + by rewrite (drop_S _ _ _ Et).
    + apply lookup_lt_Some in Et. unfold tasks_of in Et. rewrite length_fmap in Et. lia.
  - destruct Hn as (w'&->). apply lookup_ge_None in Et. by rewrite drop_ge.
Qed.

Lemma drain_fresh st repos st1 x st2 :
  ds_GetRepositories st = (Ok repos, st1) -> repos <> [] -> BlobPathsByDigest repos st1 = (Ok x, st2) ->
  drain (1 + length (fst x)) (mkWorld st (new_generator dd true) [] []) = (tasks_of x, Ok tt).
Proof.
  intros Hg Hr Hb. set (w := mkWorld st (new_generator dd true) [] []).
  set (g := mkGen dd true "" [] (fst x) (Some (snd x)) 0 repos (Some 0)).
  assert (Next w = Next (mkWorld st2 g [new_run] [])) as E.
  { unfold Next, bind, getRun, get, on_store, set_gen, modify. simpl. rewrite Hg. simpl.
    destruct repos as [|rp rs]; [done|]. simpl. rewrite Hb. done. }
  simpl. rewrite E.
  change (drain (1 + length (fst x)) (mkWorld st2 g [new_run] []) = (tasks_of x, Ok tt)).
  rewrite (drain_listed x _ _ (listing_nonempty _ _ _ _ Hb) 0); [done| |lia].
  unfold has_listed, g. simpl. split_and!; try done. by right.
Qed.
End generator.

(** ** The run over an image store on local storage *)
Section image_store.
Import Dedupe.
Context {C : Type} `{CacheLaws C} `{GoDigestLaws} `{OciCodec} (cfg : config fs C) (dd : bool).
Local Existing Instance image_store_dedupe.

(** Every path is the blob path of its digest in one of [repos]. *)
Definition blob_paths (repos : list string) (x : grouped) : Prop :=
  map_Forall (fun d l => Validate d = None /\ forall p, p ∈ l -> exists r, r ∈ repos /\ p = IS.BlobPath cfg r d) (snd x).

Lemma add_blobs_paths (repos : list string) repo blobs acc : repo ∈ repos ->
  blob_paths repos acc ->
  blob_paths repos (foldl (add_blob (H := image_store_dedupe cfg) repo) acc blobs).
Proof.
  intros Hr. revert acc. induction blobs as [|d blobs IH]; intros acc Ha; [done|]. simpl. apply IH.
  destruct acc as [ds m]. unfold add_blob, blob_paths in *. destruct (Validate d) eqn:Hv; [done|]. simpl in *.
  intros d' l [[<- <-]|[Hd Hl]]%lookup_insert_Some; [|by eapply Ha].
  split; [done|]. intros p [Hp| ->%list_elem_of_singleton]%elem_of_app; [|by eexists].
  destruct (m !! d) as [l0|] eqn:Em; [|by apply elem_of_nil in Hp]. by apply (Ha d l0 Em).
Qed.

Lemma listing_paths repos st x st' : BlobPathsByDigest (H := image_store_dedupe cfg) repos st = (Ok x, st') ->
  blob_paths repos x.
Proof.
  unfold BlobPathsByDigest. assert (forall all repos acc st, (forall r, r ∈ repos -> r ∈ all) ->
    blob_paths all acc ->
    group_repos (H := image_store_dedupe cfg) repos acc st = (Ok x, st') ->
    blob_paths all x) as Hg.
  { intros all rs. induction rs as [|r rs IH]; intros acc st0 Hin Ha Hm; simpl in Hm; [by injection Hm as <- _|].
    stepo Hm. eapply IH; [|apply add_blobs_paths; [apply Hin, list_elem_of_here|exact Ha]|exact Hm].
    intros r' Hr'. by apply Hin, list_elem_of_further. }
  by apply Hg.
Qed.

(** A task of a listing is a request the image store accepts. *)
Lemma listed_task_ok repos x t ctxErr : is_abs (cf_rootDir cfg) = true ->
  listed (H := image_store_dedupe cfg) repos x -> t ∈ tasks_of dd x ->
  request_ok cfg (RRunDedupeForDigest ctxErr (t_digest t) (t_dedupe t) (t_duplicateBlobs t)).
Proof.
  intros Hroot (st0&st0'&st1&st1'&Hg%listed_names&Hb%listing_paths) (d&->&Hd)%list_elem_of_fmap. simpl.
  destruct (snd x !! d) as [l|] eqn:El; [|constructor]. destruct (Hb d l El) as [Hv Hp].
  apply Forall_forall. intros p (r&Hr&->)%Hp. apply BlobPath_is_blob; [|done].
  rewrite Forall_forall in Hg. by apply Hg.
Qed.
End image_store.

(** ** Properties *)
Import Dedupe.

(** C31 However the scheduler, the tasks and the completion checks interleave,
    OnRunComplete is called at most once, and only after the generator made its
    one task for every digest of the listing and every one of them succeeded. *)
Theorem completion_after_success {S} `{DedupeStoreI S} `{GoDigestLaws} (dd : bool) (st : S)
    (tr : list event) (x : sys) :
  steps (start st dd) tr x -> s_fired x <> [] ->
  s_fired x = [0] /\ complete (S := S) dd (generated tr) /\ generated tr ≡ₚ succeeded tr /\ failed tr = [].
Proof.
  intros [Hr _ _ _ Hg Htr]%steps_inv Hf. pose proof (ri_fired _ _ _ _ _ _ Hr) as Hfi.
  destruct (completed _) eqn:Ec; [|done]. destruct (ri_completed _ _ _ _ _ _ Hr Ec) as [He Hn].
  rewrite He in Hg. assert (s_tasks x = [] /\ s_ok x = [] /\ failed tr = []) as (Ht&Ho&Hfl).
  { destruct (s_tasks x), (s_ok x), (failed tr); simpl in Hn; try lia; done. }
  rewrite Ht, Ho, Hfl, app_nil_r in Htr. by split_and!.
Qed.

(** C32 No completion is lost: once the generator is finished, no task and no
    completion check is outstanding and no task failed, OnRunComplete has been
    called. *)
Theorem completion_reached {S} `{DedupeStoreI S} `{GoDigestLaws} (dd : bool) (st : S)
    (tr : list event) (x : sys) :
  steps (start st dd) tr x -> s_phase x = Finished -> s_tasks x = [] -> s_ok x = [] ->
  w_checks (s_world x) = [] -> s_checked x = [] -> failed tr = [] -> s_fired x = [0].
Proof.
  intros [Hr _ _ _ _ _]%steps_inv Hp Ht Ho Hc Hk Hf. rewrite Hp, Ht, Ho, Hf, Hc, Hk in Hr. simpl in Hr.
  rewrite (ri_fired _ _ _ _ _ _ Hr). destruct (ri_tracked _ _ _ _ _ _ Hr) as [->|[|]]; done.
Qed.

(** Calling Next until it has no task terminates after one call per digest
    and one more, and gives exactly one task per digest of the storage, in
    first-seen order, with every path of that digest. *)
Theorem next_lists_every_digest {S} `{DedupeStoreI S} `{GoDigestLaws} (dd : bool) (st st1 st2 : S)
    (repos : list string) (x : grouped) :
  ds_GetRepositories st = (Ok repos, st1) -> repos <> [] -> BlobPathsByDigest repos st1 = (Ok x, st2) ->
  drain (1 + length (fst x)) (mkWorld st (new_generator dd true) [] []) = (tasks_of dd x, Ok tt).
Proof. apply drain_fresh. Qed.

(** On the image store, every task a run makes is about a valid digest and
    names only blob paths of that digest in listed repositories: a request that
    keeps the content addressing of the store. *)
Theorem dedupe_tasks_addressed {C} `{CacheLaws C} `{GoDigestLaws} `{OciCodec} (cfg : config fs C) (dd : bool)
    (st : store fs C) (tr : list event) (x : sys) (t : task) (ctxErr : option err) :
  is_abs (cf_rootDir cfg) = true ->
  steps (H := image_store_dedupe cfg) (start st dd) tr x -> t ∈ generated tr ->
  request_ok cfg (RRunDedupeForDigest ctxErr (t_digest t) (t_dedupe t) (t_duplicateBlobs t)).
Proof.
  intros Hroot [_ _ _ _ Hg _]%steps_inv Ht.
  destruct (ended (s_phase x)).
  - destruct Hg as [(?&?&_&E)|(repos&y&Hl&E)]; rewrite E in Ht; [by apply elem_of_nil in Ht|].
    by eapply listed_task_ok.
  - destruct (gi_listing _ _ _ Hg) as [(_&_&_&E)|(y&_&_&_&Hl&_&_&E)].
    + apply List.app_eq_nil in E as [E _]. rewrite E in Ht. by apply elem_of_nil in Ht.
    + eapply listed_task_ok; [done|exact Hl|]. rewrite <-(take_drop (nextIndex (w_gen (s_world x)))).
      rewrite <-E. apply elem_of_app. left. apply elem_of_app. by left.
Qed.

(** ** Witnesses: one repository with two blobs, the store of [pushes]. *)
Definition small_store : DedupeStoreI unit := {|
  ds_GetRepositories := ret ["r"];
  ds_GetAllBlobs _ := ret [sha256 "x"];
  ds_BlobPath r d := [r; d];
  ds_RunDedupeForDigest _ _ _ _ := ret tt
|}.
Definition small_task : task := mkTask (sha256 "x") true [["r"; sha256 "x"]] (Some 0).

(** Next, queue, work, onDone, Next, reset, then the two completion checks. *)
Lemma small_steps : exists x, steps (H := small_store) (start tt true) [Generated small_task; Succeeded small_task] x /\
  s_phase x = Finished /\ s_tasks x = [] /\ s_ok x = [] /\ w_checks (s_world x) = [] /\ s_checked x = [] /\
  s_fired x = [0].
Proof.
  pose proof (steps_nil (H := small_store) (start tt true)) as Hs.
  eapply steps_snoc in Hs; [|eapply st_next; vm_compute; reflexivity].
  eapply steps_snoc in Hs; [|eapply st_queue; vm_compute; reflexivity].
  eapply steps_snoc in Hs; [|eapply (st_work _ None _ _ _ [] []); vm_compute; reflexivity].
  eapply steps_snoc in Hs; [|eapply (st_onDone _ _ _ _ _ _ [] []); vm_compute; reflexivity].
  eapply steps_snoc in Hs; [|eapply st_next; vm_compute; reflexivity].
  eapply steps_snoc in Hs; [|eapply st_reset; vm_compute; reflexivity].
  eapply steps_snoc in Hs; [|eapply (st_check _ _ [] [0]); vm_compute; reflexivity].
  eapply steps_snoc in Hs; [|eapply (st_check _ _ [] []); vm_compute; reflexivity].
  eapply steps_snoc in Hs; [|eapply (st_complete _ _ _ _ _ [] [0])].
  eapply steps_snoc in Hs; [|eapply (st_complete _ _ _ _ _ [] [])].
  eexists. split; [exact Hs|]. repeat split.
Qed.
Lemma completion_after_success_witness : exists x : sys (S := unit),
  s_fired x <> [] /\ complete (H := small_store) true [small_task] /\ failed [Generated small_task; Succeeded small_task] = [].
Proof.
  destruct small_steps as (x&Hs&_&_&_&_&_&Hf). exists x. assert (s_fired x <> []) as Hne by (rewrite Hf; discriminate).
  split; [exact Hne|]. destruct (completion_after_success true tt _ x Hs Hne) as (_&Hc&_&Hfl).
  split; [exact Hc|exact Hfl].
Defined.
Lemma completion_reached_witness : exists x,
  steps (H := small_store) (start tt true) [Generated small_task; Succeeded small_task] x /\ s_fired x = [0].
Proof.
  destruct small_steps as (x&Hs&Hp&Ht&Ho&Hc&Hk&_). exists x. split; [exact Hs|].
  apply (completion_reached true tt _ x Hs Hp Ht Ho Hc Hk). reflexivity.
Defined.
Lemma next_lists_every_digest_witness :
  drain (H := small_store) 2 (mkWorld tt (new_generator true true) [] []) = ([small_task], Ok tt).
Proof.
  etransitivity; [apply (next_lists_every_digest (H := small_store) true tt tt tt ["r"]
    ([sha256 "x"], {[ sha256 "x" := [["r"; sha256 "x"]] ]}) eq_refl)|].
  - discriminate.
  - vm_compute. reflexivity.
  - vm_compute. reflexivity.
Defined.
Lemma dedupe_tasks_addressed_witness :
  let cfg := zot_cfg true in
  let t := mkTask (sha256 a_config) true
    [IS.BlobPath cfg "a" (sha256 a_config); IS.BlobPath cfg "b/c" (sha256 a_config)] (Some 0) in
  request_ok cfg (RRunDedupeForDigest None (t_digest t) (t_dedupe t) (t_duplicateBlobs t)).
Proof.
  intros cfg t.
  pose proof (steps_nil (H := image_store_dedupe cfg) (start (serve_all cfg pushes zot_new) true)) as Hs.
  eapply steps_snoc in Hs;
    [|eapply (st_next _ (Some t)); apply pair_fst; vm_compute; reflexivity].
  eapply steps_snoc in Hs;
    [|eapply st_queue; apply pair_fst; vm_compute; reflexivity].
  exact (dedupe_tasks_addressed cfg true _ _ _ t None eq_refl Hs (list_elem_of_here _ _)).
Defined.
