(* ===== verification/TimeWindow.v ===== *)
(** * Daily time windows (pkg/api/config/gctimewindow.go)

    The window of the day in which a garbage-collection sweep may start: its
    parsing from "HH:MM-HH:MM", its rendering, and the test of an instant. An
    instant is a number of nanoseconds since the Unix epoch. *)

From Stdlib Require Import ZArith Lia Ascii String.
From stdpp Require Import base tactics list strings.
From S2P Require Import Prelude.

Local Open Scope string_scope.

Definition minutesInHour : Z := 60.

Record GCTimeWindow : Type := mkWindow { startMin : Z; endMin : Z }.
#[export] Instance window_eq_dec : EqDecision GCTimeWindow.
Proof. solve_decision. Defined.
Definition no_window : GCTimeWindow := mkWindow 0 0.

Definition IsSet (w : GCTimeWindow) : bool := negb (bool_decide (w = no_window)).

(** time.Time.Hour and Minute in UTC. *)
Definition nanoseconds_per_minute : Z := 60 * 1000000000.
Definition Minute (now : Z) : Z := (now / nanoseconds_per_minute) mod 60.
Definition Hour (now : Z) : Z := (now / (60 * nanoseconds_per_minute)) mod 24.

Definition Contains (w : GCTimeWindow) (now : Z) : bool :=
  if negb (IsSet w) then true
  else
    let minutes := (Hour now * minutesInHour + Minute now)%Z in
    if (startMin w <=? endMin w)%Z then (startMin w <=? minutes)%Z && (minutes <? endMin w)%Z
    else (startMin w <=? minutes)%Z || (minutes <? endMin w)%Z.

(** ** Rendering *)
Definition digit (n : Z) : ascii := ascii_of_N (48 + Z.to_N n).
(** fmt's %02d for a number below 100. *)
Definition two_digits (n : Z) : string := String (digit (n / 10)) (String (digit (n mod 10)) "").
Definition formatTimeOfDay (minutes : Z) : string :=
  two_digits (minutes / minutesInHour) ++ ":" ++ two_digits (minutes mod minutesInHour).
Definition window_String (w : GCTimeWindow) : string :=
  if negb (IsSet w) then "" else formatTimeOfDay (startMin w) ++ "-" ++ formatTimeOfDay (endMin w).

(** ** Parsing *)
Definition isDigit (c : ascii) : bool := in_range "0" "9" c.
Definition digit_value (c : ascii) : Z := Z.of_N (N_of_ascii c) - 48.

(** getnum of package time: one or two digits, exactly two when [fixed]. *)
Definition getnum (s : string) (fixed : bool) : option (Z * string) :=
  match s with
  | String c s1 =>
      if negb (isDigit c) then None
      else match s1 with
           | String d s2 =>
               if isDigit d then Some (digit_value c * 10 + digit_value d, s2)%Z
               else if fixed then None else Some (digit_value c, s1)
           | EmptyString => if fixed then None else Some (digit_value c, s1)
           end
  | EmptyString => None
  end.

(** time.Parse with the layout "15:04", as the hour and the minute. *)
Definition time_Parse (value : string) : option (Z * Z) :=
  match getnum value false with
  | Some (hour, rest) =>
      if (24 <=? hour)%Z then None
      else match rest with
           | String c rest =>
               if negb (bool_decide (c = ":"%char)) then None
               else match getnum rest true with
                    | Some (min, "") => if (60 <=? min)%Z then None else Some (hour, min)
                    | _ => None
                    end
           | EmptyString => None
           end
  | None => None
  end.

Definition ErrBadConfig : err := ErrOther "bad config".

Definition parseTimeOfDay (value : string) : res Z :=
  match time_Parse value with
  | None => Err ErrBadConfig
  | Some (hour, min) => Ok (hour * minutesInHour + min)%Z
  end.

Definition parseGCTimeWindow (window : string) : res GCTimeWindow :=
  if decide (window = "") then Ok no_window
  else match Cut "-" window with
  | None => Err ErrBadConfig
  | Some (start, finish) =>
      res_bind (parseTimeOfDay (TrimSpace start)) (fun startMin =>
      res_bind (parseTimeOfDay (TrimSpace finish)) (fun endMin =>
      if (startMin =? endMin)%Z then Err ErrBadConfig else Ok (mkWindow startMin endMin)))
  end.

(** ** Properties *)

(** The windows a configuration can hold: none, or two distinct minutes of a day. *)
Definition window_ok (w : GCTimeWindow) : Prop :=
  w = no_window \/
  (0 <= startMin w < 1440 /\ 0 <= endMin w < 1440 /\ startMin w <> endMin w)%Z.

Lemma digit_range n : (0 <= n < 10)%Z ->
  In n [0; 1; 2; 3; 4; 5; 6; 7; 8; 9]%Z.
Proof. intros H. simpl. lia. Qed.

Ltac each_digit H := apply digit_range in H; simpl in H;
  repeat (destruct H as [<-|H]); [..|destruct H].

Lemma isDigit_digit n : (0 <= n < 10)%Z -> isDigit (digit n) = true.
Proof. intros H. each_digit H; reflexivity. Qed.
Lemma digit_value_digit n : (0 <= n < 10)%Z -> digit_value (digit n) = n.
Proof. intros H. each_digit H; reflexivity. Qed.
Lemma digit_no_dash n : (0 <= n < 10)%Z -> digit n <> "-"%char.
Proof. intros H. each_digit H; discriminate. Qed.
Lemma digit_no_space n : (0 <= n < 10)%Z -> is_space (digit n) = false.
Proof. intros H. each_digit H; reflexivity. Qed.

Lemma isDigit_value c : isDigit c = true -> (0 <= digit_value c < 10)%Z.
Proof.
  unfold isDigit, in_range, digit_value. intros [H1%N.leb_le H2%N.leb_le]%andb_prop.
  change (N_of_ascii "0") with 48%N in H1. change (N_of_ascii "9") with 57%N in H2. lia.
Qed.

Lemma getnum_two n rest b : (0 <= n < 100)%Z ->
  getnum (two_digits n ++ rest) b = Some (n, rest).
Proof.
  intros H. unfold two_digits. pose proof (Z.div_mod n 10 ltac:(lia)).
  assert (0 <= n / 10 < 10)%Z by (split; [apply Z.div_pos|apply Z.div_lt_upper_bound]; lia).
  assert (0 <= n mod 10 < 10)%Z by (apply Z.mod_pos_bound; lia).
  simpl. rewrite !isDigit_digit, !digit_value_digit by done. simpl. do 2 f_equal. lia.
Qed.

Lemma getnum_bounds s b n rest : getnum s b = Some (n, rest) -> (0 <= n < 100)%Z.
Proof.
  unfold getnum. intros H. break; repeat match goal with
  | E : isDigit _ = true |- _ => apply isDigit_value in E
  | E : negb (isDigit ?c) = false |- _ => apply negb_false_iff, isDigit_value in E
  end; lia.
Qed.

Lemma day_minutes m : (0 <= m < 1440)%Z ->
  (0 <= m / minutesInHour < 24 /\ 0 <= m mod minutesInHour < 60 /\
   m / minutesInHour * minutesInHour + m mod minutesInHour = m)%Z.
Proof.
  intros H. unfold minutesInHour. pose proof (Z.div_mod m 60 ltac:(lia)).
  repeat split; try (apply Z.mod_pos_bound; lia); try apply Z.div_pos;
    try apply Z.div_lt_upper_bound; lia.
Qed.

Lemma parseTimeOfDay_format m : (0 <= m < 1440)%Z ->
  parseTimeOfDay (formatTimeOfDay m) = Ok m.
Proof.
  intros H. destruct (day_minutes m H) as (Hh & Hm & E).
  unfold parseTimeOfDay, time_Parse, formatTimeOfDay.
  rewrite getnum_two by lia. rewrite (proj2 (Z.leb_gt 24 _)) by lia.
  change (":" ++ two_digits (m mod minutesInHour))
    with (String ":" (two_digits (m mod minutesInHour))).
  cbv beta iota. rewrite bool_decide_eq_true_2 by done. cbv beta iota delta [negb].
  rewrite <-(string_app_nil_r (two_digits (m mod minutesInHour))), getnum_two by lia.
  rewrite (proj2 (Z.leb_gt 60 _)) by lia. by rewrite E.
Qed.

Lemma parseTimeOfDay_bounds s m : parseTimeOfDay s = Ok m -> (0 <= m < 1440)%Z.
Proof.
  unfold parseTimeOfDay, time_Parse, minutesInHour. intros H.
  destruct (getnum s false) as [[h r]|] eqn:E1; [|done]. apply getnum_bounds in E1.
  break. match goal with E : getnum _ true = _ |- _ => apply getnum_bounds in E end. lia.
Qed.

Lemma trim_format m : (0 <= m < 1440)%Z -> TrimSpace (formatTimeOfDay m) = formatTimeOfDay m.
Proof.
  intros H. destruct (day_minutes m H) as (Hh & Hm & _). unfold formatTimeOfDay, two_digits.
  set (h := (m / minutesInHour)%Z) in *. set (k := (m mod minutesInHour)%Z) in *.
  assert (0 <= h / 10 < 10)%Z by (split; [apply Z.div_pos|apply Z.div_lt_upper_bound]; lia).
  assert (0 <= k mod 10 < 10)%Z by (apply Z.mod_pos_bound; lia).
  unfold TrimSpace. simpl. rewrite digit_no_space by done.
  unfold String.rev. simpl. by rewrite digit_no_space by done.
Qed.

Lemma cut_format m rest : (0 <= m < 1440)%Z ->
  Cut "-" (formatTimeOfDay m ++ "-" ++ rest) = Some (formatTimeOfDay m, rest).
Proof.
  intros H. destruct (day_minutes m H) as (Hh & Hm & _). unfold formatTimeOfDay, two_digits.
  set (h := (m / minutesInHour)%Z) in *. set (k := (m mod minutesInHour)%Z) in *.
  assert (0 <= h / 10 < 10 /\ 0 <= k / 10 < 10)%Z
    by (repeat split; try apply Z.div_pos; try apply Z.div_lt_upper_bound; lia).
  assert (0 <= h mod 10 < 10 /\ 0 <= k mod 10 < 10)%Z by (split; apply Z.mod_pos_bound; lia).
  simpl. rewrite !decide_False by (apply digit_no_dash; lia). done.
Qed.

(** C34 What is rendered is read back: any window a configuration can hold
    (none, or two distinct minutes of a day, wrapping or not) is parsed from
    its own text, so saving and reloading the configuration changes nothing. *)
Theorem window_round_trip (w : GCTimeWindow) :
  window_ok w -> parseGCTimeWindow (window_String w) = Ok w.
Proof.
  intros [->|(Hs & He & Hne)]; [reflexivity|]. unfold window_String.
  assert (IsSet w = true) as ->.
  { unfold IsSet. rewrite bool_decide_eq_false_2; [done|]. intros ->. by apply Hne. }
  simpl negb. cbv iota. unfold parseGCTimeWindow. rewrite decide_False by done.
  rewrite cut_format, !trim_format, !parseTimeOfDay_format by done. simpl.
  rewrite (proj2 (Z.eqb_neq _ _) Hne). by destruct w.
Qed.

Lemma window_round_trip_witness :
  parseGCTimeWindow (window_String (mkWindow 1325 360)) = Ok (mkWindow 1325 360).
Proof. apply (window_round_trip (mkWindow 1325 360)). right. simpl. lia. Defined.

Example window_text : window_String (mkWindow 1325 360) = "22:05-06:00".
Proof. reflexivity. Qed.
Example window_lenient : parseGCTimeWindow " 1:00- 08:00" = Ok (mkWindow 60 480).
Proof. reflexivity. Qed.

(** A window that is read is never out of range nor empty, and it is the
    unrestricted one exactly when the text is empty: [IsSet] may be a plain
    comparison with the zero value. *)
Theorem parsed_window_ok (s : string) (w : GCTimeWindow) :
  parseGCTimeWindow s = Ok w -> window_ok w /\ (IsSet w = false <-> s = "").
Proof.
  unfold parseGCTimeWindow. intros H. case_decide as Hs.
  { injection H as <-. split; [by left|]. by split. }
  destruct (Cut "-" s) as [[a b]|]; [|done].
  destruct (parseTimeOfDay (TrimSpace a)) as [m|] eqn:E1; [|done]. simpl in H.
  destruct (parseTimeOfDay (TrimSpace b)) as [n|] eqn:E2; [|done]. simpl in H.
  destruct (m =? n)%Z eqn:E3; [done|]. injection H as <-.
  apply parseTimeOfDay_bounds in E1. apply parseTimeOfDay_bounds in E2. apply Z.eqb_neq in E3.
  split; [by right|]. split; [|done]. unfold IsSet. rewrite negb_false_iff, bool_decide_eq_true.
  intros [= -> ->]. done.
Qed.

Lemma parsed_window_ok_witness :
  window_ok (mkWindow 1320 360) /\ (IsSet (mkWindow 1320 360) = false <-> "22:00-06:00" = "").
Proof. apply (parsed_window_ok "22:00-06:00"). reflexivity. Defined.

(** [Contains] is the cyclic interval of the day: the minutes elapsed
    since the window opened are fewer than the window's length, both counted
    around midnight, whether or not the window wraps past it. *)
Theorem contains_cyclic (w : GCTimeWindow) (now : Z) :
  window_ok w -> IsSet w = true ->
  Contains w now = true <->
  ((now / nanoseconds_per_minute - startMin w) mod 1440 < (endMin w - startMin w) mod 1440)%Z.
Proof.
  intros [->|(Hs & He & Hne)]; [done|]. intros Hset. unfold Contains, Hour, Minute, minutesInHour.
  rewrite Hset. simpl negb. cbv iota.
  set (t := (now / nanoseconds_per_minute)%Z).
  replace (now / (60 * nanoseconds_per_minute))%Z with (t / 60)%Z
    by (unfold t; rewrite Z.div_div by done; f_equal; lia).
  set (q := (t / 1440)%Z). set (m := (t / 60 mod 24 * 60 + t mod 60)%Z).
  assert (t = 1440 * q + m /\ 0 <= m < 1440)%Z as [Et Hm].
  { unfold q, m. pose proof (Z.div_mod t 60 ltac:(lia)). pose proof (Z.div_mod (t / 60) 24 ltac:(lia)).
    pose proof (Z.mod_pos_bound t 60 ltac:(lia)). pose proof (Z.mod_pos_bound (t / 60) 24 ltac:(lia)).
    replace (t / 1440)%Z with (t / 60 / 24)%Z by (rewrite Z.div_div by lia; done). lia. }
  clearbody m q. rewrite Et.
  replace (1440 * q + m - startMin w)%Z with ((m - startMin w) + q * 1440)%Z by lia.
  rewrite Z_mod_plus_full.
  assert (forall x, -1440 < x < 1440 -> x mod 1440 = if x <? 0 then x + 1440 else x)%Z as Hmod.
  { intros x Hx. destruct (Z.ltb_spec x 0); [|by apply Z.mod_small; lia].
    rewrite <-(Z_mod_plus_full x 1). apply Z.mod_small. lia. }
  rewrite !Hmod by lia.
  destruct (Z.leb_spec (startMin w) (endMin w)), (Z.ltb_spec (m - startMin w) 0),
    (Z.ltb_spec (endMin w - startMin w) 0); rewrite ?andb_true_iff, ?orb_true_iff,
    ?Z.leb_le, ?Z.ltb_lt; lia.
Qed.

(** 23:30 on the first day lies in a window from 22:00 to 06:00. *)
Lemma contains_cyclic_witness : Contains (mkWindow 1320 360) (1410 * nanoseconds_per_minute) = true.
Proof. apply (contains_cyclic (mkWindow 1320 360) (1410 * nanoseconds_per_minute)); [right; simpl; lia|reflexivity|reflexivity]. Defined.
