(* ===== verification/Runtime.v ===== *)
(** * The surroundings of a call: the clock and the context

    What the modelled code reads of the Go runtime: time.Now, as the sequence
    of the instants it returns (nanoseconds since the Unix epoch), and the
    cancellation of a context, as the number of times the code still finds it
    alive before it is cancelled for good. *)

From Stdlib Require Import ZArith Lia.
From stdpp Require Import base tactics list.
From S2P Require Import Prelude.

Record env : Type := mkEnv {
  env_clock : nat -> Z;        (* the n-th reading of the clock *)
  env_reads : nat;             (* how many readings were made *)
  env_alive : option nat       (* [None]: never cancelled *)
}.

Definition Now : ST env Z := fun e =>
  (Ok (env_clock e (env_reads e)), mkEnv (env_clock e) (S (env_reads e)) (env_alive e)).

(** pkg/common/common.go *)
Definition IsContextDone : ST env bool := fun e =>
  match env_alive e with
  | None => (Ok false, e)
  | Some 0 => (Ok true, e)
  | Some (S n) => (Ok false, mkEnv (env_clock e) (env_reads e) (Some n))
  end.

(** A time.Duration is a 64-bit integer: [-d] wraps around. *)
Definition int64 (z : Z) : Z := ((z + 2 ^ 63) mod 2 ^ 64 - 2 ^ 63)%Z.
Definition minus_duration (now d : Z) : Z := (now + int64 (- d))%Z.

(** The clock stays between two instants. *)
Definition within (lo hi : Z) (e : env) : Prop := forall n, (lo <= env_clock e n <= hi)%Z.

Lemma int64_small z : (- 2 ^ 63 <= z < 2 ^ 63)%Z -> int64 z = z.
Proof. intros H. unfold int64. rewrite Z.mod_small; lia. Qed.

Lemma int64_add_l a b : int64 (int64 a + b) = int64 (a + b).
Proof.
  unfold int64. f_equal. replace ((a + 2 ^ 63) mod 2 ^ 64 - 2 ^ 63 + b + 2 ^ 63)%Z with ((a + 2 ^ 63) mod 2 ^ 64 + b)%Z by lia.
  rewrite Zplus_mod_idemp_l. f_equal. lia.
Qed.

Lemma now_within lo hi e : within lo hi e -> exists t e',
  Now e = (Ok t, e') /\ (lo <= t <= hi)%Z /\ env_clock e' = env_clock e /\ env_alive e' = env_alive e.
Proof. intros H. eexists _, _. split; [done|]. split; [apply H|]. done. Qed.

Lemma alive_never e : env_alive e = None -> IsContextDone e = (Ok false, e).
Proof. unfold IsContextDone. by intros ->. Qed.

(** A computation on a part of a larger state. *)
Definition zoom {S T A} (get_part : S -> T) (set_part : T -> S -> S) (m : ST T A) : ST S A := fun s =>
  let '(r, t) := m (get_part s) in (r, set_part t s).
