(* ===== verification/Retention.v ===== *)
(** * Retention policies (pkg/retention)

    Which tags and which untagged manifests garbage collection must keep: the
    candidates taken from the metadata of a repository or from its index.json,
    the four rules, the matching of repositories and tags to policies, and the
    three queries of the policy manager. The glob and regular expression
    matchers are parameters. Logging is left out, and with it the field
    RetainedBy of a candidate, which only the log reads. *)

From Stdlib Require Import ZArith Lia String Sorted.
From stdpp Require Import base tactics list gmap strings sorting.
From S2P Require Import Prelude Runtime Oci IndexOps StorageCommon Concrete.

Local Open Scope string_scope.
Local Open Scope list_scope.

(** Package regexp: compilation of a pattern and unanchored matching. *)
Class RegexpEngine := {
  compiled_regexp : Type;
  regexp_Compile : string -> option compiled_regexp;
  MatchString : compiled_regexp -> string -> bool
}.

(** ** Configuration (pkg/api/config/config.go) *)
Record KeepTagsPolicy : Type := mkKeepTags {
  kt_Patterns : list string;
  kt_PulledWithin : option Z;
  kt_PushedWithin : option Z;
  kt_MostRecentlyPushedCount : Z;
  kt_MostRecentlyPulledCount : Z
}.
Record KeepUntaggedPolicy : Type := mkKeepUntagged {
  ku_PulledWithin : option Z;
  ku_PushedWithin : option Z;
  ku_MostRecentlyPushedCount : Z;
  ku_MostRecentlyPulledCount : Z
}.
Record RetentionPolicy : Type := mkPolicy {
  Repositories : list string;
  DeleteReferrers : bool;
  DeleteUntagged : option bool;
  KeepTags : list KeepTagsPolicy;
  KeepUntagged : option KeepUntaggedPolicy
}.
Record ImageRetention : Type := mkRetention {
  DryRun : bool;
  Delay : Z;
  Policies : list RetentionPolicy
}.
Definition no_policy : RetentionPolicy := mkPolicy [] false None [] None.

(** ** Metadata (pkg/meta/types/types.go), the parts retention reads *)
Record DescriptorStatistics : Type := mkStatistics {
  LastPullTimestamp : Z;
  ds_PushTimestamp : Z
}.
Record meta_descriptor : Type := mkMetaDescriptor { md_Digest : string; md_MediaType : string }.
Record RepoMeta : Type := mkRepoMeta {
  rm_Name : string;
  rm_Tags : gmap string meta_descriptor;
  rm_Statistics : gmap string DescriptorStatistics
}.

(** ** Candidates (candidate.go) *)
Record Candidate : Type := mkCandidate {
  DigestStr : string;
  c_MediaType : string;
  Tag : string;
  PushTimestamp : Z;
  PullTimestamp : Z
}.
#[export] Instance Candidate_eq_dec : EqDecision Candidate.
Proof. solve_decision. Defined.

(** The zero time.Time: the first of January of year 1. *)
Definition zero_time : Z := -62135596800 * 1000000000.

(** ** Rules (rules.go) *)
Inductive Rule : Type :=
  | DaysPull (duration : Z)
  | DaysPush (duration : Z)
  | latestPull (count : Z)
  | latestPush (count : Z).

(** The run-time panic of a slice expression out of bounds. *)
Definition ErrSliceBounds : err := ErrPanic "slice bounds out of range".

Section retention.
Context `{SliceSort} `{MapIter} `{Glob} `{RegexpEngine}.

Record pm : Type := mkPm {
  pm_compiled : gmap string compiled_regexp;  (* RegexMatcher.compiled *)
  pm_env : env
}.
Definition on_env {A} (m : ST env A) : ST pm A :=
  zoom pm_env (fun e p => mkPm (pm_compiled p) e) m.

(** ** Candidates *)
Definition candidate_of_tag (repoMeta : RepoMeta) (entry : string * meta_descriptor) : option Candidate :=
  let '(tag, desc) := entry in
  stats ← rm_Statistics repoMeta !! md_Digest desc;
  Some (mkCandidate (md_Digest desc) (md_MediaType desc) tag (ds_PushTimestamp stats) (LastPullTimestamp stats)).
Definition GetCandidates (repoMeta : RepoMeta) : list Candidate :=
  omap (candidate_of_tag repoMeta) (map_iter (rm_Tags repoMeta)).

Definition isUntaggedRetentionDescriptor (manifest : Descriptor) : bool :=
  match ref_name manifest with
  | Some _ => false
  | None => IsImageManifestMediaType (MediaType manifest) || IsImageIndexMediaType (MediaType manifest)
  end.

Definition candidate_of_untagged (repoMeta : RepoMeta) (manifest : Descriptor) : option Candidate :=
  if negb (isUntaggedRetentionDescriptor manifest) then None
  else
    stats ← rm_Statistics repoMeta !! Digest manifest;
    Some (mkCandidate (Digest manifest) (MediaType manifest) "" (ds_PushTimestamp stats) (LastPullTimestamp stats)).
Definition GetUntaggedCandidates (repoMeta : RepoMeta) (index : Index) : list Candidate :=
  omap (candidate_of_untagged repoMeta) (Manifests index).

Definition getIndexUntaggedDigests (index : Index) : list string :=
  Digest <$> filter (fun m => isUntaggedRetentionDescriptor m = true) (Manifests index).

Definition candidate_of_index (manifest : Descriptor) : option Candidate :=
  match ref_name manifest with
  | None => None
  | Some tag => Some (mkCandidate (Digest manifest) (MediaType manifest) tag zero_time zero_time)
  end.
Definition GetCandidatesFromIndex (index : Index) : list Candidate :=
  omap candidate_of_index (Manifests index).

(** ** Matching *)

(** The loop over the patterns; a compiled pattern is kept for the next call. *)
Fixpoint match_regexes (name : string) (regexes : list string) : ST pm bool :=
  match regexes with
  | [] => ret false
  | regex :: rest =>
      let* p := get in
      match pm_compiled p !! regex with
      | Some tagReg => if MatchString tagReg name then ret true else match_regexes name rest
      | None =>
          match regexp_Compile regex with
          | Some tagReg =>
              put (mkPm (<[regex := tagReg]> (pm_compiled p)) (pm_env p)) ;;;
              if MatchString tagReg name then ret true else match_regexes name rest
          | None => match_regexes name rest
          end
      end
  end.
Definition MatchesListOfRegex (name : string) (regexes : list string) : ST pm bool :=
  match regexes with [] => ret true | _ => match_regexes name regexes end.

(** ** Rules *)
Definition take_latest (timestamp : Candidate -> Z) (count : Z) (candidates : list Candidate)
    : res (list Candidate * list Candidate) :=
  let candidates := slice_sort (fun a b => (timestamp b <? timestamp a)%Z) candidates in
  let upper := Z.min count (Z.of_nat (length candidates)) in
  if (upper <? 0)%Z then Err ErrSliceBounds
  else Ok (candidates, take (Z.to_nat upper) candidates).

(** The results of Perform: the candidates as the call leaves the slice
    (sort.Slice works in place) and the ones the rule retains. *)
Definition DaysPull_Perform (duration : Z) (candidates : list Candidate)
    : ST pm (list Candidate * list Candidate) :=
  let* now := on_env Now in
  let timestamp := minus_duration now duration in
  ret (candidates, filter (fun c => (timestamp < PullTimestamp c \/ timestamp < PushTimestamp c)%Z) candidates).
Definition DaysPush_Perform (duration : Z) (candidates : list Candidate)
    : ST pm (list Candidate * list Candidate) :=
  let* now := on_env Now in
  let timestamp := minus_duration now duration in
  ret (candidates, filter (fun c => (timestamp < PushTimestamp c)%Z) candidates).
Definition latestPull_Perform (count : Z) (candidates : list Candidate)
    : ST pm (list Candidate * list Candidate) := lift_res (take_latest PullTimestamp count candidates).
Definition latestPush_Perform (count : Z) (candidates : list Candidate)
    : ST pm (list Candidate * list Candidate) := lift_res (take_latest PushTimestamp count candidates).
Definition Perform (rule : Rule) : list Candidate -> ST pm (list Candidate * list Candidate) :=
  match rule with
  | DaysPull duration => DaysPull_Perform duration
  | DaysPush duration => DaysPush_Perform duration
  | latestPull count => latestPull_Perform count
  | latestPush count => latestPush_Perform count
  end.

Definition getRules (mostRecentlyPulledCount mostRecentlyPushedCount : Z)
    (pulledWithin pushedWithin : option Z) : list Rule :=
  (if (mostRecentlyPulledCount =? 0)%Z then [] else [latestPull mostRecentlyPulledCount]) ++
  (if (mostRecentlyPushedCount =? 0)%Z then [] else [latestPush mostRecentlyPushedCount]) ++
  option_list (DaysPull <$> pulledWithin) ++
  option_list (DaysPush <$> pushedWithin).
Definition getTagRules (p : KeepTagsPolicy) : list Rule :=
  getRules (kt_MostRecentlyPulledCount p) (kt_MostRecentlyPushedCount p) (kt_PulledWithin p) (kt_PushedWithin p).
Definition getUntaggedRules (p : KeepUntaggedPolicy) : list Rule :=
  getRules (ku_MostRecentlyPulledCount p) (ku_MostRecentlyPushedCount p) (ku_PulledWithin p) (ku_PushedWithin p).

(** ** The policy manager (retention.go) *)
Variable config : ImageRetention.

Fixpoint matches_some_glob (patterns : list string) (repo : string) : bool :=
  match patterns with
  | [] => false
  | pattern :: rest =>
      match glob_Match pattern repo with
      | Ok true => true
      | _ => matches_some_glob rest repo
      end
  end.
Fixpoint find_policy (policies : list RetentionPolicy) (repo : string) : res RetentionPolicy :=
  match policies with
  | [] => Err ErrRetentionPolicyNotFound
  | policy :: rest =>
      if matches_some_glob (Repositories policy) repo then Ok policy else find_policy rest repo
  end.
Definition getRepoPolicy (repo : string) : res RetentionPolicy := find_policy (Policies config) repo.

Definition HasDeleteUntagged (repo : string) : bool :=
  match getRepoPolicy repo with
  | Ok policy => default true (DeleteUntagged policy)
  | Err _ => true
  end.
Definition HasDeleteReferrer (repo : string) : bool :=
  match getRepoPolicy repo with
  | Ok policy => DeleteReferrers policy
  | Err _ => false
  end.
Definition HasTagRetention (repo : string) : bool :=
  match getRepoPolicy repo with
  | Ok policy => (0 <? length (KeepTags policy))%nat
  | Err _ => false
  end.
Definition HasUntaggedRetention (repo : string) : bool :=
  match getRepoPolicy repo with
  | Ok policy =>
      match KeepUntagged policy with
      | Some k => (0 <? length (getUntaggedRules k))%nat
      | None => false
      end
  | Err _ => false
  end.

Fixpoint tag_policy_loop (idx : nat) (tag : string) (tagPolicies : list KeepTagsPolicy)
    : ST pm (KeepTagsPolicy * nat) :=
  match tagPolicies with
  | [] => throw ErrRetentionPolicyNotFound
  | tagPolicy :: rest =>
      let* matched := MatchesListOfRegex tag (kt_Patterns tagPolicy) in
      if (matched : bool) then ret (tagPolicy, idx) else tag_policy_loop (S idx) tag rest
  end.
Definition getTagPolicy (tag : string) (tagPolicies : list KeepTagsPolicy) : ST pm (KeepTagsPolicy * nat) :=
  tag_policy_loop 0 tag tagPolicies.

Record candidatesRules : Type := mkCandidatesRules {
  cr_candidates : list Candidate;
  cr_rules : list Rule
}.

Definition add_candidate (m : gmap nat candidatesRules) (c : Candidate) (p : KeepTagsPolicy) (id : nat)
    : gmap nat candidatesRules :=
  match m !! id with
  | None => <[id := mkCandidatesRules [c] (getTagRules p)]> m
  | Some g => <[id := mkCandidatesRules (cr_candidates g ++ [c]) (cr_rules g)]> m
  end.

Fixpoint group_loop (tagPolicies : list KeepTagsPolicy) (candidates : list Candidate)
    (m : gmap nat candidatesRules) : ST pm (gmap nat candidatesRules) :=
  match candidates with
  | [] => ret m
  | c :: rest =>
      let* r := try (getTagPolicy (Tag c) tagPolicies) in
      match r with
      | Err _ => group_loop tagPolicies rest m
      | Ok (p, id) => group_loop tagPolicies rest (add_candidate m c p id)
      end
  end.
Definition groupCandidatesByTagPolicy (repo : string) (candidates : list Candidate)
    : ST pm (gmap nat candidatesRules) :=
  let repoPolicy := match getRepoPolicy repo with Ok p => p | Err _ => no_policy end in
  group_loop (KeepTags repoPolicy) candidates ∅.

(** [if !slices.Contains(l, x) { l = append(l, x) }] *)
Definition add_new (l : list string) (x : string) : list string :=
  if contains l x then l else l ++ [x].

(** The groups in turn; [None] is the early return on a cancelled context. *)
Fixpoint index_groups_loop (groups : list (nat * candidatesRules)) (retainTags : list string)
    : ST pm (option (list string)) :=
  match groups with
  | [] => ret (Some retainTags)
  | (_, g) :: rest =>
      let* done := on_env IsContextDone in
      if (done : bool) then ret None
      else index_groups_loop rest (foldl add_new retainTags (Tag <$> cr_candidates g))
  end.

Definition GetRetainedTagsFromIndex (repo : string) (index : Index) : ST pm (list string) :=
  let candidates := GetCandidatesFromIndex index in
  let* grouped := groupCandidatesByTagPolicy repo candidates in
  let* r := index_groups_loop (map_iter grouped) [] in
  ret (default [] r).

Definition getIndexTags (index : Index) : list string := omap ref_name (Manifests index).

(** The rules in turn on one slice, each on the order the previous ones left. *)
Fixpoint rules_loop (rules : list Rule) (retainCandidates rulesCandidates : list Candidate)
    : ST pm (list Candidate) :=
  match rules with
  | [] => ret rulesCandidates
  | rule :: rest =>
      let* r := Perform rule retainCandidates in
      rules_loop rest (fst r) (rulesCandidates ++ snd r)
  end.

Fixpoint meta_groups_loop (groups : list (nat * candidatesRules)) (retainTags : list string)
    : ST pm (option (list string)) :=
  match groups with
  | [] => ret (Some retainTags)
  | (_, g) :: rest =>
      let* done := on_env IsContextDone in
      if (done : bool) then ret None
      else
        let* rulesCandidates := rules_loop (cr_rules g) (cr_candidates g) [] in
        let retainCandidates := if (0 <? length (cr_rules g))%nat then rulesCandidates else cr_candidates g in
        meta_groups_loop rest (foldl add_new retainTags (Tag <$> retainCandidates))
  end.

Definition GetRetainedTagsFromMetaDB (repoMeta : RepoMeta) (index : Index) : ST pm (list string) :=
  let candidates := GetCandidates repoMeta in
  let retainTags := filter (fun tag => Forall (fun c => Tag c <> tag) candidates) (getIndexTags index) in
  let* grouped := groupCandidatesByTagPolicy (rm_Name repoMeta) candidates in
  let* r := meta_groups_loop (map_iter grouped) retainTags in
  ret (default [] r).

(** The same rules with a test of the context before each. *)
Fixpoint untagged_rules_loop (rules : list Rule) (retainCandidates rulesCandidates : list Candidate)
    : ST pm (option (list Candidate)) :=
  match rules with
  | [] => ret (Some rulesCandidates)
  | rule :: rest =>
      let* done := on_env IsContextDone in
      if (done : bool) then ret None
      else
        let* r := Perform rule retainCandidates in
        untagged_rules_loop rest (fst r) (rulesCandidates ++ snd r)
  end.

(** The set retainDigestsSet has the digests of the list retainDigests, so
    both are the list here. *)
Definition keep_unknown (known : gset string) (retainDigests : list string) (digestStr : string)
    : list string :=
  if decide (digestStr ∈ known) then retainDigests else add_new retainDigests digestStr.

Definition GetRetainedUntaggedFromMetaDB (repoMeta : RepoMeta) (index : Index) : ST pm (list string) :=
  match getRepoPolicy (rm_Name repoMeta) with
  | Err _ => ret []
  | Ok policy =>
      match KeepUntagged policy with
      | None => ret []
      | Some keep =>
          let candidates := GetUntaggedCandidates repoMeta index in
          let candidateDigestsSet : gset string := list_to_set (DigestStr <$> candidates) in
          let retainDigests :=
            foldl (keep_unknown candidateDigestsSet) [] (getIndexUntaggedDigests index) in
          let rules := getUntaggedRules keep in
          if (length rules =? 0)%nat then ret []
          else
            let* r := untagged_rules_loop rules candidates [] in
            match r with
            | None => ret []
            | Some retainCandidates => ret (foldl add_new retainDigests (DigestStr <$> retainCandidates))
            end
      end
  end.
End retention.

(** ** Specification of the matching *)
Section spec.
Context `{SliceSort} `{MapIter} `{Glob} `{RegexpEngine}.

Definition matches (name regex : string) : bool :=
  match regexp_Compile regex with Some r => MatchString r name | None => false end.
(** An empty list of patterns matches every name. *)
Definition list_matches (name : string) (regexes : list string) : bool :=
  match regexes with [] => true | _ => existsb (matches name) regexes end.

(** The first policy whose patterns match a tag. *)
Fixpoint tag_policy (idx : nat) (tag : string) (ps : list KeepTagsPolicy) : option (KeepTagsPolicy * nat) :=
  match ps with
  | [] => None
  | p :: rest => if list_matches tag (kt_Patterns p) then Some (p, idx) else tag_policy (S idx) tag rest
  end.

(** The candidates of one policy, in their order. *)
Definition group_of (ps : list KeepTagsPolicy) (id : nat) (l : list Candidate) : list Candidate :=
  filter (fun c => snd <$> tag_policy 0 (Tag c) ps = Some id) l.

(** The patterns compiled so far are compiled right. *)
Definition compiled_ok (p : pm) : Prop :=
  forall regex r, pm_compiled p !! regex = Some r -> regexp_Compile regex = Some r.

(** A computation that may only add compiled patterns. *)
Definition quiet (p p' : pm) : Prop := compiled_ok p' /\ pm_env p' = pm_env p.

Lemma match_regexes_ok name regexes : forall p, compiled_ok p -> exists p',
  match_regexes name regexes p = (Ok (existsb (matches name) regexes), p') /\ quiet p p'.
Proof.
  induction regexes as [|regex rest IH]; intros p Hp; simpl; [by exists p|].
  unfold bind, get, put, matches. destruct (pm_compiled p !! regex) as [r|] eqn:El.
  - rewrite (Hp _ _ El). destruct (MatchString r name); [by exists p|]. by apply IH.
  - destruct (regexp_Compile regex) as [r|] eqn:Ec; simpl.
    + assert (quiet p (mkPm (<[regex:=r]> (pm_compiled p)) (pm_env p))) as [Hq1 Hq2].
      { split; [|done]. intros x y. simpl. rewrite lookup_insert_Some. intros [[<- <-]|[_ Hx]]; [done|by apply Hp]. }
      destruct (MatchString r name); [by eexists|]. destruct (IH _ Hq1) as (p'&E&[Hq3 Hq4]).
      exists p'. split; [done|]. split; [done|]. by rewrite Hq4.
    + by apply IH.
Qed.

(** Keeping the compiled patterns changes no answer. *)
Lemma matches_list_ok name regexes p : compiled_ok p -> exists p',
  MatchesListOfRegex name regexes p = (Ok (list_matches name regexes), p') /\ quiet p p'.
Proof. intros Hp. unfold MatchesListOfRegex, list_matches. destruct regexes; [by exists p|]. by apply match_regexes_ok. Qed.

Lemma tag_policy_ok ps tag : forall idx p, compiled_ok p -> exists p',
  tag_policy_loop idx tag ps p =
    (match tag_policy idx tag ps with Some x => Ok x | None => Err ErrRetentionPolicyNotFound end, p') /\
  quiet p p'.
Proof.
  induction ps as [|t rest IH]; intros idx p Hp; simpl; [by exists p|]. unfold bind.
  destruct (matches_list_ok tag (kt_Patterns t) p Hp) as (p1&->&[Hq1 Hq2]).
  destruct (list_matches tag (kt_Patterns t)); [by exists p1|].
  destruct (IH (S idx) p1 Hq1) as (p'&->&[Hq3 Hq4]). exists p'. split; [done|]. split; [done|congruence].
Qed.

Lemma tag_policy_bound ps tag t : forall idx id, tag_policy idx tag ps = Some (t, id) ->
  (idx <= id)%nat /\ ps !! (id - idx)%nat = Some t.
Proof.
  induction ps as [|u rest IH]; intros idx id; simpl; [done|]. destruct (list_matches tag (kt_Patterns u)).
  - intros [= -> ->]. by rewrite Nat.sub_diag.
  - intros [Hl Hlk]%IH. split; [lia|]. by replace (id - idx)%nat with (S (id - S idx)) by lia.
Qed.

(** The map of groups: the candidates of each policy that has some, with its rules. *)
Definition groups_ok (ps : list KeepTagsPolicy) (l : list Candidate) (m : gmap nat candidatesRules) : Prop :=
  forall id, match m !! id with
  | Some g => cr_candidates g = group_of ps id l /\ cr_candidates g <> [] /\
              exists t, ps !! id = Some t /\ cr_rules g = getTagRules t
  | None => group_of ps id l = []
  end.

Lemma group_of_snoc ps id l c : group_of ps id (l ++ [c]) =
  group_of ps id l ++ (if decide (snd <$> tag_policy 0 (Tag c) ps = Some id) then [c] else []).
Proof. unfold group_of. rewrite filter_app, filter_cons, filter_nil. by case_decide. Qed.

Lemma group_loop_ok ps todo : forall l m p, compiled_ok p -> groups_ok ps l m -> exists m' p',
  group_loop ps todo m p = (Ok m', p') /\ quiet p p' /\ groups_ok ps (l ++ todo) m'.
Proof.
  induction todo as [|c rest IH]; intros l m p Hp Hm; simpl.
  { exists m, p. by rewrite app_nil_r. }
  unfold bind, try, getTagPolicy. destruct (tag_policy_ok ps (Tag c) 0 p Hp) as (p1&->&[Hq1 Hq2]).
  rewrite (assoc_L (++) l [c] rest : l ++ c :: rest = (l ++ [c]) ++ rest).
  destruct (tag_policy 0 (Tag c) ps) as [[t id]|] eqn:Et.
  - destruct (IH (l ++ [c]) (add_candidate m c t id) p1) as (m'&p'&E&[Hq3 Hq4]&Hm'); [done| |].
    + apply tag_policy_bound in Et as Hb. destruct Hb as [_ Hb]. rewrite Nat.sub_0_r in Hb.
      intros id'. unfold add_candidate. rewrite group_of_snoc, Et. simpl.
      pose proof (Hm id) as Hid. destruct (m !! id) as [g|] eqn:Eg;
        (destruct (decide (id = id')) as [<-|Hne];
         [rewrite lookup_insert_eq, decide_True by done
         |rewrite lookup_insert_ne, decide_False, app_nil_r by congruence; apply Hm]).
      * destruct Hid as (Hc&Hne&t'&Ht&Hr). simpl. rewrite Hc. split; [done|]. split; [by destruct (group_of _ _ _)|].
        by exists t'.
      * simpl. rewrite Hid. split; [done|]. split; [done|]. by exists t.
    + exists m', p'. split; [done|]. split; [split; [done|congruence]|done].
  - destruct (IH (l ++ [c]) m p1) as (m'&p'&E&[Hq3 Hq4]&Hm'); [done| |].
    + intros id. rewrite group_of_snoc, Et. simpl. rewrite app_nil_r. apply Hm.
    + exists m', p'. split; [done|]. split; [split; [done|congruence]|done].
Qed.

Lemma group_ok cfg repo ps l p : compiled_ok p ->
  KeepTags (match getRepoPolicy cfg repo with Ok x => x | Err _ => no_policy end) = ps ->
  exists m p', groupCandidatesByTagPolicy cfg repo l p = (Ok m, p') /\ quiet p p' /\ groups_ok ps l m.
Proof.
  intros Hp <-. unfold groupCandidatesByTagPolicy.
  apply (group_loop_ok _ l [] ∅ p Hp). intros id. rewrite lookup_empty. done.
Qed.
End spec.

(** ** What the rules keep *)
Section rules.
Context `{SliceSort} `{MapIter} `{Glob} `{RegexpEngine} `{!SliceSortLaws}.
(** The clock stays between two instants during a call. *)
Context (lo hi : Z).

Definition no_later (ts : Candidate -> Z) (c : Candidate) (l : list Candidate) : nat :=
  length (filter (fun x => (ts c <= ts x)%Z) l).
Definition later (ts : Candidate -> Z) (c : Candidate) (l : list Candidate) : nat :=
  length (filter (fun x => (ts c < ts x)%Z) l).

(** A rule keeps [c] among [l] however the clock runs and ties are sorted. *)
Definition rule_must (r : Rule) (l : list Candidate) (c : Candidate) : Prop :=
  match r with
  | DaysPull d => (minus_duration hi d < PullTimestamp c \/ minus_duration hi d < PushTimestamp c)%Z
  | DaysPush d => (minus_duration hi d < PushTimestamp c)%Z
  | latestPull n => (Z.of_nat (no_later PullTimestamp c l) <= n)%Z
  | latestPush n => (Z.of_nat (no_later PushTimestamp c l) <= n)%Z
  end.

(** A rule may keep [c] among [l]. *)
Definition rule_may (r : Rule) (l : list Candidate) (c : Candidate) : Prop :=
  match r with
  | DaysPull d => (minus_duration lo d < PullTimestamp c \/ minus_duration lo d < PushTimestamp c)%Z
  | DaysPush d => (minus_duration lo d < PushTimestamp c)%Z
  | latestPull n => (Z.of_nat (later PullTimestamp c l) < n)%Z
  | latestPush n => (Z.of_nat (later PushTimestamp c l) < n)%Z
  end.

(** The counts of the configuration that make no rule panic. *)
Definition rule_safe (r : Rule) : Prop :=
  match r with latestPull n | latestPush n => (0 <= n)%Z | _ => True end.

(** A computation that reads the clock, compiles patterns, and no more. *)
Definition steady (p p' : pm) : Prop :=
  compiled_ok p' /\ env_clock (pm_env p') = env_clock (pm_env p) /\ env_alive (pm_env p') = env_alive (pm_env p).

Lemma steady_trans p1 p2 p3 : steady p1 p2 -> steady p2 p3 -> steady p1 p3.
Proof. intros (?&?&?) (?&?&?). split; [done|]. split; congruence. Qed.
Lemma quiet_steady p p' : quiet p p' -> steady p p'.
Proof. intros [? E]. split; [done|]. by rewrite E. Qed.
Lemma steady_within p p' : steady p p' -> within lo hi (pm_env p) -> within lo hi (pm_env p').
Proof. intros (_&E&_) Hw n. rewrite E. apply Hw. Qed.

#[export] Instance no_later_proper ts c : Proper ((≡ₚ) ==> eq) (no_later ts c).
Proof. intros l l' Hl. unfold no_later. by rewrite Hl. Qed.
#[export] Instance later_proper ts c : Proper ((≡ₚ) ==> eq) (later ts c).
Proof. intros l l' Hl. unfold later. by rewrite Hl. Qed.
#[export] Instance rule_must_proper r : Proper ((≡ₚ) ==> eq ==> iff) (rule_must r).
Proof. intros l l' Hl c ? <-. destruct r; simpl; rewrite ?Hl; done. Qed.
#[export] Instance rule_may_proper r : Proper ((≡ₚ) ==> eq ==> iff) (rule_may r).
Proof. intros l l' Hl c ? <-. destruct r; simpl; rewrite ?Hl; done. Qed.

(** In a list from the latest to the earliest, what comes before [c] is no
    earlier and what comes after it is no later. *)
Notation latest_first ts := (StronglySorted (fun x y => (ts y <= ts x)%Z)).

Lemma before_no_later ts c k : forall s, latest_first ts s -> c ∈ drop k s -> k < no_later ts c s.
Proof.
  unfold no_later. induction k as [|k IH]; intros s Hs Hc.
  - destruct (filter _ s) as [|x l] eqn:E; [|simpl; lia]. by apply (filter_nil_not_elem_of _ _ c) in E; [|lia].
  - destruct s as [|x s]; [by apply not_elem_of_nil in Hc|]. apply StronglySorted_cons in Hs as [Hx Hs].
    simpl in Hc. apply list_elem_of_lookup in Hc as Hc'. destruct Hc' as (i&Hi). rewrite lookup_drop in Hi.
    rewrite filter_cons_True by (exact (Forall_lookup_1 _ _ _ _ Hx Hi)). simpl. specialize (IH s Hs Hc). lia.
Qed.

Lemma later_before ts c i : forall s, latest_first ts s -> s !! i = Some c -> later ts c s <= i.
Proof.
  unfold later. induction i as [|i IH]; intros [|x s] Hs; try done; intros Hi; simpl in Hi;
    apply StronglySorted_cons in Hs as [Hx Hs].
  - injection Hi as ->. rewrite filter_cons_False by lia. rewrite filter_none; [done|].
    intros y Hy. rewrite Forall_forall in Hx. specialize (Hx y Hy). simpl in Hx. lia.
  - specialize (IH s Hs Hi). rewrite filter_cons. case_decide; simpl; lia.
Qed.

Lemma take_latest_ok ts n l : (0 <= n)%Z -> exists l' out,
  take_latest ts n l = Ok (l', out) /\ l' ≡ₚ l /\
  (forall c, c ∈ l -> (Z.of_nat (no_later ts c l) <= n)%Z -> c ∈ out) /\
  (forall c, c ∈ out -> c ∈ l /\ (Z.of_nat (later ts c l) < n)%Z).
Proof.
  intros Hn. unfold take_latest.
  set (less := fun a b : Candidate => (ts b <? ts a)%Z). set (s := slice_sort less l).
  assert (s ≡ₚ l) as Hs by apply slice_sort_perm.
  rewrite (proj2 (Z.ltb_ge _ _)) by lia. set (k := Z.to_nat (Z.min n (Z.of_nat (length s)))).
  assert (latest_first ts s) as Hsort.
  { assert (forall x y, less y x = false <-> (ts y <= ts x)%Z) as Hl by (intros x y; apply Z.ltb_ge).
    assert (Sorted (fun x y => less y x = false) s) as Hso.
    { apply slice_sort_sorted; [intros x y z|intros x y]; rewrite !Hl; lia. }
    apply Sorted_StronglySorted in Hso; [|intros x y z; rewrite !Hl; lia].
    clear - Hso Hl. induction Hso as [|x l' _ IH Hx]; [constructor|]. constructor; [done|]. eapply Forall_impl; [exact Hx|]. intros y. apply Hl. }
  exists s, (take k s). split; [done|]. split; [done|]. clearbody s. split; intros c Hc.
  - rewrite <-Hs. rewrite <-Hs in Hc. intros Hk. rewrite <-(take_drop k s) in Hc.
    apply elem_of_app in Hc as [Hc|Hc]; [done|]. exfalso.
    apply (before_no_later ts) in Hc as Hb; [|done].
    apply list_elem_of_lookup in Hc as (i&Hi%lookup_lt_Some). rewrite length_drop in Hi. lia.
  - rewrite <-Hs. apply elem_of_take in Hc as (i&Hi&Hik).
    split; [by eapply list_elem_of_lookup_2|]. apply (later_before ts) in Hi; [lia|done].
Qed.

Lemma minus_duration_mono t t' d : (t <= t')%Z -> (minus_duration t d <= minus_duration t' d)%Z.
Proof. unfold minus_duration. lia. Qed.

Lemma on_env_now p : compiled_ok p -> within lo hi (pm_env p) ->
  exists t p', on_env Now p = (Ok t, p') /\ steady p p' /\ (lo <= t <= hi)%Z.
Proof.
  intros Hp Hw. unfold on_env, zoom. destruct (now_within lo hi _ Hw) as (t&e&->&Ht&Hc&Ha).
  eexists _, _. split; [done|]. by split.
Qed.

Lemma Perform_ok r l p : compiled_ok p -> within lo hi (pm_env p) -> rule_safe r ->
  exists l' out p', Perform r l p = (Ok (l', out), p') /\ steady p p' /\ l' ≡ₚ l /\
    (forall c, c ∈ l -> rule_must r l c -> c ∈ out) /\
    (forall c, c ∈ out -> c ∈ l /\ rule_may r l c).
Proof.
  intros Hp Hw Hr. destruct r as [d|d|n|n]; simpl; unfold DaysPull_Perform, DaysPush_Perform, latestPull_Perform, latestPush_Perform.
  1,2: destruct (on_env_now p Hp Hw) as (t&p'&E&Hst&Ht); unfold bind; rewrite E;
    eexists _, _, p'; split; [done|]; split; [done|]; split; [done|];
    pose proof (minus_duration_mono t hi d ltac:(lia)); pose proof (minus_duration_mono lo t d ltac:(lia));
    split; intros c; rewrite list_elem_of_filter; [intros Hc Hm; split; [|done]; lia|intros [Hm Hc]; split; [done|lia]].
  - destruct (take_latest_ok PullTimestamp n l Hr) as (l'&out&E&Hl). exists l', out, p.
    unfold lift_res. rewrite E. split; [done|]. split; [by split|done].
  - destruct (take_latest_ok PushTimestamp n l Hr) as (l'&out&E&Hl). exists l', out, p.
    unfold lift_res. rewrite E. split; [done|]. split; [by split|done].
Qed.

(** The candidates some rule must or may keep. *)
Definition kept_by (keeps : Rule -> list Candidate -> Candidate -> Prop) (rs : list Rule) (l : list Candidate)
    (c : Candidate) : Prop := exists r, r ∈ rs /\ keeps r l c.

Lemma rules_loop_ok rs l0 : Forall rule_safe rs ->
  forall l acc p, compiled_ok p -> within lo hi (pm_env p) -> l ≡ₚ l0 ->
  exists out p', rules_loop rs l acc p = (Ok (acc ++ out), p') /\ steady p p' /\
    (forall c, c ∈ l0 -> kept_by rule_must rs l0 c -> c ∈ out) /\
    (forall c, c ∈ out -> c ∈ l0 /\ kept_by rule_may rs l0 c).
Proof.
  induction 1 as [|r rs Hr Hrs IH]; intros l acc p Hp Hw Hl; simpl.
  { exists [], p. rewrite app_nil_r. split; [done|]. split; [done|]. split; [intros c _ (?&?%not_elem_of_nil&_)|]; set_solver. }
  unfold bind. destruct (Perform_ok r l p Hp Hw Hr) as (l'&out1&p1&->&Hst&Hl'&Hmust&Hmay). simpl.
  destruct (IH l' (acc ++ out1) p1) as (out&p'&->&Hst'&Hmust'&Hmay');
    [apply Hst|by apply (steady_within p)|by rewrite Hl'|].
  exists (out1 ++ out), p'. rewrite (assoc_L (++)). split; [done|]. split; [by eapply steady_trans|]. split.
  - intros c Hc (x&[->|Hx]%elem_of_cons&Hk); apply elem_of_app; [left|right].
    + apply Hmust; rewrite Hl; done.
    + apply Hmust'; [done|]. by exists x.
  - intros c [Hc|Hc]%elem_of_app.
    + apply Hmay in Hc as [Hc Hk]. rewrite Hl in Hc, Hk. split; [done|]. exists r. split; [set_solver|done].
    + apply Hmay' in Hc as [Hc (x&Hx&Hk)]. split; [done|]. exists x. split; [set_solver|done].
Qed.
End rules.

(** ** What the queries retain *)
Section queries.
Context `{SliceSort} `{MapIter} `{Glob} `{RegexpEngine} `{!SliceSortLaws} `{!MapIterLaws}.
Context (cfg : ImageRetention) (lo hi : Z).

Lemma elem_of_add_new l x y : y ∈ add_new l x <-> y ∈ l \/ y = x.
Proof.
  unfold add_new, contains. case_bool_decide; [naive_solver|]. rewrite elem_of_app, list_elem_of_singleton. done.
Qed.
Lemma elem_of_add_all xs : forall l y, y ∈ foldl add_new l xs <-> y ∈ l \/ y ∈ xs.
Proof.
  induction xs as [|x xs IH]; intros l y; simpl; [by rewrite elem_of_nil; intuition|].
  rewrite IH, elem_of_add_new, elem_of_cons. tauto.
Qed.

(** The candidate of a tag: its metadata with the statistics of its digest. *)
Definition tag_candidate (repoMeta : RepoMeta) (tag : string) : option Candidate :=
  desc ← rm_Tags repoMeta !! tag; candidate_of_tag repoMeta (tag, desc).

Lemma tag_candidate_tag repoMeta tag c : tag_candidate repoMeta tag = Some c -> Tag c = tag.
Proof.
  unfold tag_candidate, candidate_of_tag. destruct (rm_Tags repoMeta !! tag); simpl; [|done].
  destruct (rm_Statistics repoMeta !! _); simpl; [|done]. by intros [= <-].
Qed.

Lemma elem_of_candidates repoMeta c :
  c ∈ GetCandidates repoMeta <-> tag_candidate repoMeta (Tag c) = Some c.
Proof.
  unfold GetCandidates, tag_candidate. rewrite list_elem_of_omap. setoid_rewrite map_iter_perm. split.
  - intros ([tag desc]&Hd%elem_of_map_to_list&Hc). assert (Tag c = tag) as ->.
    { apply (tag_candidate_tag repoMeta). unfold tag_candidate. by rewrite Hd. }
    by rewrite Hd.
  - intros (desc&Hd&Hc)%bind_Some. exists (Tag c, desc). split; [by apply elem_of_map_to_list|done].
Qed.

(** A group keeps a candidate when it has no rule or when one keeps it. *)
Definition group_keeps (keeps : Rule -> list Candidate -> Candidate -> Prop) (rs : list Rule)
    (l : list Candidate) (c : Candidate) : Prop := c ∈ l /\ (rs = [] \/ kept_by keeps rs l c).

Lemma meta_groups_ok gs : Forall (fun g => Forall rule_safe (cr_rules (snd g))) gs ->
  forall acc p, compiled_ok p -> within lo hi (pm_env p) -> env_alive (pm_env p) = None ->
  exists tags p', meta_groups_loop gs acc p = (Ok (Some tags), p') /\ steady p p' /\
    (forall t, t ∈ acc -> t ∈ tags) /\
    (forall g c, g ∈ gs -> group_keeps (rule_must hi) (cr_rules (snd g)) (cr_candidates (snd g)) c -> Tag c ∈ tags) /\
    (forall t, t ∈ tags -> t ∈ acc \/ exists g c, g ∈ gs /\ Tag c = t /\
      group_keeps (rule_may lo) (cr_rules (snd g)) (cr_candidates (snd g)) c).
Proof.
  induction 1 as [|[id g] gs Hg Hgs IH]; intros acc p Hp Hw Ha; simpl.
  { exists acc, p. split; [done|]. split; [done|]. split; [done|]. split; [|auto]. by intros g c ?%not_elem_of_nil. }
  unfold bind at 1, on_env at 1, zoom. rewrite alive_never by done. simpl.
  replace (mkPm (pm_compiled p) (pm_env p)) with p by (by destruct p). unfold bind at 1.
  destruct (rules_loop_ok lo hi (cr_rules g) (cr_candidates g) Hg (cr_candidates g) [] p Hp Hw)
    as (out&p1&->&Hst&Hmust&Hmay); [done|]. simpl.
  set (kept := if (0 <? length (cr_rules g))%nat then out else cr_candidates g).
  assert (forall c, group_keeps (rule_must hi) (cr_rules g) (cr_candidates g) c -> c ∈ kept) as Hk1.
  { unfold kept. intros c [Hc [E|Hk]]; [by rewrite E|]. destruct (cr_rules g); [done|]. by apply Hmust. }
  assert (forall c, c ∈ kept -> group_keeps (rule_may lo) (cr_rules g) (cr_candidates g) c) as Hk2.
  { unfold kept. intros c Hc. destruct (cr_rules g) as [|r rs]; [by split; [|left]|].
    apply Hmay in Hc as [Hc Hk]. split; [done|]. by right. }
  destruct (IH (foldl add_new acc (Tag <$> kept)) p1) as (tags&p'&->&Hst'&Hacc&Hmu&Hma);
    [apply Hst|by apply (steady_within lo hi p)|destruct Hst as (_&_&->); done|].
  exists tags, p'. split; [done|]. split; [by eapply steady_trans|]. setoid_rewrite elem_of_add_all in Hacc.
  split; [intros t Ht; apply Hacc; by left|]. split.
  - intros g' c [->|Hin]%elem_of_cons Hc; [|by eapply Hmu]. apply Hacc. right. apply list_elem_of_fmap.
    exists c. split; [done|]. by apply Hk1.
  - intros t Ht. apply Hma in Ht as [Ht|(g'&c&Hin&Ht)]; [|right; exists g', c; set_solver].
    apply elem_of_add_all in Ht as [Ht|(c&->&Hc)%list_elem_of_fmap]; [by left|]. right.
    exists (id, g), c. split; [set_solver|]. split; [done|]. by apply Hk2.
Qed.

(** A tag's policy keeps it: no rule, or a rule that keeps its candidate among
    those of the same policy. *)
Definition policy_keeps (keeps : Rule -> list Candidate -> Candidate -> Prop) (policy : RetentionPolicy)
    (repoMeta : RepoMeta) (c : Candidate) : Prop :=
  exists p id, tag_policy 0 (Tag c) (KeepTags policy) = Some (p, id) /\
    (getTagRules p = [] \/
     kept_by keeps (getTagRules p) (group_of (KeepTags policy) id (GetCandidates repoMeta)) c).

(** The tags to retain: listed tags without statistics, and those their policy keeps. *)
Definition tag_retained (keeps : Rule -> list Candidate -> Candidate -> Prop) (policy : RetentionPolicy)
    (repoMeta : RepoMeta) (index : Index) (tag : string) : Prop :=
  match tag_candidate repoMeta tag with
  | None => tag ∈ getIndexTags index
  | Some c => policy_keeps keeps policy repoMeta c
  end.

Definition safe_counts (policy : RetentionPolicy) : Prop :=
  Forall (fun t => Forall rule_safe (getTagRules t)) (KeepTags policy).

Lemma elem_of_groups (m : gmap nat candidatesRules) ps l id g :
  groups_ok ps l m -> (id, g) ∈ map_iter m <->
  m !! id = Some g /\ cr_candidates g = group_of ps id l /\ cr_candidates g <> [] /\
  exists t, ps !! id = Some t /\ cr_rules g = getTagRules t.
Proof.
  intros Hm. rewrite map_iter_perm, elem_of_map_to_list. split; [|by intros [??]].
  intros Hg. specialize (Hm id). rewrite Hg in Hm. naive_solver.
Qed.

Lemma group_of_policy ps l c p id : c ∈ l -> tag_policy 0 (Tag c) ps = Some (p, id) ->
  c ∈ group_of ps id l.
Proof. intros Hc Hp. unfold group_of. apply list_elem_of_filter. by rewrite Hp. Qed.

Lemma policy_of_group ps l c id : c ∈ group_of ps id l -> c ∈ l /\
  exists p, tag_policy 0 (Tag c) ps = Some (p, id).
Proof.
  unfold group_of. rewrite list_elem_of_filter. intros [Hp Hc]. split; [done|].
  destruct (tag_policy 0 (Tag c) ps) as [[p id']|]; [|done]. injection Hp as ->. by exists p.
Qed.

(** Being in a group of the map is having a policy. *)
Lemma group_keeps_policy keeps policy repoMeta m c :
  groups_ok (KeepTags policy) (GetCandidates repoMeta) m -> c ∈ GetCandidates repoMeta ->
  (exists g, g ∈ map_iter m /\ group_keeps keeps (cr_rules (snd g)) (cr_candidates (snd g)) c) <->
  policy_keeps keeps policy repoMeta c.
Proof.
  intros Hm Hc. split.
  - intros ([id g]&Hg&Hcg&Hk). simpl in *. apply (elem_of_groups _ _ _ _ _ Hm) in Hg as (Hg&Hcs&_&t&Ht&Hr).
    rewrite Hcs in Hcg. apply policy_of_group in Hcg as (_&p&Hp). exists p, id. split; [done|].
    pose proof (tag_policy_bound _ _ _ _ _ Hp) as [_ Hb]. rewrite Nat.sub_0_r in Hb.
    assert (p = t) as -> by congruence. rewrite <-Hr, <-Hcs. done.
  - intros (p&id&Hp&Hk). pose proof (group_of_policy _ _ _ _ _ Hc Hp) as Hg.
    pose proof (tag_policy_bound _ _ _ _ _ Hp) as [_ Hb]. rewrite Nat.sub_0_r in Hb.
    pose proof (Hm id) as Hid. destruct (m !! id) as [g|] eqn:Em; [|rewrite Hid in Hg; by apply not_elem_of_nil in Hg].
    destruct Hid as (Hcs&Hne&t&Ht&Hr). assert (p = t) as <- by congruence.
    exists (id, g). split; [by apply (elem_of_groups _ _ _ _ _ Hm); eauto 10|].
    simpl. rewrite Hcs, Hr. by split.
Qed.

Lemma tags_query_ok policy repoMeta index p :
  getRepoPolicy cfg (rm_Name repoMeta) = Ok policy -> safe_counts policy ->
  compiled_ok p -> within lo hi (pm_env p) -> env_alive (pm_env p) = None ->
  exists tags p', GetRetainedTagsFromMetaDB cfg repoMeta index p = (Ok tags, p') /\ steady p p' /\
    (forall tag, tag_retained (rule_must hi) policy repoMeta index tag -> tag ∈ tags) /\
    (forall tag, tag ∈ tags -> tag_retained (rule_may lo) policy repoMeta index tag).
Proof.
  intros Hpol Hsafe Hp Hw Ha. unfold GetRetainedTagsFromMetaDB. unfold bind at 1.
  destruct (group_ok cfg (rm_Name repoMeta) (KeepTags policy) (GetCandidates repoMeta) p Hp) as (m&p1&->&Hq&Hm);
    [by rewrite Hpol|].
  apply quiet_steady in Hq. unfold bind at 1.
  destruct (meta_groups_ok (map_iter m)) with (acc := filter (fun tag => Forall (fun c => Tag c <> tag)
    (GetCandidates repoMeta)) (getIndexTags index)) (p := p1) as (tags&p'&->&Hst&Hacc&Hmu&Hma).
  { apply Forall_forall. intros [id g] Hg. apply (elem_of_groups _ _ _ _ _ Hm) in Hg as (_&_&_&t&Ht&Hr).
    simpl. rewrite Hr. unfold safe_counts in Hsafe. rewrite Forall_forall in Hsafe. apply Hsafe. by eapply list_elem_of_lookup_2. }
  { apply Hq. } { by apply (steady_within lo hi p). } { destruct Hq as (_&_&->). done. }
  exists tags, p'. split; [done|]. split; [by eapply steady_trans|].
  assert (forall tag c, tag_candidate repoMeta tag = Some c -> c ∈ GetCandidates repoMeta /\ Tag c = tag) as Hcand.
  { intros tag c Hc. pose proof (tag_candidate_tag _ _ _ Hc) as <-. split; [by apply elem_of_candidates|done]. }
  split; intros tag.
  - unfold tag_retained. destruct (tag_candidate repoMeta tag) as [c|] eqn:Ec.
    + intros Hk. apply Hcand in Ec as [Hc <-]. apply (group_keeps_policy _ _ _ m) in Hk as (g&Hg&Hk); [|done..].
      by apply (Hmu g).
    + intros Hi. apply Hacc, list_elem_of_filter. split; [|done]. apply Forall_forall. intros c Hc <-.
      apply elem_of_candidates in Hc. congruence.
  - intros Ht. unfold tag_retained. apply Hma in Ht as [Ht|(g&c&Hg&<-&Hk)].
    + apply list_elem_of_filter in Ht as [Hn Hi]. destruct (tag_candidate repoMeta tag) as [c|] eqn:Ec; [|done].
      apply Hcand in Ec as [Hc <-]. rewrite Forall_forall in Hn. by destruct (Hn c).
    + assert (c ∈ GetCandidates repoMeta) as Hc.
      { destruct Hk as [Hcg _]. destruct g as [id g]. apply (elem_of_groups _ _ _ _ _ Hm) in Hg as (_&Hcs&_).
        simpl in Hcg. rewrite Hcs in Hcg. by apply policy_of_group in Hcg as []. }
      rewrite (proj1 (elem_of_candidates _ _) Hc). apply (group_keeps_policy _ _ _ m); eauto.
Qed.

(** The rules for untagged manifests, when the context is not cancelled. *)
Lemma untagged_rules_alive rs : forall l acc p, env_alive (pm_env p) = None -> compiled_ok p ->
  within lo hi (pm_env p) -> Forall rule_safe rs ->
  untagged_rules_loop rs l acc p = (let '(r, p') := rules_loop rs l acc p in
    (match r with Ok out => Ok (Some out) | Err e => Err e end, p')).
Proof.
  induction rs as [|r rs IH]; intros l acc p Ha Hp Hw Hs; simpl; [done|].
  apply Forall_cons in Hs as [Hr Hs].
  unfold bind at 1, on_env at 1, zoom. rewrite alive_never by done. simpl.
  replace (mkPm (pm_compiled p) (pm_env p)) with p by (by destruct p). unfold bind.
  destruct (Perform_ok lo hi r l p Hp Hw Hr) as (l'&out&p1&->&Hst&_). simpl.
  apply IH; [destruct Hst as (_&_&->); done|apply Hst|by apply (steady_within lo hi p)|done].
Qed.

(** The candidate of an untagged descriptor, and the descriptor's digest. *)
Lemma untagged_candidate_digest repoMeta m c : candidate_of_untagged repoMeta m = Some c ->
  DigestStr c = Digest m /\ isUntaggedRetentionDescriptor m = true.
Proof.
  unfold candidate_of_untagged. destruct (isUntaggedRetentionDescriptor m); simpl; [|done].
  destruct (rm_Statistics repoMeta !! _); simpl; [|done]. by intros [= <-].
Qed.

Lemma elem_of_untagged_candidates repoMeta index c : c ∈ GetUntaggedCandidates repoMeta index <->
  exists m, m ∈ Manifests index /\ candidate_of_untagged repoMeta m = Some c.
Proof. apply list_elem_of_omap. Qed.

Lemma elem_of_keep_unknown known ds : forall l y, y ∈ foldl (keep_unknown known) l ds <->
  y ∈ l \/ y ∈ ds /\ y ∉ known.
Proof.
  induction ds as [|d ds IH]; intros l y; simpl; [rewrite elem_of_nil; tauto|]. rewrite IH, elem_of_cons.
  unfold keep_unknown. case_decide; [|rewrite elem_of_add_new]; naive_solver.
Qed.

(** The untagged manifests to retain: those without statistics, and those of
    which a rule keeps the candidate. *)
Definition untagged_retained (keeps : Rule -> list Candidate -> Candidate -> Prop) (rs : list Rule)
    (repoMeta : RepoMeta) (index : Index) (digest : string) : Prop :=
  exists m, m ∈ Manifests index /\ Digest m = digest /\ isUntaggedRetentionDescriptor m = true /\
    match candidate_of_untagged repoMeta m with
    | None => True
    | Some c => kept_by keeps rs (GetUntaggedCandidates repoMeta index) c
    end.

Lemma no_statistics repoMeta index m : m ∈ Manifests index -> isUntaggedRetentionDescriptor m = true ->
  Digest m ∉ (list_to_set (DigestStr <$> GetUntaggedCandidates repoMeta index) : gset string) <->
  candidate_of_untagged repoMeta m = None.
Proof.
  intros Hm Hu. rewrite elem_of_list_to_set, list_elem_of_fmap. split.
  - intros Hn. destruct (candidate_of_untagged repoMeta m) as [c|] eqn:Ec; [|done]. exfalso. apply Hn.
    exists c. split; [by apply untagged_candidate_digest in Ec as [-> _]|]. apply elem_of_untagged_candidates. by exists m.
  - intros Ec (c&Hd&(m'&Hm'&Ec')%elem_of_untagged_candidates).
    destruct (untagged_candidate_digest _ _ _ Ec') as [Hd' Hu']. unfold candidate_of_untagged in Ec, Ec'.
    rewrite Hu in Ec. rewrite Hu' in Ec'. simpl in *. rewrite <-Hd', <-Hd in Ec'.
    destruct (rm_Statistics repoMeta !! Digest m); done.
Qed.

Lemma untagged_query_ok policy keep repoMeta index p :
  getRepoPolicy cfg (rm_Name repoMeta) = Ok policy -> KeepUntagged policy = Some keep ->
  getUntaggedRules keep <> [] -> Forall rule_safe (getUntaggedRules keep) ->
  compiled_ok p -> within lo hi (pm_env p) -> env_alive (pm_env p) = None ->
  exists digests p', GetRetainedUntaggedFromMetaDB cfg repoMeta index p = (Ok digests, p') /\ steady p p' /\
    (forall d, untagged_retained (rule_must hi) (getUntaggedRules keep) repoMeta index d -> d ∈ digests) /\
    (forall d, d ∈ digests -> untagged_retained (rule_may lo) (getUntaggedRules keep) repoMeta index d).
Proof.
  intros Hpol Hk Hne Hsafe Hp Hw Ha. unfold GetRetainedUntaggedFromMetaDB. rewrite Hpol, Hk.
  set (rs := getUntaggedRules keep) in *. set (cs := GetUntaggedCandidates repoMeta index).
  destruct (length rs =? 0)%nat eqn:El; [by destruct rs|].
  unfold bind at 1. rewrite untagged_rules_alive by done.
  destruct (rules_loop_ok lo hi rs cs Hsafe cs [] p Hp Hw) as (out&p'&->&Hst&Hmust&Hmay); [done|]. simpl.
  eexists _, p'. split; [done|]. split; [done|].
  assert (forall d, d ∈ getIndexUntaggedDigests index <->
    exists m, m ∈ Manifests index /\ Digest m = d /\ isUntaggedRetentionDescriptor m = true) as Hunt.
  { intros d. unfold getIndexUntaggedDigests. rewrite list_elem_of_fmap. setoid_rewrite list_elem_of_filter. naive_solver. }
  split; intros d; rewrite elem_of_add_all, elem_of_keep_unknown, elem_of_nil, list_elem_of_fmap, Hunt.
  - intros (m&Hm&<-&Hu&Hc). destruct (candidate_of_untagged repoMeta m) as [c|] eqn:Ec.
    + right. exists c. split; [by apply untagged_candidate_digest in Ec as [-> _]|]. apply Hmust; [|done].
      apply elem_of_untagged_candidates. by exists m.
    + left. right. split; [by exists m|]. by apply no_statistics.
  - intros [[[]|[(m&Hm&<-&Hu) Hn]]|(c&->&Hc)].
    + exists m. split; [done|]. split; [done|]. split; [done|]. apply no_statistics in Hn; [by rewrite Hn|done..].
    + apply Hmay in Hc as [Hc Hkept]. apply elem_of_untagged_candidates in Hc as (m&Hm&Ec).
      exists m. destruct (untagged_candidate_digest _ _ _ Ec) as [Hd Hu]. split; [done|]. split; [done|].
      split; [done|]. by rewrite Ec.
Qed.

(** ** A negative count *)
Definition panics {A} (r : res A) : Prop := r = Err ErrSliceBounds.

Lemma take_latest_panics ts n l : (n < 0)%Z -> take_latest ts n l = Err ErrSliceBounds.
Proof. intros Hn. unfold take_latest. rewrite (proj2 (Z.ltb_lt _ _)) by lia. done. Qed.

Lemma Perform_total r l p : (exists x p', Perform r l p = (Ok x, p') /\ env_alive (pm_env p') = env_alive (pm_env p))
  \/ panics (fst (Perform r l p)).
Proof.
  destruct r; simpl; [by left; eexists _, _..| |]; unfold latestPull_Perform, latestPush_Perform, take_latest, lift_res, panics;
    case_match; eauto.
Qed.

Lemma Perform_panics r l p : ~ rule_safe r -> panics (fst (Perform r l p)).
Proof.
  intros Hr. destruct r; simpl in *; try (by exfalso; apply Hr); unfold latestPull_Perform, latestPush_Perform, lift_res, panics;
    by rewrite take_latest_panics by lia.
Qed.

Lemma rules_loop_panics rs : Exists (fun r => ~ rule_safe r) rs -> forall l acc p,
  panics (fst (rules_loop rs l acc p)).
Proof.
  induction 1 as [r rs Hr|r rs Hrs IH]; intros l acc p; simpl; unfold bind, panics.
  - pose proof (Perform_panics r l p Hr) as Hp. unfold panics in Hp. destruct (Perform r l p) as [[x|e] p'] eqn:E; simpl in *; congruence.
  - destruct (Perform_total r l p) as [(x&p'&->&_)|Hp]; [apply IH|].
    unfold panics in Hp. destruct (Perform r l p) as [[x|e] p']; simpl in *; congruence.
Qed.

Lemma rules_loop_total rs : forall l acc p,
  (exists out p', rules_loop rs l acc p = (Ok out, p') /\ env_alive (pm_env p') = env_alive (pm_env p))
  \/ panics (fst (rules_loop rs l acc p)).
Proof.
  induction rs as [|r rs IH]; intros l acc p; simpl; [by left; eexists _, _|]. unfold bind.
  destruct (Perform_total r l p) as [([l' out]&p'&->&Ha)|Hp].
  - simpl. destruct (IH l' (acc ++ out) p') as [(o&p2&->&Ha2)|]; [|by right]. left. exists o, p2. split; [done|]. congruence.
  - right. unfold panics in Hp |- *. destruct (Perform r l p) as [[x|e] p']; simpl in *; congruence.
Qed.

Lemma meta_groups_panics gs : Exists (fun g => Exists (fun r => ~ rule_safe r) (cr_rules (snd g))) gs ->
  forall acc p, env_alive (pm_env p) = None -> panics (fst (meta_groups_loop gs acc p)).
Proof.
  intros Hex. induction gs as [|[id g] gs IH]; [by apply Exists_nil in Hex|]. intros acc p Ha. simpl.
  unfold bind at 1, on_env at 1, zoom. rewrite alive_never by done. simpl.
  replace (mkPm (pm_compiled p) (pm_env p)) with p by (by destruct p). unfold bind at 1, panics.
  apply Exists_cons in Hex as [Hg|Hex]; [simpl in Hg|].
  - pose proof (rules_loop_panics _ Hg (cr_candidates g) [] p) as Hp. unfold panics in Hp.
    destruct (rules_loop (cr_rules g) (cr_candidates g) [] p) as [[x|e] p']; simpl in *; congruence.
  - destruct (rules_loop_total (cr_rules g) (cr_candidates g) [] p) as [(out&p'&->&Ha')|Hp].
    + apply IH; [done|congruence].
    + unfold panics in Hp. destruct (rules_loop (cr_rules g) (cr_candidates g) [] p) as [[x|e] p']; simpl in *; congruence.
Qed.
End queries.


(** The same for untagged manifests: when the policy of the repository has
    rules for them, the digests retained are those of the untagged manifests
    and indexes without statistics and of those a rule keeps. *)
Theorem retained_untagged_exact `{SliceSort} `{MapIter} `{Glob} `{RegexpEngine} `{!SliceSortLaws}
    (cfg : ImageRetention) (lo hi : Z) (policy : RetentionPolicy) (keep : KeepUntaggedPolicy)
    (repoMeta : RepoMeta) (index : Index) (p : pm) :
  getRepoPolicy cfg (rm_Name repoMeta) = Ok policy -> KeepUntagged policy = Some keep ->
  getUntaggedRules keep <> [] -> Forall rule_safe (getUntaggedRules keep) ->
  compiled_ok p -> within lo hi (pm_env p) -> env_alive (pm_env p) = None ->
  exists digests p', GetRetainedUntaggedFromMetaDB cfg repoMeta index p = (Ok digests, p') /\ steady p p' /\
    forall d,
      (untagged_retained (rule_must hi) (getUntaggedRules keep) repoMeta index d -> d ∈ digests) /\
      (d ∈ digests -> untagged_retained (rule_may lo) (getUntaggedRules keep) repoMeta index d).
Proof.
  intros Hpol Hk Hne Hsafe Hp Hw Ha.
  destruct (untagged_query_ok cfg lo hi policy keep repoMeta index p) as (ds&p'&E&Hst&H1'&H2'); [done..|].
  exists ds, p'. split; [done|]. split; [done|]. intros tag. split; auto.
Qed.

(** A negative mostRecentlyPulledCount or mostRecentlyPushedCount, which
    the configuration accepts, makes the query panic as soon as the policy it
    belongs to has a candidate. *)
Theorem negative_count_panics `{SliceSort} `{MapIter} `{Glob} `{RegexpEngine} `{!MapIterLaws}
    (cfg : ImageRetention) (policy : RetentionPolicy) (t : KeepTagsPolicy) (id : nat)
    (repoMeta : RepoMeta) (index : Index) (p : pm) (c : Candidate) :
  getRepoPolicy cfg (rm_Name repoMeta) = Ok policy -> compiled_ok p -> env_alive (pm_env p) = None ->
  (kt_MostRecentlyPulledCount t < 0 \/ kt_MostRecentlyPushedCount t < 0)%Z ->
  c ∈ GetCandidates repoMeta -> tag_policy 0 (Tag c) (KeepTags policy) = Some (t, id) ->
  fst (GetRetainedTagsFromMetaDB cfg repoMeta index p) = Err ErrSliceBounds.
Proof.
  intros Hpol Hp Ha Hneg Hc Ht. unfold GetRetainedTagsFromMetaDB. unfold bind at 1.
  destruct (group_ok cfg (rm_Name repoMeta) (KeepTags policy) (GetCandidates repoMeta) p Hp) as (m&p1&->&Hq&Hm);
    [by rewrite Hpol|]. unfold bind at 1.
  pose proof (group_of_policy _ _ _ _ _ Hc Ht) as Hg. pose proof (tag_policy_bound _ _ _ _ _ Ht) as [_ Hb].
  rewrite Nat.sub_0_r in Hb.
  destruct (m !! id) as [g|] eqn:Em.
  2:{ specialize (Hm id). rewrite Em in Hm. rewrite Hm in Hg. by apply not_elem_of_nil in Hg. }
  assert (forall acc, panics (fst (meta_groups_loop (map_iter m) acc p1))) as Hpan.
  { intros acc. apply meta_groups_panics; [|destruct Hq as [_ ->]; done]. apply Exists_exists. exists (id, g).
    pose proof (Hm id) as Hid. rewrite Em in Hid. destruct Hid as (Hcs&Hne&t'&Ht'&Hr).
    split; [apply (elem_of_groups _ _ _ _ _ Hm); by eauto 10|]. simpl.
    assert (t' = t) as -> by congruence. rewrite Hr. unfold getTagRules, getRules. apply Exists_exists.
    destruct Hneg as [Hneg|Hneg].
    - exists (latestPull (kt_MostRecentlyPulledCount t)). rewrite (proj2 (Z.eqb_neq _ _)) by lia.
      split; [set_solver|simpl; lia].
    - exists (latestPush (kt_MostRecentlyPushedCount t)).
      rewrite (proj2 (Z.eqb_neq (kt_MostRecentlyPushedCount t) _)) by lia. split; [set_solver|simpl; lia]. }
  match goal with |- context [meta_groups_loop _ ?acc _] => specialize (Hpan acc) end.
  unfold panics in Hpan. destruct (meta_groups_loop _ _ p1) as [[x|e] p']; simpl in *; congruence.
Qed.

(** ** A sample policy: tags starting with "v", the two latest pushes or a pull within ten. *)
Module Sample.
Definition plain_glob : Glob := fun pattern name => Ok (bool_decide (pattern = name)).
Definition prefix_regexp : RegexpEngine := {|
  compiled_regexp := string;
  regexp_Compile r := if bool_decide (r = "(") then None else Some r;
  MatchString r name := has_prefix name r
|}.
#[export] Existing Instance plain_glob.
#[export] Existing Instance prefix_regexp.

Definition tag_rules (n : Z) : KeepTagsPolicy := mkKeepTags ["v"] (Some 10%Z) None n 0.
Definition untagged_rules : KeepUntaggedPolicy := mkKeepUntagged None (Some 10%Z) 0 1.
Definition policy (n : Z) : RetentionPolicy := mkPolicy ["repo"] true None [tag_rules n] (Some untagged_rules).
Definition cfg (n : Z) : ImageRetention := mkRetention false 0 [policy n].

Definition stat (pull push : Z) : DescriptorStatistics := mkStatistics pull push.
Definition meta : RepoMeta := mkRepoMeta "repo"
  {[ "v1" := mkMetaDescriptor "d1" MediaTypeImageManifest; "v2" := mkMetaDescriptor "d2" MediaTypeImageManifest;
     "v3" := mkMetaDescriptor "d3" MediaTypeImageManifest; "v4" := mkMetaDescriptor "d4" MediaTypeImageManifest;
     "x" := mkMetaDescriptor "d1" MediaTypeImageManifest ]}
  {[ "d1" := stat 95 10; "d2" := stat 0 20; "d3" := stat 0 30; "d4" := stat 0 40; "u1" := stat 0 85; "u2" := stat 50 95 ]}.
Definition row (tag digest : string) : Descriptor :=
  mkDescriptor MediaTypeImageManifest digest 1 {[AnnotationRefName := tag]} "".
Definition untagged (digest : string) : Descriptor := mkDescriptor MediaTypeImageManifest digest 1 ∅ "".
Definition index : Index := mkIndex 2 "" "" [row "v1" "d1"; row "v2" "d2"; row "v3" "d3"; row "v4" "d4";
  row "x" "d1"; row "new" "d9"; untagged "u1"; untagged "u2"; untagged "u3"] None ∅.
Definition start : pm := mkPm ∅ (mkEnv (fun _ => 100%Z) 0 None).

Lemma start_ok : compiled_ok start.
Proof. intros r x. simpl. by rewrite lookup_empty. Qed.
Lemma start_within : within 100 100 (pm_env start).
Proof. intros n. simpl. lia. Qed.
Lemma safe : safe_counts (policy 2).
Proof. repeat constructor; simpl; lia. Qed.
End Sample.
Import Sample.

Example sample_tags : fst (GetRetainedTagsFromMetaDB (cfg 2) meta Sample.index start) = Ok ["new"; "v4"; "v3"; "v1"].
Proof. vm_compute. reflexivity. Qed.
Example sample_untagged : fst (GetRetainedUntaggedFromMetaDB (cfg 2) meta Sample.index start) = Ok ["u3"; "u2"].
Proof. vm_compute. reflexivity. Qed.


Lemma retained_untagged_exact_witness :
  exists digests p', GetRetainedUntaggedFromMetaDB (cfg 2) meta Sample.index start = (Ok digests, p') /\ steady start p' /\
    forall d,
      (untagged_retained (rule_must 100) (getUntaggedRules untagged_rules) meta Sample.index d -> d ∈ digests) /\
      (d ∈ digests -> untagged_retained (rule_may 100) (getUntaggedRules untagged_rules) meta Sample.index d).
Proof.
  apply (retained_untagged_exact (cfg 2) 100 100 (policy 2) untagged_rules meta Sample.index start);
    [reflexivity|reflexivity|discriminate|repeat constructor; simpl; lia|apply start_ok|apply start_within|reflexivity].
Defined.

Lemma negative_count_panics_witness :
  fst (GetRetainedTagsFromMetaDB (cfg (-1)) meta Sample.index start) = Err ErrSliceBounds.
Proof.
  apply (negative_count_panics (cfg (-1)) (policy (-1)) (tag_rules (-1)) 0 meta Sample.index start
    (mkCandidate "d1" MediaTypeImageManifest "v1" 10 95));
    [reflexivity|apply start_ok|reflexivity|right; reflexivity| |reflexivity].
  apply elem_of_candidates. reflexivity.
Defined.
