(* ===== verification/GC.v ===== *)
(** * Garbage collection of a repository (pkg/storage/gc/gc.go)

    CleanRepo and what it calls, against the interfaces of an image store, of
    the metadata database and of the local file system: retention of tags,
    removal of referrers whose subject is gone and of untagged manifests in a
    loop, pruning of index.json, and the removal of blobs, uploads and idle
    repositories. The index is passed by reference in the source: here it is
    an argument and part of the result. A pass over index.Manifests ranges over
    the slice as it was when the pass began, since each removal builds a new
    slice. Logs, metrics and the store's lock are left out. *)

From Stdlib Require Import ZArith Lia Ascii String.
From stdpp Require Import base tactics list gmap strings.
From S2P Require Import Prelude Runtime Regexp Oci IndexOps StorageCommon Retention.

Local Open Scope string_scope.
Local Open Scope list_scope.

(** ** Interfaces *)

(** What garbage collection uses of an image store, beyond its reads. *)
Class GcStoreI (S : Type) `{ImageStoreI S} := {
  gs_GetAllBlobs : string -> ST S (list string);
  gs_PutIndexContent : string -> Index -> ST S unit;
  gs_CleanupRepo : string -> list string -> ST S (nat * option err);
  gs_RemoveIdleRepository : Z -> Z -> string -> ST S bool;  (* the time, the delay *)
  gs_ListBlobUploads : string -> ST S (list string);
  gs_StatBlobUpload : string -> string -> ST S (bool * Z * Z);
  gs_DeleteBlobUpload : string -> string -> ST S unit
}.

(** The metadata database (pkg/meta/types/types.go). *)
Class MetaDBI (M : Type) := {
  GetRepoMeta : string -> ST M RepoMeta;
  DeleteSignature : string -> string -> string -> string -> ST M unit; (* repo, subject, signature digest, type *)
  RemoveRepoReference : string -> string -> string -> ST M unit;       (* repo, reference, digest *)
  DeleteRepoMeta : string -> ST M unit
}.

(** os.ReadDir on the local file system: the entries, directories marked. *)
Class LocalFS := ReadDir : path -> res (list (string * bool)).

Record Options : Type := mkOptions {
  o_Delay : Z;
  o_ImageRetention : ImageRetention;
  o_StagingRoot : option path  (* [None] for the empty string *)
}.

Record gc_state (S M : Type) `{RegexpEngine} : Type := mkGc {
  gc_store : S;
  gc_meta : option M;  (* [None] for a nil metaDB *)
  gc_pm : pm
}.
Arguments mkGc {S M _} _ _ _.
Arguments gc_store {S M _} _.
Arguments gc_meta {S M _} _.
Arguments gc_pm {S M _} _.

(** ** Cosign tags (pkg/common/common.go) *)
Definition hex_digit (c : ascii) : bool := in_range "0" "9" c || in_range "a" "f" c.
Definition cosign_rule (suffix : string) : re :=
  expression (literal "sha256-" :: repeat (Class hex_digit) 64 ++ [literal suffix]).
Definition cosignSignatureTagRule : re := cosign_rule ".sig".
Definition cosignSBOMTagRule : re := cosign_rule ".sbom".
Definition IsCosignSignature (tag : string) : bool := match_string cosignSignatureTagRule tag.
Definition IsCosignSBOM (tag : string) : bool := match_string cosignSBOMTagRule tag.
Definition IsCosignTag (tag : string) : bool := IsCosignSignature tag || IsCosignSBOM tag.

Definition NotationType : string := "notation".
Definition CosignType : string := "cosign".
Definition SyncDir : string := ".sync".

(** The subject a legacy cosign tag names. *)
Definition getSubjectFromCosignTag `{GoDigest} (tag : string) : string :=
  let '(alg, encoded) := match Cut "-" tag with Some p => p | None => (tag, "") end in
  NewDigestFromEncoded alg (TrimSuffix (TrimSuffix encoded ".sig") ".sbom").

Definition isManifestReferencedInIndex (index : Index) (digest : string) : bool :=
  existsb (fun m => bool_decide (Digest m = digest)) (Manifests index).

Definition isKnownManifestMediaType (mediaType : string) : bool :=
  IsImageIndexMediaType mediaType || IsImageManifestMediaType mediaType.

(** sync_staging.go *)
Definition HasInProgressSessions `{LocalFS} (root : option path) (repo : string) : bool :=
  match root with
  | None => false
  | Some root =>
      match ReadDir (path_join (path_join root repo) SyncDir) with
      | Err e => negb (bool_decide (e = ErrPathNotFound))
      | Ok entries => existsb snd entries
      end
  end.

Section gc.
Context `{GoDigest} `{OciCodec} `{SliceSort} `{MapIter} `{Glob} `{RegexpEngine} `{LocalFS}.
Context {S M : Type} `{GcStoreI S} `{MetaDBI M}.
Variable opts : Options.
(** Bound on the nesting of image indexes. *)
Variable fuel : nat.
Abbreviation st := (gc_state S M).
Abbreviation ret_cfg := (o_ImageRetention opts).
Abbreviation dry_run := (DryRun ret_cfg).

Definition on_store {A} (m : ST S A) : ST st A :=
  zoom gc_store (fun s x => mkGc s (gc_meta x) (gc_pm x)) m.
Definition on_pm {A} (m : ST pm A) : ST st A :=
  zoom gc_pm (fun p x => mkGc (gc_store x) (gc_meta x) p) m.
Definition on_env {A} (m : ST env A) : ST st A := on_pm (Retention.on_env m).
(** A call of the database; nothing happens when there is none. *)
Definition on_meta {A} (default : A) (m : ST M A) : ST st A := fun x =>
  match gc_meta x with
  | None => (Ok default, x)
  | Some d => let '(r, d) := m d in (r, mkGc (gc_store x) (Some d) (gc_pm x))
  end.

(** ** Removing one descriptor *)
Definition isBlobOlderThan (repo digest : string) (delay : Z) : ST st bool :=
  let* (_, _, modtime) := on_store (StatBlob repo digest) in
  let* now := on_env Now in
  ret (negb (now <? modtime + delay)%Z).

(** The Go result with the index, which keeps the removal when the database
    call that follows it fails. *)
Definition removeManifest (repo : string) (index : Index) (desc : Descriptor)
    (reference signatureType subjectDigest : string) : ST st (res bool * Index) :=
  match RemoveManifestDescByReference index reference true with
  | Err e =>
      if bool_decide (e = ErrManifestConflict \/ e = ErrManifestNotFound) then ret (Ok false, index)
      else ret (Err e, index)
  | Ok (_, index) =>
      if dry_run then ret (Ok true, index)
      else
        let* r := try (on_meta tt
          (if negb (bool_decide (signatureType = ""))
           then DeleteSignature repo subjectDigest (Digest desc) signatureType
           else RemoveRepoReference repo reference (Digest desc))) in
        ret (match r with Ok _ => Ok true | Err e => Err e end, index)
  end.

Definition removeManifestIfOlderThan (repo : string) (index : Index) (desc : Descriptor)
    (signatureType subjectDigest : string) (delay : Z) : ST st (bool * Index) :=
  let* r := try (isBlobOlderThan repo (Digest desc) delay) in
  match r with
  | Err _ => ret (false, index)
  | Ok canGC =>
      if (canGC : bool) then
        let reference := default (Digest desc) (ref_name desc) in
        let* (gced, index) := removeManifest repo index desc reference signatureType subjectDigest in
        let* gced := lift_res gced in
        ret (gced, index)
      else ret (false, index)
  end.

(** ** Tags *)
Fixpoint remove_tags_loop (repo : string) (retainTags : list string) (rows : list Descriptor)
    (index : Index) : ST st Index :=
  match rows with
  | [] => ret index
  | desc :: rest =>
      let* done := on_env IsContextDone in
      if (done : bool) then throw ErrContext
      else match ref_name desc with
      | Some tag =>
          if negb (contains retainTags tag) then
            let* (r, index) := removeManifest repo index desc tag "" "" in
            match r with
            | Ok _ => remove_tags_loop repo retainTags rest index
            | Err e =>
                if decide (e = ErrManifestNotFound) then remove_tags_loop repo retainTags rest index
                else throw e
            end
          else remove_tags_loop repo retainTags rest index
      | None => remove_tags_loop repo retainTags rest index
      end
  end.

Definition removeTagsPerRetentionPolicy (repo : string) (index : Index) : ST st Index :=
  if negb (HasTagRetention ret_cfg repo) then ret index
  else
    let* x := get in
    let* retainTags :=
      match gc_meta x with
      | Some _ =>
          let* repoMeta := on_meta (mkRepoMeta "" ∅ ∅) (GetRepoMeta repo) in
          on_pm (GetRetainedTagsFromMetaDB ret_cfg repoMeta index)
      | None => on_pm (GetRetainedTagsFromIndex ret_cfg repo index)
      end in
    remove_tags_loop repo retainTags (Manifests index) index.

(** ** Referrers *)
Definition signature_type (artifactType : string) : string :=
  if bool_decide (artifactType = ArtifactTypeNotation) then NotationType
  else if IsArtifactTypeCosign artifactType then CosignType else "".

Definition removeReferrer (repo : string) (index : Index) (manifestDesc : Descriptor)
    (subject : option Descriptor) (artifactType : string) : ST st (bool * Index) :=
  let* (gced, index) :=
    match subject with
    | Some subject =>
        if negb (isManifestReferencedInIndex index (Digest subject))
        then removeManifestIfOlderThan repo index manifestDesc (signature_type artifactType)
               (Digest subject) (Delay ret_cfg)
        else ret (false, index)
    | None => ret (false, index)
    end in
  if (gced : bool) then ret (gced, index)
  else match ref_name manifestDesc with
  | Some tag =>
      if IsCosignTag tag then
        let subjectDigest := getSubjectFromCosignTag tag in
        match Validate subjectDigest with
        | Some _ => ret (gced, index)
        | None =>
            if negb (isManifestReferencedInIndex index subjectDigest)
            then removeManifestIfOlderThan repo index manifestDesc CosignType subjectDigest (o_Delay opts)
            else ret (gced, index)
        end
      else ret (gced, index)
  | None => ret (gced, index)
  end.

(** What one pass over the referrers remembers of the blobs it has read. *)
Record read_cache : Type := mkReadCache {
  rc_missing : gset string;
  rc_indexes : gmap string Index;
  rc_manifests : gmap string Manifest
}.
Definition no_cache : read_cache := mkReadCache ∅ ∅ ∅.

Definition removeReferrerByIndexDesc (repo : string) (rootIndex : Index) (desc : Descriptor)
    (c : read_cache) : ST st (bool * Index * read_cache) :=
  if decide (Digest desc ∈ rc_missing c) then ret (false, rootIndex, c)
  else
    let referrer indexImage c :=
      let* r := removeReferrer repo rootIndex desc (idx_Subject indexImage) (idx_ArtifactType indexImage) in
      ret (r, c) in
    match rc_indexes c !! Digest desc with
    | Some indexImage => referrer indexImage c
    | None =>
        let* r := try (on_store (GetImageIndex repo (Digest desc))) in
        match r with
        | Err e =>
            if missing e
            then ret (false, rootIndex, mkReadCache ({[Digest desc]} ∪ rc_missing c) (rc_indexes c) (rc_manifests c))
            else ret (false, rootIndex, c)
        | Ok indexImage =>
            referrer indexImage
              (mkReadCache (rc_missing c) (<[Digest desc := indexImage]> (rc_indexes c)) (rc_manifests c))
        end
    end.

Definition removeReferrerByManifestDesc (repo : string) (rootIndex : Index) (desc : Descriptor)
    (c : read_cache) : ST st (bool * Index * read_cache) :=
  let referrer subject artifactType c :=
    let* r := removeReferrer repo rootIndex desc subject artifactType in
    ret (r, c) in
  if decide (Digest desc ∈ rc_missing c) then referrer None "" c
  else
    match rc_manifests c !! Digest desc with
    | Some image => referrer (m_Subject image) (GetManifestArtifactType image) c
    | None =>
        let* r := try (on_store (StorageCommon.GetImageManifest repo (Digest desc))) in
        match r with
        | Err e =>
            if missing e
            then referrer None "" (mkReadCache ({[Digest desc]} ∪ rc_missing c) (rc_indexes c) (rc_manifests c))
            else ret (false, rootIndex, c)
        | Ok image =>
            referrer (m_Subject image) (GetManifestArtifactType image)
              (mkReadCache (rc_missing c) (rc_indexes c) (<[Digest desc := image]> (rc_manifests c)))
        end
    end.

Fixpoint referrers_pass (repo : string) (rows : list Descriptor) (rootIndex : Index) (c : read_cache)
    (count : nat) : ST st (nat * Index) :=
  match rows with
  | [] => ret (count, rootIndex)
  | desc :: rest =>
      if IsImageIndexMediaType (MediaType desc) then
        let* (gced, rootIndex, c) := removeReferrerByIndexDesc repo rootIndex desc c in
        referrers_pass repo rest rootIndex c (if (gced : bool) then Datatypes.S count else count)
      else if IsImageManifestMediaType (MediaType desc) then
        let* (gced, rootIndex, c) := removeReferrerByManifestDesc repo rootIndex desc c in
        referrers_pass repo rest rootIndex c (if (gced : bool) then Datatypes.S count else count)
      else referrers_pass repo rest rootIndex c count
  end.
Definition removeReferrersWithMissingSubject (repo : string) (rootIndex : Index) : ST st (bool * Index) :=
  let* (count, rootIndex) := referrers_pass repo (Manifests rootIndex) rootIndex no_cache 0 in
  ret ((0 <? count)%nat, rootIndex).

(** ** Untagged manifests *)

(** The maps [referenced] and [seen] are shared by all the calls. *)
Fixpoint identify_loop (rec : Index -> gset string -> gset string -> ST st (gset string * gset string))
    (repo : string) (ms : list Descriptor) (referenced seen : gset string)
    : ST st (gset string * gset string) :=
  match ms with
  | [] => ret (referenced, seen)
  | desc :: rest =>
      if decide (Digest desc ∈ seen) then identify_loop rec repo rest referenced seen
      else
        let seen := {[Digest desc]} ∪ seen in
        if IsImageIndexMediaType (MediaType desc) then
          let* r := try (on_store (GetImageIndex repo (Digest desc))) in
          match r with
          | Err e => if missing e then identify_loop rec repo rest referenced seen else throw e
          | Ok indexImage =>
              let referenced := match idx_Subject indexImage with
                                | Some _ => {[Digest desc]} ∪ referenced | None => referenced end in
              let referenced := list_to_set (Digest <$> Manifests indexImage) ∪ referenced in
              let* (referenced, seen) := rec indexImage referenced seen in
              identify_loop rec repo rest referenced seen
          end
        else if IsImageManifestMediaType (MediaType desc) then
          let* r := try (on_store (StorageCommon.GetImageManifest repo (Digest desc))) in
          match r with
          | Err e => if missing e then identify_loop rec repo rest referenced seen else throw e
          | Ok image =>
              let referenced := match m_Subject image with
                                | Some _ => {[Digest desc]} ∪ referenced | None => referenced end in
              identify_loop rec repo rest referenced seen
          end
        else identify_loop rec repo rest referenced seen
  end.
Fixpoint identifyManifestsReferencedInIndex (fuel : nat) (repo : string) (index : Index)
    (referenced seen : gset string) : ST st (gset string * gset string) :=
  match fuel with
  | 0 => throw ErrFuel
  | Datatypes.S fuel =>
      identify_loop (identifyManifestsReferencedInIndex fuel repo) repo (Manifests index) referenced seen
  end.

(** [gced] is assigned by every removal that is tried, so its final value is
    that of the last one. *)
Fixpoint untagged_pass (repo : string) (referenced retainUntagged : gset string) (rows : list Descriptor)
    (index : Index) (gced : bool) : ST st (bool * Index) :=
  match rows with
  | [] => ret (gced, index)
  | desc :: rest =>
      if decide (Digest desc ∈ referenced) then untagged_pass repo referenced retainUntagged rest index gced
      else if isKnownManifestMediaType (MediaType desc) then
        match ref_name desc with
        | Some _ => untagged_pass repo referenced retainUntagged rest index gced
        | None =>
            if decide (Digest desc ∈ retainUntagged)
            then untagged_pass repo referenced retainUntagged rest index gced
            else
              let* (gced, index) := removeManifestIfOlderThan repo index desc "" "" (Delay ret_cfg) in
              untagged_pass repo referenced retainUntagged rest index gced
        end
      else untagged_pass repo referenced retainUntagged rest index gced
  end.

Definition removeUntaggedManifests (repo : string) (index : Index) (referenced : gset string)
    : ST st (bool * Index) :=
  let* x := get in
  let* retained :=
    (if HasUntaggedRetention ret_cfg repo then
       match gc_meta x with
       | Some _ =>
           let* repoMeta := on_meta (mkRepoMeta "" ∅ ∅) (GetRepoMeta repo) in
           on_pm (GetRetainedUntaggedFromMetaDB ret_cfg repoMeta index)
       | None => ret []
       end
     else ret []) in
  untagged_pass repo referenced (list_to_set retained) (Manifests index) index false.

(** One turn of the loop of removeManifestsPerRepoPolicy: whether anything was
    removed. *)
Definition policy_turn (repo : string) (index : Index) : ST st (bool * Index) :=
  let* done := on_env IsContextDone in
  if (done : bool) then throw ErrContext
  else
    let* (gcedReferrer, index) :=
      (if HasDeleteReferrer ret_cfg repo then removeReferrersWithMissingSubject repo index
       else ret (false, index)) in
    let* (gcedUntagged, index) :=
      (if HasDeleteUntagged ret_cfg repo then
         let* (referenced, _) := identifyManifestsReferencedInIndex fuel repo index ∅ ∅ in
         removeUntaggedManifests repo index referenced
       else ret (false, index)) in
    ret (gcedReferrer || gcedUntagged, index).

Fixpoint removeManifestsPerRepoPolicy (turns : nat) (repo : string) (index : Index) : ST st Index :=
  match turns with
  | 0 => throw ErrFuel
  | Datatypes.S turns =>
      let* (gced, index) := policy_turn repo index in
      if (gced : bool) then removeManifestsPerRepoPolicy turns repo index else ret index
  end.

(** ** Pruning index.json *)

(** Its database errors are only logged. *)
Definition syncManifestRemoval (repo : string) (desc : Descriptor) : ST st unit :=
  let tag := default "" (ref_name desc) in
  let ref := if bool_decide (tag = "") then Digest desc else tag in
  let subjectDigest := getSubjectFromCosignTag tag in
  let isCosignSig :=
    match ref_name desc with Some tag => IsCosignSignature tag | None => false end
    && match Validate subjectDigest with None => true | Some _ => false end in
  let* _ := try (on_meta tt
    (if isCosignSig then DeleteSignature repo subjectDigest (Digest desc) CosignType
     else RemoveRepoReference repo ref (Digest desc))) in
  ret tt.

Fixpoint prune_unknown (repo : string) (rows kept : list Descriptor) : ST st (list Descriptor) :=
  match rows with
  | [] => ret kept
  | desc :: rest =>
      if isKnownManifestMediaType (MediaType desc) then prune_unknown repo rest (kept ++ [desc])
      else syncManifestRemoval repo desc ;;; prune_unknown repo rest kept
  end.
Definition removeUnknownMediaTypeManifestEntries (repo : string) (index : Index) : ST st Index :=
  if dry_run then ret index
  else
    let* kept := prune_unknown repo (Manifests index) [] in
    ret (with_manifests index kept).

Definition imageIndexHasStaleNestedManifests (repo : string) (desc : Descriptor)
    (existingBlobs : gset string) : ST st bool :=
  let* r := try (on_store (GetImageIndex repo (Digest desc))) in
  match r with
  | Err e => if missing e then ret true else throw e
  | Ok indexImage =>
      match Manifests indexImage with
      | [] => ret false
      | nested => ret (negb (existsb (fun m => bool_decide (Digest m ∈ existingBlobs)) nested))
      end
  end.

Fixpoint prune_stale (repo : string) (existingBlobs : gset string) (rows kept : list Descriptor)
    : ST st (list Descriptor) :=
  match rows with
  | [] => ret kept
  | desc :: rest =>
      if decide (Digest desc ∉ existingBlobs) then
        (syncManifestRemoval repo desc ;;; prune_stale repo existingBlobs rest kept)
      else
        let* stale := (if IsImageIndexMediaType (MediaType desc)
                       then imageIndexHasStaleNestedManifests repo desc existingBlobs else ret false) in
        if (stale : bool) then (syncManifestRemoval repo desc ;;; prune_stale repo existingBlobs rest kept)
        else prune_stale repo existingBlobs rest (kept ++ [desc])
  end.
Definition removeStaleManifestEntries (repo : string) (index : Index) : ST st Index :=
  if dry_run then ret index
  else
    let* r := try (on_store (gs_GetAllBlobs repo)) in
    match r with
    | Err e => if bool_decide (e = ErrPathNotFound) then
                 let* kept := prune_stale repo ∅ (Manifests index) [] in
                 ret (with_manifests index kept)
               else throw e
    | Ok allBlobs =>
        let* kept := prune_stale repo (list_to_set allBlobs) (Manifests index) [] in
        ret (with_manifests index kept)
    end.

(** ** Blobs and uploads *)
Fixpoint gc_candidates (repo : string) (refBlobs : gset string) (delay : Z) (allBlobs gcBlobs : list string)
    : ST st (list string) :=
  match allBlobs with
  | [] => ret gcBlobs
  | digest :: rest =>
      match Validate digest with
      | Some e => throw e
      | None =>
          if decide (digest ∈ refBlobs) then gc_candidates repo refBlobs delay rest gcBlobs
          else
            let* r := try (isBlobOlderThan repo digest delay) in
            match r with
            | Ok true => gc_candidates repo refBlobs delay rest (gcBlobs ++ [digest])
            | _ => gc_candidates repo refBlobs delay rest gcBlobs
            end
      end
  end.

Definition deleteUnreferencedBlobs (repo : string) (delay : Z) : ST st nat :=
  let* r := on_store (GetReferencedBlobs fuel repo) in
  match r with
  | None => throw ErrFuel
  | Some refBlobs =>
      let* r := try (on_store (gs_GetAllBlobs repo)) in
      match r with
      | Err e => if bool_decide (e = ErrPathNotFound) then ret 0 else throw e
      | Ok allBlobs =>
          let* gcBlobs := gc_candidates repo refBlobs delay allBlobs [] in
          let* (reaped, cleanupErr) := on_store (gs_CleanupRepo repo gcBlobs) in
          match cleanupErr with
          | Some e => throw e
          | None => ret reaped
          end
      end
  end.

(** errors.Join of what went wrong for single uploads. *)
Definition ErrJoined : err := ErrOther "errors.Join".

Fixpoint uploads_loop (repo : string) (delay : Z) (uuids : list string) (deleted : nat) (failed : bool)
    : ST st nat :=
  match uuids with
  | [] => if failed then throw ErrJoined else ret deleted
  | uuid :: rest =>
      let* r := try (on_store (gs_StatBlobUpload repo uuid)) in
      match r with
      | Err _ => uploads_loop repo delay rest deleted true
      | Ok (_, _, modtime) =>
          let* now := on_env Now in
          if (now <? modtime + delay)%Z then uploads_loop repo delay rest deleted failed
          else
            let* r := try (on_store (gs_DeleteBlobUpload repo uuid)) in
            match r with
            | Err _ => uploads_loop repo delay rest deleted true
            | Ok _ => uploads_loop repo delay rest (Datatypes.S deleted) failed
            end
      end
  end.
Definition repo_exists (repo : string) : ST st bool := fun x =>
  (Ok (DirExists (path_join (RootDir (gc_store x)) repo) (gc_store x)), x).

Definition deleteBlobUploads (repo : string) (delay : Z) : ST st nat :=
  let* ok := repo_exists repo in
  if negb ok then ret 0
  else
    let* blobUploads := on_store (gs_ListBlobUploads repo) in
    uploads_loop repo delay blobUploads 0 false.

(** ** The whole collection *)

(** A row with a tag can be removed twice: its tag first, then the row. *)
Definition row_weight (m : Descriptor) : nat := match ref_name m with Some _ => 2 | None => 1 end.
Definition weight (ms : list Descriptor) : nat := sum_list (row_weight <$> ms).

Definition remove_idle (repo : string) : ST st unit :=
  if HasInProgressSessions (o_StagingRoot opts) repo then ret tt
  else
    let* now := on_env Now in
    let* removed := on_store (gs_RemoveIdleRepository now (o_Delay opts) repo) in
    if (removed : bool) then let* _ := try (on_meta tt (DeleteRepoMeta repo)) in ret tt else ret tt.

(** What is left of index.json. *)
Definition pruned_index (repo : string) : ST st Index :=
  let* index := on_store (GetIndex repo) in
  let* index := removeTagsPerRetentionPolicy repo index in
  let* index := removeManifestsPerRepoPolicy (Datatypes.S (weight (Manifests index))) repo index in
  let* index := removeUnknownMediaTypeManifestEntries repo index in
  removeStaleManifestEntries repo index.

Definition cleanRepo (repo : string) : ST st unit :=
  let* ok := repo_exists repo in
  if negb ok then throw ErrRepoNotFound
  else
    let* index := pruned_index repo in
    if dry_run then ret tt
    else
      on_store (gs_PutIndexContent repo index) ;;;
      deleteUnreferencedBlobs repo (o_Delay opts) ;;;
      remove_idle repo ;;;
      deleteBlobUploads repo (o_Delay opts) ;;;
      ret tt.

(** Up to metrics and logs. *)
Definition CleanRepo (repo : string) : ST st unit := cleanRepo repo.
End gc.

