(* ===== verification/Collect.v ===== *)
(** * Properties of garbage collection

    The loop over referrers and untagged manifests ends; a dry run writes
    nothing; retention removes the tags it should and no manifest; the blobs
    handed to the image store for deletion are the unreferenced ones past the
    delay; and what a cancelled context does to retained manifests. *)

From Stdlib Require Import ZArith Lia Ascii String.
From stdpp Require Import base tactics list gmap strings.
From S2P Require Import Prelude Runtime Regexp Oci IndexOps StorageCommon Concrete RefGraph.
From S2P Require Import Retention GC.

Local Open Scope string_scope.
Local Open Scope list_scope.

(** ** Removing a row *)
Lemma weight_app ms1 ms2 : weight (ms1 ++ ms2) = weight ms1 + weight ms2.
Proof. unfold weight. by rewrite fmap_app, sum_list_with_app || rewrite fmap_app, sum_list_app. Qed.

Lemma weight_cons m ms : weight (m :: ms) = row_weight m + weight ms.
Proof. done. Qed.

Lemma row_weight_pos m : 1 <= row_weight m.
Proof. unfold row_weight. destruct (ref_name m); lia. Qed.

Lemma weight_split (P : Descriptor -> Prop) `{forall m, Decision (P m)} ms :
  weight ms = weight (filter P ms) + weight (filter (fun m => ~ P m) ms).
Proof.
  induction ms as [|m ms IH]; [done|]. rewrite weight_cons, IH.
  destruct (decide (P m)); [rewrite filter_cons_True, filter_cons_False by tauto
    |rewrite filter_cons_False, filter_cons_True by tauto]; rewrite weight_cons; lia.
Qed.

(** A removal without collision takes one row out, and puts it back untagged
    when it carried the last tag of its digest. *)
Lemma removal_cases index reference d index' :
  RemoveManifestDescByReference index reference true = Ok (d, index') -> exists m,
    filter (hit reference) (Manifests index) = [m] /\
    let rest := filter (fun m => ~ hit reference m) (Manifests index) in
    (ref_name m = Some reference /\ digest_count (Digest m) (Manifests index) = 1 /\ d = untag m /\
       index' = with_manifests index (rest ++ [untag m])) \/
    (~ (ref_name m = Some reference /\ digest_count (Digest m) (Manifests index) = 1) /\ d = m /\
       index' = with_manifests index rest).
Proof.
  rewrite remove_eq. set (ms := Manifests index).
  destruct (filter (hit reference) ms) as [|m [|m2 l]] eqn:Eh; simpl; [done| |done].
  intros H. exists m. split; [done|].
  assert (Exists (fun m => ref_name m = Some reference) ms <-> ref_name m = Some reference) as Hex.
  { rewrite Exists_exists. split.
    - intros (x&Hx&Ht). assert (x ∈ filter (hit reference) ms) as Hin.
      { apply list_elem_of_filter. split; [by left|done]. }
      rewrite Eh in Hin. by apply list_elem_of_singleton in Hin as <-.
    - intros Ht. exists m. split; [|done]. assert (m ∈ filter (hit reference) ms) as Hin by (rewrite Eh; set_solver).
      by apply list_elem_of_filter in Hin as []. }
  destruct (_ && _) eqn:Eb; injection H as <- <-; [left|right].
  - apply andb_prop in Eb as [E1%bool_decide_eq_true E2%Nat.eqb_eq]. split_and!; [by apply Hex|done..].
  - split; [|done]. intros [Ht Hc]. apply andb_false_iff in Eb as [E|E].
    + apply bool_decide_eq_false in E. by apply E, Hex.
    + by apply Nat.eqb_neq in E.
Qed.

Lemma removal_weight index reference d index' :
  RemoveManifestDescByReference index reference true = Ok (d, index') ->
  weight (Manifests index') < weight (Manifests index).
Proof.
  intros (m&Hm&Hc)%removal_cases. rewrite (weight_split (hit reference) (Manifests index)), Hm.
  rewrite weight_cons. destruct Hc as [(Ht&_&_&->)|(_&_&->)]; simpl.
  - rewrite weight_app, weight_cons. unfold row_weight. rewrite ref_name_untag, Ht. change (weight []) with 0. lia.
  - pose proof (row_weight_pos m). change (weight []) with 0. lia.
Qed.

(** ** Removing a tag *)

(** No digest reads as a tag. *)
Definition not_digest (index : Index) (t : string) : Prop := Forall (fun m => Digest m <> t) (Manifests index).

Definition digests_of (index : Index) : gset string := list_to_set (Digest <$> Manifests index).
Lemma elem_of_digests index d : d ∈ digests_of index <-> exists m, m ∈ Manifests index /\ Digest m = d.
Proof. unfold digests_of. rewrite elem_of_list_to_set, list_elem_of_fmap. naive_solver. Qed.

(** The index once the tags of [gone] are removed: those tags and no other are
    gone, the tagged rows that stay are the ones that were there, and the same
    digests are listed. *)
Record tags_removed (gone : string -> Prop) (index index' : Index) : Prop := {
  tr_unique : unique_tags index';
  tr_tags : forall t, t ∈ tags (Manifests index') <-> t ∈ tags (Manifests index) /\ ~ gone t;
  tr_rows : forall m t, ref_name m = Some t -> m ∈ Manifests index' <-> m ∈ Manifests index /\ ~ gone t;
  tr_digests : digests_of index' = digests_of index
}.

Lemma tags_removed_none (gone : string -> Prop) index : unique_tags index ->
  (forall t, t ∈ tags (Manifests index) -> ~ gone t) -> tags_removed gone index index.
Proof.
  intros Hu Hg. split; [done|..|done].
  - intros t. split; [|by intros []]. intros Ht. split; [done|]. by apply Hg.
  - intros m t Hm. split; [|by intros []]. intros Hin. split; [done|]. apply Hg, elem_of_tags. by exists m.
Qed.

Lemma tags_removed_trans g1 g2 i1 i2 i3 : tags_removed g1 i1 i2 -> tags_removed g2 i2 i3 ->
  tags_removed (fun t => g1 t \/ g2 t) i1 i3.
Proof.
  intros [U1 T1 R1 D1] [U2 T2 R2 D2]. split; [done|..].
  - intros t. rewrite T2, T1. tauto.
  - intros m t Hm. rewrite (R2 m t Hm), (R1 m t Hm). tauto.
  - congruence.
Qed.

Lemma unique_tag_split index t : unique_tags index -> not_digest index t -> t ∈ tags (Manifests index) ->
  exists ms1 m ms2, Manifests index = ms1 ++ m :: ms2 /\ ref_name m = Some t /\
    forall x, x ∈ ms1 ++ ms2 -> ~ hit t x.
Proof.
  unfold unique_tags, not_digest. intros Hu Hd (m&Hm&Ht)%elem_of_tags.
  apply list_elem_of_split in Hm as (ms1&ms2&E). exists ms1, m, ms2. split; [done|]. split; [done|].
  rewrite E in Hu, Hd. intros x Hx [Hxt|Hxd].
  - apply (tag_not_elsewhere _ _ _ t) in Hu; [|done]. apply Hu, elem_of_tags. by exists x.
  - rewrite Forall_forall in Hd. apply (Hd x); [set_solver|done].
Qed.

(** The index without the row of a tag, with untagged rows of its digest at
    the end unless another row has that digest. *)
Lemma without_row index t ms1 m ms2 tail : unique_tags index ->
  Manifests index = ms1 ++ m :: ms2 -> ref_name m = Some t -> (forall x, x ∈ ms1 ++ ms2 -> ~ hit t x) ->
  Forall (fun x => ref_name x = None /\ Digest x = Digest m) tail ->
  (tail = [] -> exists x, x ∈ ms1 ++ ms2 /\ Digest x = Digest m) ->
  tags_removed (eq t) index (with_manifests index ((ms1 ++ ms2) ++ tail)).
Proof.
  intros Hu E Hm Hrest Htail Hnil.
  assert (tags tail = []) as Htt.
  { unfold tags. clear Hnil. induction Htail as [|x l [Hx _] _ IH]; simpl; [done|]. by rewrite Hx. }
  assert (forall x, x ∈ ms1 ++ ms2 -> ref_name x <> Some t) as Hne by (intros x Hx Hxt; apply (Hrest x Hx); by left).
  assert (tags (Manifests index) ≡ₚ t :: tags (ms1 ++ ms2)) as Hp.
  { rewrite E, !tags_app. simpl. rewrite Hm. by rewrite Permutation_middle. }
  split; simpl.
  - unfold unique_tags in *. simpl. rewrite tags_app, Htt, app_nil_r. rewrite Hp in Hu. by apply NoDup_cons in Hu as [].
  - intros u. rewrite tags_app, Htt, app_nil_r, Hp, elem_of_cons. split.
    + intros Hx. split; [by right|]. intros <-. apply elem_of_tags in Hx as (x&Hx&Hxt). by apply (Hne x).
    + intros [[->|?] Hn]; done.
  - intros x u Hx. rewrite E. split.
    + intros [Hin|Hin]%elem_of_app; [split; [set_solver|intros <-; by apply (Hne x)]|].
      rewrite Forall_forall in Htail. destruct (Htail x Hin). congruence.
    + intros [Hin Hn]. assert (x <> m) by congruence. set_solver.
  - apply set_eq. intros d. rewrite !elem_of_digests. simpl. rewrite E. split.
    + intros (x&[Hx|Hx]%elem_of_app&<-); [exists x; set_solver|].
      rewrite Forall_forall in Htail. destruct (Htail x Hx) as [_ ->]. exists m. set_solver.
    + intros (x&Hx&<-). destruct (decide (x = m)) as [->|]; [|exists x; set_solver].
      destruct tail as [|y l]; [destruct Hnil as (y&Hy&<-); [done|]; exists y; set_solver|].
      apply Forall_cons in Htail as [[_ Hy] _]. exists y. set_solver.
Qed.

Lemma remove_tag_spec index t : unique_tags index -> not_digest index t ->
  match RemoveManifestDescByReference index t true with
  | Ok (_, index') => tags_removed (eq t) index index'
  | Err e => e = ErrManifestNotFound /\ t ∉ tags (Manifests index)
  end.
Proof.
  intros Hu Hd. destruct (decide (t ∈ tags (Manifests index))) as [Ht|Ht].
  2:{ rewrite remove_eq. simpl. rewrite filter_none; [done|]. intros m Hm [Hh|Hh].
      - apply Ht, elem_of_tags. by exists m.
      - unfold not_digest in Hd. rewrite Forall_forall in Hd. by apply (Hd m). }
  destruct (unique_tag_split _ _ Hu Hd Ht) as (ms1&m&ms2&E&Hm&Hrest).
  assert (filter (hit t) (Manifests index) = [m]) as Eh.
  { rewrite E, filter_app, filter_cons_True by (by left). rewrite !filter_none; [done|..]; intros x Hx; apply Hrest; set_solver. }
  assert (filter (fun x => ~ hit t x) (Manifests index) = ms1 ++ ms2) as Er.
  { rewrite E, filter_app, filter_cons_False by (intros Hn; apply Hn; by left).
    rewrite !filter_all; [done|..]; intros x Hx; apply Hrest; set_solver. }
  rewrite remove_eq. cbv zeta. rewrite Eh, Er. simpl.
  rewrite bool_decide_eq_true_2 by (apply Exists_exists; exists m; split; [rewrite E; set_solver|done]). simpl.
  pose proof (fun tail => without_row index t ms1 m ms2 tail Hu E Hm Hrest) as Hkey.
  destruct (digest_count (Digest m) (Manifests index) =? 1)%nat eqn:Ec; simpl.
  - apply Hkey; [|done]. constructor; [|constructor]. split; [apply ref_name_untag|done].
  - rewrite <-(app_nil_r (ms1 ++ ms2)). apply Hkey; [constructor|]. intros _. apply Nat.eqb_neq in Ec.
    unfold digest_count in Ec. rewrite E, filter_app, filter_cons_True, length_app in Ec by done. simpl in Ec.
    destruct (filter (fun x => Digest x = Digest m) (ms1 ++ ms2)) as [|x l] eqn:Ef.
    + rewrite filter_app in Ef. apply List.app_eq_nil in Ef as [E1 E2]. rewrite E1, E2 in Ec. simpl in Ec. lia.
    + assert (x ∈ filter (fun x => Digest x = Digest m) (ms1 ++ ms2)) as [? ?]%list_elem_of_filter by (rewrite Ef; set_solver).
      by exists x.
Qed.

Section collect.
Context `{GoDigest} `{OciCodec} `{SliceSort} `{MapIter} `{Glob} `{RegexpEngine} `{LocalFS}.
Context {S M : Type} `{GcStoreI S} `{MetaDBI M} (opts : Options) (fuel : nat).
Abbreviation st := (gc_state S M).

(** ** The loop ends: every removal makes the index lighter *)

(** What a removal step may do to the index. *)
Definition lighter (index : Index) (gced : bool) (index' : Index) : Prop :=
  weight (Manifests index') <= weight (Manifests index) /\
  (gced = true -> weight (Manifests index') < weight (Manifests index)).

Lemma lighter_same index : lighter index false index.
Proof. by split. Qed.
Lemma lighter_trans i1 g1 i2 g2 i3 : lighter i1 g1 i2 -> lighter i2 g2 i3 -> lighter i1 (g1 || g2) i3.
Proof. intros [? Hg1] [? Hg2]. split; [lia|]. intros [E|E]%orb_true_iff; [specialize (Hg1 E)|specialize (Hg2 E)]; lia. Qed.

Lemma removeManifest_lighter repo index desc reference ty sd (x : st) g i x' :
  removeManifest opts repo index desc reference ty sd x = (Ok (Ok g, i), x') -> lighter index g i.
Proof.
  unfold removeManifest. destruct (RemoveManifestDescByReference index reference true) as [[d i']|e] eqn:E.
  - apply removal_weight in E. intros Hr. assert (i = i') as ->; [|by split; [lia|]].
    destruct (DryRun _); [by injection Hr as <- <- <-|]. stepo Hr. by injection Hr as _ <- <-.
  - destruct (bool_decide _); [|done]. intros [= <- <- <-]. apply lighter_same.
Qed.

Lemma removeManifestIfOlderThan_lighter repo index desc ty sd delay (x : st) g i x' :
  removeManifestIfOlderThan opts repo index desc ty sd delay x = (Ok (g, i), x') -> lighter index g i.
Proof.
  unfold removeManifestIfOlderThan. intros Hr. stepo Hr.
  destruct a as [[]|]; [|injection Hr as <- <- <-; apply lighter_same..].
  stepo Hr. destruct a as [[g0|e] i0]; [|done]. injection Hr as <- <- <-. by eapply removeManifest_lighter.
Qed.

Lemma removeReferrer_lighter repo index desc subject ty (x : st) g i x' :
  removeReferrer opts repo index desc subject ty x = (Ok (g, i), x') -> lighter index g i.
Proof.
  unfold removeReferrer. intros Hr. stepo Hr. destruct a as [g1 i1].
  assert (lighter index g1 i1) as H1'.
  { destruct subject as [sub|]; [destruct (negb _)|]; [by eapply removeManifestIfOlderThan_lighter| |];
      injection E as <- <- <-; apply lighter_same. }
  destruct g1; [by injection Hr as <- <- <-|].
  destruct (ref_name desc) as [tag|]; [|by injection Hr as <- <- <-].
  destruct (IsCosignTag tag); [|by injection Hr as <- <- <-].
  destruct (Validate _); [by injection Hr as <- <- <-|]. destruct (negb _); [|by injection Hr as <- <- <-].
  apply removeManifestIfOlderThan_lighter in Hr. by apply (lighter_trans _ _ _ _ _ H1' Hr).
Qed.

(** The step of the pass over referrers, whichever kind of row it is. *)
Lemma referrer_step_lighter repo index desc c (x : st) g i c' x' :
  removeReferrerByIndexDesc opts repo index desc c x = (Ok (g, i, c'), x') \/
  removeReferrerByManifestDesc opts repo index desc c x = (Ok (g, i, c'), x') -> lighter index g i.
Proof.
  assert (forall sub ty (c : read_cache) (x : st), (let* r := removeReferrer opts repo index desc sub ty in ret (r, c)) x
    = (Ok (g, i, c'), x') -> lighter index g i) as Hr.
  { intros sub ty c0 x0 Hr. stepo Hr. destruct a as [g1 i1]. injection Hr as <- <- <- <-.
    by eapply removeReferrer_lighter. }
  unfold removeReferrerByIndexDesc, removeReferrerByManifestDesc.
  intros [E|E]; (case_decide; [try (by injection E as <- <- <- <-); by eapply Hr|]);
    (case_match; [by eapply Hr|]); stepo E; (destruct a as [a|e]; [by eapply Hr|]);
    destruct (missing e); solve [by injection E as <- <- <- <-|by eapply Hr].
Qed.

Lemma referrers_pass_lighter repo rows : forall index c count (x : st) n i x',
  referrers_pass opts repo rows index c count x = (Ok (n, i), x') ->
  weight (Manifests i) <= weight (Manifests index) /\ count <= n /\
  (count < n -> weight (Manifests i) < weight (Manifests index)).
Proof.
  induction rows as [|desc rest IH]; intros index c count x n i x'; simpl; [intros [= <- <- <-]; lia|].
  intros Hr. destruct (IsImageIndexMediaType _); [|destruct (IsImageManifestMediaType _); [|by eapply IH]];
    stepo Hr; destruct a as [[g i1] c1]; apply IH in Hr as (Hw&Hn&Hs);
    (assert (lighter index g i1) as [Hl Hg] by (eapply referrer_step_lighter; eauto));
    destruct g; try specialize (Hg eq_refl); lia.
Qed.

Lemma referrers_lighter repo index (x : st) g i x' :
  removeReferrersWithMissingSubject opts repo index x = (Ok (g, i), x') -> lighter index g i.
Proof.
  unfold removeReferrersWithMissingSubject. intros Hr. stepo Hr. destruct a as [n i1]. injection Hr as <- <- <-.
  apply referrers_pass_lighter in E as (?&?&Hs). split; [done|]. by intros ?%Nat.ltb_lt%Hs.
Qed.

Lemma untagged_pass_lighter repo referenced retained rows : forall index gced (x : st) g i x',
  untagged_pass opts repo referenced retained rows index gced x = (Ok (g, i), x') ->
  weight (Manifests i) <= weight (Manifests index) /\
  (g = true -> gced = true \/ weight (Manifests i) < weight (Manifests index)).
Proof.
  induction rows as [|desc rest IH]; intros index gced x g i x'; simpl; [intros [= <- <- <-]; auto|].
  intros Hr. case_decide; [by eapply IH|]. destruct (isKnownManifestMediaType _); [|by eapply IH].
  destruct (ref_name desc); [by eapply IH|]. case_decide; [by eapply IH|].
  stepo Hr. destruct a as [g1 i1]. apply IH in Hr as (Hw&Hs).
  apply removeManifestIfOlderThan_lighter in E as [Hl Hg]. split; [lia|]. intros Eg.
  destruct (Hs Eg) as [->|]; [specialize (Hg eq_refl)|]; lia.
Qed.

Lemma untagged_lighter repo index referenced (x : st) g i x' :
  removeUntaggedManifests opts repo index referenced x = (Ok (g, i), x') -> lighter index g i.
Proof.
  unfold removeUntaggedManifests. intros Hr. do 2 stepo Hr.
  apply untagged_pass_lighter in Hr as [Hw Hs]. split; [done|]. intros Hg. by destruct (Hs Hg).
Qed.

Lemma policy_turn_lighter repo index (x : st) g i x' :
  policy_turn opts fuel repo index x = (Ok (g, i), x') -> lighter index g i.
Proof.
  unfold policy_turn. intros Hr. stepo Hr. destruct a; [done|]. stepo Hr. destruct a as [g1 i1].
  stepo Hr. destruct a as [g2 i2]. injection Hr as <- <- <-. eapply lighter_trans.
  - destruct (HasDeleteReferrer _ _); [by eapply referrers_lighter|]. injection E0 as <- <- <-. apply lighter_same.
  - destruct (HasDeleteUntagged _ _); [|injection E1 as <- <- <-; apply lighter_same].
    stepo E1. destruct a as [referenced seen]. by eapply untagged_lighter.
Qed.

(** The loop of removeManifestsPerRepoPolicy, without a bound: turns until one
    removes nothing or fails. *)
Inductive policy_loop (repo : string) : Index -> st -> res Index -> st -> Prop :=
  | loop_stop index x i x' : policy_turn opts fuel repo index x = (Ok (false, i), x') ->
      policy_loop repo index x (Ok i) x'
  | loop_err index x e x' : policy_turn opts fuel repo index x = (Err e, x') ->
      policy_loop repo index x (Err e) x'
  | loop_again index x i x1 r x' : policy_turn opts fuel repo index x = (Ok (true, i), x1) ->
      policy_loop repo i x1 r x' -> policy_loop repo index x r x'.

Lemma policy_loop_bound repo turns : forall index x, weight (Manifests index) < turns ->
  policy_loop repo index x (fst (removeManifestsPerRepoPolicy opts fuel turns repo index x))
    (snd (removeManifestsPerRepoPolicy opts fuel turns repo index x)).
Proof.
  induction turns as [|turns IH]; intros index x Hw; [lia|]. simpl. unfold bind.
  destruct (policy_turn opts fuel repo index x) as [[[g i]|e] x1] eqn:E; [|by eapply loop_err].
  destruct g; [|by eapply loop_stop]. eapply loop_again; [done|]. apply IH.
  apply policy_turn_lighter in E as [_ Hg]. specialize (Hg eq_refl). lia.
Qed.

Lemma policy_loop_deterministic repo index x r1 x1 r2 x2 :
  policy_loop repo index x r1 x1 -> policy_loop repo index x r2 x2 -> r1 = r2 /\ x1 = x2.
Proof.
  intros Hl. revert r2 x2. induction Hl as [index x i x' E|index x e x' E|index x i x1 r x' E Hl IH];
    intros r2 x2 Hl2; inversion Hl2 as [? ? ? ? E2|? ? ? ? E2|? ? ? ? ? ? E2]; subst; rewrite E in E2;
    simplify_eq; auto.
Qed.

(** ** Up to the write of index.json the store is only read, in a dry run the
    database too *)
Section reading.
Context (I : S -> Prop) (J : M -> Prop).
Context (HB : forall repo d, preserves I (GetBlobContent repo d))
        (HX : forall repo, preserves I (GetIndexContent repo))
        (HS : forall repo d, preserves I (StatBlob repo d))
        (HM : forall repo, preserves J (GetRepoMeta repo)).
Hypothesis Hwrites : DryRun (o_ImageRetention opts) = true \/
  (forall A (m : ST M A), preserves J m) /\ (forall repo, preserves I (gs_GetAllBlobs repo)).

Definition untouched (x : st) : Prop := I (gc_store x) /\ forall d, gc_meta x = Some d -> J d.

Lemma pres_on_store {A} (m : ST S A) : preserves I m -> preserves untouched (on_store m).
Proof.
  intros Hm x r x' [Hi Hj]. unfold on_store, zoom. destruct (m (gc_store x)) as [r0 s] eqn:E. intros [= <- <-].
  split; [by eapply Hm|done].
Qed.
Lemma pres_on_pm {A} (m : ST pm A) : preserves untouched (on_pm m).
Proof. intros x r x' Hx. unfold on_pm, zoom. destruct (m (gc_pm x)). by intros [= <- <-]. Qed.
Lemma pres_on_env {A} (m : ST env A) : preserves untouched (on_env m).
Proof. apply pres_on_pm. Qed.
Lemma pres_on_meta {A} (a : A) (m : ST M A) : preserves J m -> preserves untouched (on_meta a m).
Proof.
  intros Hm x r x' [Hi Hj]. unfold on_meta. destruct (gc_meta x) as [d|] eqn:Ed.
  - destruct (m d) as [r0 d'] eqn:E. intros [= <- <-]. split; [done|]. simpl. intros ? [= <-].
    eapply Hm; [|done]. by apply Hj.
  - intros [= <- <-]. split; [done|]. by rewrite Ed.
Qed.
Lemma pres_repo_exists repo : preserves untouched (repo_exists repo).
Proof. intros x r x' Hx [= <- <-]. done. Qed.
#[local] Hint Resolve HB HX HS HM pres_on_store pres_on_pm pres_on_env pres_on_meta pres_repo_exists : pres.
#[local] Hint Extern 2 (preserves I (GetImageIndex _ _)) => apply pres_GetImageIndex : pres.
#[local] Hint Extern 2 (preserves I (GetImageManifest _ _)) => apply pres_GetImageManifest : pres.
#[local] Hint Extern 2 (preserves I (GetIndex _)) => apply pres_GetIndex : pres.

Lemma pres_isBlobOlderThan repo d delay : preserves untouched (isBlobOlderThan repo d delay).
Proof. unfold isBlobOlderThan. pres. Qed.
#[local] Hint Resolve pres_isBlobOlderThan : pres.
Lemma pres_removeManifest repo index desc reference ty sd :
  preserves untouched (removeManifest opts repo index desc reference ty sd).
Proof. unfold removeManifest. destruct Hwrites as [->|[Hany _]]; pres. Qed.
#[local] Hint Resolve pres_removeManifest : pres.
Lemma pres_removeManifestIfOlderThan repo index desc ty sd delay :
  preserves untouched (removeManifestIfOlderThan opts repo index desc ty sd delay).
Proof. unfold removeManifestIfOlderThan. pres. Qed.
#[local] Hint Resolve pres_removeManifestIfOlderThan : pres.
Lemma pres_remove_tags_loop repo retain rows : forall index, preserves untouched (remove_tags_loop opts repo retain rows index).
Proof. induction rows as [|desc rest IH]; intros index; simpl; pres. Qed.
#[local] Hint Resolve pres_remove_tags_loop : pres.
Lemma pres_remove_tags repo index : preserves untouched (removeTagsPerRetentionPolicy opts repo index).
Proof. unfold removeTagsPerRetentionPolicy. pres. Qed.
Lemma pres_removeReferrer repo index desc sub ty : preserves untouched (removeReferrer opts repo index desc sub ty).
Proof. unfold removeReferrer. pres. Qed.
#[local] Hint Resolve pres_remove_tags pres_removeReferrer : pres.
Lemma pres_by_index repo index desc c : preserves untouched (removeReferrerByIndexDesc opts repo index desc c).
Proof. unfold removeReferrerByIndexDesc. pres. Qed.
Lemma pres_by_manifest repo index desc c : preserves untouched (removeReferrerByManifestDesc opts repo index desc c).
Proof. unfold removeReferrerByManifestDesc. pres. Qed.
#[local] Hint Resolve pres_by_index pres_by_manifest : pres.
Lemma pres_referrers_pass repo rows : forall index c n, preserves untouched (referrers_pass opts repo rows index c n).
Proof. induction rows as [|desc rest IH]; intros index c n; simpl; pres. Qed.
#[local] Hint Resolve pres_referrers_pass : pres.
Lemma pres_identify_loop rec repo ms : (forall i a b, preserves untouched (rec i a b)) ->
  forall a b, preserves untouched (identify_loop rec repo ms a b).
Proof. intros Hr. induction ms as [|desc rest IH]; intros a b; simpl; pres. Qed.
Lemma pres_identify n repo : forall i a b, preserves untouched (identifyManifestsReferencedInIndex n repo i a b).
Proof. induction n as [|n IH]; intros i a b; simpl; [pres|]. by apply pres_identify_loop. Qed.
#[local] Hint Resolve pres_identify : pres.
Lemma pres_untagged_pass repo a b rows : forall index g, preserves untouched (untagged_pass opts repo a b rows index g).
Proof. induction rows as [|desc rest IH]; intros index g; simpl; pres. Qed.
#[local] Hint Resolve pres_untagged_pass : pres.
Lemma pres_removeUntagged repo index a : preserves untouched (removeUntaggedManifests opts repo index a).
Proof. unfold removeUntaggedManifests. pres. Qed.
#[local] Hint Resolve pres_removeUntagged : pres.
Lemma pres_policy_turn repo index : preserves untouched (policy_turn opts fuel repo index).
Proof. unfold policy_turn, removeReferrersWithMissingSubject. pres. Qed.
#[local] Hint Resolve pres_policy_turn : pres.
Lemma pres_policy_loop repo turns : forall index, preserves untouched (removeManifestsPerRepoPolicy opts fuel turns repo index).
Proof. induction turns as [|n IH]; intros index; simpl; pres. Qed.
#[local] Hint Resolve pres_policy_loop : pres.

Lemma pres_unknown repo index : preserves untouched (removeUnknownMediaTypeManifestEntries opts repo index).
Proof.
  unfold removeUnknownMediaTypeManifestEntries. destruct Hwrites as [->|[Hany _]]; [pres|]. destruct (DryRun _); [pres|].
  assert (forall rows kept, preserves untouched (prune_unknown repo rows kept)).
  { intros rows. induction rows as [|desc rest IH]; intros kept; simpl; unfold syncManifestRemoval; pres. }
  pres.
Qed.
Lemma pres_stale repo index : preserves untouched (removeStaleManifestEntries opts repo index).
Proof.
  unfold removeStaleManifestEntries. destruct Hwrites as [->|[Hany HG]]; [pres|]. destruct (DryRun _); [pres|].
  assert (forall blobs rows kept, preserves untouched (prune_stale repo blobs rows kept)).
  { intros blobs rows. induction rows as [|desc rest IH]; intros kept; simpl;
      unfold syncManifestRemoval, imageIndexHasStaleNestedManifests; pres. }
  pres.
Qed.
#[local] Hint Resolve pres_unknown pres_stale : pres.
Lemma pres_pruned_index repo : preserves untouched (pruned_index opts fuel repo).
Proof. unfold pruned_index. pres. Qed.
#[local] Hint Resolve pres_pruned_index : pres.
Lemma pres_gc_candidates repo refs delay all : forall acc, preserves untouched (gc_candidates repo refs delay all acc).
Proof. induction all as [|d all IH]; intros acc; simpl; pres. Qed.
Lemma pres_dry_run repo : DryRun (o_ImageRetention opts) = true -> preserves untouched (cleanRepo opts fuel repo).
Proof. intros Hdry. unfold cleanRepo. rewrite Hdry. pres. Qed.
End reading.

(** What is handed over is valid and unreferenced, whatever the clock says. *)
Lemma gc_candidates_sound repo refs delay all : forall acc (x : st) l x', gc_candidates repo refs delay all acc x = (Ok l, x') ->
  forall d, d ∈ l -> d ∈ acc \/ (Validate d = None /\ d ∉ refs).
Proof.
  induction all as [|d all IH]; intros acc x l x' E y Hy; simpl in E; [injection E as <- _; by left|].
  destruct (Validate d) eqn:Hv; [done|]. case_decide; [by eapply IH|]. stepo E.
  destruct a as [[]|]; [|by eapply IH..]. eapply IH in E as [[Hin|Hin]%elem_of_app|]; eauto.
  apply list_elem_of_singleton in Hin as ->. by right.
Qed.

(** ** Retention of tags *)

(** The database drops references without failing, or is not asked to. *)
Definition references_drop (repo : string) : Prop :=
  DryRun (o_ImageRetention opts) = true \/
  forall ref d (m : M), is_ok (fst (RemoveRepoReference repo ref d m)) = true.

Lemma not_digest_digests index t : not_digest index t <-> t ∉ digests_of index.
Proof.
  unfold not_digest. rewrite Forall_forall, elem_of_digests. split.
  - intros Hn (m&Hm&Hd). by apply (Hn m).
  - intros Hn m Hm Hd. apply Hn. by exists m.
Qed.

Lemma remove_tag_ok repo index desc t (x : st) : references_drop repo -> unique_tags index -> not_digest index t ->
  exists g index' x', removeManifest opts repo index desc t "" "" x = (Ok (Ok g, index'), x') /\
    tags_removed (eq t) index index' /\ gc_pm x' = gc_pm x.
Proof.
  intros Hdrop Hu Hd. unfold removeManifest. pose proof (remove_tag_spec index t Hu Hd) as Hs.
  destruct (RemoveManifestDescByReference index t true) as [[d i']|e].
  - destruct (DryRun (o_ImageRetention opts)) eqn:Edry; [by exists true, i', x|].
    destruct Hdrop as [Hdrop|Hdrop]; [by rewrite Edry in Hdrop|].
    unfold bind, try, on_meta. simpl. destruct (gc_meta x) as [m|]; [|by exists true, i', x].
    specialize (Hdrop t (Digest desc) m). destruct (RemoveRepoReference repo t (Digest desc) m) as [[u|e] m']; [|done].
    by eexists true, i', _.
  - destruct Hs as [-> Hn]. rewrite bool_decide_eq_true_2 by (by right). exists false, index, x.
    split; [done|]. split; [|done]. apply tags_removed_none; [done|]. by intros u Hu' <-.
Qed.

Lemma remove_tags_loop_ok repo retain rows : references_drop repo -> forall index (x : st),
  unique_tags index -> (forall t, t ∈ tags rows -> not_digest index t) -> env_alive (pm_env (gc_pm x)) = None ->
  exists index' x', remove_tags_loop opts repo retain rows index x = (Ok index', x') /\
    tags_removed (fun t => t ∈ tags rows /\ t ∉ retain) index index'.
Proof.
  intros Hdrop. induction rows as [|desc rest IH]; intros index x Hu Hd Ha; simpl.
  { exists index, x. split; [done|]. apply tags_removed_none; [done|]. intros t _ [[]%not_elem_of_nil _]. }
  unfold bind at 1, on_env, on_pm, Retention.on_env, zoom. rewrite alive_never by done. simpl.
  replace (mkGc (gc_store x) (gc_meta x) (mkPm (pm_compiled (gc_pm x)) (pm_env (gc_pm x)))) with x
    by (by destruct x as [? ? []]).
  assert (tags (desc :: rest) = option_list (ref_name desc) ++ tags rest) as Et.
  { unfold tags. simpl. by destruct (ref_name desc). }
  change (omap ref_name (desc :: rest)) with (tags (desc :: rest)) in *. rewrite Et in *.
  destruct (ref_name desc) as [tag|]; simpl in *.
  2:{ destruct (IH index x Hu Hd Ha) as (i&x'&E&Hi). by exists i, x'. }
  unfold contains. case_bool_decide as Hr; simpl.
  - destruct (IH index x) as (i&x'&E&Hi); [done|by intros; apply Hd; right|done|]. exists i, x'. split; [done|].
    destruct Hi as [U T R D]. split; [done|..|done].
    + intros u. rewrite T, elem_of_cons. naive_solver.
    + intros m u Hm. rewrite (R m u Hm), elem_of_cons. naive_solver.
  - destruct (remove_tag_ok repo index desc tag x Hdrop Hu) as (g&i1&x1&E1&H1'&Hpm); [apply Hd; by left|].
    unfold bind. rewrite E1.
    destruct (IH i1 x1) as (i&x'&E&Hi).
    { apply H1'. }
    { intros u Hu'. apply not_digest_digests. rewrite (tr_digests _ _ _ H1'). apply not_digest_digests, Hd. by right. }
    { by rewrite Hpm. }
    exists i, x'. split; [done|]. pose proof (tags_removed_trans _ _ _ _ _ H1' Hi) as [U T R D]. split; [done|..|done].
    + intros u. rewrite T, elem_of_cons. naive_solver.
    + intros m u Hm. rewrite (R m u Hm), elem_of_cons. naive_solver.
Qed.

(** ** Unreferenced blobs *)
Section blobs.
Context (repo : string) (stat : string -> res (bool * Z * Z)) (s : S) (lo hi : Z).
Context (Hstat : forall d, StatBlob repo d s = (stat d, s)).

(** The state of the store and the bounds of the clock. *)
Definition reading (x : st) : Prop := gc_store x = s /\ within lo hi (pm_env (gc_pm x)).

Definition old_at (now delay : Z) (d : string) : Prop :=
  exists ok size modtime, stat d = Ok (ok, size, modtime) /\ (modtime + delay <= now)%Z.

Lemma isBlobOlderThan_ok d delay (x : st) : reading x -> exists r x',
  isBlobOlderThan repo d delay x = (r, x') /\ reading x' /\
  (old_at lo delay d -> r = Ok true) /\ (r = Ok true -> old_at hi delay d).
Proof.
  intros [Hx Hw]. unfold isBlobOlderThan, bind, on_store, zoom. rewrite Hx, Hstat.
  destruct (stat d) as [[[ok size] modtime]|e] eqn:E.
  2:{ eexists _, _. split; [done|]. split; [by split|]. split; [|done]. intros (?&?&?&?&_). congruence. }
  unfold on_env, on_pm, Retention.on_env, zoom. simpl. eexists _, _. split; [done|]. split; [by split|].
  pose proof (Hw (env_reads (pm_env (gc_pm x)))) as Ht. unfold old_at. split.
  - intros (?&?&?&E'&Hle). rewrite E in E'. injection E' as <- <- <-. f_equal. apply negb_true_iff, Z.ltb_ge. simpl in *. lia.
  - intros [= Hr%negb_true_iff%Z.ltb_ge]. exists ok, size, modtime. split; [congruence|]. lia.
Qed.

Lemma gc_candidates_ok refs delay all : Forall (fun d => Validate d = None) all ->
  forall acc (x : st), reading x -> exists found x',
  gc_candidates repo refs delay all acc x = (Ok (acc ++ found), x') /\ reading x' /\
  (forall d, d ∈ all -> d ∉ refs -> old_at lo delay d -> d ∈ found) /\
  (forall d, d ∈ found -> d ∈ all /\ d ∉ refs /\ old_at hi delay d).
Proof.
  induction 1 as [|d all Hd _ IH]; intros acc x Hx; simpl.
  { exists [], x. rewrite app_nil_r. split; [done|]. split; [done|]. split; intros d; set_solver. }
  rewrite Hd. case_decide as Hr.
  { destruct (IH acc x Hx) as (f&x'&->&Hx'&H1'&H2'). exists f, x'. split; [done|]. split; [done|].
    split; intros y; rewrite elem_of_cons; [|naive_solver]. intros [->|?]; [done|by apply H1']. }
  unfold bind, try. destruct (isBlobOlderThan_ok d delay x Hx) as (r&x1&->&Hx1&Hlo&Hhi).
  destruct (decide (r = Ok true)) as [->|Hne].
  - destruct (IH (acc ++ [d]) x1 Hx1) as (f&x'&->&Hx'&H1'&H2'). exists (d :: f), x'.
    rewrite <-(assoc_L (++)). split; [done|]. split; [done|].
    split; intros y; rewrite !elem_of_cons; [naive_solver|]. intros [->|Hy]; [|naive_solver]. split; [by left|]. auto.
  - destruct (IH acc x1 Hx1) as (f&x'&E&Hx'&H1'&H2'). exists f, x'.
    split; [destruct r as [[]|]; done|]. split; [done|].
    split; intros y; rewrite elem_of_cons; [|naive_solver]. intros [->|?] ? Hold; [|by apply H1'].
    by apply Hlo in Hold.
Qed.
End blobs.
End collect.

(** The loop of removeManifestsPerRepoPolicy ends, on any repository, with
    any store and database: the bound used by [cleanRepo], one more than the
    weight of index.json (2 for a tagged row, 1 for an untagged one), is never
    reached, and what the bounded loop computes is what the loop of the source
    computes, and nothing else. *)
Theorem policy_loop_terminates `{GoDigest} `{OciCodec} `{SliceSort} `{MapIter} `{Glob} `{RegexpEngine}
    {S M : Type} `{GcStoreI S} `{MetaDBI M} (opts : Options) (fuel : nat) (repo : string) (index : Index)
    (x x' : gc_state S M) (r : res Index) :
  removeManifestsPerRepoPolicy opts fuel (Datatypes.S (weight (Manifests index))) repo index x = (r, x') <->
  policy_loop opts fuel repo index x r x'.
Proof.
  pose proof (policy_loop_bound opts fuel repo (Datatypes.S (weight (Manifests index))) index x ltac:(lia)) as Hb.
  split.
  - intros E. by rewrite E in Hb.
  - intros Hl. destruct (policy_loop_deterministic _ _ _ _ _ _ _ _ _ Hb Hl) as [<- <-]. by destruct (removeManifestsPerRepoPolicy _ _ _ _ _ _).
Qed.

(** A dry run writes nothing: whatever the state of the store and of the
    database, a property that reading blobs, index.json, blob sizes and
    repository metadata preserves holds after [cleanRepo] in dry-run mode. In
    particular no write of the store or the database is called. *)
Theorem dry_run_only_reads `{GoDigest} `{OciCodec} `{SliceSort} `{MapIter} `{Glob} `{RegexpEngine} `{LocalFS}
    {S M : Type} `{GcStoreI S} `{MetaDBI M} (opts : Options) (fuel : nat) (repo : string)
    (I : S -> Prop) (J : M -> Prop) (x x' : gc_state S M) (r : res unit) :
  DryRun (o_ImageRetention opts) = true ->
  (forall repo d, preserves I (GetBlobContent repo d)) -> (forall repo, preserves I (GetIndexContent repo)) ->
  (forall repo d, preserves I (StatBlob repo d)) -> (forall repo, preserves J (GetRepoMeta repo)) ->
  I (gc_store x) -> (forall d, gc_meta x = Some d -> J d) ->
  cleanRepo opts fuel repo x = (r, x') ->
  I (gc_store x') /\ (forall d, gc_meta x' = Some d -> J d).
Proof. intros Hdry HB HX HS HM Hi Hj Hr. by apply (pres_dry_run opts fuel I J HB HX HS HM (or_introl Hdry) repo Hdry x r x'). Qed.

(** C36 Retention removes tags and nothing but tags. When the repository has a
    tag policy and metadata, the pass over index.json succeeds; the digests
    listed are the same before and after; a tagged row that remains was there
    before and its tag was to be retained at the beginning of the call, and
    the rows whose tag is to be retained at the end of the call remain; tags
    stay unique. *)
Theorem tag_retention_exact `{GoDigest} `{OciCodec} `{SliceSort} `{MapIter} `{Glob} `{RegexpEngine}
    `{!SliceSortLaws} `{!MapIterLaws} {S M : Type} `{ImageStoreI S} `{MetaDBI M}
    (opts : Options) (lo hi : Z) (repo : string) (policy : RetentionPolicy) (repoMeta : RepoMeta)
    (index : Index) (x : gc_state S M) (db db' : M) :
  getRepoPolicy (o_ImageRetention opts) repo = Ok policy -> KeepTags policy <> [] -> safe_counts policy ->
  gc_meta x = Some db -> GetRepoMeta repo db = (Ok repoMeta, db') -> rm_Name repoMeta = repo ->
  references_drop (M := M) opts repo ->
  compiled_ok (gc_pm x) -> within lo hi (pm_env (gc_pm x)) -> env_alive (pm_env (gc_pm x)) = None ->
  unique_tags index -> (forall t, t ∈ tags (Manifests index) -> not_digest index t) ->
  exists index' x', removeTagsPerRetentionPolicy opts repo index x = (Ok index', x') /\
    unique_tags index' /\ digests_of index' = digests_of index /\
    forall m t, ref_name m = Some t ->
      (m ∈ Manifests index' -> m ∈ Manifests index /\ tag_retained (rule_may lo) policy repoMeta index t) /\
      (m ∈ Manifests index -> tag_retained (rule_must hi) policy repoMeta index t -> m ∈ Manifests index').
Proof.
  intros Hpol Hne Hsafe Hdb Hmeta Hname Hdrop Hc Hw Ha Hu Hnd. unfold removeTagsPerRetentionPolicy.
  assert (HasTagRetention (o_ImageRetention opts) repo = true) as ->.
  { unfold HasTagRetention. rewrite Hpol. by destruct (KeepTags policy). }
  change (negb true) with false. cbv iota. unfold bind, get, on_meta, on_pm, zoom. cbv beta iota.
  rewrite Hdb. cbv beta iota. rewrite Hdb, Hmeta. cbv beta iota. simpl gc_pm.
  destruct (tags_query_ok (o_ImageRetention opts) lo hi policy repoMeta index (gc_pm x))
    as (retain&p'&->&Hst&Hmust&Hmay); [by rewrite Hname|done..|].
  match goal with |- context [remove_tags_loop _ _ _ _ _ ?y] => set (y' := y) end.
  destruct (remove_tags_loop_ok opts repo retain (Manifests index) Hdrop index y') as (index'&x'&E&[U T R D]);
    [done|done|destruct Hst as (_&_&Hst); simpl; congruence|].
  exists index', x'. split; [done|]. split; [done|]. split; [done|]. intros m t Hm. rewrite (R m t Hm).
  split.
  - intros [Hin Hn]. split; [done|]. apply Hmay. destruct (decide (t ∈ retain)) as [|Hr]; [done|]. exfalso. apply Hn.
    split; [|done]. apply elem_of_tags. by exists m.
  - intros Hin Hk. split; [done|]. intros [_ Hn]. by apply Hn, Hmust.
Qed.

(** The blobs handed to the image store for deletion are those listed in
    the repository that index.json does not reach (through any nesting of
    indexes, configs and layers included) and that are older than the delay;
    when a referenced manifest or index that exists cannot be read, nothing
    is handed over and the call fails. *)
Theorem deletes_unreferenced_only `{GoDigest} `{OciCodec} `{RegexpEngine} {S M : Type} `{GcStoreI S}
    (fuel : nat) (repo : string) (delay lo hi : Z) (view : string -> res string)
    (stat : string -> res (bool * Z * Z)) (dom : gset string) (mt : string -> string) (index : Index)
    (all : list string) (x : gc_state S M) :
  let s := gc_store x in
  walkable repo view s dom mt index -> size dom < fuel ->
  (forall d, StatBlob repo d s = (stat d, s)) -> gs_GetAllBlobs repo s = (Ok all, s) ->
  Forall (fun d => Validate d = None) all -> within lo hi (pm_env (gc_pm x)) ->
  (exists e x', deleteUnreferencedBlobs fuel repo delay x = (Err e, x') /\ gc_store x' = s /\
     unreadable view e (Manifests index)) \/
  (exists blobs r s', gs_CleanupRepo repo blobs s = (r, s') /\
     gc_store (snd (deleteUnreferencedBlobs fuel repo delay x)) = s' /\
     fst (deleteUnreferencedBlobs fuel repo delay x) =
       match r with Ok (n, None) => Ok n | Ok (_, Some e) => Err e | Err e => Err e end /\
     (forall d, d ∈ blobs -> d ∈ all /\ ~ reaches view d (Manifests index) /\ old_at stat hi delay d) /\
     (forall d, d ∈ all -> ~ reaches view d (Manifests index) -> old_at stat lo delay d -> d ∈ blobs)).
Proof.
  intros s Hwalk Hfuel Hstat Hall Hvalid Hw.
  destruct (referenced_blobs_run repo view s dom mt index fuel Hwalk Hfuel) as (r&E&Hr).
  destruct (deleteUnreferencedBlobs fuel repo delay x) as [r0 x0] eqn:Ed. simpl.
  unfold deleteUnreferencedBlobs, bind at 1, on_store at 1, zoom at 1 in Ed. fold s in Ed. rewrite E in Ed.
  destruct r as [[refs|]|e]; [|done|injection Ed as <- <-; left; eexists _, _; by split].
  right. unfold bind at 1, try, on_store at 1, zoom at 1 in Ed. simpl in Ed. rewrite Hall in Ed.
  match type of Ed with bind _ _ ?y = _ => set (x1 := y) in Ed end.
  destruct (gc_candidates_ok repo stat s lo hi Hstat refs delay all Hvalid [] x1) as (blobs&x2&E2&[Hx2 _]&Hlo&Hhi); [by split|].
  simpl in E2. unfold bind at 1 in Ed. rewrite E2 in Ed. unfold bind, on_store, zoom in Ed. rewrite Hx2 in Ed.
  destruct (gs_CleanupRepo repo blobs s) as [r' s'] eqn:Ec. exists blobs, r', s'. split; [done|].
  split; [by destruct r' as [[n [e|]]|e]; injection Ed as <- <-|].
  split; [by destruct r' as [[n [e|]]|e]; injection Ed as <- <-|]. split.
  - intros d Hd. apply Hhi in Hd as (?&Hn&?). split; [done|]. split; [|done]. by rewrite <-Hr.
  - intros d Hd Hn Hold. apply Hlo; [done| |done]. by rewrite Hr.
Qed.

(** ** A repository to collect: three manifests without tags, the last one young *)
Module Repo.
Record timed : Type := mkTimed { t_store : toy_store; t_times : gmap string Z }.
#[export] Instance timed_store : ImageStoreI timed := {|
  RootDir _ := [""; "root"]%string;
  DirExists _ _ := true;
  GetBlobContent _ d := fun s => (toy_view (t_store s) d, s);
  GetIndexContent _ := fun s => (Ok (toy_index (t_store s)), s);
  StatBlob _ d := fun s =>
    (match toy_view (t_store s) d with
     | Ok c => Ok (true, Z.of_nat (String.length c), default 0%Z (t_times s !! d))
     | Err e => Err e
     end, s)
  |}.
#[export] Instance timed_gc : GcStoreI timed := {|
  gs_GetAllBlobs _ := fun s => (Ok (fst <$> map_to_list (toy_blobs (t_store s))), s);
  gs_PutIndexContent _ i := fun s => (Ok tt, mkTimed (mkToy (marshal_index i) (toy_blobs (t_store s))) (t_times s));
  gs_CleanupRepo _ ds := fun s =>
    (Ok (length ds, None), mkTimed (mkToy (toy_index (t_store s)) (foldr delete (toy_blobs (t_store s)) ds)) (t_times s));
  gs_RemoveIdleRepository _ _ _ := ret false;
  gs_ListBlobUploads _ := ret [];
  gs_StatBlobUpload _ _ := throw ErrPathNotFound;
  gs_DeleteBlobUpload _ _ := ret tt
  |}.
(** A database that only remembers the references dropped. *)
Record database : Type := mkDb { db_meta : RepoMeta; db_dropped : list string }.
#[export] Instance database_meta : MetaDBI database := {|
  GetRepoMeta _ := fun m => (Ok (db_meta m), m);
  DeleteSignature _ _ _ _ := ret tt;
  RemoveRepoReference _ r _ := fun m => (Ok tt, mkDb (db_meta m) (db_dropped m ++ [r]));
  DeleteRepoMeta _ := ret tt
  |}.
#[export] Instance no_files : LocalFS := fun _ => Err ErrPathNotFound.
#[export] Existing Instance Retention.Sample.plain_glob.
#[export] Existing Instance Retention.Sample.prefix_regexp.

Definition image (name : string) (subject : option Descriptor) : string :=
  toy_manifest (mkManifest "" (desc_of MediaTypeImageConfig "c") [desc_of "l" name] subject ∅).
Definition row (name : string) : Descriptor := desc_of MediaTypeImageManifest (image name None).
Definition old : Descriptor := row "old".
Definition young : Descriptor := row "young".
Definition signature : Descriptor := desc_of MediaTypeImageManifest (image "signature" (Some old)).
Definition index : Index := index_of [signature; old; young].
Definition files : timed :=
  mkTimed (toy_of index ["c"; "old"; "signature"; "young"; image "old" None; image "young" None; image "signature" (Some old)]%string)
    {[Digest young := 95%Z]}.

(** Untagged manifests are kept when pushed within 100, referrers go with their subject. *)
Definition keep_pushed : KeepUntaggedPolicy := mkKeepUntagged None (Some 100%Z) 0 0.
Definition opts (dry : bool) (keep : option KeepUntaggedPolicy) (tag_rules : list KeepTagsPolicy) : Options :=
  mkOptions 10 (mkRetention dry 10 [mkPolicy ["repo"]%string true None tag_rules keep]) None.
Definition repo_meta : RepoMeta := mkRepoMeta "repo" ∅
  {[ Digest old := mkStatistics 0 50; Digest young := mkStatistics 0 95; Digest signature := mkStatistics 0 50 ]}.
Definition start (alive : option nat) : gc_state timed database :=
  mkGc files (Some (mkDb repo_meta [])) (mkPm ∅ (mkEnv (fun _ => 100%Z) 0 alive)).
Definition listed_after (x : gc_state timed database) : list string :=
  match unmarshal_index (toy_index (t_store (gc_store x))) with
  | Some i => Digest <$> Manifests i
  | None => []
  end.
Definition stored_after (x : gc_state timed database) (d : string) : bool :=
  bool_decide (is_Some (toy_blobs (t_store (gc_store x)) !! d)).
End Repo.
Import Repo.

Lemma timed_walkable (s : timed) mt i l : toy_index (t_store s) = marshal_index i ->
  covers (toy_view (t_store s)) mt l = true -> forallb (contains l) (Manifests i) = true ->
  walkable "repo" (toy_view (t_store s)) s (dom (toy_blobs (t_store s))) mt i.
Proof.
  intros Hi Hc Hl. destruct (toy_walkable (t_store s) mt i l Hi Hc Hl) as [_ Hd Hcon _ _]. split; try done.
  unfold GetIndex, bind, try, GetIndexContent, timed_store. rewrite Hi.
  by rewrite (index_roundtrip (text := fun _ => True)).
Qed.

Lemma start_clock alive : within 100 100 (pm_env (gc_pm (Repo.start alive))).
Proof. intros n. simpl. lia. Qed.

Lemma dry_run_only_reads_witness :
  gc_store (snd (cleanRepo (Repo.opts true None []) 9 "repo" (Repo.start None))) = files /\
  (forall d, gc_meta (snd (cleanRepo (Repo.opts true None []) 9 "repo" (Repo.start None))) = Some d ->
     d = mkDb repo_meta []).
Proof.
  apply (dry_run_only_reads (Repo.opts true None []) 9 "repo" (fun s => s = files) (fun d => d = mkDb repo_meta [])
    (Repo.start None) _ (fst (cleanRepo (Repo.opts true None []) 9 "repo" (Repo.start None)))).
  - reflexivity.
  - intros repo d s r s' -> [= <- <-]. reflexivity.
  - intros repo s r s' -> [= <- <-]. reflexivity.
  - intros repo d s r s' -> [= <- <-]. reflexivity.
  - intros repo s r s' -> [= <- <-]. reflexivity.
  - reflexivity.
  - intros d [= <-]. reflexivity.
  - apply surjective_pairing.
Defined.

Lemma tag_retention_exact_witness :
  let opts := Repo.opts false None [Retention.Sample.tag_rules 2] in
  let x := mkGc files (Some (mkDb Retention.Sample.meta [])) Retention.Sample.start in
  let policy := mkPolicy ["repo"]%string true None [Retention.Sample.tag_rules 2] None in
  exists index' x', removeTagsPerRetentionPolicy opts "repo" Retention.Sample.index x = (Ok index', x') /\
    unique_tags index' /\ digests_of index' = digests_of Retention.Sample.index /\
    forall m t, ref_name m = Some t ->
      (m ∈ Manifests index' -> m ∈ Manifests Retention.Sample.index /\
         tag_retained (rule_may 100) policy Retention.Sample.meta Retention.Sample.index t) /\
      (m ∈ Manifests Retention.Sample.index ->
         tag_retained (rule_must 100) policy Retention.Sample.meta Retention.Sample.index t -> m ∈ Manifests index').
Proof.
  intros opts x policy.
  apply (tag_retention_exact opts 100 100 "repo" policy Retention.Sample.meta Retention.Sample.index x
    (mkDb Retention.Sample.meta []) (mkDb Retention.Sample.meta [])).
  - reflexivity.
  - discriminate.
  - repeat constructor; simpl; lia.
  - reflexivity.
  - reflexivity.
  - reflexivity.
  - right. reflexivity.
  - apply Retention.Sample.start_ok.
  - apply Retention.Sample.start_within.
  - reflexivity.
  - apply (bool_decide_eq_true_1 _). vm_compute. reflexivity.
  - assert (Forall (not_digest Retention.Sample.index) (tags (Manifests Retention.Sample.index))) as Hf
      by (repeat constructor; discriminate).
    intros t Ht. rewrite Forall_forall in Hf. by apply Hf.
Defined.

(** The files once index.json no longer lists [old]. *)
Definition orphaned : timed := mkTimed (mkToy (marshal_index (index_of [signature; young])) (toy_blobs (t_store files))) (t_times files).
Definition orphaned_all : list string := fst <$> map_to_list (toy_blobs (t_store orphaned)).

Lemma deletes_unreferenced_only_witness :
  let view := toy_view (t_store orphaned) in
  let stat d := match view d with
                | Ok c => Ok (true, Z.of_nat (String.length c), default 0%Z (t_times orphaned !! d))
                | Err e => Err e
                end in
  let x : gc_state timed database := mkGc orphaned None (gc_pm (Repo.start None)) in
  let index := index_of [signature; young] in
  (exists e x', deleteUnreferencedBlobs 9 "repo" 10 x = (Err e, x') /\ gc_store x' = orphaned /\
     unreadable view e (Manifests index)) \/
  (exists blobs r s', gs_CleanupRepo "repo" blobs orphaned = (r, s') /\
     gc_store (snd (deleteUnreferencedBlobs 9 "repo" 10 x)) = s' /\
     fst (deleteUnreferencedBlobs 9 "repo" 10 x) =
       match r with Ok (n, None) => Ok n | Ok (_, Some e) => Err e | Err e => Err e end /\
     (forall d, d ∈ blobs -> d ∈ orphaned_all /\ ~ reaches view d (Manifests index) /\ old_at stat 100 10 d) /\
     (forall d, d ∈ orphaned_all -> ~ reaches view d (Manifests index) -> old_at stat 100 10 d -> d ∈ blobs)).
Proof.
  intros view stat x index.
  apply (deletes_unreferenced_only 9 "repo" 10 100 100 view stat (dom (toy_blobs (t_store orphaned)))
    (fun _ => MediaTypeImageManifest) index orphaned_all x).
  - apply (timed_walkable orphaned _ _ [signature; young]); vm_compute; reflexivity.
  - apply (bool_decide_eq_true_1 _). vm_compute. reflexivity.
  - intros d. reflexivity.
  - unfold orphaned_all. reflexivity.
  - apply (bool_decide_eq_true_1 _). vm_compute. reflexivity.
  - exact (start_clock None).
Defined.

(** A cancelled context makes the collection drop what it was to retain.
    The policy keeps untagged manifests pushed within a period. With a live
    context the manifest [old] stays listed. When the context is cancelled
    after the first test of the loop, GetRetainedUntaggedFromMetaDB answers
    that nothing is retained, removeUntaggedManifests, which does not look at
    the context, removes [old], the young manifest after it resets the flag
    that would have led to another test, and the collection succeeds: the
    shortened index.json is written and the blob of [old] is deleted. *)
Theorem cancelled_context_drops_retained :
  let opts := Repo.opts false (Some keep_pushed) [] in
  (fst (cleanRepo opts 9 "repo" (Repo.start None)) = Ok tt /\
   listed_after (snd (cleanRepo opts 9 "repo" (Repo.start None))) = Digest <$> [signature; old; young]) /\
  (fst (cleanRepo opts 9 "repo" (Repo.start (Some 1))) = Ok tt /\
   listed_after (snd (cleanRepo opts 9 "repo" (Repo.start (Some 1)))) = Digest <$> [signature; young] /\
   stored_after (snd (cleanRepo opts 9 "repo" (Repo.start (Some 1)))) (Digest old) = false).
Proof. vm_compute. auto. Qed.

(** The loop of removeManifestsPerRepoPolicy can end before its work is
    done: the flag of removeUntaggedManifests keeps the outcome of the last
    row only. Here the removal of [old] is followed by a row too young to
    remove; the collection succeeds and leaves the signature of [old], whose
    subject is gone from index.json and from storage, and which the next
    collection removes. *)
Theorem collection_leaves_orphan :
  let opts := Repo.opts false None [] in
  let once := cleanRepo opts 9 "repo" (Repo.start None) in
  fst once = Ok tt /\
  listed_after (snd once) = Digest <$> [signature; young] /\ stored_after (snd once) (Digest old) = false /\
  fst (cleanRepo opts 9 "repo" (snd once)) = Ok tt /\
  listed_after (snd (cleanRepo opts 9 "repo" (snd once))) = [Digest young].
Proof. vm_compute. auto 10. Qed.
