(* ===== verification/Scheduler.v ===== *)
(** * The task scheduler (pkg/scheduler/scheduler.go)

    Generators of tasks in a binary heap ordered by rank, the lists of waiting
    and of finished generators, and the three bounded queues of tasks. A
    generator is a pointer into a table of objects, so that the lists share
    it. The operations that run under the generators' lock are single steps;
    the goroutines of the workers and of the metrics, which only take tasks
    off the worker channel and read the lists, are left out, and so is the
    field index of a generator, which nothing reads. *)

From Stdlib Require Import ZArith Lia String.
From stdpp Require Import base tactics list.
From S2P Require Import Prelude Runtime.

Local Open Scope list_scope.

(** ** Package container/heap, over a list of pointers and a comparison *)
Module Heap.
Section heap.
Variable less : nat -> nat -> bool.

Definition at_ (l : list nat) (i : nat) : nat := default 0 (l !! i).
Definition Less (l : list nat) (i j : nat) : bool := less (at_ l i) (at_ l j).
Definition Swap (l : list nat) (i j : nat) : list nat := <[i := at_ l j]> (<[j := at_ l i]> l).

Fixpoint up (fuel : nat) (l : list nat) (j : nat) : list nat :=
  match fuel with
  | 0 => l
  | S fuel =>
      let i := (j - 1) / 2 in
      if (i =? j) || negb (Less l j i) then l else up fuel (Swap l i j) i
  end.

(** The list and the index reached. *)
Fixpoint down (fuel : nat) (l : list nat) (i n : nat) : list nat * nat :=
  match fuel with
  | 0 => (l, i)
  | S fuel =>
      let j1 := 2 * i + 1 in
      if n <=? j1 then (l, i)
      else
        let j2 := j1 + 1 in
        let j := if (j2 <? n) && Less l j2 j1 then j2 else j1 in
        if negb (Less l j i) then (l, i) else down fuel (Swap l i j) j n
  end.

Definition Push (l : list nat) (x : nat) : list nat := up (length (l ++ [x])) (l ++ [x]) (length l).
Definition Fix (l : list nat) (i : nat) : list nat :=
  let '(l', i') := down (length l) l i (length l) in
  if i <? i' then l' else up (length l) l' i.
(** The element popped and what is left. *)
Definition Pop (l : list nat) : nat * list nat :=
  let n := length l - 1 in
  let l := fst (down n (Swap l 0 n) 0 n) in
  (at_ l n, take n l).
End heap.
End Heap.

(** ** Generators and the scheduler's state *)
Inductive Priority : Type := LowPriority | MediumPriority | HighPriority.
Inductive State : Type := Ready | Waiting | Done.
#[export] Instance State_eq_dec : EqDecision State.
Proof. solve_decision. Defined.

(** What the scheduler asks of a task generator, named by its pointer: its
    own state [W] is not the scheduler's. *)
Class TaskGeneratorI (W Task : Type) := {
  tg_Next : nat -> ST W (option Task);
  tg_IsDone : nat -> W -> bool * W;
  tg_IsReady : nat -> W -> bool * W;
  tg_Reset : nat -> W -> W
}.

Definition rateLimiterScheduler : nat := 400.

Record generator (Task : Type) : Type := mkGenerator {
  g_interval : Z;
  g_lastRun : Z;
  g_done : bool;
  g_priority : Priority;
  g_remainingTask : option Task;
  g_taskCount : Z
}.
Arguments mkGenerator {Task} _ _ _ _ _ _.
Arguments g_interval {Task} _.
Arguments g_lastRun {Task} _.
Arguments g_done {Task} _.
Arguments g_priority {Task} _.
Arguments g_remainingTask {Task} _.
Arguments g_taskCount {Task} _.

Record scheduler (W Task : Type) : Type := mkScheduler {
  objects : list (generator Task);  (* the generators submitted, in order *)
  generators : list nat;            (* the heap *)
  waitingGenerators : list nat;
  doneGenerators : list nat;
  tasksQLow : list (option Task);   (* a nil task is [None] *)
  tasksQMedium : list (option Task);
  tasksQHigh : list (option Task);
  isShuttingDown : bool;
  world : W;
  s_env : env
}.
Arguments mkScheduler {W Task} _ _ _ _ _ _ _ _ _ _.
Arguments objects {W Task} _.
Arguments generators {W Task} _.
Arguments waitingGenerators {W Task} _.
Arguments doneGenerators {W Task} _.
Arguments tasksQLow {W Task} _.
Arguments tasksQMedium {W Task} _.
Arguments tasksQHigh {W Task} _.
Arguments isShuttingDown {W Task} _.
Arguments world {W Task} _.
Arguments s_env {W Task} _.

(** ** The heap operations permute the list *)
Section heap_lemmas.
Variable less : nat -> nat -> bool.

Lemma swap_perm (l : list nat) i j : i < length l -> j < length l -> Heap.Swap l i j ≡ₚ l.
Proof.
  intros [a Hi]%lookup_lt_is_Some_2 [b Hj]%lookup_lt_is_Some_2.
  unfold Heap.Swap, Heap.at_. rewrite Hi, Hj. simpl. by rewrite Permutation_insert_swap.
Qed.
Lemma swap_length l i j : length (Heap.Swap l i j) = length l.
Proof. unfold Heap.Swap. by rewrite !length_insert. Qed.
Lemma swap_drop l i j n : i < n -> j < n -> drop n (Heap.Swap l i j) = drop n l.
Proof. intros Hi Hj. unfold Heap.Swap. by rewrite !drop_insert_lt by done. Qed.

Lemma up_perm fuel : forall l j, j < length l -> Heap.up less fuel l j ≡ₚ l.
Proof.
  induction fuel as [|fuel IH]; intros l j Hj; [done|]. cbn [Heap.up].
  assert ((j - 1) / 2 <= j) as Hle by (apply (Nat.Div0.div_le_upper_bound (j - 1) 2 j); lia).
  set (i := (j - 1) / 2) in *. destruct (_ || _); [done|].
  rewrite IH by (rewrite swap_length; lia). apply swap_perm; lia.
Qed.

(** The indexes from [n] on are left alone, and the index reached is below. *)
Lemma down_spec fuel : forall l i n l' i', i < n -> n <= length l -> Heap.down less fuel l i n = (l', i') ->
  l' ≡ₚ l /\ length l' = length l /\ drop n l' = drop n l /\ i' < n.
Proof.
  induction fuel as [|fuel IH]; intros l i n l' i' Hi Hn; [by intros [= <- <-]|]. cbn [Heap.down].
  set (j1 := 2 * i + 1). destruct (Nat.leb_spec n j1); [by intros [= <- <-]|].
  set (j := if _ && _ then j1 + 1 else j1).
  assert (j < n) as Hj by (unfold j; destruct (Nat.ltb_spec (j1 + 1) n); simpl; [destruct (Heap.Less _ _ _ _)|]; lia).
  clearbody j. destruct (negb _); [by intros [= <- <-]|].
  intros (Hp&Hl&Hd&Hi')%IH; [|done|rewrite swap_length; lia].
  split; [rewrite Hp; apply swap_perm; lia|]. rewrite Hl, Hd, swap_length, swap_drop by lia. done.
Qed.

Lemma push_perm l x : Heap.Push less l x ≡ₚ x :: l.
Proof.
  unfold Heap.Push. rewrite up_perm by (rewrite length_app; simpl; lia). by rewrite Permutation_app_comm.
Qed.

Lemma fix_perm l i : i < length l -> Heap.Fix less l i ≡ₚ l.
Proof.
  intros Hi. unfold Heap.Fix. destruct (Heap.down _ _ _ _ _) as [l' i'] eqn:Ed.
  apply down_spec in Ed as (Hp&Hl&_&_); [|lia..]. destruct (i <? i'); [done|].
  rewrite up_perm; [done|lia].
Qed.

(** The element popped is the first one. *)
Lemma pop_perm x l : let '(y, rest) := Heap.Pop less (x :: l) in y = x /\ rest ≡ₚ l.
Proof.
  unfold Heap.Pop. simpl length. rewrite Nat.sub_1_r. simpl Nat.pred. set (n := length l).
  set (l0 := Heap.Swap (x :: l) 0 n).
  assert (length l0 = S n) as Hl0 by (unfold l0; by rewrite swap_length).
  assert (drop n l0 = [x]) as Hx.
  { unfold l0, Heap.Swap, Heap.at_. simpl (_ !! 0). simpl default. destruct n as [|m] eqn:En; [by destruct l|]. simpl.
    assert (length (<[m:=x]> l) = S m) as Hl by (rewrite length_insert; lia).
    rewrite (drop_S _ x m) by (apply list_lookup_insert_eq; lia). by rewrite drop_ge by lia. }
  assert (l0 ≡ₚ x :: l) as Hp by (apply swap_perm; simpl; lia).
  assert (forall l1, l1 ≡ₚ x :: l -> length l1 = S n -> drop n l1 = [x] ->
    Heap.at_ l1 n = x /\ take n l1 ≡ₚ l) as Hend.
  { intros l1 Hp1 Hl1 Hd1. rewrite <-(take_drop n l1), Hd1 in Hp1.
    split.
    - unfold Heap.at_. assert (drop n l1 !! 0 = Some x) as Hat by by rewrite Hd1.
      rewrite lookup_drop, Nat.add_0_r in Hat. by rewrite Hat.
    - rewrite Permutation_app_comm in Hp1. by apply (Permutation_cons_inv (a := x)). }
  destruct (decide (n = 0)) as [E0|Hn].
  - rewrite E0 in *. simpl. by apply Hend.
  - destruct (Heap.down less n l0 0 n) as [l1 i1] eqn:Ed. simpl. apply down_spec in Ed as (Hp1&Hl1&Hd1&_); [|lia..].
    apply Hend; [by rewrite Hp1|congruence|congruence].
Qed.
End heap_lemmas.

Section scheduler.
Context {W Task : Type} `{TaskGeneratorI W Task}.
Abbreviation sch := (scheduler W Task).

Definition set_objects (o : list (generator Task)) (s : sch) : sch :=
  mkScheduler o (generators s) (waitingGenerators s) (doneGenerators s)
    (tasksQLow s) (tasksQMedium s) (tasksQHigh s) (isShuttingDown s) (world s) (s_env s).
Definition set_lists (r w d : list nat) (s : sch) : sch :=
  mkScheduler (objects s) r w d
    (tasksQLow s) (tasksQMedium s) (tasksQHigh s) (isShuttingDown s) (world s) (s_env s).
Definition set_queues (l m h : list (option Task)) (s : sch) : sch :=
  mkScheduler (objects s) (generators s) (waitingGenerators s) (doneGenerators s) l m h
    (isShuttingDown s) (world s) (s_env s).
Definition on_world {A} (m : ST W A) : ST sch A :=
  zoom world (fun w s => mkScheduler (objects s) (generators s) (waitingGenerators s) (doneGenerators s)
    (tasksQLow s) (tasksQMedium s) (tasksQHigh s) (isShuttingDown s) w (s_env s)) m.
Definition ask {A} (f : W -> A * W) : ST sch A := on_world (fun w => let '(a, w) := f w in (Ok a, w)).
Definition on_env {A} (m : ST env A) : ST sch A :=
  zoom s_env (fun e s => mkScheduler (objects s) (generators s) (waitingGenerators s) (doneGenerators s)
    (tasksQLow s) (tasksQMedium s) (tasksQHigh s) (isShuttingDown s) (world s) e) m.

Definition no_generator : generator Task := mkGenerator 0 0 false LowPriority None 0.
Definition object (s : sch) (g : nat) : generator Task := default no_generator (objects s !! g).
Definition update (g : nat) (f : generator Task -> generator Task) (s : sch) : sch :=
  set_objects (alter f g (objects s)) s.

Definition set_done (done : bool) (g : generator Task) : generator Task :=
  mkGenerator (g_interval g) (g_lastRun g) done (g_priority g) (g_remainingTask g) (g_taskCount g).
Definition set_remaining (t : option Task) (g : generator Task) : generator Task :=
  mkGenerator (g_interval g) (g_lastRun g) (g_done g) (g_priority g) t (g_taskCount g).
Definition set_count (n : Z) (g : generator Task) : generator Task :=
  mkGenerator (g_interval g) (g_lastRun g) (g_done g) (g_priority g) (g_remainingTask g) n.
Definition finish (now : Z) (g : generator Task) : generator Task :=
  mkGenerator (g_interval g) now true (g_priority g) (g_remainingTask g) 0.

(** getRanking is 10 to the priority over 1 plus the number of tasks: the
    comparison of two such quotients, by cross-multiplication. The float64
    quotients compare alike as long as the counts are below 2^25: two of the
    rationals then differ by more than their roundings. *)
Definition weight (p : Priority) : Z :=
  match p with LowPriority => 1 | MediumPriority => 10 | HighPriority => 100 end.
Definition higher_ranked (a b : generator Task) : bool :=
  (weight (g_priority b) * (1 + g_taskCount a) <? weight (g_priority a) * (1 + g_taskCount b))%Z.
Definition less (s : sch) (a b : nat) : bool := higher_ranked (object s a) (object s b).

Definition is_none {A} (o : option A) : bool := match o with None => true | Some _ => false end.

(** time.Since is read only when the generator is done. *)
Definition getState (g : nat) : ST sch State :=
  let* s := get in
  let gen := object s g in
  let* held :=
    (if (g_interval gen =? 0)%Z then
       ret (if g_done gen && is_none (g_remainingTask gen) then Some Done else None)
     else if g_done gen then
       let* now := on_env Now in
       ret (if (now - g_lastRun gen <? g_interval gen)%Z && is_none (g_remainingTask gen)
            then Some Waiting else None)
     else ret None) in
  match held with
  | Some st => ret st
  | None =>
      let* ready := ask (tg_IsReady g) in
      ret (if (ready : bool) then Ready else Waiting)
  end.

(** ** Queues *)
Definition queue (p : Priority) (s : sch) : list (option Task) :=
  match p with LowPriority => tasksQLow s | MediumPriority => tasksQMedium s | HighPriority => tasksQHigh s end.
Definition set_queue (p : Priority) (q : list (option Task)) (s : sch) : sch :=
  match p with
  | LowPriority => set_queues q (tasksQMedium s) (tasksQHigh s) s
  | MediumPriority => set_queues (tasksQLow s) q (tasksQHigh s) s
  | HighPriority => set_queues (tasksQLow s) (tasksQMedium s) q s
  end.
(** A send in a select with a default: whether there was room. *)
Definition offer (p : Priority) (t : option Task) : ST sch bool := fun s =>
  if (length (queue p s) <? rateLimiterScheduler)%nat
  then (Ok true, set_queue p (queue p s ++ [t]) s) else (Ok false, s).
(** A receive in a select with a default. *)
Definition poll (p : Priority) : ST sch (option (option Task)) := fun s =>
  match queue p s with
  | [] => (Ok None, s)
  | t :: q => (Ok (Some t), set_queue p q s)
  end.

Definition SubmitTask (task : option Task) (priority : Priority) : ST sch unit :=
  let* s := get in
  if isShuttingDown s then ret tt
  else let* _ := offer priority task in ret tt.

Definition SubmitGenerator (interval : Z) (priority : Priority) : ST sch unit :=
  let* s := get in
  let s := set_objects (objects s ++ [mkGenerator interval 0 false priority None 0]) s in
  put (set_lists (Heap.Push (less s) (generators s) (length (objects s) - 1))
         (waitingGenerators s) (doneGenerators s) s).

(** ** Generating a task *)

(** The errors of Next are only logged. A nil task of a generator that is not
    done is sent like another; when there is no room it is lost, since a nil
    remainingTask means that there is none. *)
Definition generate (g : nat) : ST sch unit :=
  let* s := get in
  let* next :=
    match g_remainingTask (object s g) with
    | Some task => ret (Some (Some task))
    | None =>
        let* r := try (on_world (tg_Next g)) in
        match r with
        | Err _ => ret None
        | Ok nextTask =>
            let* done := ask (tg_IsDone g) in
            if (done : bool) then
              let* now := on_env Now in
              modify (update g (finish now)) ;;;
              ask (fun w => (tt, tg_Reset g w)) ;;;
              ret None
            else ret (Some nextTask)
        end
    end in
  match next with
  | None => ret tt
  | Some task =>
      modify (update g (fun gen => set_count (g_taskCount gen + 1) gen)) ;;;
      let* sent := offer (g_priority (object s g)) task in
      modify (update g (set_remaining (if (sent : bool) then None else task)))
  end.

(** The first waiting generator that is ready. *)
Fixpoint find_ready (l : list nat) (i : nat) : ST sch (option (nat * nat)) :=
  match l with
  | [] => ret None
  | g :: rest =>
      let* st := getState g in
      if decide (st = Ready) then ret (Some (i, g)) else find_ready rest (S i)
  end.

(** At most one turn per waiting generator. *)
Fixpoint push_ready_loop (turns : nat) : ST sch unit :=
  match turns with
  | 0 => ret tt
  | S turns =>
      let* s := get in
      let* found := find_ready (waitingGenerators s) 0 in
      match found with
      | None => ret tt
      | Some (i, g) =>
          modify (update g (set_done false)) ;;;
          modify (fun s => set_lists (Heap.Push (less s) (generators s) g)
                             (delete i (waitingGenerators s)) (doneGenerators s) s) ;;;
          push_ready_loop turns
      end
  end.
Definition pushReadyGenerators : ST sch unit :=
  let* s := get in push_ready_loop (S (length (waitingGenerators s))).

Definition generateTasks : ST sch unit :=
  pushReadyGenerators ;;;
  let* s := get in
  match generators s with
  | [] => ret tt
  | gen :: _ =>
      let* st := getState gen in
      if decide (st = Ready) then
        (modify (fun s => set_lists (Heap.Fix (less s) (generators s) 0) (waitingGenerators s) (doneGenerators s) s) ;;;
         generate gen)
      else
        let* s := get in
        let '(gen, rest) := Heap.Pop (less s) (generators s) in
        put (set_lists rest (waitingGenerators s) (doneGenerators s) s) ;;;
        let* st := getState gen in
        if decide (st = Waiting) then
          modify (fun s => set_lists (generators s) (waitingGenerators s ++ [gen]) (doneGenerators s) s)
        else
          (* the source asks for the state again before it compares with Done *)
          let* st := getState gen in
          if decide (st = Done) then
            modify (fun s => set_lists (generators s) (waitingGenerators s) (doneGenerators s ++ [gen]) s)
          else ret tt
  end.

Definition getTask : ST sch (option Task) :=
  generateTasks ;;;
  let* t := poll HighPriority in
  match t with
  | Some t => ret t
  | None =>
      let* t := poll MediumPriority in
      match t with
      | Some t => ret t
      | None =>
          let* t := poll LowPriority in
          ret (default None t)
      end
  end.

(** The loop of RunScheduler, up to its shutdown: at each turn, whether there
    is room in the worker channel. The tasks sent to the workers. *)
Fixpoint run_loop (room : list bool) : ST sch (list Task) :=
  match room with
  | [] => ret []
  | false :: room => run_loop room
  | true :: room =>
      let* task := getTask in
      let* rest := run_loop room in
      ret (option_list task ++ rest)
  end.

Definition NewScheduler (w : W) (e : env) : sch := mkScheduler [] [] [] [] [] [] [] false w e.
Definition shutdown : ST sch unit := fun s =>
  (Ok tt, mkScheduler (objects s) (generators s) (waitingGenerators s) (doneGenerators s)
            (tasksQLow s) (tasksQMedium s) (tasksQHigh s) true (world s) (s_env s)).

(** The states of a scheduler: what the generators know may change between
    two calls. *)
Inductive reachable : sch -> Prop :=
  | reach_new w e : reachable (NewScheduler w e)
  | reach_submit_task t p s : reachable s -> reachable (snd (SubmitTask t p s))
  | reach_submit_generator i p s : reachable s -> reachable (snd (SubmitGenerator i p s))
  | reach_get_task s : reachable s -> reachable (snd (getTask s))
  | reach_shutdown s : reachable s -> reachable (snd (shutdown s))
  | reach_elsewhere w s : reachable s -> reachable (snd (on_world (fun _ => (Ok tt, w)) s)).
End scheduler.

(** ** The calls of a run *)

(** What was asked of the generators that can give or end their tasks, with
    the answers. *)
Inductive call (Task : Type) : Type :=
  | CalledNext (g : nat) (answer : res (option Task))
  | CalledIsDone (g : nat) (answer : bool).
Arguments CalledNext {Task} _ _.
Arguments CalledIsDone {Task} _ _.

(** The tasks that the scheduler is given: those Next answered with, unless
    IsDone says right after that the generator is done. *)
Fixpoint fresh {Task} (calls : list (call Task)) : list Task :=
  match calls with
  | CalledNext _ (Ok (Some t)) :: CalledIsDone _ done :: calls => (if done then [] else [t]) ++ fresh calls
  | _ :: calls => fresh calls
  | [] => []
  end.

(** The calls of one turn. *)
Inductive turn_calls {Task} : list (call Task) -> Prop :=
  | turn_silent : turn_calls []
  | turn_failed g e : turn_calls [CalledNext g (Err e)]
  | turn_answered g t done : turn_calls [CalledNext g (Ok t); CalledIsDone g done].
Lemma fresh_turn {Task} (c1 c2 : list (call Task)) : turn_calls c1 -> fresh (c1 ++ c2) = fresh c1 ++ fresh c2.
Proof. destruct 1 as [|g e|g [t|] b]; simpl; [done|done| |done]. by rewrite app_nil_r. Qed.

(** ** Properties *)
Section properties.
Context {W Task : Type} `{TaskGeneratorI W Task}.
Abbreviation sch := (scheduler W Task).

(** A part of the generators' state that records the calls. *)
Record records (calls : W -> list (call Task)) : Prop := {
  rec_next : forall g w, calls (snd (tg_Next g w)) = calls w ++ [CalledNext g (fst (tg_Next g w))];
  rec_done : forall g w, calls (snd (tg_IsDone g w)) = calls w ++ [CalledIsDone g (fst (tg_IsDone g w))];
  rec_ready : forall g w, calls (snd (tg_IsReady g w)) = calls w;
  rec_reset : forall g w, calls (tg_Reset g w) = calls w
}.
Definition called (cs : list (call Task)) (s s' : sch) : Prop :=
  forall calls, records calls -> calls (world s') = calls (world s) ++ cs.
Lemma called_none s s' : world s' = world s -> called [] s s'.
Proof. intros E calls _. by rewrite E, app_nil_r. Qed.
Lemma called_app c1 c2 s1 s2 s3 : called c1 s1 s2 -> called c2 s2 s3 -> called (c1 ++ c2) s1 s3.
Proof. intros H1 H2 calls Hr. by rewrite (H2 calls Hr), (H1 calls Hr), app_assoc. Qed.

(** Computations that make none of these calls. *)
Definition quiet {A} (m : ST sch A) : Prop := forall s, called [] s (snd (m s)).
Lemma quiet_bind {A B} (m : ST sch A) (k : A -> ST sch B) : quiet m -> (forall a, quiet (k a)) -> quiet (bind m k).
Proof.
  intros Hm Hk s. unfold bind. specialize (Hm s). destruct (m s) as [[a|e] s1]; [|done].
  change (called ([] ++ []) s (snd (k a s1))). by eapply called_app; [|apply Hk].
Qed.
Lemma quiet_same {A} (m : ST sch A) : (forall s, world (snd (m s)) = world s) -> quiet m.
Proof. intros Hm s. apply called_none, Hm. Qed.
Lemma quiet_ready g : quiet (ask (tg_IsReady g)).
Proof.
  intros s calls Hr. unfold ask, on_world, zoom. pose proof (rec_ready calls Hr g (world s)) as E.
  destruct (tg_IsReady g (world s)). simpl in *. by rewrite E, app_nil_r.
Qed.

(** The generators the scheduler knows of. *)
Definition pointers (s : sch) : list nat := generators s ++ waitingGenerators s ++ doneGenerators s.

(** The tasks it holds: in the queues, or kept by their generator. *)
Definition queued (s : sch) : list Task :=
  omap id (tasksQHigh s) ++ omap id (tasksQMedium s) ++ omap id (tasksQLow s).
Definition remaining (s : sch) : list Task := omap g_remainingTask (objects s).
Definition held (s : sch) : list Task := queued s ++ remaining s.

Record wf (s : sch) : Prop := {
  wf_valid : Forall (fun g => g < length (objects s)) (pointers s);
  wf_nodup : NoDup (pointers s);
  wf_queues : forall p, length (queue p s) <= rateLimiterScheduler
}.

(** Asking for a state changes the generators' own state and the clock only. *)
Definition observed (s s' : sch) : Prop :=
  objects s' = objects s /\ generators s' = generators s /\ waitingGenerators s' = waitingGenerators s /\
  doneGenerators s' = doneGenerators s /\ (forall p, queue p s' = queue p s).

Lemma observed_refl s : observed s s.
Proof. done. Qed.
Lemma observed_trans s1 s2 s3 : observed s1 s2 -> observed s2 s3 -> observed s1 s3.
Proof. intros (?&?&?&?&Hq) (?&?&?&?&Hq'). repeat split; try congruence; intros p; by rewrite ?Hq', ?Hq. Qed.
Lemma observed_queues s s' : observed s s' ->
  tasksQHigh s' = tasksQHigh s /\ tasksQMedium s' = tasksQMedium s /\ tasksQLow s' = tasksQLow s.
Proof. intros (_&_&_&_&Hq). exact (conj (Hq HighPriority) (conj (Hq MediumPriority) (Hq LowPriority))). Qed.
Lemma observed_held s s' : observed s s' -> held s' = held s.
Proof.
  intros Ho. pose proof (observed_queues _ _ Ho) as (E1&E2&E3). destruct Ho as (Eo&_).
  unfold held, queued, remaining. by rewrite E1, E2, E3, Eo.
Qed.
Lemma observed_pointers s s' : observed s s' -> pointers s' = pointers s.
Proof. intros (_&E1&E2&E3&_). unfold pointers. by rewrite E1, E2, E3. Qed.

Lemma wf_step s s' : length (objects s') = length (objects s) ->
  pointers s' ⊆+ pointers s -> (forall p, length (queue p s') <= length (queue p s) `max` rateLimiterScheduler) ->
  wf s -> wf s'.
Proof.
  intros Ho Hp Hq [Hv Hn Hl]. split.
  - apply Forall_forall. intros g Hg. rewrite Forall_forall in Hv. rewrite Ho. apply Hv.
    by eapply elem_of_submseteq.
  - apply submseteq_Permutation in Hp as [k Hk]. rewrite Hk in Hn. by apply NoDup_app in Hn as [].
  - intros p. specialize (Hq p). specialize (Hl p). lia.
Qed.

Lemma getState_ok g s : exists st s', getState g s = (Ok st, s') /\ observed s s'.
Proof.
  assert (forall s0 : sch, observed s s0 -> exists st s',
    (let* ready := ask (tg_IsReady g) in ret (if (ready : bool) then Ready else Waiting)) s0 = (Ok st, s') /\ observed s s') as Hask.
  { intros s0 Hs. unfold bind, ask, on_world, zoom. destruct (tg_IsReady g (world s0)) as [b w]. simpl.
    eexists _, _. split; [done|]. eapply observed_trans; [exact Hs|]. by repeat split. }
  unfold getState. unfold bind at 1, get. cbv beta iota zeta.
  destruct (g_interval _ =? 0)%Z.
  - unfold bind at 1, ret at 1. destruct (_ && _); [|by apply Hask]. by eexists _, _.
  - destruct (g_done _); [|unfold bind at 1, ret at 1; by apply Hask].
    unfold bind at 1, on_env, zoom, Now, bind at 1, ret at 1. simpl. destruct (_ && _); [|apply Hask; by repeat split].
    eexists _, _. split; [done|]. by repeat split.
Qed.

Lemma getState_quiet g : quiet (getState g).
Proof.
  assert (quiet (let* ready := ask (tg_IsReady g) in ret (if (ready : bool) then Ready else Waiting))) as Hq
    by (apply quiet_bind; [apply quiet_ready|]; intros []; by apply quiet_same).
  apply quiet_bind; [by apply quiet_same|]. intros s. apply quiet_bind.
  - destruct (_ =? 0)%Z; [by apply quiet_same|]. destruct (g_done _); [|by apply quiet_same].
    apply quiet_bind; by intros; apply quiet_same.
  - intros [st|]; [by apply quiet_same|done].
Qed.
Lemma getState_called g s st s' : getState g s = (Ok st, s') -> called [] s s'.
Proof. intros E. pose proof (getState_quiet g s) as Hq. by rewrite E in Hq. Qed.

Lemma find_ready_quiet l : forall i, quiet (find_ready l i).
Proof.
  induction l as [|g l IH]; intros i; simpl; [by apply quiet_same|]. apply quiet_bind; [apply getState_quiet|].
  intros st. case_decide; [by apply quiet_same|apply IH].
Qed.
Lemma push_ready_quiet turns : quiet (push_ready_loop turns).
Proof.
  induction turns as [|turns IH]; simpl; [by apply quiet_same|]. apply quiet_bind; [by apply quiet_same|]. intros s.
  apply quiet_bind; [apply find_ready_quiet|]. intros [[i g]|]; [|by apply quiet_same].
  do 2 (apply quiet_bind; [by apply quiet_same|intros _]). exact IH.
Qed.

Lemma observed_interval g s s' : observed s s' -> g_interval (object s' g) = g_interval (object s g).
Proof. intros (E&_). unfold object. by rewrite E. Qed.

Lemma find_ready_ok l : forall i s, exists r s', find_ready l i s = (Ok r, s') /\ observed s s' /\
  forall j g, r = Some (j, g) -> i <= j /\ l !! (j - i) = Some g.
Proof.
  induction l as [|g l IH]; intros i s; simpl; [by exists None, s|].
  unfold bind. destruct (getState_ok g s) as (st&s1&->&Ho). case_decide.
  - eexists _, s1. split; [done|]. split; [done|]. intros j g' [= <- <-]. by rewrite Nat.sub_diag.
  - destruct (IH (S i) s1) as (r&s'&->&Ho'&Hr). exists r, s'. split; [done|]. split; [by eapply observed_trans|].
    intros j g' [? Hl]%Hr. split; [lia|]. by replace (j - i) with (S (j - S i)) by lia.
Qed.

(** Changing a generator without touching its remaining task. *)
Lemma alter_remaining (f : generator Task -> generator Task) g (o : list (generator Task)) :
  (forall x, g_remainingTask (f x) = g_remainingTask x) ->
  omap g_remainingTask (alter f g o) = omap g_remainingTask o.
Proof.
  intros Hf. revert g. induction o as [|x o IH]; intros [|g]; simpl; [done..|by rewrite Hf|].
  destruct (g_remainingTask x); [f_equal|]; apply IH.
Qed.

(** The remaining task of one generator, and those of the others. *)
Lemma remaining_split (o : list (generator Task)) g x : o !! g = Some x ->
  omap g_remainingTask o ≡ₚ option_list (g_remainingTask x) ++ omap g_remainingTask (delete g o).
Proof.
  intros Hg. rewrite (delete_Permutation o g x) at 1 by done. simpl. by destruct (g_remainingTask x).
Qed.
Lemma delete_alter (f : generator Task -> generator Task) g (o : list (generator Task)) :
  delete g (alter f g o) = delete g o.
Proof. revert g. induction o as [|x o IH]; intros [|g]; simpl; [done..|]. f_equal. apply IH. Qed.

(** What a step does that only moves generators from list to list. *)
Definition shuffled (s s' : sch) : Prop :=
  length (objects s') = length (objects s) /\ pointers s' ≡ₚ pointers s /\
  held s' = held s /\ (forall p, queue p s' = queue p s) /\
  forall g, g_interval (object s' g) = g_interval (object s g).

Lemma shuffled_trans s1 s2 s3 : shuffled s1 s2 -> shuffled s2 s3 -> shuffled s1 s3.
Proof.
  intros (E1&P1&H1&Q1&I1) (E2&P2&H2&Q2&I2). split; [congruence|]. split; [by rewrite P2, P1|]. split; [congruence|].
  split; [intros p; by rewrite Q2, Q1|intros g; by rewrite I2, I1].
Qed.
Lemma shuffled_observed s s' : observed s s' -> shuffled s s'.
Proof.
  intros Ho. split; [destruct Ho as (->&_); done|]. split; [by rewrite (observed_pointers _ _ Ho)|].
  split; [by apply observed_held|]. split; [apply Ho|]. intros g. by apply observed_interval.
Qed.
Lemma shuffled_wf s s' : shuffled s s' -> wf s -> wf s'.
Proof.
  intros (E&P&_&Q&_) Hw. apply (wf_step s); [done|by rewrite P| |done]. intros p. rewrite Q. lia.
Qed.

Lemma push_ready_ok turns : forall s, exists s', push_ready_loop turns s = (Ok tt, s') /\ shuffled s s'.
Proof.
  induction turns as [|turns IH]; intros s; simpl; [exists s; split; [done|]; by apply shuffled_observed|].
  unfold bind at 1, get. unfold bind at 1. destruct (find_ready_ok (waitingGenerators s) 0 s) as (r&s1&->&Ho&Hr).
  destruct r as [[i g]|]; [|exists s1; split; [done|]; by apply shuffled_observed].
  destruct (Hr i g eq_refl) as [_ Hi]. rewrite Nat.sub_0_r in Hi. unfold bind, modify. cbv beta iota.
  match goal with |- context [push_ready_loop turns ?x] => set (s2 := x) end.
  destruct (IH s2) as (s'&E&Hs). exists s'. split; [done|]. eapply shuffled_trans; [|exact Hs].
  eapply shuffled_trans; [by apply shuffled_observed|]. unfold s2. split; [|split; [|split]].
  - simpl. apply length_alter.
  - unfold pointers. simpl. rewrite push_perm. destruct Ho as (_&_&Ew&_).
    rewrite <-Ew in Hi. apply delete_Permutation in Hi.
    transitivity (generators s1 ++ (g :: delete i (waitingGenerators s1)) ++ doneGenerators s1); [solve_Permutation|].
    by rewrite <-Hi.
  - unfold held, remaining. simpl. f_equal. by apply alter_remaining.
  - split; [by intros []|]. intros h. unfold object. simpl.
    destruct (decide (g = h)) as [<-|Hn]; [rewrite list_lookup_alter_eq|by rewrite list_lookup_alter_ne].
    by destruct (objects s1 !! g).
Qed.

(** What a step does that may hold more tasks. *)
Definition produced (made : list Task) (s s' : sch) : Prop :=
  length (objects s') = length (objects s) /\ pointers s' = pointers s /\
  held s' ≡ₚ made ++ held s /\
  (forall p, length (queue p s') <= length (queue p s) `max` rateLimiterScheduler).

Lemma produced_none s s' : observed s s' -> produced [] s s'.
Proof.
  intros Ho. split; [destruct Ho as (->&_); done|]. split; [by apply observed_pointers|].
  split; [by rewrite (observed_held _ _ Ho)|]. intros p. destruct Ho as (_&_&_&_&Hq). rewrite Hq. lia.
Qed.

Lemma offer_ok p (t : option Task) s : exists b s', offer p t s = (Ok b, s') /\
  objects s' = objects s /\ pointers s' = pointers s /\
  queued s' ≡ₚ (if (b : bool) then option_list t else []) ++ queued s /\
  (forall q, length (queue q s') <= length (queue q s) `max` rateLimiterScheduler) /\ world s' = world s.
Proof.
  unfold offer. destruct (Nat.ltb_spec (length (queue p s)) rateLimiterScheduler).
  - eexists true, _. split; [done|]. split; [by destruct p|]. split; [by destruct p|]. split; [|split; [|by destruct p]].
    + unfold queued. destruct p; simpl; rewrite omap_snoc; simpl; solve_Permutation.
    + intros q. destruct p, q; simpl in *; rewrite ?length_app; simpl; lia.
  - eexists false, s. split; [done|]. split; [done|]. split; [done|]. split; [done|]. split; [|done]. intros q. lia.
Qed.

(** The end of generate: count the task, then send it or keep it. *)
Lemma send_ok g p (task : option Task) s x : objects s !! g = Some x ->
  exists s', (modify (update g (fun gen => set_count (g_taskCount gen + 1) gen)) ;;;
    let* sent := offer p task in
    modify (update g (set_remaining (if (sent : bool) then None else task)))) s = (Ok tt, s') /\
    length (objects s') = length (objects s) /\ pointers s' = pointers s /\
    held s' ≡ₚ option_list task ++ queued s ++ omap g_remainingTask (delete g (objects s)) /\
    (forall q, length (queue q s') <= length (queue q s) `max` rateLimiterScheduler) /\ world s' = world s.
Proof.
  intros Hg. unfold bind at 1, modify at 1. set (s1 := update g _ s).
  unfold bind. destruct (offer_ok p task s1) as (b&s2&->&Ho&Hp&Hq&Hb&Hw). unfold modify.
  eexists. split; [done|]. split; [|split; [|split; [|split]]].
  - simpl. rewrite length_alter, Ho. apply length_alter.
  - unfold pointers in *. simpl. by rewrite Hp.
  - unfold held, remaining. simpl.
    change (queued (update g (set_remaining (if b then None else task)) s2)) with (queued s2).
    assert (objects s2 !! g = Some (set_count (g_taskCount x + 1) x)) as Hg2.
    { rewrite Ho. simpl. rewrite list_lookup_alter_eq, Hg. done. }
    rewrite (remaining_split (alter _ _ _) g (set_remaining (if b then None else task) (set_count (g_taskCount x + 1) x)))
      by (rewrite list_lookup_alter_eq, Hg2; done).
    rewrite delete_alter, Ho. simpl. rewrite delete_alter, Hq. change (queued s1) with (queued s).
    destruct b; simpl; solve_Permutation.
  - intros q. specialize (Hb q). by destruct q.
  - exact Hw.
Qed.

Lemma generate_ok g s : g < length (objects s) -> exists cs s', generate g s = (Ok tt, s') /\
  turn_calls cs /\ called cs s s' /\ produced (fresh cs) s s'.
Proof.
  intros [x Hx]%lookup_lt_is_Some_2. assert (object s g = x) as Eo by (unfold object; by rewrite Hx).
  unfold generate. unfold bind at 1, get. rewrite Eo.
  pose proof (remaining_split (objects s) g x Hx) as Hsplit.
  destruct (g_remainingTask x) as [task|] eqn:Er.
  - unfold bind at 1, ret at 1. destruct (send_ok g (g_priority x) (Some task) s x Hx) as (s'&E&Hl&Hp&Hh&Hq&Hw).
    exists [], s'. split; [exact E|]. split; [constructor|]. split; [by apply called_none|].
    split; [done|]. split; [done|]. split; [|done].
    rewrite Hh. unfold held, remaining. rewrite Hsplit. simpl. solve_Permutation.
  - unfold bind at 1. unfold bind at 1, try, on_world, zoom.
    assert (forall calls, records calls -> calls (snd (tg_Next g (world s))) = calls (world s) ++ [CalledNext g (fst (tg_Next g (world s)))]) as Hnext
      by (intros calls Hr; apply (rec_next calls Hr)).
    destruct (tg_Next g (world s)) as [[next|e] w1] eqn:En.
    2:{ exists [CalledNext g (Err e)]. eexists. split; [done|]. split; [constructor|]. split; [exact Hnext|]. by apply produced_none. }
    unfold bind at 1, ask at 1, on_world, zoom. simpl in Hnext |- *.
    assert (forall calls, records calls -> calls (snd (tg_IsDone g w1)) = calls (world s) ++ [CalledNext g (Ok next); CalledIsDone g (fst (tg_IsDone g w1))]) as Hdone
      by (intros calls Hr; rewrite (rec_done calls Hr), (Hnext calls Hr), <-app_assoc; done).
    destruct (tg_IsDone g w1) as [[] w2]; simpl.
    + unfold bind, modify, ask, on_world, zoom, on_env, Now. simpl. exists [CalledNext g (Ok next); CalledIsDone g true]. eexists.
      split; [done|]. split; [constructor|]. split.
      { intros calls Hr. simpl. rewrite (rec_reset calls Hr). by apply Hdone. }
      split; [apply length_alter|]. split; [done|]. split; [|intros p; destruct p; simpl; lia].
      unfold held, remaining. simpl. rewrite alter_remaining by done. by destruct next.
    + match goal with |- context [bind (modify _) _ ?y] => set (s1 := y) end.
      destruct (send_ok g (g_priority x) next s1 x Hx) as (s'&E&Hl&Hp&Hh&Hq&Hw).
      exists [CalledNext g (Ok next); CalledIsDone g false], s'. split; [exact E|]. split; [constructor|]. split.
      { intros calls Hr. rewrite Hw. by apply Hdone. }
      split; [done|]. split; [done|]. split; [|intros p; specialize (Hq p); by destruct p].
      rewrite Hh. unfold held, remaining. rewrite Hsplit. by destruct next.
Qed.

(** A generator that was seen not ready, and when asked again neither waiting
    nor, asked once more, done. *)
Definition flickered (interval : Z) (g : nat) : Prop := exists (s1 s2 s3 s4 s5 : sch) a b c,
  g_interval (object s1 g) = interval /\
  getState g s1 = (Ok a, s2) /\ a <> Ready /\
  objects s3 = objects s2 /\ world s3 = world s2 /\ s_env s3 = s_env s2 /\
  getState g s3 = (Ok b, s4) /\ b <> Waiting /\ getState g s4 = (Ok c, s5) /\ c <> Done.

(** What generateTasks does to the generators and to the tasks. *)
Definition generated (s s' : sch) : Prop := exists cs, turn_calls cs /\ called cs s s' /\
  held s' ≡ₚ fresh cs ++ held s /\ length (objects s') = length (objects s) /\
  (forall p, length (queue p s') <= length (queue p s) `max` rateLimiterScheduler) /\
  (pointers s' ≡ₚ pointers s \/ exists g, pointers s ≡ₚ g :: pointers s' /\ flickered (g_interval (object s g)) g).

Lemma generated_idle s s' : shuffled s s' -> called [] s s' -> generated s s'.
Proof.
  intros (Hl&Hp&Hh&Hq&_) Hc. exists []. split; [constructor|]. split; [done|]. split; [by rewrite Hh|]. split; [done|].
  split; [|by left]. intros p. rewrite Hq. lia.
Qed.

Lemma generated_after s s1 s' : shuffled s s1 -> called [] s s1 -> generated s1 s' -> generated s s'.
Proof.
  intros (Hl&Hp&Hh&Hq&Hi) Hc (cs&Hm&Hcs&Hh'&Hl'&Hq'&Hp'). exists cs. split; [done|].
  split; [by apply (called_app [] cs s s1)|]. split; [by rewrite Hh', Hh|].
  split; [congruence|]. split; [intros p; by rewrite <-Hq|]. destruct Hp' as [Hp'|(g&Hp'&Hf)]; [left; by rewrite Hp'|].
  right. exists g. by rewrite <-Hp, <-Hi.
Qed.

(** A generator that is not ready leaves the heap. *)
Lemma retire_ok g rest s0 s1 st : getState g s0 = (Ok st, s1) -> observed s0 s1 -> st <> Ready ->
  generators s1 = g :: rest -> exists s',
  (let* s := get in
   let '(gen, rest) := Heap.Pop (less s) (generators s) in
   put (set_lists rest (waitingGenerators s) (doneGenerators s) s) ;;;
   let* st := getState gen in
   if decide (st = Waiting) then
     modify (fun s => set_lists (generators s) (waitingGenerators s ++ [gen]) (doneGenerators s) s)
   else
     let* st := getState gen in
     if decide (st = Done) then
       modify (fun s => set_lists (generators s) (waitingGenerators s) (doneGenerators s ++ [gen]) s)
     else ret tt) s1 = (Ok tt, s') /\ generated s1 s'.
Proof.
  intros Hst Hob Hne Hgen. unfold bind at 1, get. rewrite Hgen.
  pose proof (pop_perm (less s1) g rest) as Hpop. destruct (Heap.Pop (less s1) (g :: rest)) as [gen l].
  destruct Hpop as [-> Hl]. unfold bind at 1, put. set (s2 := set_lists l _ _ s1).
  unfold bind at 1. destruct (getState_ok g s2) as (b&s3&Eb&Hb). rewrite Eb.
  assert (forall s', length (objects s') = length (objects s3) -> held s' = held s3 ->
    (forall p, queue p s' = queue p s3) -> called [] s3 s' ->
    (pointers s' ≡ₚ pointers s1 \/ exists g, pointers s1 ≡ₚ g :: pointers s' /\ flickered (g_interval (object s1 g)) g) -> generated s1 s') as Hend.
  { intros s' Ho Hh Hq Hcall Hp. exists []. split; [constructor|].
    split; [by apply (called_app [] [] s1 s3), Hcall; apply (getState_called _ _ _ _ Eb)|]. split; [by rewrite Hh, (observed_held _ _ Hb)|].
    split; [destruct Hb as (Eo&_); by rewrite Ho, Eo|]. split; [|done].
    intros p. rewrite Hq. destruct Hb as (_&_&_&_&->). destruct p; simpl; lia. }
  pose proof Hb as (_&Eg&Ew&Ed&_). simpl in Eg, Ew, Ed. case_decide as Hbw.
  { eexists. split; [done|]. apply Hend; [done..|by apply called_none|]. left. unfold pointers. simpl. rewrite Eg, Ew, Ed, Hgen, Hl. solve_Permutation. }
  unfold bind. destruct (getState_ok g s3) as (c&s4&Ec&Hc). rewrite Ec.
  pose proof Hc as (Eo4&Eg4&Ew4&Ed4&Eq4). case_decide as Hcd.
  - eexists. split; [done|]. apply Hend.
    + simpl. by rewrite Eo4.
    + exact (observed_held _ _ Hc).
    + intros []; [exact (Eq4 LowPriority)|exact (Eq4 MediumPriority)|exact (Eq4 HighPriority)].
    + exact (getState_called _ _ _ _ Ec).
    + left. unfold pointers. simpl. rewrite Eg4, Ew4, Ed4, Eg, Ew, Ed, Hgen, Hl. solve_Permutation.
  - eexists. split; [done|]. apply Hend; [by rewrite Eo4|by apply observed_held|done|by eapply getState_called|].
    right. exists g. split.
    + unfold pointers. rewrite Eg4, Ew4, Ed4, Eg, Ew, Ed, Hgen, Hl. done.
    + exists s0, s1, s2, s3, s4, st, b, c. rewrite (observed_interval g s0 s1 Hob). done.
Qed.

Lemma generateTasks_ok s : wf s -> exists s', generateTasks s = (Ok tt, s') /\ generated s s'.
Proof.
  intros Hw. unfold generateTasks, pushReadyGenerators. unfold bind at 1, bind at 1, get.
  destruct (push_ready_ok (S (length (waitingGenerators s))) s) as (s1&E1&Hs1).
  pose proof (push_ready_quiet (S (length (waitingGenerators s))) s) as Hc1. rewrite E1 in Hc1 |- *. simpl in Hc1.
  apply (shuffled_wf s s1) in Hw; [|done]. unfold bind at 1.
  destruct (generators s1) as [|g rest] eqn:Eg.
  { exists s1. split; [done|]. by apply generated_idle. }
  unfold bind at 1. destruct (getState_ok g s1) as (st&s2&Est&Ho). rewrite Est. case_decide as Hr.
  - unfold bind, modify. set (s3 := set_lists _ _ _ s2).
    pose proof Ho as (Eo&Eg2&Ew2&Ed2&Eq2).
    assert (shuffled s1 s3) as Hs3.
    { split; [simpl; by rewrite Eo|]. split.
      - unfold pointers, s3. simpl. rewrite fix_perm by (rewrite Eg2, Eg; simpl; lia). by rewrite Eg2, Ew2, Ed2.
      - split; [exact (observed_held _ _ Ho)|]. split; [|intros h; exact (observed_interval h _ _ Ho)].
        intros []; [exact (Eq2 LowPriority)|exact (Eq2 MediumPriority)|exact (Eq2 HighPriority)]. }
    assert (g < length (objects s3)) as Hg.
    { simpl. rewrite Eo. pose proof (wf_valid _ Hw) as Hv. unfold pointers in Hv. rewrite Eg in Hv.
      by apply Forall_cons in Hv as []. }
    destruct (generate_ok g s3 Hg) as (cs&s'&E&Hm&Hcs&(Hl&Hp&Hh&Hq)). exists s'. split; [exact E|].
    eapply generated_after; [exact Hs1|done|]. eapply generated_after; [exact Hs3|exact (getState_called _ _ _ _ Est)|].
    exists cs. split; [done|]. split; [done|].
    split; [done|]. split; [done|]. split; [done|]. left. by rewrite Hp.
  - destruct (retire_ok g rest s1 s2 st Est Ho Hr) as (s'&E&Hgen).
    { destruct Ho as (_&Eg2&_). congruence. }
    exists s'. split; [exact E|]. eapply generated_after; [exact Hs1|done|].
    eapply generated_after; [by apply shuffled_observed|by eapply getState_called|done].
Qed.

Lemma generated_wf s s' : generated s s' -> wf s -> wf s'.
Proof.
  intros (cs&_&_&_&Hl&Hq&Hp) Hw. apply (wf_step s); [done| |done|done].
  destruct Hp as [Hp|(g&Hp&_)]; rewrite Hp; [done|]. by apply submseteq_cons.
Qed.

(** ** A turn of the loop *)

(** Generators whose readiness does not depend on how often they are asked. *)
Definition steady : Prop := forall g w, fst (tg_IsReady g (snd (tg_IsReady g w))) = fst (tg_IsReady g w).

Lemma getState_oneshot g (s : sch) : g_interval (object s g) = 0%Z ->
  getState g s = (if g_done (object s g) && is_none (g_remainingTask (object s g)) then (Ok Done, s)
    else (let* ready := ask (tg_IsReady g) in ret (if (ready : bool) then Ready else Waiting)) s).
Proof. intros E. unfold getState. unfold bind at 1, get. rewrite E. simpl. by destruct (_ && _). Qed.

Lemma ask_ready g (s : sch) :
  (let* ready := ask (tg_IsReady g) in ret (if (ready : bool) then Ready else Waiting)) s =
  (Ok (if fst (tg_IsReady g (world s)) then Ready else Waiting),
   snd (on_world (fun w => (Ok tt, snd (tg_IsReady g w))) s)).
Proof. unfold bind, ask, on_world, zoom, ret. by destruct (tg_IsReady g (world s)). Qed.

Lemma steady_not_flickered g : steady -> ~ flickered 0 g.
Proof.
  intros Hs (s1&s2&s3&s4&s5&a&b&c&Hi&E1&Ha&Eo&Ew&_&E2&Hb&E3&Hc).
  destruct (getState_ok g s1) as (?&?&E1'&Ho). rewrite E1 in E1'. injection E1' as <- <-. destruct Ho as (Ho&_).
  destruct (getState_ok g s3) as (?&?&E2'&Ho'). rewrite E2 in E2'. injection E2' as <- <-. destruct Ho' as (Ho'&_).
  assert (object s3 g = object s1 g) as O3 by (unfold object; by rewrite Eo, Ho).
  assert (object s4 g = object s1 g) as O4 by (unfold object; by rewrite Ho', Eo, Ho).
  rewrite getState_oneshot in E1 by done. rewrite getState_oneshot in E2 by by rewrite O3.
  rewrite getState_oneshot in E3 by by rewrite O4. rewrite O3 in E2. rewrite O4 in E3.
  destruct (_ && _); [congruence|]. rewrite ask_ready in E1, E2. injection E1 as <- <-. injection E2 as <- <-.
  simpl in Ew. rewrite Ew in Hb. unfold zoom in Hb. simpl in Hb. rewrite Hs in Hb.
  by destruct (fst (tg_IsReady g (world s1))).
Qed.

Definition pop_task (s : sch) : option (option Task) := head (tasksQHigh s ++ tasksQMedium s ++ tasksQLow s).

Lemma wf_set_queue p t q (s : sch) : queue p s = t :: q -> wf s -> wf (set_queue p q s).
Proof.
  intros E [Hv Hn Hl]. split; [by destruct p..|]. intros p'. specialize (Hl p').
  destruct p, p'; simpl in *; rewrite ?E in Hl; simpl in Hl; lia.
Qed.

(** The task returned is the first of the first non-empty queue, and the
    others are kept. *)
Lemma getTask_ok s : wf s -> exists s1 s', generateTasks s = (Ok tt, s1) /\ generated s s1 /\
  getTask s = (Ok (default None (pop_task s1)), s') /\ wf s' /\ pointers s' = pointers s1 /\
  option_list (default None (pop_task s1)) ++ held s' ≡ₚ held s1 /\
  (forall g, object s' g = object s1 g) /\ world s' = world s1.
Proof.
  intros Hw. destruct (generateTasks_ok s Hw) as (s1&E&Hg). exists s1. pose proof (generated_wf _ _ Hg Hw) as Hw1.
  unfold getTask. unfold bind at 1. rewrite E. unfold bind, poll, pop_task. simpl queue.
  destruct (tasksQHigh s1) as [|t q] eqn:Eh; [destruct (tasksQMedium s1) as [|t q] eqn:Em;
    [destruct (tasksQLow s1) as [|t q] eqn:El|]|]; simpl.
  - exists s1. rewrite Em. simpl. by rewrite El.
  - rewrite Em. simpl. rewrite El. simpl. eexists. do 3 (split; [done|]). split; [by apply (wf_set_queue LowPriority t)|]. split; [done|]. split; [|done].
    unfold held, queued. simpl. rewrite Eh, Em, El. simpl. by destruct t.
  - rewrite Em. simpl. eexists. do 3 (split; [done|]). split; [by apply (wf_set_queue MediumPriority t)|]. split; [done|]. split; [|done].
    unfold held, queued. simpl. rewrite Eh, Em. simpl. by destruct t.
  - eexists. do 3 (split; [done|]). split; [by apply (wf_set_queue HighPriority t)|]. split; [done|]. split; [|done].
    unfold held, queued. simpl. rewrite Eh. simpl. by destruct t.
Qed.

Lemma SubmitTask_ok t p (s : sch) : exists s', SubmitTask t p s = (Ok tt, s') /\
  objects s' = objects s /\ pointers s' = pointers s /\
  (forall q, length (queue q s') <= length (queue q s) `max` rateLimiterScheduler).
Proof.
  unfold SubmitTask. unfold bind at 1, get. destruct (isShuttingDown s).
  { exists s. do 3 (split; [done|]). intros q. lia. }
  unfold bind. destruct (offer_ok p t s) as (b&s'&->&Ho&Hp&_&Hq&_). by exists s'.
Qed.

Lemma SubmitGenerator_ok i p (s : sch) : exists s', SubmitGenerator i p s = (Ok tt, s') /\
  length (objects s') = S (length (objects s)) /\ pointers s' ≡ₚ length (objects s) :: pointers s /\
  held s' = held s /\ (forall q, queue q s' = queue q s).
Proof.
  unfold SubmitGenerator, bind, get, put. eexists. split; [done|]. split; [|split; [|split]].
  - simpl. rewrite length_app. simpl. lia.
  - unfold pointers. simpl. rewrite push_perm. simpl. rewrite length_app. simpl. by rewrite Nat.add_sub.
  - unfold held, remaining. simpl. f_equal. rewrite omap_app. apply app_nil_r.
  - by intros [].
Qed.

Lemma reachable_wf (s : sch) : reachable s -> wf s.
Proof.
  induction 1 as [w e|t p s _ IH|i p s _ IH|s _ IH|s _ IH|w s _ IH].
  - split; [constructor..|]. intros []; apply Nat.le_0_l.
  - destruct (SubmitTask_ok t p s) as (s'&->&Ho&Hp&Hq). simpl. apply (wf_step s); [by rewrite Ho|by rewrite Hp|done|done].
  - destruct (SubmitGenerator_ok i p s) as (s'&->&Ho&Hp&_&Hq). destruct IH as [Hv Hn Hl]. split; simpl snd.
    + rewrite Hp. constructor; [lia|]. rewrite Ho. eapply Forall_impl; [exact Hv|]. simpl. lia.
    + rewrite Hp. constructor; [|done]. rewrite Forall_forall in Hv. intros Hin%Hv. lia.
    + intros q. by rewrite Hq.
  - destruct (getTask_ok s IH) as (s1&s'&_&_&->&Hw&_). done.
  - destruct IH as [Hv Hn Hl]. split; [done..|]. intros p. exact (Hl p).
  - destruct IH as [Hv Hn Hl]. split; [done..|]. intros p. exact (Hl p).
Qed.

(** The tasks of a number of turns. *)
Lemma run_loop_ok room : forall s, wf s -> exists ts s' cs, run_loop room s = (Ok ts, s') /\ wf s' /\
  called cs s s' /\ ts ++ held s' ≡ₚ fresh cs ++ held s.
Proof.
  induction room as [|[] room IH]; intros s Hw; simpl.
  - exists [], s, []. split; [done|]. split; [done|]. split; [by apply called_none|done].
  - destruct (getTask_ok s Hw) as (s1&s2&_&(c1&Hm&Hc1&Hh&_)&E&Hw2&_&Hh2&_&Hwo). unfold bind at 1. rewrite E.
    destruct (IH s2 Hw2) as (ts&s'&cs&E'&Hw'&Hcs&Hh'). unfold bind. rewrite E'.
    eexists _, s', (c1 ++ cs). do 2 (split; [done|]). split.
    + intros calls Hr. rewrite (Hcs calls Hr), Hwo, (Hc1 calls Hr). by rewrite app_assoc.
    + rewrite fresh_turn by done. rewrite <-app_assoc, Hh', Permutation_app_swap_app, Hh2, Hh. by rewrite app_assoc, (Permutation_app_comm (fresh cs)).
  - by apply IH.
Qed.

(** C37 No generator is forgotten or queued twice by a turn of the scheduler,
    which always gives an answer: every one submitted stays in the heap or in
    one of the two lists, except one whose state changed while generateTasks
    was asking for it; with readiness that does not depend on being asked and
    generators that are not periodic, there is no exception. *)
Theorem generators_conserved (s : sch) : reachable s ->
  exists t s', getTask s = (Ok t, s') /\ NoDup (pointers s') /\
    (pointers s' ≡ₚ pointers s \/
     exists g, pointers s ≡ₚ g :: pointers s' /\ flickered (g_interval (object s g)) g) /\
    (steady -> Forall (fun g => g_interval (object s g) = 0%Z) (pointers s) -> pointers s' ≡ₚ pointers s).
Proof.
  intros Hw%reachable_wf. destruct (getTask_ok s Hw) as (s1&s'&_&(_&_&_&_&_&_&Hp)&E&Hw'&Hp'&_).
  rewrite <-Hp' in Hp. eexists _, s'. split; [exact E|]. split; [apply Hw'|]. split; [exact Hp|].
  intros Hs Hi. destruct Hp as [Hp|(g&Hg&Hf)]; [done|]. exfalso. rewrite Hg in Hi.
  apply Forall_cons in Hi as [Hi _]. rewrite Hi in Hf. by apply (steady_not_flickered g).
Qed.

End properties.

(** ** A run with its calls written down *)
Section recorded.
Context {W Task : Type} `{TaskGeneratorI W Task}.

(** The same generators, over a state that also records the calls. *)
Definition recorder : TaskGeneratorI (W * list (call Task)) Task := {|
  tg_Next g := fun wc => let '(r, w) := tg_Next g wc.1 in (r, (w, wc.2 ++ [CalledNext g r]));
  tg_IsDone g := fun wc => let '(b, w) := tg_IsDone g wc.1 in (b, (w, wc.2 ++ [CalledIsDone g b]));
  tg_IsReady g := fun wc => let '(b, w) := tg_IsReady g wc.1 in (b, (w, wc.2));
  tg_Reset g := fun wc => (tg_Reset g wc.1, wc.2)
|}.
Lemma recorder_records : @records (W * list (call Task)) Task recorder snd.
Proof.
  split; intros g [w cs]; simpl.
  - by destruct (tg_Next g w).
  - by destruct (tg_IsDone g w).
  - by destruct (tg_IsReady g w).
  - done.
Qed.

Local Notation rsch := (scheduler (W * list (call Task)) Task).
Definition at_world {W1 W2} (f : W1 -> W2) (s : scheduler W1 Task) : scheduler W2 Task :=
  mkScheduler (objects s) (generators s) (waitingGenerators s) (doneGenerators s)
    (tasksQLow s) (tasksQMedium s) (tasksQHigh s) (isShuttingDown s) (f (world s)) (s_env s).
Definition recording : scheduler W Task -> rsch := at_world (fun w => (w, [])).
Definition erase : rsch -> scheduler W Task := at_world fst.

(** Both do the same, with the record left aside. *)
Definition agrees {A} (m : ST rsch A) (m' : ST (scheduler W Task) A) : Prop :=
  forall s, m' (erase s) = (fst (m s), erase (snd (m s))).

Lemma agrees_bind {A B} (m : ST rsch A) m' (k : A -> ST rsch B) k' :
  agrees m m' -> (forall a, agrees (k a) (k' a)) -> agrees (bind m k) (bind m' k').
Proof. intros Hm Hk s. unfold bind. rewrite Hm. destruct (m s) as [[a|e] s1]; simpl; [apply Hk|done]. Qed.
Lemma agrees_get {A} (k : rsch -> ST rsch A) k' : (forall s, agrees (k s) (k' (erase s))) -> agrees (bind get k) (bind get k').
Proof. intros Hk s. apply Hk. Qed.
Lemma agrees_ret {A} (a : A) : agrees (ret a) (ret a).
Proof. done. Qed.
Lemma agrees_modify (f : rsch -> rsch) f' : (forall s, f' (erase s) = erase (f s)) -> agrees (modify f) (modify f').
Proof. intros Hf s. unfold modify. by rewrite Hf. Qed.
Lemma agrees_put (s : rsch) s' : s' = erase s -> agrees (put s) (put s').
Proof. by intros -> s0. Qed.
Lemma agrees_try {A} (m : ST rsch A) m' : agrees m m' -> agrees (try m) (try m').
Proof. intros Hm s. unfold try. rewrite Hm. by destruct (m s). Qed.
Lemma agrees_world {A} (m : ST (W * list (call Task)) A) (m' : ST W A) :
  (forall w cs, m' w = (fst (m (w, cs)), fst (snd (m (w, cs))))) -> agrees (on_world m) (on_world m').
Proof.
  intros Hm s. unfold on_world, zoom. change (world (erase s)) with (fst (world s)).
  destruct (world s) as [w cs]. simpl. rewrite (Hm w cs). by destruct (m (w, cs)) as [r [w' cs']].
Qed.
Lemma agrees_ask {A} (f : W * list (call Task) -> A * (W * list (call Task))) (f' : W -> A * W) :
  (forall w cs, f' w = (fst (f (w, cs)), fst (snd (f (w, cs))))) -> agrees (ask f) (ask f').
Proof. intros Hf. apply agrees_world. intros w cs. rewrite (Hf w cs). by destruct (f (w, cs)). Qed.
Lemma agrees_env {A} (m : ST env A) : agrees (on_env m) (on_env m).
Proof. intros s. unfold on_env, zoom. simpl. by destruct (m (s_env s)). Qed.
Lemma agrees_same {A} (m : ST rsch A) m' : (forall s, m' (erase s) = (fst (m s), erase (snd (m s)))) -> agrees m m'.
Proof. done. Qed.

Lemma getState_agrees g : agrees (getState (H := recorder) g) (getState g).
Proof.
  apply agrees_get. intros s. apply agrees_bind.
  - change (object (erase s) g) with (object s g). destruct (_ =? 0)%Z; [done|]. destruct (g_done _); [|done].
    apply agrees_bind; [apply agrees_env|]. done.
  - intros [st|]; [done|]. apply agrees_bind; [|done]. apply agrees_ask. intros w cs. simpl. by destruct (tg_IsReady g w).
Qed.

Lemma offer_agrees q t : agrees (offer q t) (offer q t).
Proof. intros s. unfold offer. change (queue q (erase s)) with (queue q (erase s)). destruct q; simpl; by destruct (_ <? _)%nat. Qed.
Lemma poll_agrees q : agrees (poll q) (poll q).
Proof. intros s. unfold poll. destruct q; simpl; [by destruct (tasksQLow s)|by destruct (tasksQMedium s)|by destruct (tasksQHigh s)]. Qed.

Lemma generate_agrees g : agrees (generate (H := recorder) g) (generate g).
Proof.
  apply agrees_get. intros s. change (object (erase s) g) with (object s g). apply agrees_bind.
  - destruct (g_remainingTask _); [done|]. apply agrees_bind.
    { apply agrees_try, agrees_world. intros w cs. simpl. by destruct (tg_Next g w). }
    intros [next|e]; [|done]. apply agrees_bind.
    { apply agrees_ask. intros w cs. simpl. by destruct (tg_IsDone g w). }
    intros [|]; [|done]. apply agrees_bind; [apply agrees_env|]. intros now.
    apply agrees_bind; [by apply agrees_modify|]. intros _. apply agrees_bind; [|done]. by apply agrees_ask.
  - intros [task|]; [|done]. apply agrees_bind; [by apply agrees_modify|]. intros _.
    apply agrees_bind; [apply offer_agrees|]. intros sent. by apply agrees_modify.
Qed.

Lemma find_ready_agrees l : forall i, agrees (find_ready (H := recorder) l i) (find_ready l i).
Proof.
  induction l as [|g l IH]; intros i; simpl; [done|]. apply agrees_bind; [apply getState_agrees|]. intros st. by case_decide.
Qed.
Lemma push_ready_agrees turns : agrees (push_ready_loop (H := recorder) turns) (push_ready_loop turns).
Proof.
  induction turns as [|turns IH]; simpl; [done|]. apply agrees_get. intros s. apply agrees_bind; [apply find_ready_agrees|].
  intros [[i g]|]; [|done]. do 2 (apply agrees_bind; [by apply agrees_modify|intros _]). exact IH.
Qed.

Lemma generateTasks_agrees : agrees (generateTasks (H := recorder)) generateTasks.
Proof.
  apply agrees_bind; [apply agrees_get; intros s; apply push_ready_agrees|]. intros _. apply agrees_get. intros s.
  change (generators (erase s)) with (generators s). destruct (generators s) as [|gen rest]; [done|].
  apply agrees_bind; [apply getState_agrees|]. intros st. case_decide.
  - apply agrees_bind; [by apply agrees_modify|]. intros _. apply generate_agrees.
  - apply agrees_get. intros s1. change (Heap.Pop (less (erase s1)) (generators (erase s1))) with (Heap.Pop (less s1) (generators s1)).
    destruct (Heap.Pop _ _) as [g l]. apply agrees_bind; [by apply agrees_put|]. intros _.
    apply agrees_bind; [apply getState_agrees|]. intros st1. case_decide; [by apply agrees_modify|].
    apply agrees_bind; [apply getState_agrees|]. intros st2. case_decide; [by apply agrees_modify|done].
Qed.

Lemma getTask_agrees : agrees (getTask (H := recorder)) getTask.
Proof.
  apply agrees_bind; [apply generateTasks_agrees|]. intros _.
  do 2 (apply agrees_bind; [apply poll_agrees|]; intros [t|]; [done|]).
  apply agrees_bind; [apply poll_agrees|]. done.
Qed.
Lemma run_loop_agrees room : agrees (run_loop (H := recorder) room) (run_loop room).
Proof.
  induction room as [|[] room IH]; simpl; [done| |done]. apply agrees_bind; [apply getTask_agrees|]. intros task.
  by apply agrees_bind; [|done].
Qed.

(** C38 No task is lost, made up or run twice, in any number of turns of the
    loop: with the calls of the run written down as it makes them (which
    changes nothing else), the tasks given to the workers and those still
    held are, up to their order, the ones held before and those that the
    scheduler was given, every one of these once, whether its queue had room
    or not. A task is given by an answer of Next; the ones that are thrown
    away are those that Next returns when IsDone says right after that the
    generator is done ([fresh]). No queue goes over its bound. *)
Theorem tasks_conserved (s : scheduler W Task) (room : list bool) : reachable s -> exists ts s',
  run_loop (H := recorder) room (recording s) = (Ok ts, s') /\ run_loop room s = (Ok ts, erase s') /\
  ts ++ held (erase s') ≡ₚ fresh (snd (world s')) ++ held s /\
  forall p, length (queue p (erase s')) <= rateLimiterScheduler.
Proof.
  intros Hw%reachable_wf. assert (wf (recording s)) as Hwr.
  { destruct Hw as [Hv Hn Hl]. split; [done..|]. intros p. specialize (Hl p). by destruct p. }
  destruct (run_loop_ok (H := recorder) room (recording s) Hwr) as (ts&s'&cs&E&Hw'&Hc&Hh).
  exists ts, s'. split; [done|]. split; [|split].
  - pose proof (run_loop_agrees room (recording s)) as Ha. rewrite E in Ha.
    assert (erase (recording s) = s) as Es by by destruct s. by rewrite Es in Ha.
  - specialize (Hc snd recorder_records). simpl in Hc. rewrite Hc. exact Hh.
  - intros p. pose proof (wf_queues _ Hw' p) as Hq. by destruct p.
Qed.
End recorded.

(** ** Concrete generators: an endless one, ready unless the first answer of
    its list says otherwise *)
Module Turns.
#[local] Instance endless : TaskGeneratorI (list bool) string := {
  tg_Next g w := (Ok (Some "task"%string), w);
  tg_IsDone g w := (false, w);
  tg_IsReady g w := match w with [] => (true, []) | b :: w => (b, w) end;
  tg_Reset g w := w
}.
Definition clock : env := mkEnv (fun n => Z.of_nat n) 0 None.
Definition started (answers : list bool) : scheduler (list bool) string :=
  snd (SubmitGenerator 0 HighPriority (snd (SubmitGenerator 0 LowPriority (NewScheduler answers clock)))).

Lemma started_reachable answers : reachable (started answers).
Proof. apply reach_submit_generator, reach_submit_generator, reach_new. Qed.

Lemma generators_conserved_witness : exists t s', getTask (started [false; true]) = (Ok t, s') /\
  NoDup (pointers s') /\
  (pointers s' ≡ₚ pointers (started [false; true]) \/
   exists g, pointers (started [false; true]) ≡ₚ g :: pointers s' /\
     flickered (g_interval (object (started [false; true]) g)) g) /\
  (steady -> Forall (fun g => g_interval (object (started [false; true]) g) = 0%Z) (pointers (started [false; true])) ->
    pointers s' ≡ₚ pointers (started [false; true])).
Proof. exact (generators_conserved _ (started_reachable [false; true])). Defined.

Lemma tasks_conserved_witness : exists ts s',
  run_loop (H := recorder) [true; false; true] (recording (started [])) = (Ok ts, s') /\
  run_loop [true; false; true] (started []) = (Ok ts, erase s') /\
  ts ++ held (erase s') ≡ₚ fresh (snd (world s')) ++ held (started []) /\
  forall p, length (queue p (erase s')) <= rateLimiterScheduler.
Proof. exact (tasks_conserved _ [true; false; true] (started_reachable [])). Defined.

Example calls_of_two_turns : snd (world (snd (run_loop (H := recorder) [true; false; true] (recording (started []))))) =
  [CalledNext 1 (Ok (Some "task")); CalledIsDone 1 false; CalledNext 1 (Ok (Some "task")); CalledIsDone 1 false]%string.
Proof. reflexivity. Qed.

Example two_turns : fst (run_loop [true; false; true] (started [])) = Ok ["task"; "task"]%string.
Proof. reflexivity. Qed.

(** The heap is put in order before the task is counted: the next turn takes
    the same generator, which another one now outranks. *)
Definition pair_low : scheduler (list bool) string :=
  snd (getTask (snd (SubmitGenerator 0 LowPriority (snd (SubmitGenerator 0 LowPriority (NewScheduler [] clock)))))).
Example stale_order : head (generators pair_low) = Some 0 /\ less pair_low 1 0 = true.
Proof. split; reflexivity. Qed.

(** The generator once popped is nowhere. *)
Definition lone (answers : list bool) : scheduler (list bool) string :=
  snd (SubmitGenerator 0 HighPriority (NewScheduler answers clock)).

Lemma idle_forever room s : pointers s = [] ->
  (tasksQHigh s ++ tasksQMedium s ++ tasksQLow s = []) -> run_loop room s = (Ok [], s).
Proof.
  unfold pointers. intros [Eg [Ew Ed]%app_eq_nil]%app_eq_nil [Eh [Em El]%app_eq_nil]%app_eq_nil.
  induction room as [|[] room IH]; simpl; [done| |done].
  assert (getTask s = (Ok None, s)) as E.
  { unfold getTask, generateTasks, pushReadyGenerators. unfold bind, get. rewrite Ew. simpl. unfold bind, get.
    rewrite Ew. simpl. unfold ret. rewrite Eg. unfold poll. simpl. by rewrite Eh, Em, El. }
  unfold bind. by rewrite E, IH.
Qed.

(** generateTasks takes a generator out of the heap because it is not
    ready, and asks for its state again to choose a list for it: when it has
    become ready in between it is put in none, and it gives no task any
    more although it is ready, and has more, for ever. *)
Theorem generator_lost : exists s, reachable s /\ pointers s = [0] /\
  exists s', getTask s = (Ok None, s') /\ pointers s' = [] /\
    tg_IsReady 0 (world s') = (true, world s') /\ tg_IsDone 0 (world s') = (false, world s') /\
    forall room, run_loop room s' = (Ok [], s').
Proof.
  exists (lone [false]). split; [apply reach_submit_generator, reach_new|]. split; [done|].
  exists (snd (getTask (lone [false]))). do 4 (split; [reflexivity|]). intros room. by apply idle_forever.
Qed.
End Turns.
