(* ===== verification/Authz.v ===== *)
(** * Authorization (pkg/api/authz.go, pkg/requestcontext)

    Which requests the access-control policies of the configuration let
    through: the policy group of the longest glob pattern that matches the
    repository, its users, groups, default and anonymous policies with their
    CEL conditions, the admin policy, the checks of a manifest write, and the
    filters of listings kept in the context of a request. The glob matcher and
    the CEL engine are parameters; delays, headers and logs are left out. *)

From Stdlib Require Import ZArith Lia Ascii String.
From stdpp Require Import base tactics list gmap strings.
From S2P Require Import Prelude Runtime Regexp Oci StorageCommon.

Local Open Scope string_scope.
Local Open Scope list_scope.

(** ** Requests *)

(** What the code reads of an http.Request, the variables of the route and the
    outcome of authentication included. *)
Record http_request : Type := mkRequest {
  Method : string;
  UserAgent : string;
  RemoteAddr : string;
  X_Forwarded_For : list string;
  TLS_Version : option Z;           (* [None] without TLS *)
  RequestURI : string;
  req_ctx : option err;             (* ctx.Err() *)
  AuthnType : option string;        (* the authn middleware's context, if any *)
  var_name : string;
  var_reference : option string;
  query_tags : list string
}.

Definition BEARER : string := "Bearer".

Definition ReadPermission : string := "read".
Definition CreatePermission : string := "create".
Definition UpdatePermission : string := "update".
Definition DeletePermission : string := "delete".
Definition DetectManifestCollisionPermission : string := "detectManifestCollision".

(** net.SplitHostPort: the host, [None] on its errors. *)
Definition CutLast (sep : ascii) (s : string) : option (string * string) :=
  match Cut sep (String.rev s) with
  | Some (a, b) => Some (String.rev b, String.rev a)
  | None => None
  end.
Definition SplitHost (hostport : string) : option string :=
  match CutLast ":" hostport with
  | None => None
  | Some (host, _) =>
      match hostport with
      | String "["%char rest =>
          match Cut "]" rest with
          | Some (host, String ":"%char port) =>
              if no_char ":" port && no_char "[" rest && no_char "]" port then Some host else None
          | _ => None
          end
      | _ =>
          if no_char ":" host && no_char "[" hostport && no_char "]" hostport then Some host else None
      end
  end.

Definition tlsVersionString (v : Z) : string :=
  (if v =? 769 then "1.0" else if v =? 770 then "1.1" else if v =? 771 then "1.2"
   else if v =? 772 then "1.3" else "")%Z.

(** What a condition is evaluated on, the map "req". *)
Record req_data (claim : Type) : Type := mkData {
  rd_time : Z; rd_method : string; rd_userAgent : string; rd_action : string;
  rd_repository : string; rd_reference : string; rd_referenceType : string;
  rd_tag : string; rd_digest : string; rd_username : string; rd_groups : list string;
  rd_anonymous : bool; rd_admin : bool; rd_ip : string; rd_forwardedFor : list string;
  rd_tls : bool; rd_tlsVersion : string; rd_claims : option (gmap string claim)
}.
Arguments mkData {claim} _ _ _ _ _ _ _ _ _ _ _ _ _ _ _ _ _ _.
Arguments rd_username {claim} _.

(** pkg/cel over cel-go: the compilation of a condition with the variable
    "req", and its evaluation under a context. *)
Class CelEngine := {
  claim : Type;
  program : Type;
  NewExpression : string -> res program;
  EvaluateBoolean : program -> option err -> req_data claim -> res bool
}.

(** ** Configuration (pkg/api/config/config.go) *)
Record Condition : Type := mkCondition { Expression : string; Message : string }.
Record Policy : Type := mkAccessPolicy {
  Users : list string;
  Actions : list string;
  Groups : list string;
  Conditions : list Condition
}.
Record PolicyGroup : Type := mkPolicyGroup {
  pg_Policies : list Policy;
  DefaultPolicy : list string;
  AnonymousPolicy : list string
}.
Record Metrics : Type := mkMetrics { m_Users : list string; m_AnonymousPolicy : list string }.
Record AccessControlConfig `{CelEngine} : Type := mkAccessControl {
  ac_Repositories : gmap string PolicyGroup;
  AdminPolicy : Policy;
  ac_Groups : gmap string (list string);
  ac_Metrics : Metrics;
  compiledConditions : gmap string program
}.
Arguments mkAccessControl {_} _ _ _ _ _.

Section config.
Context `{CelEngine} `{MapIter}.

Definition AnonymousPolicyExists (config : option AccessControlConfig) : bool :=
  match config with
  | None => false
  | Some c => existsb (fun r => negb (bool_decide (AnonymousPolicy (snd r) = []))) (map_iter (ac_Repositories c))
  end.

Definition policy_set (p : Policy) : bool := (0 <? length (Actions p) + length (Users p))%nat.
Fixpoint only_anonymous (repositories : list (string * PolicyGroup)) (present : bool) : bool :=
  match repositories with
  | [] => present
  | (_, r) :: rest =>
      if negb (bool_decide (DefaultPolicy r = [])) then false
      else
        let present := present || negb (bool_decide (AnonymousPolicy r = [])) in
        if existsb policy_set (pg_Policies r) then false else only_anonymous rest present
  end.
Definition ContainsOnlyAnonymousPolicy (config : option AccessControlConfig) : bool :=
  match config with
  | None => true
  | Some c => if policy_set (AdminPolicy c) then false else only_anonymous (map_iter (ac_Repositories c)) false
  end.
Definition HasMixedAnonymousAndAuthenticatedPolicies (config : option AccessControlConfig) : bool :=
  match config with
  | None => false
  | Some _ => AnonymousPolicyExists config && negb (ContainsOnlyAnonymousPolicy config)
  end.
Definition ContainsOnlyMetricsAnonymousPolicy (config : option AccessControlConfig) : bool :=
  match config with
  | None => false
  | Some c =>
      let admin := AdminPolicy c in
      if (0 <? length (Actions admin) + length (Users admin) + length (Groups admin))%nat then false
      else bool_decide (ac_Repositories c = ∅) && bool_decide (ac_Groups c = ∅) &&
           contains (m_AnonymousPolicy (ac_Metrics c)) "read"
  end.

(** The conditions of one policy, each expression compiled once. *)
Fixpoint compile_conditions (conds : list Condition) (programs : gmap string program)
    : res (gmap string program) :=
  match conds with
  | [] => Ok programs
  | cond :: rest =>
      match programs !! Expression cond with
      | Some _ => compile_conditions rest programs
      | None =>
          match NewExpression (Expression cond) with
          | Err e => Err e
          | Ok p => compile_conditions rest (<[Expression cond := p]> programs)
          end
      end
  end.
Fixpoint compile_policies (policies : list Policy) (programs : gmap string program)
    : res (gmap string program) :=
  match policies with
  | [] => Ok programs
  | p :: rest => res_bind (compile_conditions (Conditions p) programs) (compile_policies rest)
  end.
Fixpoint compile_groups (groups : list (string * PolicyGroup)) (programs : gmap string program)
    : res (gmap string program) :=
  match groups with
  | [] => Ok programs
  | (_, pg) :: rest => res_bind (compile_policies (pg_Policies pg) programs) (compile_groups rest)
  end.
Definition CompileAccessControl (cfg : option AccessControlConfig) : res (gmap string program) :=
  match cfg with
  | None => Ok ∅
  | Some c =>
      res_bind (compile_groups (map_iter (ac_Repositories c)) ∅)
        (compile_conditions (Conditions (AdminPolicy c)))
  end.
Definition StoreCompiledConditions (programs : gmap string program) (c : AccessControlConfig) : AccessControlConfig :=
  mkAccessControl (ac_Repositories c) (AdminPolicy c) (ac_Groups c) (ac_Metrics c) programs.
End config.

(** ** The access control of a request (pkg/requestcontext) *)
Record UserAuthzInfo : Type := mkAuthzInfo {
  globPatterns : option (gmap string (gmap string bool));  (* action, then pattern *)
  az_isAdmin : bool
}.
Record UserAuthnInfo : Type := mkAuthnInfo { an_groups : list string; an_username : string }.
Record UserAccessControl `{CelEngine} : Type := mkUserAc {
  authzInfo : option UserAuthzInfo;
  authnInfo : option UserAuthnInfo;
  claims : option (gmap string claim);
  permissionEvaluator : option (string -> string -> string -> ST env bool)
}.
Arguments mkUserAc {_} _ _ _ _.

Definition methodActions : list string :=
  [ReadPermission; CreatePermission; UpdatePermission; DeletePermission].
Definition behaviourActions : list string := [DetectManifestCollisionPermission].

(** The longest pattern that matches, the first met of several of one length;
    a pattern the matcher rejects does not match. *)
Definition longest_step `{Glob} (repository : string) (longest pattern : string) : string :=
  match glob_Match pattern repository with
  | Ok true => if (String.length longest <? String.length pattern)%nat then pattern else longest
  | _ => longest
  end.
Definition longest_match `{Glob} (repository : string) (patterns : list string) : string :=
  foldl (longest_step repository) "" patterns.

Section user.
Context `{CelEngine} `{MapIter} `{Glob}.

Definition NewUserAccessControl : UserAccessControl := mkUserAc None None None None.
Definition SetUsername (username : string) (uac : UserAccessControl) : UserAccessControl :=
  mkUserAc (authzInfo uac)
    (Some (mkAuthnInfo (match authnInfo uac with Some a => an_groups a | None => [] end) username))
    (claims uac) (permissionEvaluator uac).
Definition GetUsername (uac : UserAccessControl) : string :=
  match authnInfo uac with None => "" | Some a => an_username a end.
Definition AddGroups (groups : list string) (uac : UserAccessControl) : UserAccessControl :=
  mkUserAc (authzInfo uac)
    (Some (match authnInfo uac with
           | Some a => mkAuthnInfo (an_groups a ++ groups) (an_username a)
           | None => mkAuthnInfo groups ""
           end))
    (claims uac) (permissionEvaluator uac).
Definition GetGroups (uac : UserAccessControl) : list string :=
  match authnInfo uac with None => [] | Some a => an_groups a end.
Definition IsAnonymous (uac : UserAccessControl) : bool := bool_decide (GetUsername uac = "").
(** Without authorization everybody is an administrator. *)
Definition IsAdmin (uac : UserAccessControl) : bool :=
  match authzInfo uac with None => true | Some a => az_isAdmin a end.
Definition SetIsAdmin (isAdmin : bool) (uac : UserAccessControl) : UserAccessControl :=
  mkUserAc
    (Some (mkAuthzInfo (match authzInfo uac with Some a => globPatterns a | None => None end) isAdmin))
    (authnInfo uac) (claims uac) (permissionEvaluator uac).
Definition SetGlobPatterns (action : string) (patterns : gmap string bool) (uac : UserAccessControl)
    : UserAccessControl :=
  let a := default (mkAuthzInfo None false) (authzInfo uac) in
  mkUserAc (Some (mkAuthzInfo (Some (<[action := patterns]> (default ∅ (globPatterns a)))) (az_isAdmin a)))
    (authnInfo uac) (claims uac) (permissionEvaluator uac).
Definition SetPermissionEvaluator (fn : string -> string -> string -> ST env bool) (uac : UserAccessControl)
    : UserAccessControl :=
  mkUserAc (authzInfo uac) (authnInfo uac) (claims uac) (Some fn).

Definition matchesRepo (patterns : gmap string bool) (repository : string) : bool :=
  default false (patterns !! longest_match repository (fst <$> map_iter patterns)).

Definition Can (uac : UserAccessControl) (action repository : string) : bool :=
  let defaultRet :=
    if contains behaviourActions action then false
    else if contains methodActions action then true else false in
  if IsAdmin uac then defaultRet
  else match authzInfo uac with
       | Some (mkAuthzInfo (Some patterns) _) => matchesRepo (default ∅ (patterns !! action)) repository
       | _ => defaultRet
       end.

Definition CanOnResource (uac : UserAccessControl) (action repository reference : string) : ST env bool :=
  match permissionEvaluator uac with
  | Some fn => fn action repository reference
  | None => ret (Can uac action repository)
  end.

Definition HasScopedPermissions (uac : UserAccessControl) : bool :=
  match authzInfo uac with
  | Some (mkAuthzInfo (Some patterns) _) => existsb (fun e => negb (bool_decide (snd e = ∅))) (map_iter patterns)
  | _ => false
  end.

(** The filter of the catalog. *)
Definition AuthzFilterFunc (userAc : option UserAccessControl) (repo : string) : res bool :=
  match userAc with
  | None => Ok true
  | Some uac => Ok (Can uac ReadPermission repo)
  end.
End user.

(** ** The access controller (pkg/api/authz.go) *)
Record evalRequest `{CelEngine} : Type := mkEval {
  er_httpReq : option http_request;
  er_userAc : option UserAccessControl;
  er_isAdmin : bool;
  er_action : string;
  er_repository : string;
  er_reference : string
}.
Arguments mkEval {_} _ _ _ _ _ _.

Section controller.
Context `{CelEngine} `{MapIter} `{Glob}.

Definition no_config : AccessControlConfig :=
  mkAccessControl ∅ (mkAccessPolicy [] [] [] []) ∅ (mkMetrics [] []) ∅.
Definition NewAccessController (conf : option AccessControlConfig) : AccessControlConfig := default no_config conf.

Definition username (e : evalRequest) : string :=
  match er_userAc e with None => "" | Some uac => GetUsername uac end.
Definition groups (e : evalRequest) : list string :=
  match er_userAc e with None => [] | Some uac => GetGroups uac end.

(** One pattern of the map: whether the user may have the action there. *)
Definition pattern_allows (e : evalRequest) (pg : PolicyGroup) : bool :=
  let action := er_action e in
  contains (if bool_decide (username e = "") then AnonymousPolicy pg else DefaultPolicy pg) action ||
  existsb (fun p => contains (Users p) (username e) && contains (Actions p) action) (pg_Policies pg) ||
  existsb (fun g => existsb (fun p => contains (Groups p) g && contains (Actions p) action) (pg_Policies pg))
    (groups e).
Definition getGlobPatterns (ac : AccessControlConfig) (e : evalRequest) : gmap string bool :=
  foldl (fun m entry => <[fst entry := pattern_allows e (snd entry)]> m) ∅ (map_iter (ac_Repositories ac)).

(** ** Conditions *)
Definition client_ip (remoteAddr : string) : string := default remoteAddr (SplitHost remoteAddr).
Definition forwarded_for (headers : list string) : list string :=
  filter (fun ip => ip <> "") (TrimSpace <$> concat (split_on "," <$> headers)).

Definition data_at (e : evalRequest) (now : Z) : req_data claim :=
  let uname := username e in
  let reference := er_reference e in
  let is_digest := negb (no_char ":" reference) in
  let http {A} (f : http_request -> A) (d : A) : A := match er_httpReq e with Some r => f r | None => d end in
  mkData now (http Method "") (http UserAgent "") (er_action e) (er_repository e) reference
    (if bool_decide (reference = "") then "" else if is_digest then "digest" else "tag")
    (if is_digest then "" else reference) (if is_digest then reference else "")
    uname (groups e) (bool_decide (uname = "")) (er_isAdmin e)
    (http (fun r => client_ip (RemoteAddr r)) "") (http (fun r => forwarded_for (X_Forwarded_For r)) [])
    (http (fun r => bool_decide (is_Some (TLS_Version r))) false)
    (http (fun r => match TLS_Version r with Some v => tlsVersionString v | None => "" end) "")
    (uac ← er_userAc e; claims uac).
Definition data (e : evalRequest) : ST env (req_data claim) := let* now := Now in ret (data_at e now).

Definition lookupCondition (ac : AccessControlConfig) (expr : string) : res program :=
  match compiledConditions ac !! expr with
  | Some p => Ok p
  | None => Err (ErrOther "policy condition not compiled")
  end.

Fixpoint conditions_met (ac : AccessControlConfig) (ctx : option err) (d : req_data claim) (conds : list Condition)
    : bool * string :=
  match conds with
  | [] => (true, "")
  | cond :: rest =>
      match lookupCondition ac (Expression cond) with
      | Err _ => (false, "")
      | Ok expr =>
          match EvaluateBoolean expr ctx d with
          | Err _ => (false, "")
          | Ok false => (false, Message cond)
          | Ok true => conditions_met ac ctx d rest
          end
      end
  end.
Definition context_of (e : evalRequest) : option err := r ← er_httpReq e; req_ctx r.
Definition policyConditionsMet (ac : AccessControlConfig) (policy : Policy) (e : evalRequest)
    : ST env (bool * string) :=
  match Conditions policy with
  | [] => ret (true, "")
  | conds =>
      let* d := data e in
      ret (conditions_met ac (context_of e) d conds)
  end.

(** ** Permissions *)

(** The first policy among those that apply whose conditions hold; else the
    message of the last condition that was not met. *)
Fixpoint first_granting (ac : AccessControlConfig) (e : evalRequest) (applies : Policy -> bool)
    (policies : list Policy) (reason : string) : ST env (bool * string) :=
  match policies with
  | [] => ret (false, reason)
  | p :: rest =>
      if negb (applies p) then first_granting ac e applies rest reason
      else
        let* (ok, why) := policyConditionsMet ac p e in
        if (ok : bool) then ret (true, "")
        else first_granting ac e applies rest (if bool_decide (why = "") then reason else why)
  end.

Definition user_applies (e : evalRequest) (p : Policy) : bool :=
  contains (Users p) (username e) && contains (Actions p) (er_action e).
Definition group_applies (e : evalRequest) (p : Policy) : bool :=
  contains (Actions p) (er_action e) && existsb (contains (groups e)) (Groups p).

Definition isPermitted (ac : AccessControlConfig) (e : evalRequest) (pg : PolicyGroup) : ST env (bool * string) :=
  let* (ok, reason) := first_granting ac e (user_applies e) (pg_Policies pg) "" in
  if (ok : bool) then ret (true, "")
  else
    let* (ok, reason) := first_granting ac e (group_applies e) (pg_Policies pg) reason in
    if (ok : bool) then ret (true, "")
    else if contains (DefaultPolicy pg) (er_action e) && negb (bool_decide (username e = "")) then ret (true, "")
    else if contains (AnonymousPolicy pg) (er_action e) && bool_decide (username e = "") then ret (true, "")
    else ret (false, reason).

Definition isAnyGroupInAdminPolicy (ac : AccessControlConfig) (userGroups : list string) : bool :=
  existsb (contains (Groups (AdminPolicy ac))) userGroups.
Definition isAdmin (ac : AccessControlConfig) (user : string) (userGroups : list string) : bool :=
  contains (Users (AdminPolicy ac)) user || isAnyGroupInAdminPolicy ac userGroups.
Definition getUserGroups (ac : AccessControlConfig) (user : string) : list string :=
  concat (map (fun entry : string * list string =>
    map (fun _ => fst entry) (filter (fun u => u = user) (snd entry))) (map_iter (ac_Groups ac))).

Definition can (ac : AccessControlConfig) (req : option http_request) (uac : UserAccessControl)
    (action repository reference : string) : ST env (bool * string) :=
  let longest := longest_match repository (fst <$> map_iter (ac_Repositories ac)) in
  let e := mkEval req (Some uac) (IsAdmin uac) action repository reference in
  let* (ok, reason) :=
    match ac_Repositories ac !! longest with
    | Some pg => isPermitted ac e pg
    | None => ret (false, "")
    end in
  if (ok : bool) then ret (true, reason)
  else if isAdmin ac (GetUsername uac) (GetGroups uac) && contains (Actions (AdminPolicy ac)) action then
    let* (ok, why) := policyConditionsMet ac (AdminPolicy ac) e in
    if (ok : bool) then ret (true, "") else ret (false, if bool_decide (why = "") then reason else why)
  else ret (false, reason).

Definition updateUserAccessControl (ac : AccessControlConfig) (req : option http_request) (uac : UserAccessControl)
    : UserAccessControl :=
  let admin := isAdmin ac (GetUsername uac) (GetGroups uac) in
  let uac := SetIsAdmin admin uac in
  let grant action uac :=
    SetGlobPatterns action (getGlobPatterns ac (mkEval req (Some uac) admin action "" "")) uac in
  grant DetectManifestCollisionPermission
    (grant DeletePermission (grant UpdatePermission (grant CreatePermission (grant ReadPermission uac)))).

Definition attachPermissionEvaluator (ac : AccessControlConfig) (req : option http_request)
    (uac : UserAccessControl) : UserAccessControl :=
  SetPermissionEvaluator (fun action repository reference =>
    let* (ok, _) := can ac req uac action repository reference in ret ok) uac.
End controller.

(** ** Writing a manifest *)
Section manifest_write.
Context `{CelEngine} `{MapIter} `{Glob} `{GoDigest}.

Record manifestWriteAuthzCheck : Type := mkCheck { ck_action : string; ck_reference : string }.

(** The valid values of the query, trimmed, without repetitions: those of tags
    that exist and the others. *)
Fixpoint classify_tags (existingRepoTags rawTagQuery existing newTags : list string) : list string * list string :=
  match rawTagQuery with
  | [] => (existing, newTags)
  | rawTag :: rest =>
      let cleanedTag := TrimSpace rawTag in
      if bool_decide (cleanedTag = "") || negb (IsDistributionSpecTag cleanedTag)
      then classify_tags existingRepoTags rest existing newTags
      else if contains existingRepoTags cleanedTag then
        classify_tags existingRepoTags rest
          (if contains existing cleanedTag then existing else existing ++ [cleanedTag]) newTags
      else
        classify_tags existingRepoTags rest existing
          (if contains newTags cleanedTag then newTags else newTags ++ [cleanedTag])
  end.
Definition classifyDigestQueryTags (existingRepoTags rawTagQuery : list string) : list string * list string :=
  classify_tags existingRepoTags rawTagQuery [] [].

Definition manifestWriteAuthzChecks (repoTags : list string) (reference : string) (rawTagQuery : list string)
    : list manifestWriteAuthzCheck :=
  if negb (IsDigest reference) then
    [mkCheck (if contains repoTags reference then UpdatePermission else CreatePermission) reference]
  else
    let '(existing, newTags) := classifyDigestQueryTags repoTags rawTagQuery in
    (mkCheck UpdatePermission <$> existing) ++ (mkCheck CreatePermission <$> newTags) ++
    (if (0 <? length newTags)%nat || (length existing =? 0)%nat then [mkCheck CreatePermission reference] else []) ++
    (if (0 <? length existing)%nat then [mkCheck UpdatePermission reference] else []).

Fixpoint authorize_checks (ac : AccessControlConfig) (req : http_request) (uac : UserAccessControl)
    (resource : string) (checks : list manifestWriteAuthzCheck) : ST env (string * bool) :=
  match checks with
  | [] => ret ("", true)
  | check :: rest =>
      let* (ok, reason) := can ac (Some req) uac (ck_action check) resource (ck_reference check) in
      if (ok : bool) then authorize_checks ac req uac resource rest else ret (reason, false)
  end.
Definition authorizeManifestWrite (ac : AccessControlConfig) (req : http_request) (uac : UserAccessControl)
    (resource reference : string) (repoTags rawTagQuery : list string) : ST env (string * bool) :=
  authorize_checks ac req uac resource (manifestWriteAuthzChecks repoTags reference rawTagQuery).

Definition repoTagsForManifestWriteAuthz (tags : res (list string)) : res (list string) :=
  match tags with
  | Ok tags => Ok tags
  | Err e => if bool_decide (e = ErrRepoNotFound) then Ok [] else Err e
  end.

(** normalizeManifestExtraTags of routes.go: the tags the handler of a push by
    digest writes. *)
Fixpoint normalize_tags (raw out : list string) : res (list string) :=
  match raw with
  | [] => Ok out
  | rawTag :: rest =>
      let cleanedTag := TrimSpace rawTag in
      if bool_decide (cleanedTag = "") then Err (ErrOther "empty tag query")
      else if negb (IsDistributionSpecTag cleanedTag) then Err (ErrOther "invalid tag query")
      else normalize_tags rest (if contains out cleanedTag then out else out ++ [cleanedTag])
  end.
Definition normalizeManifestExtraTags (raw : list string) : res (list string) := normalize_tags raw [].

(** ** The handlers *)
Inductive outcome : Type :=
  | Next (uac : UserAccessControl)               (* the next handler, with this on its request *)
  | AuthzFail (status : Z) (reason : string)
  | InternalServerError.

(** A client without a name is told to authenticate, another is refused. *)
Definition AuthzFailWithReason (identity reason : string) : outcome :=
  if bool_decide (identity = "") then AuthzFail 401 "" else AuthzFail 403 reason.

Definition bypassed (req : http_request) : bool :=
  bool_decide (Method req = "OPTIONS") || bool_decide (AuthnType req = Some BEARER).

Definition BaseAuthzHandler (conf : option AccessControlConfig) (req : http_request) (uac : UserAccessControl)
    : outcome :=
  if bypassed req || bool_decide (RequestURI req = "/v2/") then Next uac
  else
    let ac := NewAccessController conf in
    Next (attachPermissionEvaluator ac (Some req) (updateUserAccessControl ac (Some req) uac)).

(** [tags] is what GetImageTags answers for the repository. *)
Definition DistSpecAuthzHandler (conf : option AccessControlConfig) (tags : string -> res (list string))
    (req : http_request) (uac : UserAccessControl) : ST env outcome :=
  if bypassed req then ret (Next uac)
  else
    let resource := var_name req in
    let reference := default "" (var_reference req) in
    let ac := NewAccessController conf in
    let plain action :=
      let* (ok, denyReason) := can ac (Some req) uac action resource reference in
      ret (if (ok : bool) then Next uac else AuthzFailWithReason (GetUsername uac) denyReason) in
    if contains ["GET"; "HEAD"] (Method req) then plain ReadPermission
    else if contains ["PUT"; "PATCH"; "POST"] (Method req) then
      match var_reference req with
      | None => plain CreatePermission
      | Some reference =>
          match repoTagsForManifestWriteAuthz (tags resource) with
          | Err _ => ret InternalServerError
          | Ok repoTags =>
              let* (denyReason, allowed) :=
                authorizeManifestWrite ac req uac resource reference repoTags (query_tags req) in
              ret (if (allowed : bool) then Next uac else AuthzFailWithReason (GetUsername uac) denyReason)
          end
      end
    else if bool_decide (Method req = "DELETE") then plain DeletePermission
    else plain "".

Definition MetricsAuthzHandler (conf : option AccessControlConfig) (uac : UserAccessControl) : outcome :=
  match conf with
  | None => Next uac
  | Some c =>
      let m := ac_Metrics c in
      if IsAnonymous uac then
        if negb (contains (m_AnonymousPolicy m) ReadPermission) then AuthzFailWithReason "" ""
        else Next uac
      else if contains (m_Users m) (GetUsername uac) then Next uac
      else AuthzFailWithReason (GetUsername uac) ""
  end.

(** ** Mounting a blob (routes.go) *)
Definition shouldCheckMountSourceAccess (conf : option AccessControlConfig) (uac : UserAccessControl) : bool :=
  if bool_decide (is_Some conf) then true else HasScopedPermissions uac.

Fixpoint some_readable (uac : UserAccessControl) (digest : string) (repos : list string) : ST env bool :=
  match repos with
  | [] => ret false
  | repo :: rest =>
      let* ok := CanOnResource uac ReadPermission repo digest in
      if (ok : bool) then ret true else some_readable uac digest rest
  end.
End manifest_write.
