(* ===== verification/Access.v ===== *)
(** * Properties of authorization

    Who may do what, as a relation on the configuration alone; the access
    controller decides it, the filters of listings never hide what it allows,
    and a manifest is only written when every tag it sets is allowed. Two
    patterns of one length leave the decision to the order of a map. *)

From Stdlib Require Import ZArith Lia Ascii String.
From stdpp Require Import base tactics list gmap strings.
From S2P Require Import Prelude Runtime Regexp Oci StorageCommon Concrete Authz.

Local Open Scope string_scope.
Local Open Scope list_scope.

(** ** The longest pattern *)
Section longest.
Context `{Glob}.

Definition matches (repository pattern : string) : Prop := glob_Match pattern repository = Ok true.

(** The pattern that decides: longer than any other that matches, or no
    pattern at all. *)
Definition decisive (repository : string) (patterns : list string) (p : string) : Prop :=
  (p <> "" /\ p ∈ patterns /\ matches repository p /\
   forall q, q ∈ patterns -> matches repository q -> q <> p -> String.length q < String.length p) \/
  (p = "" /\ forall q, q ∈ patterns -> matches repository q -> q = "").

Lemma longest_step_cases r acc p :
  (matches r p /\ String.length acc < String.length p /\ longest_step r acc p = p) \/
  ((matches r p -> String.length p <= String.length acc) /\ longest_step r acc p = acc).
Proof.
  unfold longest_step, matches. destruct (glob_Match p r) as [[]|e]; [|by right..].
  destruct (Nat.ltb_spec (String.length acc) (String.length p)); [by left|right]. split; [|done]. intros _. lia.
Qed.

Lemma longest_fold r patterns : forall acc,
  let res := foldl (longest_step r) acc patterns in
  (res = acc \/ res ∈ patterns /\ matches r res /\ String.length acc < String.length res) /\
  String.length acc <= String.length res /\
  forall q, q ∈ patterns -> matches r q -> String.length q <= String.length res.
Proof.
  induction patterns as [|p ps IH]; intros acc; simpl.
  { split; [by left|]. split; [done|]. intros q Hq. by apply not_elem_of_nil in Hq. }
  destruct (IH (longest_step r acc p)) as (Hr&Hle&Hall). set (res := foldl _ _ ps) in *.
  destruct (longest_step_cases r acc p) as [(Hm&Hlt&Es)|(Hm&Es)]; rewrite Es in *.
  - split; [|split; [lia|]].
    + right. destruct Hr as [->|(Hin&Hmr&Hlt')]; [split; [left|done]|]. split; [by right|]. split; [done|lia].
    + intros q [->|Hq]%elem_of_cons; [done|by apply Hall].
  - split; [|split; [done|]].
    + destruct Hr as [->|(Hin&Hmr&Hlt')]; [by left|right]. split; [by right|done].
    + intros q [->|Hq]%elem_of_cons Hmq; [specialize (Hm Hmq); lia|by apply Hall].
Qed.

Lemma string_length_0 (s : string) : String.length s = 0 -> s = "".
Proof. by destruct s. Qed.

(** A decisive pattern is found, whatever the order of the patterns. *)
Lemma longest_decisive r ps p : decisive r ps p -> longest_match r ps = p.
Proof.
  unfold longest_match. pose proof (longest_fold r ps "") as (Hr&_&Hall). set (res := foldl _ _ ps) in *.
  intros [(Hne&Hin&Hm&Hlt)|(->&Hno)].
  - destruct (decide (res = p)) as [|Hnp]; [done|exfalso]. pose proof (Hall p Hin Hm) as Hle.
    destruct Hr as [Er|(Hri&Hrm&_)]; [|specialize (Hlt res Hri Hrm Hnp); lia].
    rewrite Er in Hle. simpl in Hle. apply Hne, string_length_0. lia.
  - destruct Hr as [|(Hri&Hrm&Hlt)]; [done|]. by apply Hno.
Qed.

Lemma decisive_perm r ps qs p : (forall q, q ∈ ps <-> q ∈ qs) -> decisive r ps p -> decisive r qs p.
Proof. intros E. unfold decisive. setoid_rewrite <-E. done. Qed.
End longest.

(** ** Who may do what *)
Section spec.
Context `{CelEngine} `{MapIter} `{Glob}.

Definition condition_holds (ac : AccessControlConfig) (e : evalRequest) (now : Z) (c : Condition) : Prop :=
  exists prog, compiledConditions ac !! Expression c = Some prog /\
    EvaluateBoolean prog (context_of e) (data_at e now) = Ok true.
Definition conditions_hold (ac : AccessControlConfig) (e : evalRequest) (now : Z) (p : Policy) : Prop :=
  Forall (condition_holds ac e now) (Conditions p).

(** The policy names the action, and the user or one of the user's groups. *)
Definition applies (e : evalRequest) (p : Policy) : Prop :=
  er_action e ∈ Actions p /\ (username e ∈ Users p \/ exists g, g ∈ Groups p /\ g ∈ groups e).

Definition group_grants (ac : AccessControlConfig) (e : evalRequest) (now : Z) (pg : PolicyGroup) : Prop :=
  (exists p, p ∈ pg_Policies pg /\ applies e p /\ conditions_hold ac e now p) \/
  (username e <> "" /\ er_action e ∈ DefaultPolicy pg) \/
  (username e = "" /\ er_action e ∈ AnonymousPolicy pg).

Definition admin_grants (ac : AccessControlConfig) (e : evalRequest) (now : Z) : Prop :=
  applies e (AdminPolicy ac) /\ conditions_hold ac e now (AdminPolicy ac).

Definition patterns_of (ac : AccessControlConfig) : list string := fst <$> map_to_list (ac_Repositories ac).

Definition request_of (req : option http_request) (uac : UserAccessControl) (action repository reference : string)
    : evalRequest := mkEval req (Some uac) (IsAdmin uac) action repository reference.

Definition permitted (ac : AccessControlConfig) (e : evalRequest) (now : Z) : Prop :=
  (exists p pg, decisive (er_repository e) (patterns_of ac) p /\ ac_Repositories ac !! p = Some pg /\
     group_grants ac e now pg) \/
  admin_grants ac e now.

(** The reason given to the client is the message of a condition that was
    evaluated and did not hold, of a policy that applies. *)
Definition denial (ac : AccessControlConfig) (e : evalRequest) (now : Z) (policies : list Policy) (reason : string)
    : Prop :=
  reason = "" \/ exists p c prog, p ∈ policies /\ applies e p /\ c ∈ Conditions p /\ reason = Message c /\
    compiledConditions ac !! Expression c = Some prog /\
    EvaluateBoolean prog (context_of e) (data_at e now) = Ok false.
Definition all_policies (ac : AccessControlConfig) : list Policy :=
  AdminPolicy ac :: concat (pg_Policies <$> (snd <$> map_to_list (ac_Repositories ac))).
End spec.

(** ** The controller decides it *)
Definition constant_clock (now : Z) (s : env) : Prop := forall n, env_clock s n = now.

Section decides.
Context `{CelEngine} `{MapIter} `{!MapIterLaws} `{Glob}.
Context (ac : AccessControlConfig) (now : Z).

Lemma conditions_met_ok ctx d conds b why : conditions_met ac ctx d conds = (b, why) ->
  (b = true <-> Forall (fun c => exists prog, compiledConditions ac !! Expression c = Some prog /\
     EvaluateBoolean prog ctx d = Ok true) conds) /\
  (b = false -> why = "" \/ exists c prog, c ∈ conds /\ why = Message c /\
     compiledConditions ac !! Expression c = Some prog /\ EvaluateBoolean prog ctx d = Ok false).
Proof.
  revert b why. induction conds as [|c conds IH]; intros b why; simpl.
  { intros [= <- <-]. split; [|done]. split; [intros _; constructor|done]. }
  unfold lookupCondition. destruct (compiledConditions ac !! Expression c) as [prog|] eqn:Ec.
  2:{ intros [= <- <-]. split; [|by left]. split; [done|]. intros (?&?&_)%Forall_cons_1%proj1. congruence. }
  destruct (EvaluateBoolean prog ctx d) as [[]|er] eqn:Ev.
  - intros [Hb Hw]%IH. rewrite Forall_cons. split; [rewrite Hb; split; [|by intros []]|].
    + intros Hf. split; [by exists prog|done].
    + intros [->|(c'&p'&Hin&?)]%Hw; [by left|]. right. exists c', p'. split; [by right|done].
  - intros [= <- <-]. split; [split; [done|]|].
    + intros (?&?&?)%Forall_cons_1%proj1. congruence.
    + intros _. right. exists c, prog. split; [left|done].
  - intros [= <- <-]. split; [|by left]. split; [done|]. intros (?&?&?)%Forall_cons_1%proj1. congruence.
Qed.

Context (e : evalRequest).

Lemma policyConditionsMet_ok p s : constant_clock now s -> exists b why s',
  policyConditionsMet ac p e s = (Ok (b, why), s') /\ constant_clock now s' /\
  (b = true <-> conditions_hold ac e now p) /\
  (b = false -> applies e p -> forall ps, p ∈ ps -> denial ac e now ps why).
Proof.
  intros Hc. unfold policyConditionsMet, conditions_hold, denial.
  destruct (Conditions p) as [|c conds] eqn:Ep.
  { exists true, "", s. do 2 (split; [done|]). split; [|done]. split; [intros _; constructor|done]. }
  unfold bind, data, Now, bind, ret. cbv beta iota. rewrite Hc.
  destruct (conditions_met ac (context_of e) (data_at e now) (c :: conds)) as [b why] eqn:Em.
  apply conditions_met_ok in Em as [Hb Hw]. eexists b, why, _. split; [done|]. split; [done|]. split; [exact Hb|].
  intros [->|(c'&prog&Hin&Hrest)]%Hw Ha ps Hp; [by left|right]. exists p, c', prog. rewrite Ep. done.
Qed.

(** [f] decides which policies are tried. *)
Lemma first_granting_ok (f : Policy -> bool) all ps : forall reason s,
  constant_clock now s -> (forall p, p ∈ ps -> p ∈ all) ->
  (forall p, p ∈ ps -> f p = true -> applies e p) -> denial ac e now all reason ->
  exists b why s', first_granting ac e f ps reason s = (Ok (b, why), s') /\ constant_clock now s' /\
    (b = true <-> exists p, p ∈ ps /\ f p = true /\ conditions_hold ac e now p) /\
    (b = false -> denial ac e now all why).
Proof.
  induction ps as [|p ps IH]; intros reason s Hc Hall Hf Hd; simpl.
  { exists false, reason, s. do 2 (split; [done|]). split; [|done]. split; [done|]. by intros (p&Hp%not_elem_of_nil&_). }
  assert (forall q, q ∈ ps -> q ∈ all) as Hall' by (intros q Hq; apply Hall; by right).
  assert (forall q, q ∈ ps -> f q = true -> applies e q) as Hf' by (intros q Hq; apply Hf; by right).
  destruct (f p) eqn:Ef; simpl.
  - destruct (policyConditionsMet_ok p s Hc) as (b&why&s1&E&Hc1&Hb&Hw). unfold bind. rewrite E.
    assert (p ∈ p :: ps) as Hp by left. destruct b.
    + eexists true, "", s1. do 2 (split; [done|]). split; [|done]. split; [|done]. intros _.
      exists p. split; [done|]. split; [done|]. by apply Hb.
    + destruct (IH (if bool_decide (why = "") then reason else why) s1 Hc1 Hall' Hf') as (b'&why'&s'&E'&Hc'&Hb'&Hw').
      { destruct (bool_decide _); [done|]. apply Hw; [done|by apply Hf|by apply Hall]. }
      exists b', why', s'. split; [exact E'|]. split; [done|]. split; [|done]. rewrite Hb'. split.
      * intros (q&?&?&?). exists q. split; [by right|done].
      * intros (q&[->|Hq]%elem_of_cons&?&Hq'); [|by exists q]. by apply Hb in Hq'.
  - destruct (IH reason s Hc Hall' Hf' Hd) as (b'&why'&s'&E'&Hc'&Hb'&Hw').
    exists b', why', s'. split; [exact E'|]. split; [done|]. split; [|done]. rewrite Hb'. split.
    + intros (q&?&?&?). exists q. split; [by right|done].
    + intros (q&[->|Hq]%elem_of_cons&?&Hq'); [congruence|by exists q].
Qed.

Lemma contains_spec {A} `{EqDecision A} (l : list A) x : contains l x = true <-> x ∈ l.
Proof. unfold contains. by rewrite bool_decide_eq_true. Qed.

Lemma user_applies_spec p : user_applies e p = true <-> er_action e ∈ Actions p /\ username e ∈ Users p.
Proof. unfold user_applies. rewrite andb_true_iff, !contains_spec. tauto. Qed.
Lemma group_applies_spec p : group_applies e p = true <->
  er_action e ∈ Actions p /\ exists g, g ∈ Groups p /\ g ∈ groups e.
Proof.
  unfold group_applies. rewrite andb_true_iff, contains_spec, existsb_exists.
  setoid_rewrite contains_spec. by setoid_rewrite <-list_elem_of_In.
Qed.
Lemma applies_split p : applies e p <-> user_applies e p = true \/ group_applies e p = true.
Proof. rewrite user_applies_spec, group_applies_spec. unfold applies. tauto. Qed.

Lemma isPermitted_ok pg s : constant_clock now s -> exists b why s',
  isPermitted ac e pg s = (Ok (b, why), s') /\ constant_clock now s' /\
  (b = true <-> group_grants ac e now pg) /\ (b = false -> denial ac e now (pg_Policies pg) why).
Proof.
  intros Hc. unfold isPermitted, group_grants. set (ps := pg_Policies pg).
  destruct (first_granting_ok (user_applies e) ps ps "" s) as (b&why&s1&E&Hc1&Hb&Hw);
    [done..|intros p _ Hp; apply applies_split; by left|by left|].
  unfold bind at 1. rewrite E. destruct b.
  { exists true, "", s1. do 2 (split; [done|]). split; [|done]. split; [|done]. intros _. left.
    destruct Hb as [(p&Hp&Hu&Hcs) _]; [done|]. exists p. split; [done|]. split; [apply applies_split; by left|done]. }
  destruct (first_granting_ok (group_applies e) ps ps why s1) as (b2&why2&s2&E2&Hc2&Hb2&Hw2);
    [done..|intros p _ Hp; apply applies_split; by right|by apply Hw|].
  unfold bind. rewrite E2. destruct b2.
  { exists true, "", s2. do 2 (split; [done|]). split; [|done]. split; [|done]. intros _. left.
    destruct Hb2 as [(p&Hp&Hu&Hcs) _]; [done|]. exists p. split; [done|]. split; [apply applies_split; by right|done]. }
  assert (~ exists p, p ∈ ps /\ applies e p /\ conditions_hold ac e now p) as Hno.
  { intros (p&Hp&[Ha|Ha]%applies_split&Hcs); [assert (false = true) by (apply Hb; by exists p)|
      assert (false = true) by (apply Hb2; by exists p)]; done. }
  destruct (contains (DefaultPolicy pg) (er_action e)) eqn:Ed; destruct (contains (AnonymousPolicy pg) (er_action e)) eqn:Ea;
    case_bool_decide; simpl;
    (eexists _, _, s2; split; [reflexivity|]; split; [done|]; rewrite <-!contains_spec, Ed, Ea; naive_solver).
Qed.
End decides.

Section controller.
Context `{CelEngine} `{MapIter} `{!MapIterLaws} `{Glob}.

Lemma elem_of_patterns ac q :
  q ∈ (fst <$> map_iter (ac_Repositories ac)) <-> q ∈ patterns_of ac.
Proof. unfold patterns_of. by rewrite (map_iter_perm _ _ (ac_Repositories ac)). Qed.

Lemma isAdmin_applies ac e uac : er_userAc e = Some uac ->
  isAdmin ac (GetUsername uac) (GetGroups uac) && contains (Actions (AdminPolicy ac)) (er_action e) = true <->
  applies e (AdminPolicy ac).
Proof.
  intros Eu. unfold isAdmin, isAnyGroupInAdminPolicy, applies, username, groups. rewrite Eu.
  rewrite andb_true_iff, orb_true_iff, !contains_spec, existsb_exists. setoid_rewrite contains_spec.
  setoid_rewrite <-list_elem_of_In. naive_solver.
Qed.

Lemma denial_mono ac e now ps qs why : (forall p, p ∈ ps -> p ∈ qs) -> denial ac e now ps why -> denial ac e now qs why.
Proof. unfold denial. naive_solver. Qed.

Lemma group_in_all ac p pg q : ac_Repositories ac !! p = Some pg -> q ∈ pg_Policies pg -> q ∈ all_policies ac.
Proof.
  intros Hp Hq. right. apply list_elem_of_In, in_concat. exists (pg_Policies pg). rewrite <-!list_elem_of_In. split; [|done].
  apply list_elem_of_fmap. exists pg. split; [done|]. apply list_elem_of_fmap. exists (p, pg).
  split; [done|]. by apply elem_of_map_to_list.
Qed.

Lemma can_ok ac req uac action repository reference now s p : constant_clock now s ->
  decisive repository (patterns_of ac) p ->
  let e := request_of req uac action repository reference in
  exists b why s', can ac req uac action repository reference s = (Ok (b, why), s') /\ constant_clock now s' /\
    (b = true <-> permitted ac e now) /\ (b = false -> denial ac e now (all_policies ac) why).
Proof.
  intros Hc Hp e. unfold can.
  rewrite (longest_decisive repository _ p) by (eapply decisive_perm; [|exact Hp]; intros q; symmetry; apply elem_of_patterns).
  fold (request_of req uac action repository reference). fold e.
  assert (exists b why s1, match ac_Repositories ac !! p with Some pg => isPermitted ac e pg | None => ret (false, "") end s
    = (Ok (b, why), s1) /\ constant_clock now s1 /\
    (b = true <-> exists p pg, decisive repository (patterns_of ac) p /\ ac_Repositories ac !! p = Some pg /\
       group_grants ac e now pg) /\ (b = false -> denial ac e now (all_policies ac) why)) as (b&why&s1&E1&Hc1&Hb&Hw).
  { destruct (ac_Repositories ac !! p) as [pg|] eqn:Epg.
    - destruct (isPermitted_ok ac now e pg s Hc) as (b&why&s1&E1&Hc1&Hb&Hw). exists b, why, s1.
      split; [done|]. split; [done|]. split.
      + rewrite Hb. split; [intros Hg; by exists p, pg|]. intros (p'&pg'&Hp'&Epg'&Hg).
        rewrite <-(longest_decisive _ _ p Hp), (longest_decisive _ _ p' Hp') in Epg. congruence.
      + intros Hf. eapply denial_mono; [|by apply Hw]. intros q. by apply (group_in_all _ p).
    - exists false, "", s. do 2 (split; [done|]). split; [|by left]. split; [done|]. intros (p'&pg'&Hp'&Epg'&_).
      rewrite <-(longest_decisive _ _ p Hp), (longest_decisive _ _ p' Hp') in Epg. congruence. }
  unfold bind at 1. rewrite E1. unfold permitted. change (er_repository e) with repository. destruct b.
  { exists true, why, s1. do 2 (split; [done|]). split; [|done]. split; [|done]. intros _. left. by apply Hb. }
  pose proof (isAdmin_applies ac e uac eq_refl) as Ha. change (er_action e) with action in Ha.
  destruct (isAdmin _ _ _ && _).
  - destruct (policyConditionsMet_ok ac now e (AdminPolicy ac) s1 Hc1) as (b2&why2&s2&E2&Hc2&Hb2&Hw2).
    unfold bind. rewrite E2. destruct Ha as [Ha _]. specialize (Ha eq_refl). destruct b2.
    + exists true, "", s2. do 2 (split; [done|]). split; [|done]. split; [|done]. intros _. right.
      split; [done|]. by apply Hb2.
    + eexists false, _, s2. do 2 (split; [done|]). split.
      * split; [done|]. intros [Hg|[_ Hg]]; [by apply Hb|by apply Hb2].
      * intros _. destruct (bool_decide _); [by apply Hw|]. apply Hw2; [done..|]. left.
  - exists false, why, s1. do 2 (split; [done|]). split; [|by intros; apply Hw]. split; [done|].
    intros [Hg|[Hg _]]; [by apply Hb|by apply Ha].
Qed.

(** C39 The access controller decides by the policies: an action on a
    repository is allowed exactly when the policy group of the longest pattern
    that matches it has a policy for the user or a group of the user whose
    conditions all hold, or a default (anonymous) policy for a user with
    (without) a name, or when the admin policy applies and its conditions
    hold; and the reason it gives for a refusal is the message of a condition
    that did not hold, of a policy that applies. *)
Theorem access_granted_exactly ac req uac action repository reference now s p : constant_clock now s ->
  decisive repository (patterns_of ac) p ->
  let e := request_of req uac action repository reference in
  exists b why s', can ac req uac action repository reference s = (Ok (b, why), s') /\
    (b = true <-> permitted ac e now) /\ (b = false -> denial ac e now (all_policies ac) why).
Proof.
  intros Hc Hp e. destruct (can_ok ac req uac action repository reference now s p Hc Hp) as (b&why&s'&E&_&Hr).
  by exists b, why, s'.
Qed.
End controller.

(** ** The filter of listings *)
Section filter.
Context `{CelEngine} `{MapIter} `{!MapIterLaws} `{Glob}.

Lemma insert_all_lookup {A B} (f : A -> B) (l : list (string * A)) (m : gmap string B) k :
  NoDup (fst <$> l) ->
  (forall x, (k, x) ∈ l -> foldl (fun m en => <[fst en := f (snd en)]> m) m l !! k = Some (f x)) /\
  (k ∉ (fst <$> l) -> foldl (fun m en => <[fst en := f (snd en)]> m) m l !! k = m !! k).
Proof.
  revert m. induction l as [|[k' x'] l IH]; intros m Hn; simpl.
  { split; [by intros x Hx%not_elem_of_nil|done]. }
  apply NoDup_cons in Hn as [Hk' Hn]. destruct (IH (<[k' := f x']> m) Hn) as [Hin Hout]. split.
  - intros x [[= <- <-]|Hx]%elem_of_cons; [|by apply Hin]. rewrite Hout by done. apply lookup_insert_eq.
  - intros [Hne Hno]%not_elem_of_cons. rewrite Hout by done. by apply lookup_insert_ne.
Qed.

Lemma getGlobPatterns_lookup ac e p :
  getGlobPatterns ac e !! p = pattern_allows e <$> ac_Repositories ac !! p.
Proof.
  unfold getGlobPatterns. pose proof (map_iter_perm _ _ (ac_Repositories ac)) as Hp.
  assert (NoDup (fst <$> map_iter (ac_Repositories ac))) as Hn by (rewrite Hp; apply NoDup_fst_map_to_list).
  destruct (insert_all_lookup (pattern_allows e) _ ∅ p Hn) as [Hin Hout].
  destruct (ac_Repositories ac !! p) as [pg|] eqn:E; simpl.
  - apply Hin. rewrite Hp. by apply elem_of_map_to_list.
  - rewrite Hout; [apply lookup_empty|]. rewrite Hp. intros ([k x]&Hk&Hx%elem_of_map_to_list)%list_elem_of_fmap.
    simpl in Hk. congruence.
Qed.

Lemma patterns_of_globs ac e q : q ∈ (fst <$> map_iter (getGlobPatterns ac e)) <-> q ∈ patterns_of ac.
Proof.
  unfold patterns_of. rewrite (map_iter_perm _ _ (getGlobPatterns ac e)). rewrite !list_elem_of_fmap. split.
  - intros ([k x]&->&Hx%elem_of_map_to_list). rewrite getGlobPatterns_lookup in Hx.
    apply fmap_Some in Hx as (pg&Hpg&_). exists (k, pg). split; [done|]. by apply elem_of_map_to_list.
  - intros ([k pg]&->&Hx%elem_of_map_to_list). exists (k, pattern_allows e pg). split; [done|].
    apply elem_of_map_to_list. rewrite getGlobPatterns_lookup. simpl. by rewrite Hx.
Qed.

(** The access control of a request after the first middleware. *)
Definition updated ac req uac : UserAccessControl :=
  attachPermissionEvaluator ac req (updateUserAccessControl ac req uac).

Lemma Can_updated ac req uac action repository p : action ∈ methodActions ->
  decisive repository (patterns_of ac) p ->
  Can (updated ac req uac) action repository =
    isAdmin ac (GetUsername uac) (GetGroups uac) ||
    default false (pattern_allows (request_of req uac action repository "") <$> ac_Repositories ac !! p).
Proof.
  intros Ha Hp. assert (contains behaviourActions action = false /\ contains methodActions action = true) as [Eb Em].
  { split; [|by apply contains_spec]. unfold methodActions in Ha. rewrite !elem_of_cons in Ha.
    by destruct Ha as [->|[->|[->|[->|[]%not_elem_of_nil]]]]. }
  unfold Can. rewrite Eb, Em. change (IsAdmin (updated ac req uac)) with (isAdmin ac (GetUsername uac) (GetGroups uac)).
  destruct (isAdmin ac _ _) eqn:Ead; [done|]. simpl orb.
  assert (exists m e, match authzInfo (updated ac req uac) with
    | Some (mkAuthzInfo (Some ps) _) => ps !! action = Some m | _ => False end /\
    m = getGlobPatterns ac e /\ pattern_allows e = pattern_allows (request_of req uac action repository "")) as (m&e&Hl&->&He).
  { unfold methodActions in Ha. rewrite !elem_of_cons in Ha. cbn -[getGlobPatterns isAdmin insert lookup].
    destruct Ha as [->|[->|[->|[->|[]%not_elem_of_nil]]]];
      (eexists _, _; split; [rewrite ?lookup_insert_ne by done; apply lookup_insert_eq|done]). }
  destruct (authzInfo (updated ac req uac)) as [[[ps|] adm]|]; [|done..].
  rewrite Hl. simpl. unfold matchesRepo.
  rewrite (longest_decisive repository _ p) by (eapply decisive_perm; [|exact Hp]; intros q; symmetry; apply patterns_of_globs).
  by rewrite getGlobPatterns_lookup, He.
Qed.

Lemma pattern_allows_spec e pg : pattern_allows e pg = true <->
  (exists p, p ∈ pg_Policies pg /\ applies e p) \/
  (username e <> "" /\ er_action e ∈ DefaultPolicy pg) \/ (username e = "" /\ er_action e ∈ AnonymousPolicy pg).
Proof.
  unfold pattern_allows, applies. rewrite !orb_true_iff, contains_spec, !existsb_exists.
  setoid_rewrite existsb_exists. setoid_rewrite andb_true_iff. setoid_rewrite contains_spec.
  setoid_rewrite <-list_elem_of_In. case_bool_decide; naive_solver.
Qed.

Lemma first_granting_true ac e f ps : forall reason s why s',
  first_granting ac e f ps reason s = (Ok (true, why), s') -> exists p, p ∈ ps /\ f p = true.
Proof.
  induction ps as [|p ps IH]; intros reason s why s'; simpl; [done|]. destruct (f p) eqn:Ef; simpl.
  - intros _. exists p. split; [left|done].
  - intros (q&Hq&Hf)%IH. exists q. split; [by right|done].
Qed.

Lemma isPermitted_true ac e pg s why s' :
  isPermitted ac e pg s = (Ok (true, why), s') -> pattern_allows e pg = true.
Proof.
  unfold isPermitted. intros ([ok reason]&s1&E1&E)%bind_ok. apply pattern_allows_spec. destruct ok.
  { apply first_granting_true in E1 as (p&Hp&Hf). left. exists p. split; [done|]. apply applies_split. by left. }
  apply bind_ok in E as ([ok reason2]&s2&E2&E). destruct ok.
  { apply first_granting_true in E2 as (p&Hp&Hf). left. exists p. split; [done|]. apply applies_split. by right. }
  right. destruct (contains (DefaultPolicy pg) _) eqn:Ed; [apply contains_spec in Ed|];
    (destruct (contains (AnonymousPolicy pg) _) eqn:Ea; [apply contains_spec in Ea|]);
    case_bool_decide; simpl in E; try done; auto.
Qed.

(** With no conditions in the configuration nothing is refused for them. *)
Definition unconditional (ac : AccessControlConfig) : Prop := forall p, p ∈ all_policies ac -> Conditions p = [].

Lemma unconditional_grants ac e f ps s : (forall p, p ∈ ps -> Conditions p = []) ->
  first_granting ac e f ps "" s = (Ok (existsb f ps, ""), s).
Proof.
  induction ps as [|p ps IH]; intros Hu; simpl; [done|]. destruct (f p); simpl.
  - unfold bind, policyConditionsMet. by rewrite Hu by left.
  - apply IH. intros q Hq. apply Hu. by right.
Qed.

Lemma unconditional_permits ac e pg s : (forall p, p ∈ pg_Policies pg -> Conditions p = []) ->
  isPermitted ac e pg s = (Ok (pattern_allows e pg, ""), s).
Proof.
  intros Hu. unfold isPermitted, bind. rewrite unconditional_grants by done.
  destruct (existsb (user_applies e) _) eqn:Eu; [|rewrite unconditional_grants by done;
    destruct (existsb (group_applies e) _) eqn:Eg].
  - apply existsb_exists in Eu as (p&Hp&Hf). unfold ret. do 3 f_equal. symmetry. apply pattern_allows_spec. left.
    exists p. split; [by apply list_elem_of_In|]. apply applies_split. by left.
  - apply existsb_exists in Eg as (p&Hp&Hf). unfold ret. do 3 f_equal. symmetry. apply pattern_allows_spec. left.
    exists p. split; [by apply list_elem_of_In|]. apply applies_split. by right.
  - assert (pattern_allows e pg = contains (if bool_decide (username e = "") then AnonymousPolicy pg else DefaultPolicy pg)
      (er_action e)) as ->.
    { apply eq_true_iff_eq. rewrite pattern_allows_spec, contains_spec. split.
      - intros [(p&Hp%list_elem_of_In&[Hf|Hf]%applies_split)|Hd].
        + assert (false = true) as [=]. rewrite <-Eu. apply existsb_exists. by exists p.
        + assert (false = true) as [=]. rewrite <-Eg. apply existsb_exists. by exists p.
        + case_bool_decide; naive_solver.
      - intros Hd. right. case_bool_decide; naive_solver. }
    case_bool_decide; simpl; rewrite ?andb_true_r, ?andb_false_r; by destruct (contains _ _).
Qed.

(** The filter of the catalog and of the searches never hides a repository
    on which the access controller allows the action, whatever the conditions
    answer; and for a user who is not an administrator it shows no other when
    the policies have no conditions. *)
Theorem listing_never_hides ac req user action repository reference s p :
  action ∈ methodActions -> decisive repository (patterns_of ac) p ->
  let uac := updated ac req user in
  (forall why s', can ac req uac action repository reference s = (Ok (true, why), s') ->
     Can uac action repository = true) /\
  (IsAdmin uac = false -> unconditional ac -> Can uac action repository = true ->
     exists why s', can ac req uac action repository reference s = (Ok (true, why), s')).
Proof.
  intros Ha Hp uac. assert (Can uac action repository = _) as EC by by apply Can_updated.
  change (IsAdmin uac) with (isAdmin ac (GetUsername user) (GetGroups user)). rewrite EC.
  set (e0 := request_of req user action repository "") in *.
  assert (forall pg, pattern_allows e0 pg = pattern_allows (request_of req uac action repository reference) pg) as He by done.
  assert (longest_match repository (fst <$> map_iter (ac_Repositories ac)) = p) as El.
  { apply longest_decisive. eapply decisive_perm; [|exact Hp]. intros q. symmetry. apply elem_of_patterns. }
  unfold can. rewrite El. fold (request_of req uac action repository reference). split.
  - intros why s' ([ok reason]&s1&E1&E)%bind_ok. destruct ok.
    { destruct (ac_Repositories ac !! p) as [pg|]; [|done]. simpl. rewrite He.
      rewrite (isPermitted_true _ _ _ _ _ _ E1). apply orb_true_r. }
    destruct (isAdmin ac (GetUsername uac) (GetGroups uac)) eqn:Ead; [|done].
    change (isAdmin ac (GetUsername user) (GetGroups user) = true) in Ead. by rewrite Ead.
  - intros -> Hu. simpl. destruct (ac_Repositories ac !! p) as [pg|] eqn:Epg; [|done]. simpl. rewrite He.
    set (e := request_of _ _ _ _ _).
    assert (forall q, q ∈ pg_Policies pg -> Conditions q = []) as Hq by (intros q Hq; by apply Hu, (group_in_all ac p pg)).
    intros Hd. unfold bind at 1. rewrite (unconditional_permits ac e pg s Hq), Hd.
    by exists "", s.
Qed.
End filter.

(** ** Writing a manifest *)
Section write.
Context `{CelEngine} `{MapIter} `{!MapIterLaws} `{Glob} `{GoDigest}.

(** The tags a query asks for: its valid values, trimmed. *)
Definition asked (raw : list string) (t : string) : Prop :=
  t ∈ TrimSpace <$> raw /\ t <> "" /\ IsDistributionSpecTag t = true.

Lemma asked_cons r raw t : asked (r :: raw) t <->
  (t = TrimSpace r /\ t <> "" /\ IsDistributionSpecTag t = true) \/ asked raw t.
Proof. unfold asked. rewrite fmap_cons, elem_of_cons. tauto. Qed.

Lemma add_new (l : list string) x t : t ∈ (if contains l x then l else l ++ [x]) <-> t ∈ l \/ t = x.
Proof.
  destruct (contains l x) eqn:E; [apply contains_spec in E; naive_solver|].
  rewrite elem_of_app, list_elem_of_singleton. done.
Qed.

Lemma classify_tags_ok repoTags raw : forall ex new ex' new',
  classify_tags repoTags raw ex new = (ex', new') -> forall t,
  (t ∈ ex' <-> t ∈ ex \/ asked raw t /\ t ∈ repoTags) /\ (t ∈ new' <-> t ∈ new \/ asked raw t /\ t ∉ repoTags).
Proof.
  induction raw as [|r raw IH]; intros ex new ex' new'; simpl.
  { intros [= <- <-] t. unfold asked. simpl. rewrite elem_of_nil. tauto. }
  destruct (bool_decide (TrimSpace r = "") || negb (IsDistributionSpecTag (TrimSpace r))) eqn:Ev.
  { intros Hc t. rewrite (proj1 (IH _ _ _ _ Hc t)), (proj2 (IH _ _ _ _ Hc t)), asked_cons.
    apply orb_true_iff in Ev as [Ev%bool_decide_eq_true|Ev%negb_true_iff]; naive_solver congruence. }
  apply orb_false_iff in Ev as [Hne%bool_decide_eq_false Ht%negb_false_iff].
  destruct (contains repoTags (TrimSpace r)) eqn:Er; [apply contains_spec in Er|
    assert (TrimSpace r ∉ repoTags) as Er' by (rewrite <-contains_spec; congruence)];
    intros Hc t; rewrite (proj1 (IH _ _ _ _ Hc t)), (proj2 (IH _ _ _ _ Hc t)), add_new, asked_cons; naive_solver.
Qed.

Lemma normalize_tags_ok raw : forall out written, normalize_tags raw out = Ok written ->
  forall t, t ∈ written -> t ∈ out \/ asked raw t.
Proof.
  induction raw as [|r raw IH]; intros out written; simpl; [intros [= <-]; by left|].
  case_bool_decide as Hne; [done|]. destruct (IsDistributionSpecTag (TrimSpace r)) eqn:Ht; [|done]. simpl.
  intros Hn t Hin. rewrite asked_cons. destruct (IH _ _ Hn t Hin) as [Ho|Ha]; [|by right; right].
  apply add_new in Ho as [Ho| ->]; [by left|]. right. by left.
Qed.

Section checks.
Context (ac : AccessControlConfig) (req : http_request) (uac : UserAccessControl) (resource : string) (now : Z).
Context (p : string) (Hp : decisive resource (patterns_of ac) p).

Definition may (action reference : string) : Prop :=
  permitted ac (request_of (Some req) uac action resource reference) now.
(** Setting a tag is an update when it exists, a creation else. *)
Definition may_set (repoTags : list string) (t : string) : Prop :=
  may (if contains repoTags t then UpdatePermission else CreatePermission) t.

Definition write_allowed (repoTags : list string) (reference : string) (raw : list string) : Prop :=
  if IsDigest reference then
  (forall t, asked raw t -> may_set repoTags t) /\
  ((exists t, asked raw t /\ t ∉ repoTags) \/ (forall t, asked raw t -> t ∉ repoTags) ->
       may CreatePermission reference) /\
  ((exists t, asked raw t /\ t ∈ repoTags) -> may UpdatePermission reference)
  else may_set repoTags reference.

Lemma authorize_checks_ok checks : forall s, constant_clock now s -> exists why b s',
  authorize_checks ac req uac resource checks s = (Ok (why, b), s') /\
  (b = true <-> Forall (fun ck => may (ck_action ck) (ck_reference ck)) checks).
Proof.
  induction checks as [|ck checks IH]; intros s Hc; simpl.
  { exists "", true, s. split; [done|]. split; [intros _; constructor|done]. }
  destruct (can_ok ac (Some req) uac (ck_action ck) resource (ck_reference ck) now s p Hc Hp) as (b&why&s1&E&Hc1&Hb&_).
  change (permitted _ _ _) with (may (ck_action ck) (ck_reference ck)) in Hb. unfold bind. rewrite E. destruct b.
  - destruct (IH s1 Hc1) as (why'&b'&s'&E'&Hb'). exists why', b', s'. split; [exact E'|]. rewrite Forall_cons, Hb'. tauto.
  - exists why, false, s1. split; [done|]. rewrite Forall_cons. split; [done|]. by intros [Hf%Hb _].
Qed.

Lemma checks_spec repoTags reference raw :
  Forall (fun ck => may (ck_action ck) (ck_reference ck)) (manifestWriteAuthzChecks repoTags reference raw) <->
  write_allowed repoTags reference raw.
Proof.
  unfold manifestWriteAuthzChecks, write_allowed. destruct (IsDigest reference); simpl.
  2:{ unfold may_set. rewrite Forall_singleton. done. }
  destruct (classifyDigestQueryTags repoTags raw) as [ex new] eqn:Ec.
  assert (forall t, (t ∈ ex <-> asked raw t /\ t ∈ repoTags) /\ (t ∈ new <-> asked raw t /\ t ∉ repoTags)) as Ht.
  { intros t. pose proof (classify_tags_ok _ _ _ _ _ _ Ec t) as [E1 E2]. rewrite E1, E2. by rewrite !elem_of_nil, !(left_id False or). }
  rewrite !Forall_app, !Forall_fmap, !Forall_forall. simpl.
  assert ((forall t, asked raw t -> may_set repoTags t) <->
  (forall t, t ∈ ex -> may UpdatePermission t) /\ (forall t, t ∈ new -> may CreatePermission t)) as ->.
  { unfold may_set. split.
    - intros Hall. split; intros t Hin; apply Ht in Hin as [Ha Hr]; specialize (Hall t Ha).
      + by rewrite (proj2 (contains_spec _ _) Hr) in Hall.
      + destruct (contains repoTags t) eqn:E; [by apply contains_spec in E|done].
    - intros [Hu Hn] t Ha. destruct (contains repoTags t) eqn:E.
      + apply Hu, Ht. split; [done|]. by apply contains_spec.
      + apply Hn, Ht. split; [done|]. rewrite <-contains_spec. congruence. }
  assert ((exists t, asked raw t /\ t ∈ repoTags) <-> 0 < length ex) as ->.
  { split; [intros (t&Hin%Ht); by destruct ex; [apply elem_of_nil in Hin|simpl; lia]|].
    destruct ex as [|t ex']; [simpl; lia|]. intros _. exists t. apply Ht. left. }
  assert (((exists t, asked raw t /\ t ∉ repoTags) \/ (forall t, asked raw t -> t ∉ repoTags)) <->
  0 < length new \/ length ex = 0) as ->.
  { split.
    - intros [(t&Hin%Ht)|Hno]; [left; by destruct new; [apply elem_of_nil in Hin|simpl; lia]|right].
      destruct ex as [|t ex']; [done|]. destruct (proj1 (proj1 (Ht t))) as [Ha Hr]; [left|]. by apply Hno in Ha.
    - intros [Hn|He]; [left|right].
      + destruct new as [|t new']; [simpl in Hn; lia|]. exists t. apply Ht. left.
      + intros t Ha Hr. assert (t ∈ ex) as Hin by by apply Ht. destruct ex; [by apply elem_of_nil in Hin|done]. }
  destruct (Nat.ltb_spec 0 (length new)), (Nat.eqb_spec (length ex) 0), (Nat.ltb_spec 0 (length ex)); simpl;
  rewrite <-?Forall_forall, ?Forall_singleton, ?Forall_nil; simpl; try lia; naive_solver lia.
Qed.
End checks.

(** What a request of the distribution API needs, by its method. *)
Definition allowed (ac : AccessControlConfig) (req : http_request) (uac : UserAccessControl) (now : Z)
    (repoTags : list string) : Prop :=
  let plain action := may ac req uac (var_name req) now action (default "" (var_reference req)) in
  if contains ["GET"; "HEAD"] (Method req) then plain ReadPermission
  else if contains ["PUT"; "PATCH"; "POST"] (Method req) then
    match var_reference req with
    | None => plain CreatePermission
    | Some reference => write_allowed ac req uac (var_name req) now repoTags reference (query_tags req)
    end
  else if bool_decide (Method req = "DELETE") then plain DeletePermission
  else plain "".

Lemma refused_not_next identity reason uac : AuthzFailWithReason identity reason <> Next uac.
Proof. unfold AuthzFailWithReason. by case_bool_decide. Qed.

(** It never changes the user that it lets through. *)
Lemma decided_user {A} (m : ST env A) (ok : A -> bool) why uac s u s' :
  bind m (fun x => ret (if ok x then Next uac else AuthzFailWithReason (GetUsername uac) (why x))) s = (Ok (Next u), s') -> u = uac.
Proof. intros E. apply bind_ok in E as (x&s1&_&E). destruct (ok x); [by injection E as <-|]. injection E as E _. by apply refused_not_next in E. Qed.
Lemma distspec_user conf tags req uac s u s' : DistSpecAuthzHandler conf tags req uac s = (Ok (Next u), s') -> u = uac.
Proof.
  assert (forall (m : ST env (bool * string)), bind m (fun '(ok, why) =>
    ret (if (ok : bool) then Next uac else AuthzFailWithReason (GetUsername uac) why)) s = (Ok (Next u), s') -> u = uac) as Hplain.
  { intros m E. apply (decided_user m fst snd uac s u s'). rewrite <-E. unfold bind. by destruct (m s) as [[[]|] ?]. }
  unfold DistSpecAuthzHandler. destruct (bypassed req); [by intros [= <- _]|]. cbv zeta.
  destruct (contains ["GET"; "HEAD"] _); [apply Hplain|]. destruct (contains ["PUT"; "PATCH"; "POST"] _).
  - destruct (var_reference req); [|apply Hplain]. destruct (repoTagsForManifestWriteAuthz _); [|done].
    intros E. set (m := authorizeManifestWrite _ _ _ _ _ _ _) in E. apply (decided_user m snd fst uac s u s'). rewrite <-E.
    unfold bind. by destruct (m s) as [[[]|] ?].
  - destruct (bool_decide (Method req = "DELETE")); apply Hplain.
Qed.

(** DistSpecAuthzHandler lets the request through when it is allowed, and
    refuses it otherwise. *)
Lemma distspec_decides conf tags req uac repoTags now s p : let ac := NewAccessController conf in
  constant_clock now s -> decisive (var_name req) (patterns_of ac) p -> bypassed req = false ->
  (contains ["PUT"; "PATCH"; "POST"] (Method req) = true -> is_Some (var_reference req) ->
     repoTagsForManifestWriteAuthz (tags (var_name req)) = Ok repoTags) ->
  exists o s', DistSpecAuthzHandler conf tags req uac s = (Ok o, s') /\
    (allowed ac req uac now repoTags -> o = Next uac) /\
    (~ allowed ac req uac now repoTags -> exists reason, o = AuthzFailWithReason (GetUsername uac) reason) /\
    (o = Next uac -> allowed ac req uac now repoTags).
Proof.
  intros ac Hc Hp Hb Ht. unfold DistSpecAuthzHandler, allowed. rewrite Hb. fold ac. cbv zeta.
  assert (forall (P : Prop) b why, (b = true <-> P) ->
    let o := if b then Next uac else AuthzFailWithReason (GetUsername uac) why in
    (P -> o = Next uac) /\ (~ P -> exists reason, o = AuthzFailWithReason (GetUsername uac) reason) /\ (o = Next uac -> P)) as Hcase.
  { intros P b why Hb' o. subst o. destruct b; [|split_and!]; [naive_solver|by intros HP%Hb'|by exists why|by intros ?%refused_not_next]. }
  assert (forall action, exists o s', (let* (ok, denyReason) := can ac (Some req) uac action (var_name req) (default "" (var_reference req)) in
      ret (if (ok : bool) then Next uac else AuthzFailWithReason (GetUsername uac) denyReason)) s = (Ok o, s') /\
    let P := may ac req uac (var_name req) now action (default "" (var_reference req)) in
    (P -> o = Next uac) /\ (~ P -> exists reason, o = AuthzFailWithReason (GetUsername uac) reason) /\ (o = Next uac -> P)) as Hplain.
  { intros action. destruct (can_ok ac (Some req) uac action (var_name req) (default "" (var_reference req)) now s p Hc Hp)
      as (b&why&s'&E&_&Hb'&_). unfold bind. rewrite E. eexists _, s'. split; [done|]. by apply Hcase. }
  destruct (contains ["GET"; "HEAD"] (Method req)); [apply Hplain|].
  destruct (contains ["PUT"; "PATCH"; "POST"] (Method req)) eqn:Ew.
  2:{ destruct (bool_decide (Method req = "DELETE")); apply Hplain. }
  destruct (var_reference req) as [reference|]; [|apply Hplain]. rewrite Ht by (done || by eexists). unfold authorizeManifestWrite.
  destruct (authorize_checks_ok ac req uac (var_name req) now p Hp
    (manifestWriteAuthzChecks repoTags reference (query_tags req)) s Hc) as (why&b&s'&E&Hok).
  rewrite checks_spec in Hok. unfold bind. rewrite E. eexists _, s'. split; [done|]. by apply Hcase.
Qed.

End write.

(** ** Compiled conditions *)
Section compile.
Context `{CelEngine} `{MapIter} `{!MapIterLaws}.

(** Compiled programs only, and none forgotten. *)
Definition compiled_from (m : gmap string program) : Prop := forall x prog, m !! x = Some prog -> NewExpression x = Ok prog.
Definition extends (m m' : gmap string program) (conds : list Condition) : Prop :=
  m ⊆ m' /\ (compiled_from m -> compiled_from m') /\ Forall (fun c => is_Some (m' !! Expression c)) conds.

Lemma extends_trans m1 m2 m3 cs ds : extends m1 m2 cs -> extends m2 m3 ds -> extends m1 m3 (cs ++ ds).
Proof.
  intros (S1&C1&F1) (S2&C2&F2). split; [by etrans|]. split; [auto|]. apply Forall_app. split; [|done].
  eapply Forall_impl; [exact F1|]. intros c [x Hx]. exists x. by eapply lookup_weaken.
Qed.

Lemma compile_conditions_ok conds : forall m m', compile_conditions conds m = Ok m' -> extends m m' conds.
Proof.
  induction conds as [|c conds IH]; intros m m'; simpl.
  { intros [= <-]. split; [done|]. split; [done|constructor]. }
  destruct (m !! Expression c) as [pr|] eqn:E.
  - intros (Hs&Hc&Hf)%IH. split; [done|]. split; [done|]. constructor; [|done]. exists pr. by eapply lookup_weaken.
  - destruct (NewExpression (Expression c)) as [pr|] eqn:En; [|done]. intros (Hs&Hc&Hf)%IH.
    split; [etrans; [by apply insert_subseteq|exact Hs]|]. split.
    + intros Hm. apply Hc. intros x prog [[<- <-]|[_ Hx]]%lookup_insert_Some; [done|by apply Hm].
    + constructor; [|done]. exists pr. eapply lookup_weaken; [|exact Hs]. apply lookup_insert_eq.
Qed.
Lemma compile_policies_ok ps : forall m m', compile_policies ps m = Ok m' ->
  extends m m' (concat (Conditions <$> ps)).
Proof.
  induction ps as [|p ps IH]; intros m m'; simpl.
  { intros [= <-]. split; [done|]. split; [done|constructor]. }
  destruct (compile_conditions _ m) as [m1|] eqn:E; [|done]. simpl. intros Hm.
  eapply extends_trans; [by apply compile_conditions_ok|by apply IH].
Qed.
Lemma compile_groups_ok gs : forall m m', compile_groups gs m = Ok m' ->
  extends m m' (concat (Conditions <$> concat ((fun g => pg_Policies (snd g)) <$> gs))).
Proof.
  induction gs as [|[k pg] gs IH]; intros m m'; simpl.
  { intros [= <-]. split; [done|]. split; [done|constructor]. }
  destruct (compile_policies _ m) as [m1|] eqn:E; [|done]. simpl. intros Hm. rewrite fmap_app, concat_app.
  eapply extends_trans; [by apply compile_policies_ok|by apply IH].
Qed.

(** A configuration whose conditions were compiled at start-up never meets
    one that is not: every condition of every policy, the admin policy's
    included, is found with the program of its own expression. *)
Theorem conditions_compiled c programs pol cond : CompileAccessControl (Some c) = Ok programs ->
  pol ∈ all_policies c -> cond ∈ Conditions pol -> exists prog,
  NewExpression (Expression cond) = Ok prog /\
  lookupCondition (StoreCompiledConditions programs c) (Expression cond) = Ok prog.
Proof.
  unfold CompileAccessControl. destruct (compile_groups _ ∅) as [m|] eqn:Eg; [|done]. simpl.
  intros Hm%compile_conditions_ok Hp Hc. apply compile_groups_ok in Eg.
  destruct (extends_trans _ _ _ _ _ Eg Hm) as (_&Hcomp&Hf). rewrite Forall_forall in Hf.
  destruct (Hf cond) as [prog Hprog].
  - unfold all_policies in Hp. apply elem_of_app. apply elem_of_cons in Hp as [->|Hp]; [by right|left].
    apply list_elem_of_In, in_concat in Hp as (ps&Hps%list_elem_of_In&Hin%list_elem_of_In).
    apply list_elem_of_In, in_concat. exists (Conditions pol). rewrite <-!list_elem_of_In. split; [|done].
    apply list_elem_of_fmap. exists pol. split; [done|]. apply list_elem_of_fmap in Hps as (pg&->&Hpg).
    apply list_elem_of_fmap in Hpg as ([k pg']&->&Hk). apply list_elem_of_In, in_concat.
    exists (pg_Policies pg'). rewrite <-!list_elem_of_In. split; [|done]. apply list_elem_of_fmap. exists (k, pg').
    split; [done|]. by rewrite (map_iter_perm _ _ (ac_Repositories c)).
  - exists prog. split; [by apply Hcomp|]. unfold lookupCondition. simpl. by rewrite Hprog.
Qed.
End compile.

(** ** A configuration *)
Module Policies.
(** Patterns with one star, which stands for anything but a slash. *)
#[local] Instance star_glob : Glob := fun p r => Ok
  match Cut "*" p with
  | None => bool_decide (p = r)
  | Some (pre, post) =>
      (String.length pre + String.length post <=? String.length r)%nat && String.prefix pre r && has_suffix r post &&
      no_char slash (String.substring (String.length pre)
        (String.length r - String.length pre - String.length post) r)
  end.
(** The conditions are names of users. *)
#[local] Instance names_cel : CelEngine := {
  claim := unit;
  program := string;
  NewExpression e := Ok e;
  EvaluateBoolean prog _ d := Ok (bool_decide (prog = rd_username d))
  }.
(** Another order of the entries of a map. *)
Definition reversed : MapIter := fun K A _ _ m => reverse (map_to_list m).
Lemma reversed_laws : @MapIterLaws reversed.
Proof. intros K A ? ? m. unfold map_iter, reversed. apply reverse_Permutation. Qed.

Definition now : env := mkEnv (fun _ => 0%Z) 0 None.
Lemma now_constant : constant_clock 0 now.
Proof. done. Qed.

Definition team : PolicyGroup :=
  mkPolicyGroup [mkAccessPolicy ["bob"] ["create"; "update"] [] [mkCondition "bob" "only bob"]] ["read"] [].
Definition prod : PolicyGroup := mkPolicyGroup [] [] [].
Definition one : AccessControlConfig :=
  mkAccessControl {["team/*" := team]} (mkAccessPolicy [] [] [] []) ∅ (mkMetrics [] []) {["bob" := "bob"]}.
Definition two : AccessControlConfig :=
  mkAccessControl {["team/*" := team; "*/prod" := prod]} (mkAccessPolicy [] [] [] []) ∅ (mkMetrics [] []) ∅.
Definition alice : UserAccessControl := SetUsername "alice" NewUserAccessControl.
Definition bob : UserAccessControl := SetUsername "bob" NewUserAccessControl.

Lemma team_decides : decisive "team/prod" (patterns_of one) "team/*".
Proof.
  assert (patterns_of one = ["team/*"]) as -> by (vm_compute; reflexivity). left. split; [done|]. split; [left|].
  split; [vm_compute; reflexivity|]. intros q ->%list_elem_of_singleton. done.
Qed.

Lemma access_granted_exactly_witness : exists b why s',
  can one None alice "read" "team/prod" "v1" now = (Ok (b, why), s') /\
  (b = true <-> permitted one (request_of None alice "read" "team/prod" "v1") 0) /\
  (b = false -> denial one (request_of None alice "read" "team/prod" "v1") 0 (all_policies one) why).
Proof. exact (access_granted_exactly one None alice "read" "team/prod" "v1" 0 now "team/*" now_constant team_decides). Defined.

Example answers :
  fst (can one None alice "read" "team/prod" "v1" now) = Ok (true, "") /\
  fst (can one None alice "create" "team/prod" "v1" now) = Ok (false, "") /\
  fst (can one None bob "create" "team/prod" "v1" now) = Ok (true, "").
Proof. vm_compute. done. Qed.

Lemma listing_never_hides_witness :
  (forall why s', can one None (updated one None alice) "read" "team/prod" "v1" now = (Ok (true, why), s') ->
     Can (updated one None alice) "read" "team/prod" = true) /\
  (IsAdmin (updated one None alice) = false -> unconditional one -> Can (updated one None alice) "read" "team/prod" = true ->
     exists why s', can one None (updated one None alice) "read" "team/prod" "v1" now = (Ok (true, why), s')).
Proof. refine (listing_never_hides one None alice "read" "team/prod" "v1" now "team/*" _ team_decides). left. Defined.

Definition push : http_request :=
  mkRequest "PUT" "" "" [] None "/v2/team/prod/manifests/v1" None None "team/prod" (Some "v1") [].
Example push_reaches : fst (DistSpecAuthzHandler (Some one) (fun _ => Ok ["v1"]) push bob now) = Ok (Next bob).
Proof. vm_compute. done. Qed.

Lemma conditions_compiled_witness :
  CompileAccessControl (Some one) = Ok {["bob" := "bob"]} /\ exists prog, NewExpression "bob" = Ok prog /\
  lookupCondition (StoreCompiledConditions {["bob" := "bob"]} one) "bob" = Ok prog.
Proof.
  split; [vm_compute; reflexivity|].
  refine (conditions_compiled one {["bob" := "bob"]} (mkAccessPolicy ["bob"] ["create"; "update"] [] [mkCondition "bob" "only bob"])
    (mkCondition "bob" "only bob") _ _ _);
    [vm_compute; reflexivity|apply (group_in_all one "team/*" team); [vm_compute; reflexivity|left]|left].
Defined.

(** Two patterns of the same length that match a repository leave its
    policy to the order in which the map of the configuration is ranged over,
    which Go does not fix: the same request of the same user is allowed in one
    order and refused in another. *)
Theorem tie_decides_access : exists (i1 i2 : MapIter), @MapIterLaws i1 /\ @MapIterLaws i2 /\
  exists ac uac s, fst (@can _ i1 _ ac None uac ReadPermission "team/prod" "v1" s) = Ok (true, "") /\
    fst (@can _ i2 _ ac None uac ReadPermission "team/prod" "v1" s) = Ok (false, "").
Proof.
  exists reversed, toy_iter. split; [apply reversed_laws|]. split; [apply toy_iter_laws|].
  exists two, alice, now. split; vm_compute; reflexivity.
Qed.
End Policies.
