(* ===== verification/Http.v ===== *)
(** * Numbers and ranges in HTTP headers (pkg/api/routes.go)

    strconv's parsing of decimal integers, the Content-Range of an upload and
    the Range of a download, with the merging of the ranges asked for. *)

From Stdlib Require Import ZArith Lia Ascii String Sorted.
From stdpp Require Import base tactics list strings pretty sorting.
From S2P Require Import Prelude Concrete.

Local Open Scope string_scope.
Local Open Scope list_scope.

(** ** strconv *)
Definition digit_value (c : ascii) : option Z :=
  if in_range "0" "9" c then Some (Z.of_N (N_of_ascii c) - 48)%Z else None.
Fixpoint digits_value (acc : Z) (s : string) : option Z :=
  match s with
  | EmptyString => Some acc
  | String c s => d ← digit_value c; digits_value (10 * acc + d)%Z s
  end.

(** ParseInt(s, 10, 64), which Atoi agrees with on 64-bit machines. *)
Definition ParseInt (s : string) : option Z :=
  let '(neg, digits) :=
    match s with
    | String "-"%char s' => (true, s')
    | String "+"%char s' => (false, s')
    | _ => (false, s)
    end in
  match digits with
  | EmptyString => None
  | _ =>
      n ← digits_value 0 digits;
      let n := if (neg : bool) then (- n)%Z else n in
      if (- 2 ^ 63 <=? n)%Z && (n <? 2 ^ 63)%Z then Some n else None
  end.

(** FormatInt(n, 10), and the verb %d. *)
Definition FormatInt (n : Z) : string := pretty n.

(** A number written in decimal reads back as itself, and is digits only. *)
Definition digits_only (s : string) : bool := forallb (in_range "0" "9") (list_ascii_of_string s).

Lemma pretty_digit d : (d < 10)%N -> in_range "0" "9" (pretty_N_char d) = true /\ digit_value (pretty_N_char d) = Some (Z.of_N d).
Proof.
  intros H. assert (d = 0 \/ d = 1 \/ d = 2 \/ d = 3 \/ d = 4 \/ d = 5 \/ d = 6 \/ d = 7 \/ d = 8 \/ d = 9)%N as Hd by lia.
  by repeat destruct Hd as [->|Hd]; [..|rewrite Hd].
Qed.

Lemma pretty_go_value x : forall s, digits_value 0 (pretty_N_go x s) = digits_value (Z.of_N x) s.
Proof.
  induction (N.lt_wf_0 x) as [x _ IH]. intros s. destruct (decide (x = 0)%N) as [->|Hx]; [done|].
  assert (x mod 10 < 10)%N as Hm by (apply N.mod_lt; lia). destruct (pretty_digit _ Hm) as [_ Hd].
  rewrite pretty_N_go_step, IH by (lia || (apply N.div_lt; lia)). simpl. rewrite Hd. simpl. f_equal.
  pose proof (N.div_mod x 10). lia.
Qed.

Lemma pretty_go_digits x : forall s, digits_only s = true -> digits_only (pretty_N_go x s) = true.
Proof.
  induction (N.lt_wf_0 x) as [x _ IH]. intros s Hs. destruct (decide (x = 0)%N) as [->|Hx]; [done|].
  assert (x mod 10 < 10)%N as Hm by (apply N.mod_lt; lia). destruct (pretty_digit _ Hm) as [Hd _].
  rewrite pretty_N_go_step by lia. apply IH; [apply N.div_lt; lia|]. unfold digits_only in *. simpl. by rewrite Hd.
Qed.

Lemma FormatInt_pos n : (0 < n)%Z -> FormatInt n = pretty_N_go (Z.to_N n) "".
Proof. destruct n; [lia|done|lia]. Qed.

Lemma FormatInt_digits n : (0 < n)%Z -> digits_only (FormatInt n) = true.
Proof. intros Hn. rewrite FormatInt_pos by done. by apply pretty_go_digits. Qed.

Lemma FormatInt_nonempty n : (0 < n)%Z -> FormatInt n <> "".
Proof.
  intros Hn E. rewrite FormatInt_pos in E by done. pose proof (pretty_go_value (Z.to_N n) "") as Hv. rewrite E in Hv. simpl in Hv.
  injection Hv. lia.
Qed.

Lemma ParseInt_FormatInt n : (0 < n < 2 ^ 63)%Z -> ParseInt (FormatInt n) = Some n.
Proof.
  intros Hn. pose proof (FormatInt_digits n) as Hd. pose proof (FormatInt_nonempty n) as Hne.
  assert (digits_value 0 (FormatInt n) = Some n) as Hv.
  { rewrite FormatInt_pos, pretty_go_value by lia. simpl. f_equal. lia. }
  destruct (FormatInt n) as [|c s]; [by destruct (Hne ltac:(lia))|]. specialize (Hd ltac:(lia)). apply andb_prop in Hd as [Hc _].
  assert (forall c, in_range "0" "9" c = true -> c <> "-"%char /\ c <> "+"%char) as Hsign by (intros ? Hr; split; intros ->; done).
  destruct (Hsign c Hc) as [Hm Hp]. unfold ParseInt.
  assert (match String c s with String "-"%char s' => (true, s') | String "+"%char s' => (false, s') | _ => (false, String c s) end =
    (false, String c s)) as ->.
  { clear -Hm Hp. destruct c as [[] [] [] [] [] [] [] []]; done. }
  rewrite Hv. simpl. destruct (Z.leb_spec (- 2 ^ 63) n); [|lia]. destruct (Z.ltb_spec n (2 ^ 63)); [done|lia].
Qed.

Lemma ParseInt_bound s n : ParseInt s = Some n -> (- 2 ^ 63 <= n < 2 ^ 63)%Z.
Proof.
  unfold ParseInt. destruct (match s with EmptyString => _ | String c s' => _ end) as [neg [|c d]]; [done|].
  destruct (digits_value 0 _) as [m|]; [|done]. simpl. destruct (_ && _) eqn:E; [|done]. intros [= <-].
  apply andb_prop in E as [?%Z.leb_le ?%Z.ltb_lt]. lia.
Qed.

(** strings.ToLower, on ASCII. *)
Definition lower (c : ascii) : ascii :=
  let n := nat_of_ascii c in if (65 <=? n)%nat && (n <=? 90)%nat then ascii_of_nat (n + 32) else c.
Fixpoint ToLower (s : string) : string :=
  match s with "" => "" | String c s => String (lower c) (ToLower s) end.

(** ** Content-Range of an upload *)
Definition getContentRange (header : string) : res (Z * Z) :=
  let contentRange := TrimSpace header in
  if bool_decide (contentRange = "") then Err ErrBadUploadRange
  else match Cut "-" contentRange with
  | None => Err ErrBadUploadRange
  | Some (startStr, endStr) =>
      let startStr := TrimSpace startStr in
      let endStr := TrimSpace endStr in
      if bool_decide (startStr = "") || bool_decide (endStr = "") then Err ErrBadUploadRange
      else match ParseInt startStr, ParseInt endStr with
      | Some rangeStart, Some rangeEnd =>
          if (rangeEnd <? rangeStart)%Z then Err ErrBadUploadRange else Ok (rangeStart, rangeEnd)
      | _, _ => Err ErrBadUploadRange
      end
  end.

(** ** Range of a download *)
Record httpRange : Type := mkRange { r_start : Z; r_end : Z }.
Definition r_length (r : httpRange) : Z := (r_end r - r_start r + 1)%Z.
Definition maxRangeSpecCount : nat := 16.
Definition ErrParsingHTTPHeader : err := ErrOther "invalid HTTP header".

(** One of the comma-separated ranges. *)
Definition parse_spec (size : Z) (rangeSpec : string) : option httpRange :=
  let rangeSpec := TrimSpace rangeSpec in
  if bool_decide (rangeSpec = "") then None
  else
    p ← Cut "-" rangeSpec;
    let '(startStr, endStr) := p in
    r ← (if bool_decide (startStr = "") then
           suffixLen ← ParseInt endStr;
           if (suffixLen <=? 0)%Z then None
           else Some (if (size <? suffixLen)%Z then 0 else size - suffixLen, size - 1)%Z
         else
           start ← ParseInt startStr;
           if (start <? 0)%Z then None
           else if bool_decide (endStr = "") then Some (start, size - 1)%Z
           else
             theEnd ← ParseInt endStr;
             if (theEnd <? start)%Z then None else Some (start, Z.min theEnd (size - 1)));
    let '(start, theEnd) := r in
    if (size <=? start)%Z || (theEnd <? start)%Z then None else Some (mkRange start theEnd).

Definition range_less (a b : httpRange) : bool :=
  if (r_start a =? r_start b)%Z then (r_end a <? r_end b)%Z else (r_start a <? r_start b)%Z.

(** The merged ranges, the last one first. *)
Definition merge_range (coalesced : list httpRange) (r : httpRange) : list httpRange :=
  match coalesced with
  | [] => [r]
  | lastRange :: rest =>
      if (r_start r <=? r_end lastRange + 1)%Z
      then mkRange (r_start lastRange) (Z.max (r_end lastRange) (r_end r)) :: rest
      else r :: coalesced
  end.
Definition coalesceRanges `{SliceSort} (ranges : list httpRange) : list httpRange :=
  reverse (foldl merge_range [] (slice_sort range_less ranges)).

Fixpoint parse_specs (size : Z) (rangeSpecs : list string) : option (list httpRange) :=
  match rangeSpecs with
  | [] => Some []
  | spec :: rest => r ← parse_spec size spec; rs ← parse_specs size rest; Some (r :: rs)
  end.

Definition parseRangeHeader `{SliceSort} (contentRange : string) (size : Z) : res (list httpRange) :=
  if (size <=? 0)%Z || negb (has_prefix contentRange "bytes=") then Err ErrParsingHTTPHeader
  else
    let rangeSet := String.substring 6 (String.length contentRange - 6) contentRange in
    let rangeSpecs := split_on "," rangeSet in
    if bool_decide (rangeSet = "") || (maxRangeSpecCount <? length rangeSpecs)%nat then Err ErrParsingHTTPHeader
    else match parse_specs size rangeSpecs with
    | None | Some [] => Err ErrParsingHTTPHeader
    | Some ranges => Ok (coalesceRanges ranges)
    end.

Example ranges_merge :
  parseRangeHeader "bytes=0-1,4-9, 2-3,-2" 20 = Ok [mkRange 0 9; mkRange 18 19] /\
  parseRangeHeader "bytes=7-3" 20 = Err ErrParsingHTTPHeader /\
  getContentRange " 10 - 12" = Ok (10, 12)%Z.
Proof. vm_compute. done. Qed.

(** ** What the ranges denote *)
Definition covers (rs : list httpRange) (b : Z) : Prop := exists r, r ∈ rs /\ (r_start r <= b <= r_end r)%Z.
Definition in_blob (size : Z) (r : httpRange) : Prop := (0 <= r_start r <= r_end r /\ r_end r < size)%Z.
Definition apart (r r' : httpRange) : Prop := (r_end r + 1 < r_start r')%Z.

(** The bytes a range of the header names: "i-j", "i-" or "-n". *)
Definition names (size : Z) (spec : string) (b : Z) : Prop :=
  (0 <= b < size)%Z /\ exists first last, Cut "-" (TrimSpace spec) = Some (first, last) /\
  ((first = "" /\ exists n, ParseInt last = Some n /\ (size - n <= b)%Z) \/
   (first <> "" /\ exists i, ParseInt first = Some i /\ (i <= b)%Z /\
      (last = "" \/ exists j, ParseInt last = Some j /\ (b <= j)%Z))).

Lemma covers_nil b : ~ covers [] b.
Proof. by intros (r&Hr%not_elem_of_nil&_). Qed.
Lemma covers_cons r rs b : covers (r :: rs) b <-> (r_start r <= b <= r_end r)%Z \/ covers rs b.
Proof.
  unfold covers. setoid_rewrite elem_of_cons. split.
  - intros (x&[->|Hx]&Hb); [by left|right; by exists x].
  - intros [Hb|(x&Hx&Hb)]; [exists r|exists x]; auto.
Qed.
Lemma exists_cons {A} (P : A -> Prop) x l : (exists y, y ∈ x :: l /\ P y) <-> P x \/ exists y, y ∈ l /\ P y.
Proof.
  setoid_rewrite elem_of_cons. split.
  - intros (y&[->|Hy]&Hp); [by left|right; by exists y].
  - intros [Hp|(y&Hy&Hp)]; [exists x|exists y]; auto.
Qed.

Lemma parse_spec_ok size spec r : (0 < size)%Z -> parse_spec size spec = Some r ->
  in_blob size r /\ forall b, (r_start r <= b <= r_end r)%Z <-> names size spec b.
Proof.
  unfold parse_spec, in_blob, names. intros Hs. case_bool_decide; [done|].
  destruct (Cut "-" (TrimSpace spec)) as [[first last]|] eqn:Ec; [|done]. simpl.
  assert (forall b P, ((0 <= b < size)%Z /\ (exists f l, Some (first, last) = Some (f, l) /\ P f l)) <->
    (0 <= b < size)%Z /\ P first last) as Hx by naive_solver.
  setoid_rewrite Hx. clear Hx. case_bool_decide as Ef.
  - subst first. destruct (ParseInt last) as [n|] eqn:El; [|done]. simpl.
    destruct (Z.leb_spec n 0); [done|]. simpl.
    destruct (Z.leb_spec size (if (size <? n)%Z then 0 else size - n)); [done|].
    destruct (Z.ltb_spec (size - 1) (if (size <? n)%Z then 0 else size - n)); [done|]. simpl. intros [= <-]. simpl.
    destruct (Z.ltb_spec size n); (split; [lia|]; intros b; split;
      [intros Hb; split; [lia|]; left; split; [done|]; exists n; split; [done|lia]
      |intros [Hb [[_ (n'&[= <-]&Hn)]|[[] _]]]; lia || done]).
  - destruct (ParseInt first) as [i|] eqn:Ei; [|done]. simpl. destruct (Z.ltb_spec i 0); [done|]. case_bool_decide as El.
    + simpl. destruct (Z.leb_spec size i); [done|]. destruct (Z.ltb_spec (size - 1) i); [done|]. simpl.
      intros [= <-]. simpl. split; [lia|]. intros b. split.
      * intros Hb. split; [lia|]. right. split; [done|]. exists i. split; [done|]. split; [lia|by left].
      * intros [Hb [[? _]|[_ (i'&[= <-]&Hi&_)]]]; [done|lia].
    + destruct (ParseInt last) as [j|] eqn:Ej; [|done]. simpl. destruct (Z.ltb_spec j i); [done|]. simpl.
      destruct (Z.leb_spec size i); [done|]. destruct (Z.ltb_spec (Z.min j (size - 1)) i); [done|]. simpl.
      intros [= <-]. simpl. split; [lia|]. intros b. split.
      * intros Hb. split; [lia|]. right. split; [done|]. exists i. split; [done|]. split; [lia|]. right. exists j. split; [done|lia].
      * intros [Hb [[? _]|[_ (i'&[= <-]&Hi&[?|(j'&[= <-]&Hj)])]]]; [done..|lia].
Qed.

Lemma parse_specs_ok size specs : (0 < size)%Z -> forall rs, parse_specs size specs = Some rs ->
  Forall (in_blob size) rs /\ forall b, covers rs b <-> exists spec, spec ∈ specs /\ names size spec b.
Proof.
  intros Hs. induction specs as [|spec specs IH]; intros rs; simpl.
  { intros [= <-]. split; [constructor|]. intros b. split; [by intros Hb%covers_nil|by intros (r&Hr%not_elem_of_nil&_)]. }
  destruct (parse_spec size spec) as [r|] eqn:E; [|done]. simpl. destruct (parse_specs size specs) as [rs'|]; [|done].
  intros [= <-]. apply parse_spec_ok in E as [Hr Hb]; [|done]. destruct (IH rs' eq_refl) as [Hf Hc].
  split; [by constructor|]. intros b. by rewrite covers_cons, exists_cons, Hb, Hc.
Qed.

(** ** Merging *)
Lemma range_less_false x y : range_less y x = false <->
  (r_start x < r_start y \/ r_start x = r_start y /\ r_end x <= r_end y)%Z.
Proof. unfold range_less. destruct (Z.eqb_spec (r_start y) (r_start x)); rewrite Z.ltb_ge; lia. Qed.

(** The merged ranges so far, the last one first. *)
Definition merged (size : Z) (acc : list httpRange) : Prop :=
  Forall (in_blob size) acc /\ StronglySorted (fun r r' => apart r' r) acc.

Lemma merge_range_ok size acc r : merged size acc -> in_blob size r ->
  match acc with [] => True | l :: _ => (r_start l <= r_start r)%Z end ->
  merged size (merge_range acc r) /\ (forall b, covers (merge_range acc r) b <-> covers acc b \/ (r_start r <= b <= r_end r)%Z) /\
  match merge_range acc r with [] => False | l :: _ => (r_start l <= r_start r)%Z end.
Proof.
  intros [Hf Hs] Hr Hle. unfold merge_range. destruct acc as [|l acc].
  { split; [split; (constructor; [done|constructor])|]. split; [|lia]. intros b. rewrite covers_cons. tauto. }
  apply Forall_cons in Hf as [Hl Hf]. inversion Hs as [|? ? Hs' Hap]; subst. unfold in_blob in Hl, Hr.
  destruct (Z.leb_spec (r_start r) (r_end l + 1)).
  - split; [split|split; [|simpl; lia]].
    + constructor; [unfold in_blob; simpl; lia|done].
    + constructor; [done|]. eapply Forall_impl; [exact Hap|]. intros x. unfold apart. simpl. lia.
    + intros b. rewrite !covers_cons. simpl. destruct (decide (b <= r_end l)%Z); intuition lia.
  - split; [split|split; [|lia]].
    + constructor; [done|]. by constructor.
    + constructor; [done|]. constructor; [unfold apart; lia|]. eapply Forall_impl; [exact Hap|].
      intros x. unfold apart. lia.
    + intros b. rewrite (covers_cons r). tauto.
Qed.

Lemma merge_all_ok size rs : forall acc, merged size acc -> Forall (in_blob size) rs ->
  StronglySorted (fun x y => range_less y x = false) rs ->
  match acc, rs with l :: _, r :: _ => (r_start l <= r_start r)%Z | _, _ => True end ->
  merged size (foldl merge_range acc rs) /\ (forall b, covers (foldl merge_range acc rs) b <-> covers acc b \/ covers rs b) /\
  (acc <> [] \/ rs <> [] -> foldl merge_range acc rs <> []).
Proof.
  induction rs as [|r rs IH]; intros acc Hm Hf Hs Hle; simpl.
  { split; [done|]. split; [|by intros []]. intros b. pose proof (covers_nil b). tauto. }
  apply Forall_cons in Hf as [Hr Hf]. inversion Hs as [|? ? Hs' Hle']; subst.
  destruct (merge_range_ok size acc r Hm Hr) as (Hm1&Hc1&Hh1); [by destruct acc|].
  destruct (IH (merge_range acc r) Hm1 Hf Hs') as (Hm2&Hc2&Hn2).
  { destruct (merge_range acc r) as [|l acc']; [done|]. destruct rs as [|r' rs]; [done|].
    apply Forall_cons in Hle' as [Hlt _]. apply range_less_false in Hlt. lia. }
  split; [done|]. split.
  - intros b. rewrite Hc2, Hc1, covers_cons. tauto.
  - intros _. apply Hn2. left. by destruct (merge_range acc r).
Qed.

Lemma apart_trans_sorted rs : StronglySorted (fun r r' => apart r' r) rs -> StronglySorted apart (reverse rs).
Proof.
  induction 1 as [|r rs Hs IH Hf]; [constructor|]. rewrite reverse_cons.
  assert (forall l, StronglySorted apart l -> Forall (fun x => apart x r) l -> StronglySorted apart (l ++ [r])) as Happ.
  { induction 1 as [|x l Hl IHl Hx]; intros Hfl; simpl; [by repeat constructor|].
    apply Forall_cons in Hfl as [Hxr Hfl]. constructor; [by apply IHl|]. apply Forall_app. split; [done|]. by constructor. }
  apply Happ; [done|]. by rewrite Forall_reverse.
Qed.

Definition total_length (rs : list httpRange) : Z := foldr (fun r n => r_length r + n)%Z 0%Z rs.
Lemma total_length_bound size rs : forall lo, (lo <= size)%Z -> StronglySorted apart rs -> Forall (in_blob size) rs ->
  Forall (fun r => lo <= r_start r)%Z rs -> (total_length rs <= size - lo)%Z.
Proof.
  induction rs as [|r rs IH]; intros lo Hlo Hs Hf Hl; simpl; [lia|]. inversion Hs as [|? ? Hs' Ha]; subst.
  apply Forall_cons in Hf as [Hr Hf]. apply Forall_cons in Hl as [Hlr _]. unfold in_blob in Hr.
  pose proof (IH (r_end r + 1)%Z) as Hrec. unfold r_length.
  assert (total_length rs <= size - (r_end r + 1))%Z; [|lia]. apply Hrec; [lia|done|done|].
  eapply Forall_impl; [exact Ha|]. intros x. unfold apart. lia.
Qed.

Section header.
Context `{SliceSort} `{!SliceSortLaws}.

Lemma range_sorted rs : StronglySorted (fun x y => range_less y x = false) (slice_sort range_less rs).
Proof.
  apply Sorted_StronglySorted.
  - intros x y z. rewrite !range_less_false. lia.
  - apply slice_sort_sorted; [intros x y z; rewrite !range_less_false; lia|intros x y; rewrite !range_less_false; lia].
Qed.

Lemma coalesceRanges_ok size rs : Forall (in_blob size) rs -> rs <> [] ->
  coalesceRanges rs <> [] /\ Forall (in_blob size) (coalesceRanges rs) /\ StronglySorted apart (coalesceRanges rs) /\
  forall b, covers (coalesceRanges rs) b <-> covers rs b.
Proof.
  intros Hf Hne. unfold coalesceRanges. pose proof (slice_sort_perm _ range_less rs) as Hp.
  destruct (merge_all_ok size (slice_sort range_less rs) []) as ((Hm&Hs)&Hc&Hn);
    [by split; constructor|by rewrite Hp|apply range_sorted|done|].
  split; [|split; [by rewrite Forall_reverse|split; [by apply apart_trans_sorted|]]].
  - intros E%(f_equal reverse). rewrite reverse_involutive in E. apply Hn in E; [done|]. right. intros E'.
    rewrite E' in Hp. by apply Permutation_nil_l in Hp.
  - intros b. assert (covers (slice_sort range_less rs) b <-> covers rs b) as Hb by (unfold covers; by setoid_rewrite Hp).
    rewrite <-Hb. unfold covers at 1. setoid_rewrite elem_of_reverse.
    change (covers (foldl merge_range [] (slice_sort range_less rs)) b <-> covers (slice_sort range_less rs) b).
    rewrite Hc. pose proof (covers_nil b). tauto.
Qed.

(** C28 What parseRangeHeader accepts it serves exactly: the ranges are not
    empty, inside the blob, in order and apart from one another, so together
    no longer than the blob, and they cover the bytes that the ranges of the
    header name and no others. *)
Theorem range_header_exact header size rs : parseRangeHeader header size = Ok rs ->
  rs <> [] /\ Forall (in_blob size) rs /\ StronglySorted apart rs /\ (total_length rs <= size)%Z /\
  forall b, covers rs b <-> exists spec,
    spec ∈ split_on "," (String.substring 6 (String.length header - 6) header) /\ names size spec b.
Proof.
  unfold parseRangeHeader. destruct (Z.leb_spec size 0); [done|]. destruct (has_prefix _ _); [|done]. simpl.
  destruct (bool_decide _ || _); [done|]. destruct (parse_specs size _) as [[|r rs0]|] eqn:E; [done| |done].
  intros [= <-]. apply parse_specs_ok in E as [Hf Hc]; [|done].
  destruct (coalesceRanges_ok size (r :: rs0) Hf) as (Hn&Hf'&Hs&Hc'); [done|].
  split; [done|]. split; [done|]. split; [done|]. split.
  - replace size with (size - 0)%Z by lia. apply total_length_bound; [lia|done|done|].
    eapply Forall_impl; [exact Hf'|]. unfold in_blob. lia.
  - intros b. by rewrite Hc', Hc.
Qed.
End header.

Lemma range_header_exact_witness : parseRangeHeader "bytes=0-1,4-9, 2-3,-2" 20 = Ok [mkRange 0 9; mkRange 18 19] /\
  let rs := [mkRange 0 9; mkRange 18 19] in
  rs <> [] /\ Forall (in_blob 20) rs /\ StronglySorted apart rs /\ (total_length rs <= 20)%Z /\
  forall b, covers rs b <-> exists spec,
    spec ∈ split_on "," (String.substring 6 (String.length "bytes=0-1,4-9, 2-3,-2" - 6) "bytes=0-1,4-9, 2-3,-2") /\
    names 20 spec b.
Proof.
  split; [vm_compute; reflexivity|]. apply range_header_exact. vm_compute. reflexivity.
Defined.
