(* ===== verification/Routes.v ===== *)
(** * The distribution API (pkg/api/routes.go, pkg/storage/storage_controller.go)

    The handlers of the registry's routes over the image stores: what each one
    asks of the store, in which order, and the status, headers and body it
    answers. They are written against classes: the methods of an image store,
    the hooks of the metadata database, and syncing on demand. Left out are
    the details of error bodies (and with them the conversion errors they
    quote), CORS headers, event contexts and logs. *)

From Stdlib Require Import ZArith Lia Ascii String.
From stdpp Require Import base tactics list gmap strings sorting.
From S2P Require Import Prelude Runtime Regexp Driver Oci IndexOps StorageCommon Retention GC Authz Http.

Local Open Scope string_scope.
Local Open Scope list_scope.

(** ** Interfaces *)

(** The methods of an image store that the handlers call. *)
Class ApiStoreI (S : Type) := {
  as_GetImageTags : string -> ST S (list string);
  as_GetImageManifest : string -> string -> ST S (string * string * string);  (* content, digest, media type *)
  as_GetReferrers : string -> string -> list string -> ST S Index;
  as_PutImageManifest : string -> string -> string -> string -> list string -> ST S (string * string);
  as_DeleteImageManifest : string -> string -> bool -> ST S unit;
  as_StatBlob : string -> string -> ST S (bool * Z * Z);
  as_CheckBlob : string -> string -> ST S (bool * Z);
  as_GetAllDedupeReposCandidates : string -> ST S (list string);
  as_GetBlob : string -> string -> ST S (string * Z);
  as_GetBlobPartial : string -> string -> Z -> Z -> ST S (string * Z * Z);
  as_GetBlobRedirectURL : string -> string -> ST S string;
  as_DeleteBlob : string -> string -> ST S unit;
  as_NewBlobUpload : string -> ST S string;
  as_GetBlobUpload : string -> string -> ST S Z;
  as_PutBlobChunkStreamed : option err -> string -> string -> reader -> ST S Z;
  as_PutBlobChunk : option err -> string -> string -> Z -> Z -> reader -> ST S Z;
  as_FinishBlobUpload : string -> string -> string -> ST S unit;
  as_FullBlobUpload : option err -> string -> reader -> string -> ST S (string * Z);
  as_DeleteBlobUpload : string -> string -> ST S unit;
  as_GetNextRepositories : string -> Z -> (string -> res bool) -> ST S (list string * bool)
}.

(** The hooks of pkg/meta, over an image store and the database, for the user
    of the request where they take its context, and the signers the database knows for a digest of a repository. *)
Class MetaHooksI (S M : Type) := {
  OnGetManifest : string -> string -> string -> string -> ST (S * M) unit;
  OnUpdateManifest : string -> string -> string -> string -> string -> string -> ST (S * M) unit;
  OnUpdateManifestDigestTags : string -> string -> list string -> string -> string -> string -> ST (S * M) unit;
  OnDeleteManifest : string -> string -> string -> string -> string -> string -> ST (S * M) unit;
  GetSigners : string -> string -> ST M (list string)
}.

(** The sync extension. *)
Class SyncOnDemandI (S : Type) := {
  ShouldCheckUpstreamManifest : string -> string -> S -> bool;
  SyncImage : string -> string -> ST S unit;
  SyncReferrers : string -> string -> list string -> ST S unit
}.

(** url.Parse of net/url, of which the scheme and the host are read; [None]
    for an error. *)
Class UrlParse := url_Parse : string -> option (string * string).

(** The media type of the config of a pushed body; [None] when the body is
    not JSON of that shape. *)
Class PushProbe := config_media_type : string -> option string.

(** ** Requests and responses *)
Record request `{CelEngine} : Type := mkApiRequest {
  q_method : string;
  q_vars : gmap string string;
  q_query : gmap string (list string);
  q_header : gmap string (list string);  (* by canonical name *)
  q_contentLength : Z;
  q_body : reader;
  q_path : path;
  q_ctx : option err;
  q_userAc : UserAccessControl
}.

Inductive payload : Type :=
  | NoBody
  | ErrorBody (code : string)
  | Bytes (b : string)
  | TagList (name : string) (tags : list string)
  | RepositoryList (repositories : list string)
  | IndexBody (index : Index)
  | Parts (parts : list (httpRange * string)) (complete : bool).  (* multipart/byteranges *)
Record response : Type := mkResponse {
  rs_status : Z;
  rs_headers : list (string * string);
  rs_body : payload
}.
Definition WriteHeader {S} (status : Z) : ST S response := ret (mkResponse status [] NoBody).
Definition WriteError {S} (status : Z) (code : string) : ST S response := ret (mkResponse status [] (ErrorBody code)).

Definition DistContentDigestKey : string := "Docker-Content-Digest".
Definition OCITagResponseKey : string := "OCI-Tag".
Definition SubjectDigestKey : string := "OCI-Subject".
Definition BlobUploadUUID : string := "Blob-Upload-UUID".
Definition BinaryMediaType : string := "application/octet-stream".
Definition MaxManifestDigestQueryTags : nat := 46.
Definition MaxManifestBodySize : Z := 4 * 1024 * 1024.

Definition ErrSyncParseRemoteRepo : err := ErrOther "failed to parse remote repo".
Definition ErrManifestRestoreAttempted : err := ErrOther "manifest restore attempted".

(** header.Get: the first value, or the empty string. *)
Definition header_get `{CelEngine} (r : request) (key : string) : string :=
  default "" (head (default [] (q_header r !! key))).
(** The value of a variable of the route that is there and not empty. *)
Definition var `{CelEngine} (r : request) (key : string) : option string :=
  match q_vars r !! key with Some v => if bool_decide (v = "") then None else Some v | None => None end.

(** The configuration the handlers read; flags by store path are the global
    one and those of the subpaths. *)
Record rh_config `{CelEngine} : Type := mkRhConfig {
  rc_access : option AccessControlConfig;
  rc_hydrate : bool * gmap string bool;
  rc_redirect : bool * gmap string bool;
  rc_compat : list string;
  rc_signedOnly : bool;
  rc_sync : bool
}.

(** ** The storage controller *)
Record registry (S M : Type) : Type := mkRegistry {
  DefaultStore : S;
  SubStore : option (gmap string S);
  rg_meta : option M;
  rg_env : env
}.
Arguments mkRegistry {S M} _ _ _ _.
Arguments DefaultStore {S M} _.
Arguments SubStore {S M} _.
Arguments rg_meta {S M} _.
Arguments rg_env {S M} _.

Definition DefaultStorePath : string := "/".
Definition GetRoutePrefix (name : string) : string :=
  match Cut slash name with
  | None => "/"
  | Some (first, _) => "/" ++ first
  end.

Section controller.
Context {S M : Type}.
Abbreviation reg := (registry S M).

Definition GetStorePath (rg : reg) (name : string) : string :=
  match SubStore rg with
  | Some subs =>
      if bool_decide (name = "") then DefaultStorePath
      else match subs !! GetRoutePrefix name with Some _ => GetRoutePrefix name | None => DefaultStorePath end
  | None => DefaultStorePath
  end.

(** The key under which the store of a repository is kept, if a substore. *)
Definition substore_of (rg : reg) (name : string) : option string :=
  subs ← SubStore rg; _ ← subs !! GetRoutePrefix name; Some (GetRoutePrefix name).
Definition GetImageStore (rg : reg) (name : string) : S :=
  match substore_of rg name with
  | Some k => default (DefaultStore rg) (subs ← SubStore rg; subs !! k)
  | None => DefaultStore rg
  end.
Definition set_image_store (name : string) (s : S) (rg : reg) : reg :=
  match substore_of rg name with
  | Some k => mkRegistry (DefaultStore rg) (<[k := s]> <$> SubStore rg) (rg_meta rg) (rg_env rg)
  | None => mkRegistry s (SubStore rg) (rg_meta rg) (rg_env rg)
  end.

(** A call on the image store of a repository. *)
Definition on_store {A} (name : string) (m : ST S A) : ST reg A :=
  zoom (fun rg => GetImageStore rg name) (set_image_store name) m.
(** A hook, when there is a metadata database. *)
Definition on_meta {A} (name : string) (no_db : A) (m : ST (S * M) A) : ST reg A := fun rg =>
  match rg_meta rg with
  | None => (Ok no_db, rg)
  | Some db =>
      let '(r, (s, db)) := m (GetImageStore rg name, db) in
      let rg := set_image_store name s rg in
      (r, mkRegistry (DefaultStore rg) (SubStore rg) (Some db) (rg_env rg))
  end.
Definition on_env {A} (m : ST env A) : ST reg A :=
  zoom rg_env (fun e rg => mkRegistry (DefaultStore rg) (SubStore rg) (rg_meta rg) e) m.

(** Config.IsHydrateBlobOnReadEnabled and IsBlobRedirectEnabled. *)
Definition flag_of (flag : bool * gmap string bool) (storePath : string) : bool :=
  if bool_decide (storePath = "/") then fst flag else default (fst flag) (snd flag !! storePath).
End controller.

Section handlers.
Context `{CelEngine} `{MapIter} `{Glob} `{GoDigest} `{SliceSort} `{PushProbe} `{UrlParse}.
Context {S M : Type} `{ApiStoreI S} `{SyncOnDemandI S} `{MetaHooksI S M}.
Context (conf : rh_config).
Abbreviation reg := (registry S M).

(** ** Tags *)
Definition indexOf (x : string) (l : list string) : option nat := fst <$> list_find (fun y => y = x) l.

(** The tags after [last], at most [numTags] of them when it is given, and
    whether more are left; [None] when [last] is no tag. The sum wraps around,
    as that of Go's int; an index out of range is a panic. *)
Definition tags_page (tags : list string) (numTags : option Z) (last : string)
    : option (res (list string * bool)) :=
  let tags := merge_sort str_le tags in
  startIndex ← (if bool_decide (last = "") then Some 0 else Datatypes.S <$> indexOf last tags);
  match numTags with
  | Some 0%Z => Some (Ok ([], false))
  | Some n =>
      let stop := int64 (Z.of_nat startIndex + n) in
      if (stop <? Z.of_nat (length tags))%Z then
        let stopIndex := int64 (stop - 1) in
        if (stopIndex <? 0)%Z || (Z.of_nat (length tags) <=? stopIndex)%Z then Some (Err ErrSliceBounds)
        else Some (Ok (drop startIndex (take (Z.to_nat (stopIndex + 1)) tags), true))
      else Some (Ok (drop startIndex tags, false))
  | None => Some (Ok (drop startIndex tags, false))
  end.

Definition link (target : string) : string * string :=
  let quote := String (ascii_of_nat 34) "" in
  ("Link", "<" ++ target ++ ">; rel=" ++ quote ++ "next" ++ quote)%string.

Definition ListTags (q : request) : ST reg response :=
  if bool_decide (q_method q = "OPTIONS") then WriteHeader 200
  else match var q "name" with
  | None => WriteHeader 404
  | Some name =>
      let paged :=
        match q_query q !! "n" with
        | None => Some None
        | Some [n] => numTags ← ParseInt n; if (numTags <? 0)%Z then None else Some (Some numTags)
        | Some _ => None
        end in
      match paged, match q_query q !! "last" with None => Some "" | Some [l] => Some l | Some _ => None end with
      | Some numTags, Some last =>
          let* r := try (on_store name (as_GetImageTags name)) in
          match r with
          | Err _ => WriteError 404 "NAME_UNKNOWN"
          | Ok tags =>
              match tags_page tags numTags last with
              | None => WriteHeader 404
              | Some r =>
                  let* (page, more) := lift_res r in
                  ret (mkResponse 200
                    (if (more : bool)
                     then [link ("/v2/" ++ name ++ "/tags/list?n=" ++ FormatInt (default 0%Z numTags) ++ "&last="
                             ++ default "" (list.last page))%string] else [])
                    (TagList name page))
              end
          end
      | _, _ => WriteHeader 400
      end
  end.

(** ** Manifests *)

(** A digest is served from the local store when it is there; else the image
    is synced first, when syncing on demand is enabled. *)
Definition getImageManifest (name reference : string) : ST reg (string * string * string) :=
  let get := on_store name (as_GetImageManifest name reference) in
  let sync :=
    if rc_sync conf then
      let* rg := Prelude.get in
      let attempt := try (on_store name (SyncImage name reference)) ;;; get in
      if negb (ShouldCheckUpstreamManifest name reference (GetImageStore rg name)) then
        let* r := try get in
        match r with Ok m => ret m | Err _ => attempt end
      else attempt
    else get in
  if IsDigest reference then
    let* r := try get in
    match r with
    | Ok m => ret m
    | Err e => if negb (rc_sync conf) then throw e else sync
    end
  else sync.

Definition manifest_headers (digest mediaType content : string) : list (string * string) :=
  [(DistContentDigestKey, digest); ("Content-Length", FormatInt (Z.of_nat (String.length content)));
   ("Content-Type", mediaType)].

Definition CheckManifest (q : request) : ST reg response :=
  if bool_decide (q_method q = "OPTIONS") then WriteHeader 200
  else match var q "name", var q "reference" with
  | None, _ => WriteHeader 404
  | Some _, None => WriteError 404 "MANIFEST_INVALID"
  | Some name, Some reference =>
      let* r := try (getImageManifest name reference) in
      match r with
      | Err e =>
          if bool_decide (e = ErrRepoNotFound) then WriteError 404 "NAME_UNKNOWN"
          else if bool_decide (e = ErrManifestNotFound) then WriteError 404 "MANIFEST_UNKNOWN"
          else if bool_decide (e = ErrSyncParseRemoteRepo) then WriteError 403 "DENIED"
          else WriteError 500 "MANIFEST_INVALID"
      | Ok (content, digest, mediaType) => ret (mkResponse 200 (manifest_headers digest mediaType content) NoBody)
      end
  end.

Definition GetManifest (q : request) : ST reg response :=
  match var q "name", var q "reference" with
  | None, _ => WriteHeader 404
  | Some _, None => WriteError 404 "MANIFEST_UNKNOWN"
  | Some name, Some reference =>
      let* r := try (getImageManifest name reference) in
      match r with
      | Err e =>
          if bool_decide (e = ErrRepoNotFound) || bool_decide (e = ErrRepoBadVersion) then WriteError 404 "NAME_UNKNOWN"
          else if bool_decide (e = ErrManifestNotFound) then WriteError 404 "MANIFEST_UNKNOWN"
          else if bool_decide (e = ErrSyncParseRemoteRepo) then WriteError 403 "DENIED"
          else WriteHeader 500
      | Ok (content, digest, mediaType) =>
          (* the bookkeeping of downloads never fails the read *)
          attempt (on_meta name tt (OnGetManifest name reference mediaType content)) ;;;
          ret (mkResponse 200 (manifest_headers digest mediaType content) (Bytes content))
      end
  end.

Definition GetReferrers (q : request) : ST reg response :=
  if bool_decide (q_method q = "OPTIONS") then WriteHeader 200
  else match var q "name", var q "digest" with
  | None, _ => WriteHeader 404
  | Some _, None => WriteHeader 400
  | Some name, Some digestStr =>
      match Parse digestStr with
      | Err _ => WriteHeader 400
      | Ok digest =>
        let artifactTypes := default [] (q_query q !! "artifactType") in
        (if rc_sync conf then try (on_store name (SyncReferrers name digest artifactTypes)) ;;; ret tt else ret tt) ;;;
        let* r := try (on_store name (as_GetReferrers name digest artifactTypes)) in
        match r with
        | Err e => WriteHeader (if bool_decide (e = ErrManifestNotFound) then 404 else 500)
        | Ok referrers =>
            ret (mkResponse 200 (match artifactTypes with [] => [] | _ => [("OCI-Filters-Applied", "artifactType")] end)
                   (IndexBody referrers))
        end
      end
  end.

Definition referrersTagRule : re := expression (literal "sha256-" :: repeat (Class hex_digit) 64).
Definition IsReferrersTag (tag : string) : bool := match_string referrersTagRule tag.

(** Whether a push that creates a tag must be refused for want of a signature. *)
Definition rejectUnsignedManifest (name reference mediaType body : string) (createsTags : bool) : ST reg bool :=
  let* rg := get in
  if negb (rc_signedOnly conf) || negb (bool_decide (is_Some (rg_meta rg))) then ret false
  else if IsDigest reference && negb createsTags then ret false
  else if IsCosignTag reference || IsReferrersTag reference then ret false
  else if negb (IsImageManifestMediaType mediaType) && negb (IsImageIndexMediaType mediaType) then ret false
  else match config_media_type body with
  | None => ret true
  | Some configType =>
      if IsImageManifestMediaType mediaType && negb (bool_decide (configType = MediaTypeImageConfig))
         && negb (bool_decide (configType = DockerMediaTypeImageConfig)) then ret false
      else
        let* r := attempt (on_meta name [] (fun sm =>
          let '(r, db) := GetSigners name (FromBytes Canonical body) (snd sm) in (r, (fst sm, db)))) in
        match r with
        | Err _ => ret true
        | Ok signers => ret (negb (existsb (fun signer => negb (bool_decide (signer = ""))) signers))
        end
  end.

(** io.ReadAll through http.MaxBytesReader: the body, or whether it was cut
    for its size. *)
Definition read_body (body : reader) : string + bool :=
  if (MaxManifestBodySize <? Z.of_nat (String.length (rd_data body)))%Z then inr true
  else match rd_err body with None => inl (rd_data body) | Some _ => inr false end.

(** The end of a push: the hooks of the database, then the answer. *)
Definition push_accepted (user name reference mediaType digest subjectDigest body : string) (tags : list string)
    : ST reg response :=
  let* r := attempt (on_meta name tt
    (match tags with
     | [] => OnUpdateManifest user name reference mediaType digest body
     | _ => OnUpdateManifestDigestTags user name tags mediaType digest body
     end)) in
  match r with
  | Err _ => WriteHeader 500
  | Ok _ =>
      ret (mkResponse 201
        ((if bool_decide (subjectDigest = "") then [] else [(SubjectDigestKey, subjectDigest)]) ++
         [("Location", "/v2/" ++ name ++ "/manifests/" ++ digest)%string; (DistContentDigestKey, digest)] ++
         ((fun tag => (OCITagResponseKey, tag)) <$> tags)) NoBody)
  end.

(** The tags of the query of a push, normalised, or the answer that refuses
    them. *)
Definition push_tags (q : request) (reference : string) : list string + response :=
  let rawTagQuery := default [] (q_query q !! "tag") in
  if (MaxManifestDigestQueryTags <? length rawTagQuery)%nat then inr (mkResponse 414 [] (ErrorBody "MANIFEST_INVALID"))
  else match normalizeManifestExtraTags rawTagQuery with
  | Err _ => inr (mkResponse 400 [] (ErrorBody "MANIFEST_INVALID"))
  | Ok tags =>
      match tags with
      | _ :: _ => if negb (IsDigest reference) then inr (mkResponse 400 [] (ErrorBody "MANIFEST_INVALID")) else inl tags
      | [] => inl tags
      end
  end.

Definition UpdateManifest (q : request) : ST reg response :=
  match var q "name", var q "reference" with
  | None, _ => WriteHeader 404
  | Some _, None => WriteError 404 "MANIFEST_INVALID"
  | Some name, Some reference =>
      let mediaType := header_get q "Content-Type" in
      if LooksLikeDigestReference reference then WriteError 400 "DIGEST_INVALID"
      else if negb (IsSupportedMediaType (rc_compat conf) mediaType) then WriteError 415 "MANIFEST_INVALID"
      else match push_tags q reference with
      | inr refusal => ret refusal
      | inl tags =>
          match read_body (q_body q) with
          | inr true => WriteError 413 "MANIFEST_INVALID"
          | inr false => WriteHeader 500
          | inl body =>
              let* reject := rejectUnsignedManifest name reference mediaType body
                               (match tags with [] => false | _ => true end) in
              if (reject : bool) then WriteError 403 "DENIED"
              else
                let* r := try (on_store name (as_PutImageManifest name reference mediaType body tags)) in
                match r with
                | Ok (digest, subjectDigest) => push_accepted (GetUsername (q_userAc q)) name reference mediaType digest subjectDigest body tags
                | Err e =>
                    if bool_decide (e = ErrRepoNotFound) then WriteError 404 "NAME_UNKNOWN"
                    else if bool_decide (e = ErrManifestNotFound) then WriteError 404 "MANIFEST_UNKNOWN"
                    else if bool_decide (e = ErrBadManifest) then WriteError 400 "MANIFEST_INVALID"
                    else if bool_decide (e = ErrBlobNotFound) then WriteError 400 "BLOB_UNKNOWN"
                    else if bool_decide (e = ErrImageLintAnnotations) then WriteError 400 "MANIFEST_INVALID"
                    else
                      (* "unexpected error, performing cleanup" *)
                      try (on_store name (as_DeleteImageManifest name reference false)) ;;;
                      WriteHeader 500
                end
          end
      end
  end.

Definition DeleteManifest (q : request) : ST reg response :=
  match var q "name", var q "reference" with
  | None, _ | Some _, None => WriteHeader 404
  | Some name, Some reference =>
      let detectCollision := Can (q_userAc q) DetectManifestCollisionPermission name in
      let* r := try (on_store name (as_GetImageManifest name reference)) in
      match r with
      | Err e =>
          if bool_decide (e = ErrRepoNotFound) then WriteError 400 "NAME_UNKNOWN"
          else if bool_decide (e = ErrManifestNotFound) then WriteError 404 "MANIFEST_UNKNOWN"
          else if bool_decide (e = ErrBadManifest) then WriteError 400 "UNSUPPORTED"
          else WriteHeader 500
      | Ok (manifestBlob, manifestDigest, mediaType) =>
          let* r := try (on_store name (as_DeleteImageManifest name reference detectCollision)) in
          match r with
          | Err e =>
              if bool_decide (e = ErrRepoNotFound) then WriteError 400 "NAME_UNKNOWN"
              else if bool_decide (e = ErrManifestNotFound) then WriteError 404 "MANIFEST_UNKNOWN"
              else if bool_decide (e = ErrManifestConflict) then WriteError 409 "MANIFEST_INVALID"
              else if bool_decide (e = ErrBadManifest) then WriteError 400 "UNSUPPORTED"
              else if bool_decide (e = ErrManifestReferenced) then WriteError 405 "DENIED"
              else WriteHeader 500
          | Ok _ =>
              let* r := attempt (on_meta name tt (OnDeleteManifest (GetUsername (q_userAc q)) name reference mediaType manifestDigest manifestBlob)) in
              match r with
              | Err e => WriteHeader (if bool_decide (e = ErrManifestRestoreAttempted) then 500 else 202)
              | Ok _ => WriteHeader 202
              end
          end
      end
  end.

(** ** Blobs *)
Definition isHydrateBlobOnReadEnabled (repo : string) : ST reg bool :=
  let* rg := get in ret (flag_of (rc_hydrate conf) (GetStorePath rg repo)).
Definition isBlobRedirectEnabled (repo : string) : ST reg bool :=
  let* rg := get in ret (flag_of (rc_redirect conf) (GetStorePath rg repo)).

(** canMount over the store of the destination. *)
Definition can_mount (q : request) (name digest : string) : ST reg bool :=
  let* ok := on_env (CanOnResource (q_userAc q) CreatePermission name digest) in
  if negb (ok : bool) then ret false
  else
    let* repos := on_store name (as_GetAllDedupeReposCandidates digest) in
    on_env (some_readable (q_userAc q) digest repos).

Definition userMayMountBlob (q : request) (digest destRepo : string) : ST reg bool :=
  if negb (shouldCheckMountSourceAccess (rc_access conf) (q_userAc q)) then ret true
  else
    let* r := try (can_mount q destRepo digest) in
    ret (match r with Ok allowed => allowed | Err _ => false end).

Definition resolveBlobPresence (q : request) (repo digest : string) : ST reg (bool * Z) :=
  let* hydrate := isHydrateBlobOnReadEnabled repo in
  let* userCanMount := (if (hydrate : bool) then userMayMountBlob q digest repo else ret false) in
  if (userCanMount : bool) then on_store repo (as_CheckBlob repo digest)
  else let* (ok, size, _) := on_store repo (as_StatBlob repo digest) in ret (ok, size).

Definition writeBlobReadError (e : err) : ST reg response :=
  if bool_decide (e = ErrBadBlobDigest) then WriteError 400 "DIGEST_INVALID"
  else if bool_decide (e = ErrRepoNotFound) then WriteError 404 "NAME_UNKNOWN"
  else if bool_decide (e = ErrBlobNotFound) then WriteError 404 "BLOB_UNKNOWN"
  else WriteHeader 500.

Definition CheckBlob (q : request) : ST reg response :=
  match var q "name", var q "digest" with
  | Some name, Some digest =>
      if bool_decide (is_Some (Validate digest)) then writeBlobReadError ErrBadBlobDigest
      else
        let* r := try (resolveBlobPresence q name digest) in
        match r with
        | Err e => writeBlobReadError e
        | Ok (false, _) => WriteError 404 "BLOB_UNKNOWN"
        | Ok (true, blen) =>
            ret (mkResponse 200 [("Content-Length", FormatInt blen); ("Accept-Ranges", "bytes");
              ("Content-Type", BinaryMediaType); (DistContentDigestKey, digest)] NoBody)
        end
  | _, _ => WriteHeader 404
  end.

(** The parts of a multipart answer: each range is read when its turn comes,
    and the first that fails or is short ends the body. *)
Fixpoint read_parts (name digest : string) (ranges : list httpRange) (sent : list (httpRange * string))
    : ST reg (list (httpRange * string) * bool) :=
  match ranges with
  | [] => ret (sent, true)
  | rng :: rest =>
      let* r := try (on_store name (as_GetBlobPartial name digest (r_start rng) (r_end rng))) in
      match r with
      | Err _ => ret (sent ++ [(rng, "")], false)
      | Ok (data, _, _) =>
          let part := String.substring 0 (Z.to_nat (r_length rng)) data in
          if (Z.of_nat (String.length part) <? r_length rng)%Z then ret (sent ++ [(rng, part)], false)
          else read_parts name digest rest (sent ++ [(rng, part)])
      end
  end.

Definition content_range (rng : httpRange) (size : Z) : string :=
  ("bytes " ++ FormatInt (r_start rng) ++ "-" ++ FormatInt (r_end rng) ++ "/" ++ FormatInt size)%string.

(** The answer to a request with a Range header. *)
Definition GetBlobRange (q : request) (name digest : string) : ST reg response :=
  let* r := try (resolveBlobPresence q name digest) in
  match r with
  | Err e => writeBlobReadError e
  | Ok (false, _) => WriteError 404 "BLOB_UNKNOWN"
  | Ok (true, bsize) =>
      match parseRangeHeader (header_get q "Range") bsize with
      | Err _ => ret (mkResponse 416 [("Content-Range", "bytes */" ++ FormatInt bsize)%string] NoBody)
      | Ok [rng] =>
          let* r := try (on_store name (as_GetBlobPartial name digest (r_start rng) (r_end rng))) in
          match r with
          | Err e => writeBlobReadError e
          | Ok (data, blen, _) =>
              if negb (blen =? r_length rng)%Z then WriteHeader 500
              else ret (mkResponse 206 [(DistContentDigestKey, digest); ("Content-Range", content_range rng bsize);
                     ("Content-Type", BinaryMediaType); ("Content-Length", FormatInt (r_length rng))] (Bytes data))
          end
      | Ok ranges =>
          let* (parts, complete) := read_parts name digest ranges [] in
          ret (mkResponse 206 [(DistContentDigestKey, digest)] (Parts parts complete))
      end
  end.

Definition normalizeBlobRedirectURL (rawURL : string) : string * bool :=
  if negb (no_char (ascii_of_nat 13) rawURL) || negb (no_char (ascii_of_nat 10) rawURL) then ("", false)
  else match url_Parse rawURL with
  | None => ("", false)
  | Some (scheme, host) =>
      if bool_decide (scheme = "") || bool_decide (host = "") then ("", false)
      else if negb (contains ["http"; "https"] (ToLower scheme)) then ("", false)
      else (rawURL, true)
  end.

Definition GetBlob (q : request) : ST reg response :=
  match var q "name", var q "digest" with
  | Some name, Some digest =>
      if bool_decide (is_Some (Validate digest)) then writeBlobReadError ErrBadBlobDigest
      else if bool_decide (is_Some (q_header q !! "Range")) then GetBlobRange q name digest
      else
        let* redirect := isBlobRedirectEnabled name in
        let* url := try (if (redirect : bool) then on_store name (as_GetBlobRedirectURL name digest) else ret "") in
        match url with
        | Err e => writeBlobReadError e
        | Ok url =>
            let '(normalizedURL, valid) := normalizeBlobRedirectURL url in
            if negb (bool_decide (url = "")) && valid
            then ret (mkResponse 307 [(DistContentDigestKey, digest); ("Location", normalizedURL)] NoBody)
            else
              let* r := try (on_store name (as_GetBlob name digest)) in
              match r with
              | Err e => writeBlobReadError e
              | Ok (data, blen) =>
                  ret (mkResponse 200 [("Content-Length", FormatInt blen); (DistContentDigestKey, digest);
                    ("Content-Type", BinaryMediaType)] (Bytes data))
              end
        end
  | _, _ => WriteHeader 404
  end.

Definition DeleteBlob (q : request) : ST reg response :=
  match var q "name", var q "digest" with
  | Some name, Some digestStr =>
      match Parse digestStr with
      | Err _ => WriteHeader 404
      | Ok digest =>
          let* r := try (on_store name (as_DeleteBlob name digest)) in
          match r with
          | Ok _ => WriteHeader 202
          | Err e =>
              if bool_decide (e = ErrBadBlobDigest) then WriteError 400 "DIGEST_INVALID"
              else if bool_decide (e = ErrRepoNotFound) then WriteError 404 "NAME_UNKNOWN"
              else if bool_decide (e = ErrBlobNotFound) then WriteError 404 "BLOB_UNKNOWN"
              else if bool_decide (e = ErrBlobReferenced) then WriteError 405 "DENIED"
              else WriteHeader 500
          end
      end
  | _, _ => WriteHeader 404
  end.

(** ** Uploads *)
Definition contains_substring (sub s : string) : bool := bool_decide (is_Some (String.index 0 sub s)).

(** The Location headers: the path before the escaping of url.String. *)
Definition getBlobUploadSessionLocation (url : path) (sessionID : string) : string :=
  path_str (if contains_substring sessionID (path_str url) then url else path_join url sessionID).
Definition getBlobUploadLocation (url : path) (name digest : string) : string :=
  path_str (if contains_substring "uploads" (path_str url)
            then path_join (path_join (path_join ["" ; "v2"] name) "blobs") digest else url).

Definition new_upload (q : request) (name : string) : ST reg response :=
  let* r := try (on_store name (as_NewBlobUpload name)) in
  match r with
  | Err e => if bool_decide (e = ErrRepoNotFound) then WriteError 404 "NAME_UNKNOWN" else WriteHeader 500
  | Ok upload =>
      ret (mkResponse 202 [("Location", getBlobUploadSessionLocation (q_path q) upload); ("Range", "0-0")] NoBody)
  end.

(** A mount: the blob is linked from the deduplication cache when the caller
    may, else an upload is started. *)
Definition mount_blob (q : request) (name mountDigest : string) : ST reg response :=
  let* r :=
    (if shouldCheckMountSourceAccess (rc_access conf) (q_userAc q) then try (can_mount q name mountDigest)
     else ret (Ok true)) in
  match r with
  | Ok true =>
      let* r := try (on_store name (as_CheckBlob name mountDigest)) in
      match r with
      | Err _ => new_upload q name
      | Ok _ => ret (mkResponse 201 [("Location", getBlobUploadLocation (q_path q) name mountDigest)] NoBody)
      end
  | _ => new_upload q name
  end.

Definition full_upload (q : request) (name digestStr : string) : ST reg response :=
  if negb (bool_decide (header_get q "Content-Type" = BinaryMediaType)) then WriteHeader 415
  else match Parse digestStr with
  | Err _ => WriteError 400 "DIGEST_INVALID"
  | Ok digest =>
      if (q_contentLength q <? 0)%Z then WriteError 400 "BLOB_UPLOAD_INVALID"
      else
        let* r := try (on_store name (as_FullBlobUpload (q_ctx q) name (q_body q) digest)) in
        match r with
        | Err e => if bool_decide (e = ErrBadBlobDigest) then WriteError 400 "DIGEST_INVALID" else WriteHeader 500
        | Ok (sessionID, size) =>
            if negb (size =? q_contentLength q)%Z then WriteHeader 500
            else ret (mkResponse 201 [("Location", getBlobUploadLocation (q_path q) name digest);
                   (BlobUploadUUID, sessionID)] NoBody)
        end
  end.

Definition CreateBlobUpload (q : request) : ST reg response :=
  match var q "name" with
  | None => WriteHeader 404
  | Some name =>
      match q_query q !! "mount" with
      | Some [mountDigest] => mount_blob q name mountDigest
      | Some _ => WriteHeader 400
      | None =>
          match q_query q !! "from" with
          | Some _ => WriteHeader 405
          | None =>
              match q_query q !! "digest" with
              | Some [digestStr] => full_upload q name digestStr
              | Some _ => WriteHeader 400
              | None => new_upload q name
              end
          end
      end
  end.

Definition GetBlobUpload (q : request) : ST reg response :=
  match var q "name", var q "session_id" with
  | Some name, Some sessionID =>
      let* r := try (on_store name (as_GetBlobUpload name sessionID)) in
      match r with
      | Err e =>
          if bool_decide (e = ErrBadBlobDigest) then WriteError 400 "BLOB_UPLOAD_INVALID"
          else if bool_decide (e = ErrRepoNotFound) then WriteError 404 "NAME_UNKNOWN"
          else if bool_decide (e = ErrUploadNotFound) then WriteError 404 "BLOB_UPLOAD_UNKNOWN"
          else WriteHeader 500
      | Ok size =>
          ret (mkResponse 204 [("Location", getBlobUploadSessionLocation (q_path q) sessionID);
            ("Range", if (0 <? size)%Z then "0-" ++ FormatInt (size - 1) else "0-0")%string] NoBody)
      end
  | _, _ => WriteHeader 404
  end.

(** The errors of writing a chunk or of finishing an upload; for those that
    are not expected the upload is removed. *)
Definition upload_error (name sessionID : string) (e : err) : ST reg response :=
  if bool_decide (e = ErrBadUploadRange) then WriteError 416 "BLOB_UPLOAD_INVALID"
  else if bool_decide (e = ErrRepoNotFound) then WriteError 404 "NAME_UNKNOWN"
  else if bool_decide (e = ErrUploadNotFound) then WriteError 404 "BLOB_UPLOAD_UNKNOWN"
  else (try (on_store name (as_DeleteBlobUpload name sessionID)) ;;; WriteHeader 500).

Definition PatchBlobUpload (q : request) : ST reg response :=
  match var q "name", var q "session_id" with
  | Some name, Some sessionID =>
      let answer (r : res Z) : ST reg response :=
        match r with
        | Err e => upload_error name sessionID e
        | Ok clen =>
            ret (mkResponse 202 [("Location", getBlobUploadSessionLocation (q_path q) sessionID);
              ("Range", "0-" ++ FormatInt (clen - 1))%string; ("Content-Length", "0"); (BlobUploadUUID, sessionID)] NoBody)
        end in
      let length := header_get q "Content-Length" in
      let range := header_get q "Content-Range" in
      if bool_decide (length = "") || bool_decide (range = "") then
        let* r := try (on_store name (as_PutBlobChunkStreamed (q_ctx q) name sessionID (q_body q))) in answer r
      else match ParseInt length with
      | None => WriteHeader 400
      | Some contentLength =>
          match getContentRange range with
          | Err _ => WriteHeader 416
          | Ok (from, to) =>
              if negb (int64 (to - from + 1) =? contentLength)%Z then WriteHeader 416
              else
                let* r := try (on_store name (as_PutBlobChunk (q_ctx q) name sessionID from to (q_body q))) in answer r
          end
      end
  | _, _ => WriteHeader 404
  end.

(** What UpdateBlobUpload must append before it finishes: nothing, or a range;
    or the answer that refuses it. *)
Definition last_chunk (q : request) : option (Z * Z) + response :=
  let present key := match default [] (q_header q !! key) with [] => false | _ => true end in
  if present "Content-Length" || present "Content-Range" then
    match ParseInt (header_get q "Content-Length") with
    | None => inr (mkResponse 400 [] (ErrorBody "BLOB_UPLOAD_INVALID"))
    | Some contentLen =>
        if (contentLen <? 0)%Z then inr (mkResponse 400 [] (ErrorBody "BLOB_UPLOAD_INVALID"))
        else if bool_decide (header_get q "Content-Range" = "") then
          inl (if (0 <? contentLen)%Z then Some (0%Z, contentLen) else None)
        else match getContentRange (header_get q "Content-Range") with
        | Err _ => inr (mkResponse 416 [] (ErrorBody "BLOB_UPLOAD_INVALID"))
        | Ok r => inl (Some r)
        end
    end
  else inl None.

Definition UpdateBlobUpload (q : request) : ST reg response :=
  match var q "name", var q "session_id" with
  | Some name, Some sessionID =>
      match q_query q !! "digest" with
      | Some [digestStr] =>
          match Parse digestStr with
          | Err _ => WriteHeader 400
          | Ok digest =>
              match last_chunk q with
              | inr refusal => ret refusal
              | inl chunk =>
                  let* r :=
                    match chunk with
                    | None => ret (Ok 0%Z)
                    | Some (from, to) =>
                        try (on_store name (as_PutBlobChunk (q_ctx q) name sessionID from to (q_body q)))
                    end in
                  match r with
                  | Err e => upload_error name sessionID e
                  | Ok _ =>
                      let* r := try (on_store name (as_FinishBlobUpload name sessionID digest)) in
                      match r with
                      | Err e =>
                          if bool_decide (e = ErrBadBlobDigest) then WriteError 400 "DIGEST_INVALID"
                          else upload_error name sessionID e
                      | Ok _ =>
                          ret (mkResponse 201 [("Location", getBlobUploadLocation (q_path q) name digest);
                            ("Content-Length", "0"); (DistContentDigestKey, digest)] NoBody)
                      end
                  end
              end
          end
      | _ => WriteHeader 400
      end
  | _, _ => WriteHeader 404
  end.

Definition DeleteBlobUpload (q : request) : ST reg response :=
  match var q "name", var q "session_id" with
  | Some name, Some sessionID =>
      let* r := try (on_store name (as_DeleteBlobUpload name sessionID)) in
      match r with
      | Err e =>
          if bool_decide (e = ErrRepoNotFound) then WriteError 404 "NAME_UNKNOWN"
          else if bool_decide (e = ErrUploadNotFound) then WriteError 404 "BLOB_UPLOAD_UNKNOWN"
          else WriteHeader 500
      | Ok _ => WriteHeader 204
      end
  | _, _ => WriteHeader 404
  end.

(** ** The catalog *)

(** A call on the store kept under a key, the default one for [None]. *)
Definition on_key {A} (key : option string) (m : ST S A) : ST reg A := fun rg =>
  match key with
  | None => let '(r, s) := m (DefaultStore rg) in (r, mkRegistry s (SubStore rg) (rg_meta rg) (rg_env rg))
  | Some k =>
      match subs ← SubStore rg; subs !! k with
      | Some s =>
          let '(r, s) := m s in
          (r, mkRegistry (DefaultStore rg) (<[k := s]> <$> SubStore rg) (rg_meta rg) (rg_env rg))
      | None => (Err ErrRepoNotFound, rg)
      end
  end.

(** What the listing carries from store to store. *)
Record catalog : Type := mkCatalog {
  ct_last : string;
  ct_remainder : Z;
  ct_more : bool;
  ct_repos : list string
}.

Definition list_store (q : request) (key : option string) (c : catalog) : ST reg catalog :=
  let* (repos, more) := on_key key (as_GetNextRepositories (ct_last c) (ct_remainder c) (AuthzFilterFunc (Some (q_userAc q)))) in
  let remainder := (ct_remainder c - Z.of_nat (length repos))%Z in
  ret (mkCatalog (if more && (remainder <=? 0)%Z then default "" (list.last repos) else "") remainder more
         (ct_repos c ++ repos)).

Fixpoint list_substores (q : request) (maxEntries : Z) (storePath : string) (subPaths : list string) (c : catalog)
    : ST reg catalog :=
  match subPaths with
  | [] => ret c
  | subPath :: rest =>
      if negb (bool_decide (ct_last c = "")) && negb (bool_decide (subPath = storePath))
      then list_substores q maxEntries storePath rest c
      else if (0 <? ct_remainder c)%Z || (maxEntries =? -1)%Z then
        let* c := list_store q (Some subPath) c in
        list_substores q maxEntries storePath rest c
      else list_substores q maxEntries storePath rest c
  end.

Definition listStorageRepositories (q : request) (lastEntry : string) (maxEntries : Z) : ST reg catalog :=
  let* rg := get in
  let subPaths := merge_sort str_le (match SubStore rg with Some subs => fst <$> map_iter subs | None => [] end) in
  let storePath := GetStorePath rg lastEntry in
  let c := mkCatalog lastEntry maxEntries false [] in
  let* c := (if bool_decide (storePath = DefaultStorePath) then list_store q None c else ret c) in
  list_substores q maxEntries storePath subPaths c.

Definition ListRepositories (q : request) : ST reg response :=
  if bool_decide (q_method q = "OPTIONS") then WriteHeader 200
  else
    let query key := default "" (head (default [] (q_query q !! key))) in
    let maxEntries := default (-1)%Z (ParseInt (query "n")) in
    let* r := try (listStorageRepositories q (query "last") maxEntries) in
    match r with
    | Err _ => WriteHeader 500
    | Ok c =>
        ret (mkResponse 200
          (if ct_more c && negb (bool_decide (ct_repos c = []))
           then [link ("/v2/_catalog?n=" ++ FormatInt maxEntries ++ "&last=" ++ default "" (list.last (ct_repos c)))%string]
           else [])
          (RepositoryList (ct_repos c)))
    end.

(** RecoveryHandler (recovery.go): a panic of a handler is answered with 500. *)
Definition recovered (m : ST reg response) : ST reg response :=
  let* r := try m in
  match r with Ok answer => ret answer | Err _ => WriteHeader 500 end.
End handlers.
