(* ===== verification/Router.v ===== *)
(** * From a request to its handler (SetupRoutes of pkg/api/routes.go)

    The routes of the distribution API with their methods, and the middleware
    before their handlers: the recovery from panics and the authorization of
    Authz.v. The third-party router finds the route and the variables of a
    path; here the variables come with the request, and a route is taken when
    its template, filled with them, is the path. Authentication comes before
    (Admission.v): what it found out is part of the request here. *)

From Stdlib Require Import ZArith Lia Ascii String.
From stdpp Require Import base tactics list gmap strings.
From S2P Require Import Prelude Runtime Regexp Oci Authz Routes.

Local Open Scope string_scope.
Local Open Scope list_scope.

(** ** The table of routes *)
Inductive piece : Type :=
  | Literally (s : string)
  | RepoName                  (* {name:...}, with the expression of repository names *)
  | OneSegment (x : string).   (* {x}: anything but a slash *)

Inductive endpoint : Type :=
  | EListTags | ECheckManifest | EGetManifest | EUpdateManifest | EDeleteManifest
  | ECheckBlob | EGetBlob | EDeleteBlob
  | ECreateBlobUpload | EGetBlobUpload | EPatchBlobUpload | EUpdateBlobUpload | EDeleteBlobUpload
  | EGetReferrers | EListRepositories.

Record route : Type := mkRoute {
  rt_template : list piece;
  rt_methods : list string;
  rt_endpoint : endpoint;
  rt_distspec : bool  (* below prefixedDistSpecRouter *)
}.

Definition RoutePrefix : string := "/v2".
Definition ExtCatalogPrefix : string := "/_catalog".
Definition repo_route (rest : list piece) (methods : list string) (e : endpoint) : route :=
  mkRoute (Literally RoutePrefix :: Literally "/" :: RepoName :: rest) methods e true.

Definition routes : list route :=
  let manifest := [Literally "/manifests/"; OneSegment "reference"] in
  let blob := [Literally "/blobs/"; OneSegment "digest"] in
  let upload := [Literally "/blobs/uploads/"; OneSegment "session_id"] in
  [repo_route [Literally "/tags/list"] ["GET"; "OPTIONS"] EListTags;
   repo_route manifest ["HEAD"; "OPTIONS"] ECheckManifest;
   repo_route manifest ["GET"] EGetManifest;
   repo_route manifest ["PUT"] EUpdateManifest;
   repo_route manifest ["DELETE"] EDeleteManifest;
   repo_route blob ["HEAD"] ECheckBlob;
   repo_route blob ["GET"] EGetBlob;
   repo_route blob ["DELETE"] EDeleteBlob;
   repo_route [Literally "/blobs/uploads/"] ["POST"] ECreateBlobUpload;
   repo_route upload ["GET"] EGetBlobUpload;
   repo_route upload ["PATCH"] EPatchBlobUpload;
   repo_route upload ["PUT"] EUpdateBlobUpload;
   repo_route upload ["DELETE"] EDeleteBlobUpload;
   repo_route [Literally "/referrers/"; OneSegment "digest"] ["GET"; "OPTIONS"] EGetReferrers;
   mkRoute [Literally RoutePrefix; Literally ExtCatalogPrefix] ["GET"; "OPTIONS"] EListRepositories false].

(** ** Matching a path *)
Definition piece_var (p : piece) : option string :=
  match p with Literally _ => None | RepoName => Some "name" | OneSegment x => Some x end.
Definition piece_value (vars : gmap string string) (p : piece) : string :=
  match p with Literally s => s | _ => default "" (x ← piece_var p; vars !! x) end.
Definition piece_ok (vars : gmap string string) (p : piece) : bool :=
  match p with
  | Literally _ => true
  | RepoName => match_string NameRegexp (piece_value vars p)
  | OneSegment _ => negb (bool_decide (piece_value vars p = "")) && no_char slash (piece_value vars p)
  end.
Definition route_matches `{CelEngine} (q : request) (rt : route) : bool :=
  contains (rt_methods rt) (q_method q) &&
  bool_decide (path_str (q_path q) = foldr String.append "" (piece_value (q_vars q) <$> rt_template rt)) &&
  bool_decide (dom (q_vars q) = list_to_set (omap piece_var (rt_template rt))) &&
  forallb (piece_ok (q_vars q)) (rt_template rt).
Definition dispatch `{CelEngine} (q : request) : option route :=
  snd <$> list_find (fun rt => route_matches q rt = true) routes.

(** ** The middleware *)

(** What else authorization reads of the connection. *)
Record arrival : Type := mkArrival {
  ar_userAgent : string;
  ar_remoteAddr : string;
  ar_forwardedFor : list string;
  ar_tls : option Z;
  ar_requestURI : string;
  ar_authnType : option string
}.
Definition authz_view `{CelEngine} (a : arrival) (q : request) : http_request :=
  mkRequest (q_method q) (ar_userAgent a) (ar_remoteAddr a) (ar_forwardedFor a) (ar_tls a) (ar_requestURI a)
    (q_ctx q) (ar_authnType a) (default "" (q_vars q !! "name")) (q_vars q !! "reference")
    (default [] (q_query q !! "tag")).
Definition with_user `{CelEngine} (uac : UserAccessControl) (q : request) : request :=
  mkApiRequest _ (q_method q) (q_vars q) (q_query q) (q_header q) (q_contentLength q) (q_body q) (q_path q) (q_ctx q) uac.

Section serve.
Context `{CelEngine} `{MapIter} `{Glob} `{GoDigest} `{SliceSort} `{PushProbe} `{UrlParse}.
Context {S M : Type} `{ApiStoreI S} `{SyncOnDemandI S} `{MetaHooksI S M}.
Context (conf : rh_config).
Abbreviation reg := (registry S M).

Definition handler (e : endpoint) (q : request) : ST reg response :=
  match e with
  | EListTags => ListTags q
  | ECheckManifest => CheckManifest conf q
  | EGetManifest => GetManifest conf q
  | EUpdateManifest => UpdateManifest conf q
  | EDeleteManifest => DeleteManifest q
  | ECheckBlob => CheckBlob conf q
  | EGetBlob => GetBlob conf q
  | EDeleteBlob => DeleteBlob q
  | ECreateBlobUpload => CreateBlobUpload conf q
  | EGetBlobUpload => GetBlobUpload q
  | EPatchBlobUpload => PatchBlobUpload q
  | EUpdateBlobUpload => UpdateBlobUpload q
  | EDeleteBlobUpload => DeleteBlobUpload q
  | EGetReferrers => GetReferrers conf q
  | EListRepositories => ListRepositories q
  end.

(** DistSpecAuthzHandler, with the tags of the image stores of the registry. *)
Definition distspec_authz (a : arrival) (q : request) : ST reg outcome := fun rg =>
  on_env (DistSpecAuthzHandler (rc_access conf)
    (fun repo => fst (as_GetImageTags repo (GetImageStore rg repo))) (authz_view a q) (q_userAc q)) rg.

Definition after_authz (e : endpoint) (q : request) (o : outcome) : ST reg response :=
  match o with
  | Next uac => handler e (with_user uac q)
  | AuthzFail status _ => WriteError status (if (status =? 401)%Z then "UNAUTHORIZED" else "DENIED")
  | InternalServerError => WriteHeader 500
  end.

(** The authorization that SetupRoutes installs, then the handler. *)
Definition authorized (rt : route) (a : arrival) (q : request) : ST reg response :=
  match rc_access conf with
  | None => handler (rt_endpoint rt) q
  | Some _ =>
      match BaseAuthzHandler (rc_access conf) (authz_view a q) (q_userAc q) with
      | Next uac =>
          let q := with_user uac q in
          if rt_distspec rt then
            let* o := distspec_authz a q in after_authz (rt_endpoint rt) q o
          else handler (rt_endpoint rt) q
      | o => after_authz (rt_endpoint rt) q o
      end
  end.

(** The answer to a request of the distribution API; [None] for the paths of
    other routes. *)
Definition serve_http (a : arrival) (q : request) : option (ST reg response) :=
  (fun rt => recovered (authorized rt a q)) <$> dispatch q.
End serve.

(** ** What the router guarantees to the handlers *)
Section routed.
Context `{CelEngine}.

Lemma dispatch_matches q rt : dispatch q = Some rt -> rt ∈ routes /\ route_matches q rt = true.
Proof.
  unfold dispatch. intros E. apply fmap_Some in E as ([i rt']&E&->). apply list_find_Some in E as (El&Hm&_).
  split; [|done]. by apply list_elem_of_lookup_2 in El.
Qed.

Lemma route_pieces q rt : route_matches q rt = true -> Forall (fun p => piece_ok (q_vars q) p = true) (rt_template rt).
Proof. unfold route_matches. intros [_ Hf]%andb_prop. apply Forall_forall. intros p Hp. rewrite forallb_forall in Hf. by apply Hf, list_elem_of_In. Qed.

Lemma route_vars q rt x v : route_matches q rt = true -> q_vars q !! x = Some v ->
  exists p, p ∈ rt_template rt /\ piece_var p = Some x.
Proof.
  unfold route_matches. intros [[_ Hd]%andb_prop _]%andb_prop Hx. apply bool_decide_eq_true_1 in Hd.
  assert (x ∈ dom (q_vars q)) as Hin by (apply elem_of_dom; by eexists).
  rewrite Hd in Hin. by apply elem_of_list_to_set, list_elem_of_omap in Hin.
Qed.

(** A variable of a route is a repository name when it is called so, and a
    segment of the path otherwise. *)
Lemma routed_name q rt v : dispatch q = Some rt -> q_vars q !! "name" = Some v -> match_string FullNameRegexp v = true.
Proof.
  intros [Hrt Hm]%dispatch_matches Hv. destruct (route_vars _ _ _ _ Hm Hv) as (p&Hp&Ex).
  pose proof (route_pieces _ _ Hm) as Hf. rewrite Forall_forall in Hf. specialize (Hf p Hp).
  assert (forall x, OneSegment x ∈ rt_template rt -> x <> "name") as Hn.
  { unfold routes in Hrt. intros x. repeat (apply elem_of_cons in Hrt as [->|Hrt];
      [simpl; rewrite !elem_of_cons; intros Hx; repeat (destruct Hx as [[=]|Hx]; try (by subst)); by apply not_elem_of_nil in Hx|]).
    by apply not_elem_of_nil in Hrt. }
  destruct p as [s| |x]; [done| |].
  - simpl in Hf. unfold piece_value in Hf. simpl in Hf. by rewrite Hv in Hf.
  - injection Ex as ->. by destruct (Hn "name").
Qed.

Lemma routed_segment q rt x v : dispatch q = Some rt -> q_vars q !! x = Some v -> x <> "name" ->
  v <> "" /\ no_char slash v = true.
Proof.
  intros [_ Hm]%dispatch_matches Hv Hx. destruct (route_vars _ _ _ _ Hm Hv) as (p&Hp&Ex).
  pose proof (route_pieces _ _ Hm) as Hf. rewrite Forall_forall in Hf. specialize (Hf p Hp).
  destruct p as [s| |y]; [done|by injection Ex as <-|]. injection Ex as ->.
  simpl in Hf. unfold piece_value in Hf. simpl in Hf. rewrite Hv in Hf. apply andb_prop in Hf as [Hf1 Hf2].
  split; [|done]. apply negb_true_iff in Hf1. by apply bool_decide_eq_false_1 in Hf1.
Qed.
End routed.
