(* ===== verification/Serving.v ===== *)
(** * What the handlers keep and what they answer

    The handlers of Routes.v against the interface of an image store: given an
    invariant that the methods of the store keep, and the promise that what
    the store reads hashes to the digest asked for, every handler keeps the
    invariant in all the stores of the registry, and what it answers is what
    was asked for. *)

From Stdlib Require Import ZArith Lia Ascii String Sorted.
From stdpp Require Import base tactics list gmap strings sorting.
From S2P Require Import Prelude Runtime Regexp Driver Oci StorageCommon Content Addressing Authz Http Routes Router.

Local Open Scope string_scope.
Local Open Scope list_scope.

(** ** The promises of an image store, of the hooks and of the sync *)
Class ApiStoreSpec {S} `{ApiStoreI S} `{GoDigest} (I : S -> Prop) : Prop := {
  sp_GetImageTags : forall repo, preserves I (as_GetImageTags repo);
  sp_GetImageManifest : forall repo reference, repo_ok repo -> ensures I (as_GetImageManifest repo reference)
    (fun m => FromBytes (Algorithm (snd (fst m))) (fst (fst m)) = snd (fst m));
  sp_GetReferrers : forall repo d ts, preserves I (as_GetReferrers repo d ts);
  sp_PutImageManifest : forall repo reference mt body tags, repo_ok repo ->
    preserves I (as_PutImageManifest repo reference mt body tags);
  sp_DeleteImageManifest : forall repo reference dc, repo_ok repo -> preserves I (as_DeleteImageManifest repo reference dc);
  sp_StatBlob : forall repo d, preserves I (as_StatBlob repo d);
  sp_CheckBlob : forall repo d, repo_ok repo -> preserves I (as_CheckBlob repo d);
  sp_GetAllDedupeReposCandidates : forall d, preserves I (as_GetAllDedupeReposCandidates d);
  sp_GetBlob : forall repo d, repo_ok repo -> ensures I (as_GetBlob repo d)
    (fun b => FromBytes (Algorithm d) (fst b) = d /\ snd b = Z.of_nat (String.length (fst b)));
  sp_GetBlobPartial : forall repo d from to, repo_ok repo -> ensures I (as_GetBlobPartial repo d from to)
    (fun b => let '(data, len, size) := b in
       exists whole, FromBytes (Algorithm d) whole = d /\ size = Z.of_nat (String.length whole) /\
         (0 <= from)%Z /\ (0 < len)%Z /\ (from + len <= size)%Z /\ ((0 <= to < size)%Z -> len = (to - from + 1)%Z) /\
         data = String.substring (Z.to_nat from) (Z.to_nat len) whole);
  sp_GetBlobRedirectURL : forall repo d, preserves I (as_GetBlobRedirectURL repo d);
  sp_DeleteBlob : forall repo d, repo_ok repo -> preserves I (as_DeleteBlob repo d);
  sp_NewBlobUpload : forall repo, repo_ok repo -> preserves I (as_NewBlobUpload repo);
  sp_GetBlobUpload : forall repo u, repo_ok repo -> uuid_ok u -> preserves I (as_GetBlobUpload repo u);
  sp_PutBlobChunkStreamed : forall ctx repo u body, repo_ok repo -> uuid_ok u ->
    preserves I (as_PutBlobChunkStreamed ctx repo u body);
  sp_PutBlobChunk : forall ctx repo u from to body, repo_ok repo -> uuid_ok u ->
    preserves I (as_PutBlobChunk ctx repo u from to body);
  sp_FinishBlobUpload : forall repo u d, repo_ok repo -> uuid_ok u -> preserves I (as_FinishBlobUpload repo u d);
  sp_FullBlobUpload : forall ctx repo body d, repo_ok repo -> preserves I (as_FullBlobUpload ctx repo body d);
  sp_DeleteBlobUpload : forall repo u, repo_ok repo -> uuid_ok u -> preserves I (as_DeleteBlobUpload repo u);
  sp_GetNextRepositories : forall last n f, preserves I (as_GetNextRepositories last n f)
}.
#[export] Hint Resolve sp_GetImageTags sp_GetReferrers sp_PutImageManifest sp_DeleteImageManifest sp_StatBlob sp_CheckBlob
  sp_GetAllDedupeReposCandidates sp_GetBlobRedirectURL sp_DeleteBlob sp_NewBlobUpload sp_GetBlobUpload
  sp_PutBlobChunkStreamed sp_PutBlobChunk sp_FinishBlobUpload sp_FullBlobUpload sp_DeleteBlobUpload
  sp_GetNextRepositories : pres.

(** A push is answered with the digest of the body. *)
Class PushDigest {S} `{ApiStoreI S} `{GoDigest} : Prop :=
  push_digest : forall repo reference mt body tags s d sd s',
    as_PutImageManifest repo reference mt body tags s = (Ok (d, sd), s') -> FromBytes (Algorithm d) body = d.

Class MetaHooksSpec {S M} `{MetaHooksI S M} (I : S -> Prop) : Prop := {
  hs_get : forall repo r mt b, repo_ok repo -> preserves (fun sm => I (fst sm)) (OnGetManifest repo r mt b);
  hs_update : forall user repo r mt d b, repo_ok repo -> preserves (fun sm => I (fst sm)) (OnUpdateManifest user repo r mt d b);
  hs_update_tags : forall user repo ts mt d b, repo_ok repo ->
    preserves (fun sm => I (fst sm)) (OnUpdateManifestDigestTags user repo ts mt d b);
  hs_delete : forall user repo r mt d b, repo_ok repo -> preserves (fun sm => I (fst sm)) (OnDeleteManifest user repo r mt d b)
}.
Class SyncSpec {S} `{SyncOnDemandI S} (I : S -> Prop) : Prop := {
  ys_image : forall repo r, repo_ok repo -> preserves I (SyncImage repo r);
  ys_referrers : forall repo d ts, repo_ok repo -> preserves I (SyncReferrers repo d ts)
}.
#[export] Hint Resolve hs_get hs_update hs_update_tags hs_delete ys_image ys_referrers : pres.

(** ** The stores of a registry *)
Section stores.
Context {S M : Type} (I : S -> Prop).
Local Notation reg := (registry S M).

Definition all_stores (rg : reg) : Prop :=
  I (DefaultStore rg) /\ forall subs k s, SubStore rg = Some subs -> subs !! k = Some s -> I s.

Lemma image_store_ok rg name : all_stores rg -> I (GetImageStore rg name).
Proof.
  intros [Hd Hs]. unfold GetImageStore. destruct (substore_of rg name) as [k|]; [|done].
  destruct (SubStore rg) as [subs|] eqn:Es; simpl; [|done]. destruct (subs !! k) eqn:Ek; simpl; [by eapply Hs|done].
Qed.
Lemma set_image_store_ok rg name s : all_stores rg -> I s -> all_stores (set_image_store name s rg).
Proof.
  intros [Hd Hs] HI. unfold set_image_store. destruct (substore_of rg name) as [k|]; [|by split].
  split; [done|]. simpl. intros subs k' s' Es Hk. destruct (SubStore rg) as [subs0|]; [|done]. injection Es as <-.
  apply lookup_insert_Some in Hk as [[_ <-]|[_ Hk]]; [done|by eapply Hs].
Qed.

Lemma ens_on_store {A} name (m : ST S A) Q : ensures I m Q -> ensures all_stores (on_store name m) Q.
Proof.
  intros Hm rg r rg' Hrg. unfold on_store, zoom. destruct (m (GetImageStore rg name)) as [r0 s] eqn:E.
  intros [= <- <-]. destruct (Hm _ _ _ (image_store_ok _ name Hrg) E) as [Hs HQ].
  split; [by apply set_image_store_ok|done].
Qed.
Lemma pres_store_call {A} name (m : ST S A) : preserves I m -> preserves all_stores (on_store name m).
Proof. intros Hm. eapply ensures_preserves, ens_on_store, preserves_ensures, Hm. Qed.
Lemma pres_meta_call {A} name (a : A) (m : ST (S * M) A) : preserves (fun sm => I (fst sm)) m ->
  preserves all_stores (on_meta name a m).
Proof.
  intros Hm rg r rg' Hrg. unfold on_meta. destruct (rg_meta rg) as [db|]; [|by intros [= <- <-]].
  destruct (m (GetImageStore rg name, db)) as [r0 [s db']] eqn:E. intros [= <- <-].
  assert (I s) as Hs by (eapply (Hm (_, _)) in E; [done|]; by apply image_store_ok).
  apply (set_image_store_ok _ name _ Hrg) in Hs as [Hd Hs]. by split.
Qed.
Lemma pres_env_call {A} (m : ST env A) : preserves all_stores (on_env (S := S) (M := M) m).
Proof. intros rg r rg' [Hd Hs]. unfold on_env, zoom. destruct (m (rg_env rg)). by intros [= <- <-]. Qed.
Lemma pres_on_key {A} key (m : ST S A) : preserves I m -> preserves all_stores (on_key key m).
Proof.
  intros Hm rg r rg' Hrg. pose proof Hrg as [Hd Hs]. unfold on_key. destruct key as [k|].
  - destruct (SubStore rg) as [subs|] eqn:Es; simpl; [|by intros [= <- <-]].
    destruct (subs !! k) as [s|] eqn:Ek; [|by intros [= <- <-]]. destruct (m s) as [r0 s'] eqn:E. intros [= <- <-].
    assert (I s') by (eapply Hm; [by eapply Hs|exact E]). split; [done|]. simpl.
    intros subs' k' s'' [= <-] Hk. apply lookup_insert_Some in Hk as [[_ <-]|[_ Hk]]; [done|by eapply Hs].
  - destruct (m (DefaultStore rg)) as [r0 s'] eqn:E. intros [= <- <-]. split; [by eapply Hm|done].
Qed.
End stores.
#[export] Hint Resolve pres_store_call pres_meta_call pres_env_call pres_on_key : pres.

(** ** The handlers *)

(** What the router guarantees of the variables (Router.v), and a digest that
    an answer is about. *)
Definition vars_ok `{CelEngine} (q : request) : Prop :=
  (forall name, var q "name" = Some name -> repo_ok name) /\
  (forall u, var q "session_id" = Some u -> uuid_ok u).

(** The bytes answered are those asked for: a whole body hashes to the digest
    of the answer, which is that of the request if it names one; a part is the
    announced range of such a content. *)
Definition range_of `{GoDigest} (d : string) (rng : httpRange) (b : string) : Prop :=
  exists whole, FromBytes (Algorithm d) whole = d /\ (0 <= r_start rng <= r_end rng)%Z /\
    (r_end rng < Z.of_nat (String.length whole))%Z /\
    b = String.substring (Z.to_nat (r_start rng)) (Z.to_nat (r_length rng)) whole.
Definition answer_ok `{CelEngine} `{GoDigest} (q : request) (r : response) : Prop :=
  match rs_body r with
  | Bytes b => exists d, (DistContentDigestKey, d) ∈ rs_headers r /\
      (forall x, var q "digest" = Some x -> x = d) /\
      (rs_status r = 200%Z /\ FromBytes (Algorithm d) b = d \/
       rs_status r = 206%Z /\ exists rng size, ("Content-Range", content_range rng size) ∈ rs_headers r /\ range_of d rng b)
  | Parts ps complete => exists d, (DistContentDigestKey, d) ∈ rs_headers r /\
      (forall x, var q "digest" = Some x -> x = d) /\ (complete = true -> Forall (fun p => range_of d (fst p) (snd p)) ps)
  | _ => True
  end.

(** Follow a handler: calls keep the invariant, answers without content are
    right. *)
Ltac ens := cbv zeta; repeat match goal with
  | |- ensures _ (WriteHeader _) _ => by apply ensures_ret
  | |- ensures _ (WriteError _ _) _ => by apply ensures_ret
  | |- ensures _ (ret _) _ => apply ensures_ret; done
  | |- ensures _ (throw _) _ => apply ensures_throw
  | |- ensures _ (bind _ _) _ => eapply ensures_bind; [apply preserves_ensures; solve [pres]|intros ? _; cbv beta zeta]
  | |- ensures _ (match ?x with _ => _ end) _ => destruct x eqn:?; cbv zeta
  end.

Section handlers.
Context `{CelEngine} `{MapIter} `{Glob} `{GoDigest} `{SliceSort} `{!SliceSortLaws} `{PushProbe} `{UrlParse}.
Context {S M : Type} `{ApiStoreI S} `{SyncOnDemandI S} `{MetaHooksI S M} (I : S -> Prop).
Context `{!ApiStoreSpec I} `{!MetaHooksSpec (M := M) I} `{!SyncSpec I} (conf : rh_config).
Local Notation ok := (all_stores (M := M) I).
Context (q : request) (Hq : vars_ok q).

Lemma name_ok name : var q "name" = Some name -> repo_ok name.
Proof. apply Hq. Qed.
Lemma session_ok u : var q "session_id" = Some u -> uuid_ok u.
Proof. apply Hq. Qed.
#[local] Hint Resolve name_ok session_ok : pres.

Lemma pres_manifest_read repo reference : repo_ok repo -> preserves I (as_GetImageManifest repo reference).
Proof. intros Hr. eapply ensures_preserves. by apply sp_GetImageManifest. Qed.
#[local] Hint Resolve pres_manifest_read : pres.

Lemma ens_ListTags : ensures ok (ListTags q) (answer_ok q).
Proof. unfold ListTags. ens. Qed.

(** Manifests. *)
Lemma ens_getImageManifest name reference : repo_ok name ->
  ensures ok (getImageManifest conf name reference) (fun m => FromBytes (Algorithm (snd (fst m))) (fst (fst m)) = snd (fst m)).
Proof.
  intros Hn. unfold getImageManifest. cbv zeta.
  assert (ensures ok (on_store name (as_GetImageManifest name reference))
    (fun m => FromBytes (Algorithm (snd (fst m))) (fst (fst m)) = snd (fst m))) as Hget by by apply ens_on_store, sp_GetImageManifest.
  match goal with |- ensures _ (if _ then _ else ?s) _ => set (sync := s) end.
  assert (ensures ok sync (fun m => FromBytes (Algorithm (snd (fst m))) (fst (fst m)) = snd (fst m))) as Hsync.
  { unfold sync. destruct (rc_sync conf); [|done]. eapply ensures_bind; [apply preserves_ensures, preserves_get|]. intros rg _.
    assert (ensures ok (try (on_store name (SyncImage name reference)) ;;; on_store name (as_GetImageManifest name reference))
      (fun m => FromBytes (Algorithm (snd (fst m))) (fst (fst m)) = snd (fst m))).
    { eapply ensures_bind; [apply preserves_ensures; pres|]. by intros _ _. }
    destruct (negb _); [|done]. eapply ensures_bind; [by apply ensures_try|]. intros [m|e] Hm; [by apply ensures_ret|done]. }
  destruct (IsDigest reference); [|done]. eapply ensures_bind; [by apply ensures_try|].
  intros [m|e] Hm; [by apply ensures_ret|]. destruct (negb (rc_sync conf)); [apply ensures_throw|done].
Qed.
Lemma pres_getImageManifest name reference : repo_ok name -> preserves ok (getImageManifest conf name reference).
Proof. intros Hn. eapply ensures_preserves. by apply ens_getImageManifest. Qed.
#[local] Hint Resolve pres_getImageManifest : pres.

Lemma ens_CheckManifest : ensures ok (CheckManifest conf q) (answer_ok q).
Proof. unfold CheckManifest. ens. Qed.
Lemma ens_GetManifest : var q "digest" = None -> ensures ok (GetManifest conf q) (answer_ok q).
Proof.
  intros Hd. unfold GetManifest. destruct (var q "name") as [name|] eqn:En; [|ens]. destruct (var q "reference"); [|ens].
  eapply ensures_bind; [by apply ensures_try, ens_getImageManifest, name_ok|]. intros [[[content digest] mt]|e] Hm; [|ens].
  eapply ensures_bind; [apply preserves_ensures; pres; eauto using name_ok with pres|]. intros _ _. apply ensures_ret.
  exists digest. simpl in *. split; [by left|]. split; [by rewrite Hd|by left].
Qed.
Lemma pres_rejectUnsignedManifest name reference mt body b : preserves ok (rejectUnsignedManifest conf name reference mt body b).
Proof.
  unfold rejectUnsignedManifest. pres. apply pres_meta_call. intros [st db] r [st' db'] Hs. simpl.
  destruct (GetSigners _ _ db) as [r0 db0]. by intros [= <- <- <-].
Qed.
#[local] Hint Resolve pres_rejectUnsignedManifest : pres.
Lemma push_tags_quiet reference resp : push_tags q reference = inr resp -> answer_ok q resp.
Proof. unfold push_tags. by repeat case_match; intros [= <-]. Qed.
Lemma ens_push_accepted user name reference mt d sd body tags : repo_ok name ->
  ensures ok (push_accepted user name reference mt d sd body tags) (answer_ok q).
Proof.
  intros Hn. unfold push_accepted. eapply ensures_bind; [apply preserves_ensures, preserves_attempt, pres_meta_call; destruct tags; eauto with pres|].
  intros r _. ens.
Qed.
Lemma ens_UpdateManifest : ensures ok (UpdateManifest conf q) (answer_ok q).
Proof.
  unfold UpdateManifest. ens.
  - apply ens_push_accepted. by apply name_ok.
  - eapply ensures_ret, push_tags_quiet. eassumption.
Qed.
Lemma ens_DeleteManifest : ensures ok (DeleteManifest q) (answer_ok q).
Proof. unfold DeleteManifest. ens. Qed.
Lemma ens_GetReferrers : ensures ok (GetReferrers conf q) (answer_ok q).
Proof. unfold GetReferrers. ens. Qed.

(** Blobs. *)
Lemma pres_some_readable uac d repos : preserves ok (on_env (some_readable uac d repos)).
Proof. auto with pres. Qed.
Lemma pres_can_mount name d : preserves ok (can_mount q name d).
Proof. unfold can_mount. pres. Qed.
#[local] Hint Resolve pres_can_mount : pres.
Lemma pres_resolveBlobPresence name d : repo_ok name -> preserves ok (resolveBlobPresence conf q name d).
Proof. intros Hn. unfold resolveBlobPresence, isHydrateBlobOnReadEnabled, userMayMountBlob. pres. Qed.
#[local] Hint Resolve pres_resolveBlobPresence : pres.
Lemma ens_read_error e : ensures ok (writeBlobReadError e) (answer_ok q).
Proof. unfold writeBlobReadError. ens. Qed.
Lemma ens_CheckBlob : ensures ok (CheckBlob conf q) (answer_ok q).
Proof. unfold CheckBlob. ens; apply ens_read_error. Qed.

(** The ranges parseRangeHeader gives are not empty and inside the blob. *)
Lemma parsed_ranges header size rs : parseRangeHeader header size = Ok rs -> Forall (in_blob size) rs.
Proof.
  unfold parseRangeHeader. destruct (Z.leb_spec size 0); [done|]. destruct (has_prefix _ _); [|done]. simpl.
  destruct (bool_decide _ || _); [done|]. destruct (parse_specs size _) as [[|r rs0]|] eqn:E; [done| |done].
  intros [= <-]. apply parse_specs_ok in E as [Hf _]; [|done]. by apply coalesceRanges_ok.
Qed.

Lemma length_substring (t : string) : forall a n, String.length (String.substring a n t) = Nat.min n (String.length t - a).
Proof.
  induction t as [|c t IH]; intros a n; [by destruct a, n; simpl; rewrite ?Nat.min_0_r|].
  destruct a as [|a]; [|apply IH]. destruct n as [|n]; [done|]. simpl. rewrite IH. by destruct (String.length t).
Qed.

(** A range of the blob that was read, whole or cut to the length asked for. *)
Definition read_as (d : string) (rng : httpRange) (b : string * Z * Z) : Prop :=
  let '(data, len, _) := b in (len = r_length rng -> range_of d rng data) /\
    (let part := String.substring 0 (Z.to_nat (r_length rng)) data in
     (r_length rng <= Z.of_nat (String.length part))%Z -> range_of d rng part).
Lemma ens_partial name d rng size : repo_ok name -> in_blob size rng ->
  ensures ok (on_store name (as_GetBlobPartial name d (r_start rng) (r_end rng))) (read_as d rng).
Proof.
  intros Hn [Hr _]. eapply ensures_weaken; [by apply ens_on_store, sp_GetBlobPartial|].
  intros [[data len] z] (whole&Hw&->&Hf&Hl&Hle&_&->). unfold read_as, range_of, r_length. split.
  - intros ->. exists whole. split; [done|]. split; [done|]. split; [lia|done].
  - cbv zeta. rewrite !length_substring. intros Hp. exists whole. split; [done|]. split; [done|]. split; [lia|].
    apply substring_substring. lia.
Qed.

Lemma ens_read_parts name d size rs : repo_ok name -> Forall (in_blob size) rs ->
  forall sent, Forall (fun p => range_of d (fst p) (snd p)) sent ->
  ensures ok (read_parts name d rs sent) (fun b => snd b = true -> Forall (fun p => range_of d (fst p) (snd p)) (fst b)).
Proof.
  intros Hn. induction 1 as [|rng rs Hr Hf IH]; intros sent Hs; simpl; [by apply ensures_ret|].
  eapply ensures_bind; [by eapply ensures_try, ens_partial|]. intros [[[data len] z]|e] Hd; [|by apply ensures_ret].
  cbv zeta. destruct (Z.ltb_spec (Z.of_nat (String.length (String.substring 0 (Z.to_nat (r_length rng)) data))) (r_length rng));
    [by apply ensures_ret|]. apply IH, Forall_app. split; [done|]. constructor; [|done]. by apply Hd.
Qed.

Lemma ens_GetBlobRange name d : var q "digest" = Some d -> repo_ok name ->
  ensures ok (GetBlobRange conf q name d) (answer_ok q).
Proof.
  intros Hd Hn. unfold GetBlobRange. eapply ensures_bind; [apply preserves_ensures; pres|]. intros [[[] bsize]|e] _; [|ens|apply ens_read_error].
  destruct (parseRangeHeader _ bsize) as [ranges|] eqn:Ep; [|ens]. apply parsed_ranges in Ep.
  assert (ensures ok (let* (parts, complete) := read_parts name d ranges [] in
      ret (mkResponse 206 [(DistContentDigestKey, d)] (Parts parts complete))) (answer_ok q)) as Hparts.
  { eapply ensures_bind; [by apply (ens_read_parts name d bsize)|]. intros [parts complete] Hps. apply ensures_ret.
    exists d. simpl. split; [by left|]. split; [by rewrite Hd; intros ? [= ->]|done]. }
  destruct ranges as [|rng [|r2 ranges]]; [done| |done]. apply Forall_cons in Ep as [Hr _].
  eapply ensures_bind; [by eapply ensures_try, ens_partial|]. intros [[[data blen] z]|e] Hb; [|apply ens_read_error].
  destruct (Z.eqb_spec blen (r_length rng)) as [->|]; simpl; [|ens]. apply ensures_ret. exists d. simpl.
  split; [by left|]. split; [by rewrite Hd; intros ? [= ->]|]. right. split; [done|]. exists rng, bsize.
  split; [right; by left|by apply Hb].
Qed.

Lemma ens_GetBlob : ensures ok (GetBlob conf q) (answer_ok q).
Proof.
  unfold GetBlob. destruct (var q "name") as [name|] eqn:En; [|ens]. destruct (var q "digest") as [d|] eqn:Ed; [|ens].
  apply name_ok in En. case_bool_decide; [apply ens_read_error|]. case_bool_decide; [by apply ens_GetBlobRange|].
  eapply ensures_bind; [apply preserves_ensures; unfold isBlobRedirectEnabled; pres|]. intros redirect _.
  eapply ensures_bind; [apply preserves_ensures; destruct redirect; pres|]. intros [url|e] _; [|apply ens_read_error].
  destruct (normalizeBlobRedirectURL url) as [normalized valid]. destruct (_ && valid); [by apply ensures_ret|].
  eapply ensures_bind; [by apply ensures_try, ens_on_store, sp_GetBlob|].
  intros [[data blen]|e] Hb; [|apply ens_read_error]. apply ensures_ret. exists d. simpl in *. split; [right; by left|].
  split; [by rewrite Ed; intros ? [= ->]|]. left. split; [done|apply Hb].
Qed.
Lemma ens_DeleteBlob : ensures ok (DeleteBlob q) (answer_ok q).
Proof. unfold DeleteBlob. ens. Qed.

(** Uploads and the catalog. *)
Lemma ens_new_upload name : repo_ok name -> ensures ok (new_upload q name) (answer_ok q).
Proof. intros Hn. unfold new_upload. ens. Qed.
Lemma ens_CreateBlobUpload : ensures ok (CreateBlobUpload conf q) (answer_ok q).
Proof.
  unfold CreateBlobUpload. destruct (var q "name") as [name|] eqn:En; [|ens]. apply name_ok in En.
  unfold mount_blob, full_upload. ens; by apply ens_new_upload.
Qed.
Lemma ens_GetBlobUpload : ensures ok (GetBlobUpload q) (answer_ok q).
Proof. unfold GetBlobUpload. ens. Qed.
Lemma ens_upload_error name u e : repo_ok name -> uuid_ok u -> ensures ok (upload_error name u e) (answer_ok q).
Proof. intros Hn Hu. unfold upload_error. ens. Qed.
Lemma ens_PatchBlobUpload : ensures ok (PatchBlobUpload q) (answer_ok q).
Proof. unfold PatchBlobUpload, upload_error. ens. Qed.
Lemma last_chunk_quiet resp : last_chunk q = inr resp -> answer_ok q resp.
Proof. unfold last_chunk. by repeat case_match; intros [= <-]. Qed.
Lemma ens_UpdateBlobUpload : ensures ok (UpdateBlobUpload q) (answer_ok q).
Proof. unfold UpdateBlobUpload, upload_error. ens. eapply ensures_ret, last_chunk_quiet. eassumption. Qed.
Lemma ens_DeleteBlobUpload : ensures ok (DeleteBlobUpload q) (answer_ok q).
Proof. unfold DeleteBlobUpload. ens. Qed.
Lemma pres_list_store key c : preserves ok (list_store q key c).
Proof. unfold list_store. pres. Qed.
#[local] Hint Resolve pres_list_store : pres.
Lemma pres_list_substores n p subs : forall c, preserves ok (list_substores q n p subs c).
Proof. induction subs as [|k subs IH]; intros c; simpl; pres. Qed.
#[local] Hint Resolve pres_list_substores : pres.
Lemma ens_ListRepositories : ensures ok (ListRepositories q) (answer_ok q).
Proof. unfold ListRepositories, listStorageRepositories. ens. Qed.
End handlers.

(** ** Every request of the distribution API *)

(** The router redirects a path that is not clean before it looks for a
    route. *)
Definition clean_path `{CelEngine} (q : request) : Prop :=
  forall c, c ∈ split_on slash (path_str (q_path q)) -> c <> "." /\ c <> "..".

Lemma split_last (s v : string) : no_char slash v = true ->
  exists l, split_on slash (s ++ String slash v)%string = l ++ [v] /\ l <> [].
Proof.
  intros Hv. induction s as [|c s (l&E&Hl)]; simpl.
  - rewrite split_on_no_char by done. by exists [""].
  - rewrite E. destruct l as [|x l]; [done|]. simpl. case_match; [by exists ("" :: x :: l)|by exists (String c x :: l)].
Qed.

Section http.
Context `{CelEngine} `{MapIter} `{Glob} `{GoDigest} `{SliceSort} `{!SliceSortLaws} `{PushProbe} `{UrlParse}.
Context {S M : Type} `{ApiStoreI S} `{SyncOnDemandI S} `{MetaHooksI S M} (I : S -> Prop).
Context `{!ApiStoreSpec I} `{!MetaHooksSpec (M := M) I} `{!SyncSpec I} (conf : rh_config).
Local Notation ok := (all_stores (M := M) I).

Lemma var_lookup q x v : var q x = Some v -> q_vars q !! x = Some v.
Proof. unfold var. destruct (q_vars q !! x); [|done]. case_bool_decide; congruence. Qed.

Lemma session_segment q rt u : dispatch q = Some rt -> q_vars q !! "session_id" = Some u ->
  exists s, path_str (q_path q) = (s ++ String slash u)%string.
Proof.
  intros [Hrt Hm]%dispatch_matches Hu. destruct (route_vars _ _ _ _ Hm Hu) as (p&Hp&Ex).
  unfold route_matches in Hm. apply andb_prop in Hm as [[[_ E%bool_decide_eq_true_1]%andb_prop _]%andb_prop _].
  rewrite E. unfold routes in Hrt. cbv zeta in Hrt.
  repeat (apply elem_of_cons in Hrt as [->|Hrt];
    [simpl in Hp; repeat (apply elem_of_cons in Hp as [->|Hp]; [try discriminate Ex|]); try (by apply not_elem_of_nil in Hp);
     simpl; unfold piece_value; simpl; rewrite Hu; simpl;
     exists (RoutePrefix ++ "/" ++ default "" (q_vars q !! "name") ++ "/blobs/uploads")%string;
     by rewrite !string_app_assoc, !string_app_nil_r|]).
  by apply not_elem_of_nil in Hrt.
Qed.

Lemma routed_vars_ok q rt : dispatch q = Some rt -> clean_path q -> vars_ok q.
Proof.
  intros Hd Hc. split; intros v Hv%var_lookup; [by eapply routed_name|].
  destruct (routed_segment _ _ _ _ Hd Hv) as [Hne Hs]; [done|]. destruct (session_segment _ _ _ Hd Hv) as (s&E).
  split; [|done]. destruct (split_last s v Hs) as (l&El&_).
  destruct (Hc v) as [? ?]; [rewrite E, El; apply elem_of_app; right; by left|]. done.
Qed.

Lemma no_digest q rt : dispatch q = Some rt -> rt_endpoint rt = EGetManifest -> var q "digest" = None.
Proof.
  intros [Hrt Hm]%dispatch_matches He. destruct (var q "digest") as [d|] eqn:Ev; [|done]. apply var_lookup in Ev.
  destruct (route_vars _ _ _ _ Hm Ev) as (p&Hp&Ex). unfold routes in Hrt. cbv zeta in Hrt.
  repeat (apply elem_of_cons in Hrt as [->|Hrt]; [try discriminate He|]); [|by apply not_elem_of_nil in Hrt].
  simpl in Hp. by repeat (apply elem_of_cons in Hp as [->|Hp]; [discriminate Ex|]); apply not_elem_of_nil in Hp.
Qed.

Lemma ens_handler q rt e : dispatch q = Some rt -> e = rt_endpoint rt -> vars_ok q ->
  ensures ok (handler conf e q) (answer_ok q).
Proof.
  intros Hd -> Hq. destruct (rt_endpoint rt) eqn:E; simpl;
    eauto using ens_ListTags, ens_CheckManifest, ens_GetManifest, ens_UpdateManifest, ens_DeleteManifest,
    ens_CheckBlob, ens_GetBlob, ens_DeleteBlob, ens_CreateBlobUpload, ens_GetBlobUpload, ens_PatchBlobUpload,
    ens_UpdateBlobUpload, ens_DeleteBlobUpload, ens_GetReferrers, ens_ListRepositories, no_digest.
Qed.

Lemma ens_recovered q (m : ST (registry S M) response) :
  ensures ok m (answer_ok q) -> ensures ok (recovered m) (answer_ok q).
Proof.
  intros Hm. unfold recovered. eapply ensures_bind; [by apply ensures_try|]. intros [r|e] Hr; [by apply ensures_ret|ens].
Qed.

Lemma ens_serve a q m : clean_path q -> serve_http conf a q = Some m -> ensures ok m (answer_ok q).
Proof.
  intros Hc. unfold serve_http. destruct (dispatch q) as [rt|] eqn:Hd; [|done]. intros [= <-]. apply ens_recovered.
  pose proof (routed_vars_ok _ _ Hd Hc) as Hq.
  assert (forall uac, ensures ok (handler conf (rt_endpoint rt) (with_user uac q)) (answer_ok q)) as Hh.
  { intros uac. exact (ens_handler (with_user uac q) rt _ Hd eq_refl Hq). }
  assert (forall o, ensures ok (after_authz conf (rt_endpoint rt) q o) (answer_ok q)) as Ha.
  { intros o. unfold after_authz. destruct o; [done|ens..]. }
  unfold authorized. destruct (rc_access conf) eqn:Eac; [|by apply (ens_handler q rt)].
  destruct (BaseAuthzHandler _ _ _) as [uac|st r|]; [|by apply (Ha (AuthzFail _ _))|by apply (Ha InternalServerError)].
  cbv zeta. destruct (rt_distspec rt); [|done]. eapply ensures_bind.
  - apply preserves_ensures. intros rg r rg' Hrg. unfold distspec_authz. by apply pres_env_call.
  - intros o _. unfold after_authz. destruct o as [uac'| |]; [apply (Hh uac')|ens..].
Qed.
End http.
