(* ===== verification/Paging.v ===== *)
(** * Pages of the listings

    A client that asks for a page of tags or of repositories and follows the
    Link headers: the pages it gets make up the listing, without gaps and
    without repetition, also across the stores of a registry. *)

From Stdlib Require Import ZArith Lia Ascii String Sorted.
From stdpp Require Import base tactics list gmap strings sorting.
From S2P Require Import Prelude Runtime Oci StorageCommon Listing Authz Http Routes Serving.

Local Open Scope string_scope.
Local Open Scope list_scope.

(** ** The client *)

(** The characters that have a meaning of their own in a Link header or in a
    URL: the client does not unescape, and the server does not escape. *)
Definition reserved : list ascii := ["<"; ">"; "?"; "&"; "="; "%"; "+"; ";"; "#"; " "]%char.
Definition unreserved (s : string) : bool := forallb (fun c => no_char c s) reserved.

(** The values of a query, by key and in order. *)
Definition add_value (m : gmap string (list string)) (kv : string * string) : gmap string (list string) :=
  <[kv.1 := default [] (m !! kv.1) ++ [kv.2]]> m.
Definition read_query (s : string) : option (gmap string (list string)) :=
  kvs ← mapM (fun part => '(k, v) ← Cut "=" part; if unreserved k && unreserved v then Some (k, v) else None) (split_on "&" s);
  Some (foldl add_value ∅ kvs).

(** The target of a link to the next page, as its path and its query. *)
Definition read_target (value : string) : option (string * gmap string (list string)) :=
  match value with
  | String "<" value =>
      '(target, params) ← Cut ">" value;
      let quote := String (ascii_of_nat 34) "" in
      if bool_decide (params = "; rel=" ++ quote ++ "next" ++ quote)%string then
        '(p, query) ← Cut "?" target; m ← read_query query; Some (p, m)
      else None
  | _ => None
  end.

(** The query of a page. *)
Definition page_values (n last : string) : gmap string (list string) :=
  if decide (last = "") then {["n" := [n]]} else {["n" := [n]; "last" := [last]]}.

Section client.
Context `{CelEngine}.

Definition with_query (m : gmap string (list string)) (q : request) : request :=
  mkApiRequest _ (q_method q) (q_vars q) m (q_header q) (q_contentLength q) (q_body q) (q_path q) (q_ctx q) (q_userAc q).
(** The request for the page after [last]. *)
Definition page_query (n last : string) (q : request) : request :=
  with_query (page_values n last) q.

(** The request that a link asks for, which goes to the same handler when its
    path is the one the client asked for before. *)
Definition read_link (q : request) (value : string) : option request :=
  '(p, m) ← read_target value; if bool_decide (p = path_str (q_path q)) then Some (with_query m q) else None.

Definition entries (body : payload) : option (list string) :=
  match body with TagList _ l => Some l | RepositoryList l => Some l | _ => None end.

(** A page, and the request for the next one that its Link header gives;
    [None] when the answer is no page or its link cannot be read. *)
Definition read_page (q : request) (r : res response) : option (list string * option request) :=
  match r with
  | Ok (mkResponse status headers body) =>
      if bool_decide (status = 200%Z) then
        l ← entries body;
        match list_to_map (M := gmap string string) headers !! "Link" with
        | None => Some (l, None)
        | Some value => q' ← read_link q value; Some (l, Some q')
        end
      else None
  | Err _ => None
  end.

(** A client that asks, and goes on with what the link gives. *)
Fixpoint follow_links (ask : request -> res response) (fuel : nat) (q : request) : option (list string) :=
  match fuel with
  | 0 => None
  | S fuel =>
      '(page, next) ← read_page q (ask q);
      match next with
      | Some q' => rest ← follow_links ask fuel q'; Some (page ++ rest)
      | None => Some page
      end
  end.
End client.

(** ** Reading what the server wrote *)
Lemma Cut_app c a b : no_char c a = true -> Cut c (a ++ String c b)%string = Some (a, b).
Proof.
  induction a as [|d a IH]; simpl; [by rewrite decide_True|]. destruct (decide (d = c)); [done|].
  intros Ha. by rewrite IH.
Qed.
Lemma no_char_app c a b : no_char c (a ++ b)%string = no_char c a && no_char c b.
Proof. induction a as [|d a IH]; simpl; [done|]. by destruct (decide (d = c)). Qed.
Lemma unreserved_no_char s c : unreserved s = true -> c ∈ reserved -> no_char c s = true.
Proof. unfold unreserved. rewrite forallb_forall. intros Hs Hc. by apply Hs, list_elem_of_In. Qed.
Lemma unreserved_app a b : unreserved (a ++ b)%string = unreserved a && unreserved b.
Proof.
  unfold unreserved. induction reserved as [|c l IH]; [done|]. cbn [forallb]. rewrite IH, no_char_app.
  by destruct (no_char c a), (no_char c b), (forallb (fun c => no_char c a) l), (forallb (fun c => no_char c b) l).
Qed.
Lemma digits_unreserved s : digits_only s = true -> unreserved s = true.
Proof.
  intros Hs. apply forallb_forall. intros c Hc. unfold digits_only in Hs. induction s as [|d s IH]; [done|].
  simpl in Hs. apply andb_prop in Hs as [Hd Hs]. simpl. rewrite decide_False; [by apply IH|]. intros ->.
  apply list_elem_of_In in Hc. unfold reserved in Hc. repeat (apply elem_of_cons in Hc as [->|Hc]; [by vm_compute in Hd|]).
  by apply not_elem_of_nil in Hc.
Qed.

Lemma read_query_page a b : unreserved a = true -> unreserved b = true -> b <> "" ->
  read_query ("n=" ++ a ++ "&last=" ++ b) = Some (page_values a b).
Proof.
  intros Ha Hb Hne. pose proof (unreserved_no_char a "&" Ha ltac:(vm_compute; set_solver)) as Ha'.
  pose proof (unreserved_no_char b "&" Hb ltac:(vm_compute; set_solver)) as Hb'.
  change ("n=" ++ a ++ "&last=" ++ b)%string with (("n=" ++ a) ++ String "&" ("last=" ++ b))%string.
  unfold read_query. rewrite split_on_app, !split_on_no_char by done.
  change ("n=" ++ a)%string with ("n" ++ String "=" a)%string. change ("last=" ++ b)%string with ("last" ++ String "=" b)%string.
  change ([("n" ++ String "=" a)%string] ++ [("last" ++ String "=" b)%string]) with [("n" ++ String "=" a)%string; ("last" ++ String "=" b)%string].
  cbn [mapM]. rewrite !Cut_app by done. cbn [mbind option_bind]. rewrite Ha, Hb. cbn [andb mret option_ret].
  change (unreserved "n") with true. change (unreserved "last") with true. cbn [andb mbind option_bind mret option_ret]. f_equal.
  unfold page_values. rewrite decide_False by done. apply map_eq. intros k. unfold add_value. simpl.
  destruct (decide (k = "n")) as [->|]; [by simplify_map_eq|]. destruct (decide (k = "last")) as [->|]; by simplify_map_eq.
Qed.

Lemma read_target_link p query : no_char ">" p = true -> no_char "?" p = true -> no_char ">" query = true ->
  read_target (snd (link (p ++ String "?" query))) = (m ← read_query query; Some (p, m)).
Proof.
  intros Hp Hq Hr. unfold link, read_target. cbn [snd]. set (quote := String (ascii_of_nat 34) "").
  change ("<" ++ (p ++ String "?" query) ++ ">; rel=" ++ quote ++ "next" ++ quote)%string
    with (String "<" ((p ++ String "?" query) ++ String ">" ("; rel=" ++ quote ++ "next" ++ quote)))%string.
  cbv iota. rewrite Cut_app by (rewrite no_char_app, Hp; done). cbn [mbind option_bind].
  rewrite bool_decide_eq_true_2 by done. by rewrite Cut_app.
Qed.

(** The link of a page leads to the request for what follows its last entry. *)
Lemma read_link_next `{CelEngine} (q : request) n last : (0 < n)%Z -> last <> "" -> unreserved last = true ->
  unreserved (path_str (q_path q)) = true ->
  read_link q (snd (link (path_str (q_path q) ++ "?n=" ++ FormatInt n ++ "&last=" ++ last))) =
  Some (page_query (FormatInt n) last q).
Proof.
  intros Hn Hl Hul Hup. pose proof (digits_unreserved _ (FormatInt_digits n Hn)) as Hun. unfold read_link.
  change (path_str (q_path q) ++ "?n=" ++ FormatInt n ++ "&last=" ++ last)%string
    with (path_str (q_path q) ++ String "?" ("n=" ++ FormatInt n ++ "&last=" ++ last))%string.
  rewrite read_target_link.
  - rewrite read_query_page by done. simpl. by rewrite bool_decide_eq_true_2.
  - apply unreserved_no_char; [done|]. vm_compute. set_solver.
  - apply unreserved_no_char; [done|]. vm_compute. set_solver.
  - assert (">"%char ∈ reserved) as Hgt by (vm_compute; set_solver).
    by rewrite !no_char_app, (unreserved_no_char (FormatInt n) ">" Hun Hgt), (unreserved_no_char last ">" Hul Hgt).
Qed.

Lemma read_page_more `{CelEngine} (q q' : request) target body l :
  entries body = Some l -> read_link q (snd (link target)) = Some q' ->
  read_page q (Ok (mkResponse 200 [link target] body)) = Some (l, Some q').
Proof.
  intros El Eq. unfold read_page. rewrite bool_decide_eq_true_2, El by done.
  assert (list_to_map (M := gmap string string) [link target] !! "Link" = Some (snd (link target))) as -> by (unfold link; simpl; by simplify_map_eq).
  cbn [mbind option_bind]. by rewrite Eq.
Qed.

Section pages.
Context (L : list string) (f : string -> bool) (n : nat) (HL : NoDup L) (Hempty : "" ∉ L) (Hn : 0 < n).
Local Notation left_of last := (filter (fun r => f r = true) (following last L)).

Lemma after_filtered r xs ys : forall l, NoDup l -> filter (fun r => f r = true) l = xs ++ r :: ys ->
  filter (fun r => f r = true) (after r l) = ys.
Proof.
  revert xs. intros xs l. revert xs. induction l as [|x l IH]; intros xs Hnd E; [by destruct xs|].
  apply NoDup_cons in Hnd as [Hx Hnd].
  assert (r ∈ filter (fun r => f r = true) (x :: l)) as Hr by (rewrite E; apply elem_of_app; right; by left).
  rewrite filter_cons in E. simpl. destruct (decide (x = r)) as [->|Hne].
  - apply list_elem_of_filter in Hr as [Hf _]. rewrite decide_True in E by done. destruct xs as [|y xs]; [by injection E|].
    injection E as <- E. exfalso. apply Hx. assert (r ∈ filter (fun r => f r = true) l) as Hin.
    { rewrite E. apply elem_of_app. right. by left. } by apply list_elem_of_filter in Hin as [_ ?].
  - destruct (decide (f x = true)); [|by apply (IH xs)]. destruct xs as [|y xs]; [by injection E as ->|].
    injection E as _ E. by apply (IH xs).
Qed.

Lemma following_suffix last : exists pre, L = pre ++ following last L.
Proof.
  unfold following. destruct (decide _); [by exists []|]. clear HL Hempty.
  induction L as [|r l (pre&E)]; [by exists []|]. simpl. destruct (decide _); [by exists [r]|].
  exists (r :: pre). simpl. by f_equal.
Qed.

Lemma after_app r pre l : r ∉ pre -> after r (pre ++ l) = after r l.
Proof.
  induction pre as [|x pre IH]; [done|]. rewrite not_elem_of_cons. intros [Hx Hp]. simpl.
  rewrite decide_False by congruence. by apply IH.
Qed.

(** After a full page, its last entry is where the next one starts. *)
Lemma following_page last : (n <= length (left_of last))%nat ->
  exists r, list.last (take n (left_of last)) = Some r /\ r ∈ L /\ left_of r = drop n (left_of last).
Proof.
  intros Hle. destruct n as [|n']; [lia|].
  destruct (lookup_lt_is_Some_2 (left_of last) n') as [r Er]; [lia|].
  assert (left_of last = take n' (left_of last) ++ r :: drop (S n') (left_of last)) as E by by rewrite take_drop_middle.
  destruct (following_suffix last) as (pre&EL).
  assert (r ∈ following last L) as Hin.
  { apply list_elem_of_lookup_2 in Er. by apply list_elem_of_filter in Er as [_ ?]. }
  assert (r ∈ L) as HrL by (rewrite EL; apply elem_of_app; by right).
  exists r. split; [by erewrite take_S_r, last_snoc|]. split; [done|].
  assert (r <> "") by (intros ->; done). unfold following at 1. rewrite decide_False by done.
  pose proof HL as Hnd. rewrite EL in Hnd. apply NoDup_app in Hnd as (_&Hdis&Hnd).
  rewrite EL at 1. rewrite after_app by (intros Hp; by apply (Hdis r)). by eapply after_filtered.
Qed.

Lemma follow_links_all `{CelEngine} ask (req : string -> string -> request) (ok : string -> Prop) next : ok next ->
  (forall ns last, ok ns -> last = "" \/ last ∈ L -> let rest := left_of last in exists more : bool,
     read_page (req ns last) (ask (req ns last)) =
       Some (take n rest, if more then Some (req next (default "" (list.last (take n rest)))) else None) /\
     (more = true -> n <= length rest)%nat /\ (more = false -> length rest <= n)%nat) ->
  forall fuel ns last, ok ns -> last = "" \/ last ∈ L -> (length (left_of last) < fuel)%nat ->
  follow_links ask fuel (req ns last) = Some (left_of last).
Proof.
  intros Hnext Hf. induction fuel as [|fuel IH]; intros ns last Hns Hl Hlt; [lia|]. simpl.
  destruct (Hf ns last Hns Hl) as (more&->&Ht&Hfl). simpl. destruct more; simpl.
  - destruct (following_page last) as (r&Er&Hr&Ed); [by apply Ht|]. rewrite Er. simpl.
    rewrite IH; [|done|by right|].
    + simpl. by rewrite Ed, take_drop.
    + rewrite Ed, length_drop. specialize (Ht eq_refl). lia.
  - by rewrite take_ge by by apply Hfl.
Qed.

End pages.

(** ** Tags *)

Lemma sorted_tags_perm tags : merge_sort str_le tags ≡ₚ tags.
Proof. apply merge_sort_Permutation. Qed.

Lemma indexOf_spec last l : NoDup l ->
  match indexOf last l with Some i => l !! i = Some last | None => last ∉ l end.
Proof.
  intros Hnd. unfold indexOf. destruct (list_find _ l) as [[i x]|] eqn:E; simpl.
  - apply list_find_Some in E as (Hi&->&_). done.
  - apply list_find_None in E. intros Hin. rewrite Forall_forall in E. by apply (E last).
Qed.

(** A page of tags is the first [n] after [last], and more is announced when
    some are left. *)
Lemma tags_page_spec tags n last : NoDup tags -> "" ∉ tags -> (0 < n)%Z -> (n + Z.of_nat (length tags) < 2 ^ 63)%Z ->
  last = "" \/ last ∈ tags ->
  let rest := following last (merge_sort str_le tags) in
  tags_page tags (Some n) last = Some (Ok (take (Z.to_nat n) rest, bool_decide (n < Z.of_nat (length rest))%Z)).
Proof.
  intros Hnd Hne Hn Hb Hl rest. unfold tags_page.
  assert (NoDup (merge_sort str_le tags)) as Hnd' by by rewrite sorted_tags_perm.
  assert (length (merge_sort str_le tags) = length tags) as Hlen by by rewrite sorted_tags_perm.
  assert (exists i, (if bool_decide (last = "") then Some 0 else S <$> indexOf last (merge_sort str_le tags)) = Some i /\
    (i <= length tags)%nat /\ rest = drop i (merge_sort str_le tags)) as (i&->&Hi&->).
  { subst rest. unfold following. case_bool_decide as El; [rewrite decide_True by done; exists 0; split_and!; [done|lia|done]|].
    rewrite decide_False by done. destruct Hl as [|Hl]; [done|]. rewrite <-(sorted_tags_perm tags) in Hl.
    pose proof (indexOf_spec last _ Hnd') as Hi. destruct (indexOf last _) as [i|]; [|done]. exists (S i).
    split_and!; [done| |by apply after_lookup]. apply lookup_lt_Some in Hi. lia. }
  simpl. rewrite length_drop, Hlen. destruct n as [|p|p]; [lia| |lia]. rewrite !int64_small by (rewrite ?int64_small; lia).
  destruct (Z.ltb_spec (Z.of_nat i + Z.pos p) (Z.of_nat (length tags))).
  - rewrite bool_decide_eq_true_2 by lia. destruct (Z.ltb_spec (Z.of_nat i + Z.pos p - 1) 0); [lia|].
    destruct (Z.leb_spec (Z.of_nat (length tags)) (Z.of_nat i + Z.pos p - 1)); [lia|]. simpl. do 3 f_equal.
    rewrite take_drop_commute. do 2 f_equal. lia.
  - rewrite bool_decide_eq_false_2 by lia. rewrite take_ge; [done|]. rewrite length_drop, Hlen. lia.
Qed.

(** A store put back unchanged. *)
Lemma set_same {S M} name (rg : registry S M) : set_image_store name (GetImageStore rg name) rg = rg.
Proof.
  unfold set_image_store, GetImageStore. destruct rg as [d [subs|] m e]; simpl; [|done].
  unfold substore_of. simpl. destruct (subs !! GetRoutePrefix name) as [s|] eqn:E; simpl; [|done].
  rewrite E. simpl. by rewrite insert_id.
Qed.

Section tags.
Context `{CelEngine} {S M : Type} `{ApiStoreI S}.
Context (rg : registry S M) (q : request) (name : string) (tags : list string) (n : Z) (ns : string).
Hypothesis Hname : var q "name" = Some name.
Hypothesis Hmethod : q_method q <> "OPTIONS".
Hypothesis Hn : ParseInt ns = Some n.
Hypothesis Htags : as_GetImageTags name (GetImageStore rg name) = (Ok tags, GetImageStore rg name).

Lemma tags_read : try (on_store name (as_GetImageTags name)) rg = (Ok (Ok tags), rg).
Proof. unfold try, on_store, zoom. rewrite Htags. by rewrite set_same. Qed.

Lemma ListTags_page last : (0 <= n)%Z ->
  ListTags (page_query ns last q) rg =
    match tags_page tags (Some n) last with
    | None => (Ok (mkResponse 404 [] NoBody), rg)
    | Some (Err e) => (Err e, rg)
    | Some (Ok (page, more)) =>
        (Ok (mkResponse 200
          (if (more : bool) then [link ("/v2/" ++ name ++ "/tags/list?n=" ++ FormatInt n ++ "&last=" ++ default "" (list.last page))%string] else [])
          (TagList name page)), rg)
    end.
Proof.
  intros Hn0. unfold ListTags. change (q_method (page_query ns last q)) with (q_method q).
  rewrite bool_decide_eq_false_2 by done. change (var (page_query ns last q) "name") with (var q "name"). rewrite Hname.
  change (q_query (page_query ns last q)) with (page_values ns last).
  assert (page_values ns last !! "n" = Some [ns]) as -> by (unfold page_values; destruct (decide _); by simplify_map_eq).
  assert (page_values ns last !! "last" = if decide (last = "") then None else Some [last]) as ->
    by (unfold page_values; destruct (decide _); by simplify_map_eq).
  cbv zeta. rewrite Hn. simpl. destruct (Z.ltb_spec n 0); [lia|].
  assert (match (if decide (last = "") then None else Some [last]) with None => Some "" | Some [l] => Some l | Some _ => None end = Some last)
    as -> by by destruct (decide (last = "")) as [->|].
  unfold bind at 1. rewrite tags_read. destruct (tags_page tags (Some n) last) as [[[page more]|e]|]; [|done..].
  by destruct more.
Qed.
End tags.

(** The answers of the handler. *)
Definition ask_tags `{CelEngine} {S M : Type} `{ApiStoreI S} (rg : registry S M) (q : request) : res response :=
  fst (recovered (ListTags q) rg).

Section tag_answers.
Context `{CelEngine} {S M : Type} `{ApiStoreI S}.
Context (rg : registry S M) (q : request) (name : string) (tags : list string).

(** C26 The pages of tags make up the sorted tags of the repository: each page
    is the first [n] tags after the last one of the page before, it has a
    link exactly when tags are left, the target of the link is the request
    for what follows the page, and a client that reads the links and follows
    them gets every tag once and comes to an end. The page size is positive,
    and with the number of tags it stays below 2^63; the names hold no
    character that a URL reserves (zot writes them into the link as they
    are). *)
Theorem tag_pages_complete ns n : var q "name" = Some name -> q_method q <> "OPTIONS" ->
  as_GetImageTags name (GetImageStore rg name) = (Ok tags, GetImageStore rg name) ->
  path_str (q_path q) = ("/v2/" ++ name ++ "/tags/list")%string -> unreserved name = true -> Forall (fun t => unreserved t = true) tags ->
  ParseInt ns = Some n -> NoDup tags -> "" ∉ tags -> (0 < n)%Z -> (n + Z.of_nat (length tags) < 2 ^ 63)%Z ->
  (forall last, last = "" \/ last ∈ tags ->
     let q' := page_query ns last q in let rest := following last (merge_sort str_le tags) in let page := take (Z.to_nat n) rest in
     read_page q' (ask_tags rg q') =
       Some (page, if bool_decide (n < Z.of_nat (length rest))%Z then Some (page_query (FormatInt n) (default "" (list.last page)) q) else None)) /\
  follow_links (ask_tags rg) (Datatypes.S (length tags)) (page_query ns "" q) = Some (merge_sort str_le tags).
Proof.
  intros Hname Hm Htags Hpath Hun Hut Hns Hnd Hne Hpos Hb. pose proof (sorted_tags_perm tags) as Hp.
  assert (forall ns last, ParseInt ns = Some n -> last = "" \/ last ∈ tags ->
     let q' := page_query ns last q in let rest := following last (merge_sort str_le tags) in let page := take (Z.to_nat n) rest in
     read_page q' (ask_tags rg q') =
       Some (page, if bool_decide (n < Z.of_nat (length rest))%Z then Some (page_query (FormatInt n) (default "" (list.last page)) q) else None)) as Hf.
  { clear ns Hns. intros ns last Hns Hl q' rest page. unfold ask_tags, recovered, bind, try.
    subst q'. erewrite ListTags_page by (done || lia). rewrite (tags_page_spec tags n last) by done. fold rest page.
    destruct (bool_decide (n < _)%Z) eqn:Emore; [|done]. apply bool_decide_eq_true_1 in Emore.
    destruct (following_page (merge_sort str_le tags) (fun _ => true) (Z.to_nat n)) with (last := last) as (r&Er&Hr&_);
      [by rewrite Hp|by rewrite Hp|lia|rewrite filter_all by done; fold rest; lia|].
    rewrite filter_all in Er by done. fold rest page in Er. rewrite Er. cbn [fst ret default].
    assert (r ∈ tags) as Hrt by (by rewrite <-Hp). apply read_page_more; [done|].
    etransitivity; [|apply (read_link_next (page_query ns last q) n r Hpos); change (q_path (page_query ns last q)) with (q_path q)].
    - change (q_path (page_query ns last q)) with (q_path q). by rewrite Hpath, !string_app_assoc.
    - by intros ->.
    - by eapply Forall_forall in Hut.
    - by rewrite Hpath, !unreserved_app, Hun. }
  split; [by intros last; apply Hf|].
  rewrite (follow_links_all (merge_sort str_le tags) (fun _ => true) (Z.to_nat n)) with
    (req := fun ns last => page_query ns last q) (ok := fun ns => ParseInt ns = Some n) (next := FormatInt n).
  - by rewrite filter_all by (intros; done).
  - by rewrite Hp.
  - by rewrite Hp.
  - lia.
  - apply ParseInt_FormatInt. lia.
  - intros ns' last Hns' Hl rest. rewrite Hp in Hl. eexists. rewrite (Hf ns' last Hns' Hl).
    assert (rest = following last (merge_sort str_le tags)) as -> by (subst rest; by rewrite filter_all by (intros; done)).
    split; [done|]. split; intros Hd; [apply bool_decide_eq_true_1 in Hd; lia|apply bool_decide_eq_false_1 in Hd; lia].
  - done.
  - by left.
  - rewrite filter_all by (intros; done). unfold following. rewrite decide_True by done. rewrite Hp. lia.
Qed.

(** A page size close to the largest integer, with a tag to start after,
    makes the sum in ListTags wrap around: the index is out of range, the
    handler panics and the answer is 500, though the request is valid and the
    tag exists. *)
Theorem huge_page_panics ns n last i : var q "name" = Some name -> q_method q <> "OPTIONS" -> ParseInt ns = Some n ->
  as_GetImageTags name (GetImageStore rg name) = (Ok tags, GetImageStore rg name) -> merge_sort str_le tags !! i = Some last -> NoDup tags -> last <> "" ->
  (n < 2 ^ 63 <= n + Z.of_nat (Datatypes.S i))%Z -> (Z.of_nat (length tags) < 2 ^ 62)%Z ->
  ask_tags rg (page_query ns last q) = Ok (mkResponse 500 [] NoBody).
Proof.
  intros Hname Hm Hns Htags Hi Hnd Hl Hb Hlen. unfold ask_tags, recovered, bind, try.
  assert (NoDup (merge_sort str_le tags)) as Hnd' by by rewrite sorted_tags_perm.
  assert (length (merge_sort str_le tags) = length tags) as Hlen' by by rewrite sorted_tags_perm.
  pose proof (lookup_lt_Some _ _ _ Hi) as Hlt. erewrite ListTags_page by (done || lia). unfold tags_page.
  rewrite bool_decide_eq_false_2 by done. pose proof (indexOf_spec last _ Hnd') as Hx.
  destruct (indexOf last (merge_sort str_le tags)) as [j|]; [|by apply list_elem_of_lookup_2 in Hi].
  assert (j = i) as -> by by eapply NoDup_lookup. simpl. destruct n as [|p|p]; [lia| |lia].
  assert (int64 (Z.of_nat (Datatypes.S i) + Z.pos p) = Z.of_nat (Datatypes.S i) + Z.pos p - 2 ^ 64)%Z as Hw.
  { unfold int64. replace (Z.of_nat (Datatypes.S i) + Z.pos p + 2 ^ 63)%Z with ((Z.of_nat (Datatypes.S i) + Z.pos p - 2 ^ 63) + 1 * 2 ^ 64)%Z by lia.
    rewrite Z.mod_add by lia. rewrite Z.mod_small by lia. lia. }
  assert (let stopIndex := int64 (Z.of_nat (Datatypes.S i) + Z.pos p - 2 ^ 64 - 1) in
    (stopIndex < 0 \/ Z.of_nat (length tags) <= stopIndex)%Z) as Hx'.
  { cbv zeta. destruct (decide (Z.of_nat (Datatypes.S i) + Z.pos p = 2 ^ 63)%Z) as [->|]; [right|left].
    { assert (int64 (2 ^ 63 - 2 ^ 64 - 1) = 2 ^ 63 - 1)%Z as -> by reflexivity. lia. }
    rewrite int64_small; lia. }
  rewrite Hw, Hlen'. destruct (Z.ltb_spec (Z.of_nat (Datatypes.S i) + Z.pos p - 2 ^ 64) (Z.of_nat (length tags))); [|lia].
  destruct (Z.ltb_spec (int64 (Z.of_nat (Datatypes.S i) + Z.pos p - 2 ^ 64 - 1)) 0); [done|].
  destruct (Z.leb_spec (Z.of_nat (length tags)) (int64 (Z.of_nat (Datatypes.S i) + Z.pos p - 2 ^ 64 - 1))); [done|].
  cbv zeta in Hx'. lia.
Qed.
End tag_answers.

(** ** Repositories *)

(** What a store lists, as GetNextRepositories gives it in pages. *)
Class Listed (S : Type) `{ApiStoreI S} (good : S -> Prop) := {
  listing : S -> list string;
  listing_NoDup : forall s, good s -> NoDup (listing s);
  listing_names : forall s, good s -> "" ∉ listing s;
  listing_page : forall s last max f, good s -> max <> 0%Z ->
    let rest := filter (fun r => f r = true) (following last (listing s)) in
    as_GetNextRepositories last max (fun r => Ok (f r)) s =
      (Ok (if (max <? 0)%Z then (rest, false)
           else (take (Z.to_nat max) rest, bool_decide (max <= Z.of_nat (length rest))%Z)), s)
}.

Section catalog.
Context `{CelEngine} `{MapIter} `{!MapIterLaws} `{Glob} {S M : Type} `{ApiStoreI S} (good : S -> Prop) `{!Listed S good}.
Context (rg : registry S M) (Hgood : all_stores good rg).

(** The keys of the substores in the order of the handler, and the store of a
    key. *)
Definition substore_keys : list string :=
  merge_sort str_le (match SubStore rg with Some subs => fst <$> map_iter subs | None => [] end).
Definition store_at (key : option string) : S :=
  match key with Some k => default (DefaultStore rg) (subs ← SubStore rg; subs !! k) | None => DefaultStore rg end.
Definition listed_at (key : option string) : list string := listing (store_at key).
Definition catalogue : list string := listed_at None ++ (substore_keys ≫= fun k => listed_at (Some k)).

(** Each store lists the repositories that the controller looks for in it. *)
Definition routed : Prop :=
  (forall r, r ∈ listed_at None -> GetStorePath rg r = DefaultStorePath) /\
  (forall k r, k ∈ substore_keys -> r ∈ listed_at (Some k) -> GetStorePath rg r = k) /\
  DefaultStorePath ∉ substore_keys.
Hypothesis Hrouted : routed.

Lemma substore_keys_NoDup : NoDup substore_keys.
Proof.
  unfold substore_keys. rewrite merge_sort_Permutation. destruct (SubStore rg) as [subs|]; [|constructor].
  rewrite map_iter_perm. apply NoDup_fst_map_to_list.
Qed.
Lemma substore_key k : k ∈ substore_keys -> exists subs s, SubStore rg = Some subs /\ subs !! k = Some s.
Proof.
  unfold substore_keys. rewrite merge_sort_Permutation. destruct (SubStore rg) as [subs|]; [|by intros ?%not_elem_of_nil].
  intros ([k' s]&->&Hin)%list_elem_of_fmap. rewrite map_iter_perm in Hin. apply elem_of_map_to_list in Hin.
  by exists subs, s.
Qed.

Lemma store_at_good key : (forall k, key = Some k -> k ∈ substore_keys) -> good (store_at key).
Proof.
  destruct Hgood as [Hd Hs]. intros Hk. destruct key as [k|]; [|done].
  destruct (substore_key k (Hk k eq_refl)) as (subs&s&Es&Ek). simpl. rewrite Es. simpl. rewrite Ek. by eapply Hs.
Qed.

Context (q : request).
Local Notation f := (fun r => Can (q_userAc q) ReadPermission r).
Local Notation readable l := (filter (fun r => Can (q_userAc q) ReadPermission r = true) l).
Definition key_ok (key : option string) : Prop := forall k, key = Some k -> k ∈ substore_keys.

Lemma on_key_run {A} key (m : ST S A) a : key_ok key -> m (store_at key) = (Ok a, store_at key) -> on_key key m rg = (Ok a, rg).
Proof.
  intros Hk Hm. unfold on_key. destruct key as [k|]; simpl in *.
  - destruct (substore_key k (Hk k eq_refl)) as (subs&s&Es&Ek). rewrite Es in *. simpl in *. rewrite Ek in *. simpl in *.
    rewrite Hm, insert_id by done. destruct rg; simpl in *. by subst.
  - rewrite Hm. by destruct rg.
Qed.

(** One store: its page, or all of it. *)
Lemma list_store_run key c : key_ok key -> ct_remainder c <> 0%Z ->
  let rest := readable (following (ct_last c) (listed_at key)) in let len := Z.of_nat (length rest) in
  list_store q key c rg = (Ok (
    if (0 <? ct_remainder c)%Z && bool_decide (ct_remainder c <= len)%Z
    then mkCatalog (default "" (list.last (take (Z.to_nat (ct_remainder c)) rest))) 0 true
           (ct_repos c ++ take (Z.to_nat (ct_remainder c)) rest)
    else mkCatalog "" (ct_remainder c - len) false (ct_repos c ++ rest)), rg).
Proof.
  intros Hk Hr rest len. unfold list_store, bind.
  change (AuthzFilterFunc (Some (q_userAc q))) with (fun r => Ok (f r)).
  rewrite (on_key_run key _ _ Hk (listing_page (store_at key) (ct_last c) (ct_remainder c) f (store_at_good key Hk) Hr)).
  fold (listed_at key). fold rest. destruct (Z.ltb_spec (ct_remainder c) 0).
  - destruct (Z.ltb_spec 0 (ct_remainder c)); [lia|]. done.
  - destruct (Z.ltb_spec 0 (ct_remainder c)); [|lia]. fold len. case_bool_decide as Hle; simpl.
    + rewrite length_take, Nat.min_l by lia. rewrite Z2Nat.id by lia. rewrite Z.sub_diag. done.
    + rewrite take_ge by lia. done.
Qed.

(** Once a page is full, the stores that are left are passed over. *)
Lemma list_substores_skip n storePath ks c : ct_last c <> "" -> storePath ∉ ks ->
  list_substores q n storePath ks c rg = (Ok c, rg).
Proof.
  intros Hl. induction ks as [|k ks IH]; [done|]. rewrite not_elem_of_cons. intros [Hk Hks]. simpl.
  rewrite (bool_decide_eq_false_2 (ct_last c = "")), (bool_decide_eq_false_2 (k = storePath)) by (done || congruence).
  simpl. by apply IH.
Qed.

Definition all_readable (ks : list string) : list string := ks ≫= fun k => readable (listed_at (Some k)).

Lemma last_readable key last m : (0 < m)%Z -> key_ok key ->
  (m <= Z.of_nat (length (readable (following last (listed_at key)))))%Z ->
  default "" (list.last (take (Z.to_nat m) (readable (following last (listed_at key))))) <> "".
Proof.
  intros Hm Hk Hle. pose proof (store_at_good key Hk) as Hg.
  destruct (following_page (listed_at key) f (Z.to_nat m) (listing_NoDup _ Hg) (listing_names _ Hg) ltac:(lia) last ltac:(lia)) as (r&Er&Hr&_).
  rewrite Er. simpl. intros ->. by apply (listing_names _ Hg).
Qed.

Definition ends_as (r : res catalog * registry S M) (repos : list string) (more : bool) : Prop :=
  exists c, r = (Ok c, rg) /\ ct_repos c = repos /\ ct_more c = more.

Lemma list_substores_run n storePath ks : storePath ∉ ks -> Forall (fun k => k ∈ substore_keys) ks ->
  forall c, ct_last c = "" -> ct_more c = false -> (0 < ct_remainder c \/ ct_remainder c < 0 /\ n = -1)%Z ->
  let m := ct_remainder c in let len := Z.of_nat (length (all_readable ks)) in
  ends_as (list_substores q n storePath ks c rg)
    (ct_repos c ++ (if (0 <? m)%Z then take (Z.to_nat m) (all_readable ks) else all_readable ks))
    ((0 <? m)%Z && bool_decide (m <= len)%Z).
Proof.
  intros Hs Hks. induction ks as [|k ks IH]; intros c Hl Hm Hr; simpl.
  { exists c. split; [done|]. simpl. rewrite take_nil. split; [by destruct (_ <? _)%Z; rewrite app_nil_r|].
    rewrite Hm. destruct (Z.ltb_spec 0 (ct_remainder c)); [|done]. by rewrite bool_decide_eq_false_2 by lia. }
  apply not_elem_of_cons in Hs as [Hsk Hs]. apply Forall_cons in Hks as [Hk Hks].
  rewrite (bool_decide_eq_true_2 (ct_last c = "")) by done. simpl.
  assert ((0 <? ct_remainder c)%Z || (n =? -1)%Z = true) as -> by lia.
  assert (key_ok (Some k)) as Hko by (by intros ? [= <-]).
  unfold bind. rewrite (list_store_run (Some k) c Hko) by lia. rewrite Hl. unfold following at 1 2 3 4. simpl.
  unfold all_readable. csimpl. fold (all_readable ks). set (R := readable (listed_at (Some k))).
  pose proof (last_readable (Some k) "" (ct_remainder c)) as Hlast. unfold following in Hlast. simpl in Hlast. fold R in Hlast.
  destruct (Z.ltb_spec 0 (ct_remainder c)); simpl.
  - case_bool_decide as Hle.
    + rewrite list_substores_skip; [|apply Hlast; [lia|done|done]|done]. eexists. split; [done|]. simpl.
      rewrite take_app_le by lia. split; [done|]. by rewrite bool_decide_eq_true_2 by (rewrite length_app; lia).
    + destruct (IH Hs Hks (mkCatalog "" (ct_remainder c - Z.of_nat (length R)) false (ct_repos c ++ R))) as (c'&E&Er&Em);
        [done..|left; simpl; lia|]. exists c'. split; [done|]. simpl in Er, Em. rewrite Er, Em.
      destruct (Z.ltb_spec 0 (ct_remainder c - Z.of_nat (length R))); [|lia].
      rewrite (take_app_ge R) by lia. rewrite <-app_assoc. split.
      * do 3 f_equal. lia.
      * apply bool_decide_ext. rewrite length_app. lia.
  - destruct (IH Hs Hks (mkCatalog "" (ct_remainder c - Z.of_nat (length R)) false (ct_repos c ++ R))) as (c'&E&Er&Em);
      [done..|right; simpl; lia|]. exists c'. split; [done|]. simpl in Er, Em. rewrite Er, Em.
    destruct (Z.ltb_spec 0 (ct_remainder c - Z.of_nat (length R))); [lia|]. by rewrite <-app_assoc.
Qed.

(** Repositories of different stores have different names. *)
Lemma keys_disjoint k k' r : k ∈ substore_keys -> r ∈ listed_at (Some k) -> k' ∈ substore_keys -> r ∈ listed_at (Some k') -> k = k'.
Proof. destruct Hrouted as (_&Hs&_). intros ????. by rewrite <-(Hs k r), <-(Hs k' r). Qed.
Lemma default_disjoint k r : r ∈ listed_at None -> k ∈ substore_keys -> r ∉ listed_at (Some k).
Proof. destruct Hrouted as (Hd&Hs&Hn). intros Hr Hk Hr'. apply Hn. by rewrite <-(Hd r Hr), (Hs k r). Qed.

Lemma listed_subs_NoDup ks : NoDup ks -> Forall (fun k => k ∈ substore_keys) ks -> NoDup (ks ≫= fun k => listed_at (Some k)).
Proof.
  induction 1 as [|k ks Hk Hnd IH]; intros Hf; csimpl; [constructor|]. apply Forall_cons in Hf as [Hkk Hf].
  apply NoDup_app. split_and!; [apply listing_NoDup, store_at_good; by intros ? [= <-]| |by apply IH].
  intros r Hr (k'&Hr'&Hk')%list_elem_of_bind. rewrite Forall_forall in Hf.
  by rewrite (keys_disjoint k k' r Hkk Hr (Hf k' Hk') Hr') in Hk.
Qed.
Lemma all_keys : Forall (fun k => k ∈ substore_keys) substore_keys.
Proof. by apply Forall_forall. Qed.
Lemma catalogue_NoDup : NoDup catalogue.
Proof.
  apply NoDup_app. split_and!; [by apply listing_NoDup, store_at_good| |].
  - intros r Hr (k&Hr'&Hk)%list_elem_of_bind. by apply (default_disjoint k r).
  - apply listed_subs_NoDup; [apply substore_keys_NoDup|apply all_keys].
Qed.
Lemma catalogue_names : "" ∉ catalogue.
Proof.
  unfold catalogue. rewrite elem_of_app. intros [Hr|(k&Hr&Hk)%list_elem_of_bind].
  - by eapply listing_names; [|exact Hr]; apply store_at_good.
  - by eapply listing_names; [|exact Hr]; apply store_at_good; intros ? [= <-].
Qed.

Lemma after_app_l r pre l : r ∈ pre -> after r (pre ++ l) = after r pre ++ l.
Proof.
  induction pre as [|x pre IH]; [by intros ?%not_elem_of_nil|]. rewrite elem_of_cons. intros Hr. simpl.
  destruct (decide (x = r)); [done|]. apply IH. by destruct Hr.
Qed.
Lemma readable_subs ks : readable (ks ≫= fun k => listed_at (Some k)) = all_readable ks.
Proof. induction ks as [|k ks IH]; csimpl; [done|]. by rewrite filter_app, IH. Qed.

(** What follows an entry of the catalogue, by store. *)
Lemma following_default last : last = "" \/ last ∈ listed_at None ->
  readable (following last catalogue) = readable (following last (listed_at None)) ++ all_readable substore_keys.
Proof.
  intros Hl. unfold following, catalogue. rewrite <-readable_subs, <-filter_app. destruct (decide (last = "")) as [|Hne]; [done|].
  destruct Hl as [|Hl]; [done|]. by rewrite after_app_l.
Qed.
Lemma following_sub last k k1 k2 : substore_keys = k1 ++ k :: k2 -> last ∈ listed_at (Some k) ->
  readable (following last catalogue) = readable (following last (listed_at (Some k))) ++ all_readable k2.
Proof.
  intros Ek Hl. assert (last <> "") as Hne.
  { intros ->. eapply listing_names; [|exact Hl]. apply store_at_good. intros ? [= <-]. rewrite Ek. apply elem_of_app. right. by left. }
  assert (k ∈ substore_keys) as Hk by (rewrite Ek; apply elem_of_app; right; by left).
  unfold following, catalogue. rewrite !decide_False by done. rewrite after_app by (intros Hd; by apply (default_disjoint k last)).
  pose proof substore_keys_NoDup as Hnd. rewrite Ek, bind_app. csimpl. rewrite Ek in Hnd. apply NoDup_app in Hnd as (_&Hdis&_).
  rewrite after_app; [by rewrite after_app_l, filter_app, readable_subs|].
  intros (k'&Hr&Hk')%list_elem_of_bind. assert (k' ∈ substore_keys) as Hks by (rewrite Ek; apply elem_of_app; by left).
  rewrite <-(keys_disjoint k k' last Hk Hl Hks Hr) in Hk'. apply (Hdis k Hk'). by left.
Qed.

Lemma list_substores_before n storePath k1 k2 c : ct_last c <> "" -> storePath ∉ k1 ->
  list_substores q n storePath (k1 ++ k2) c rg = list_substores q n storePath k2 c rg.
Proof.
  intros Hl. induction k1 as [|k k1 IH]; [done|]. rewrite not_elem_of_cons. intros [Hk Hks]. simpl.
  rewrite (bool_decide_eq_false_2 (ct_last c = "")), (bool_decide_eq_false_2 (k = storePath)) by (done || congruence).
  simpl. by apply IH.
Qed.

(** One store from [last] on, then the stores after it. *)
Lemma store_then_substores n key last storePath ks : key_ok key -> storePath ∉ ks -> Forall (fun k => k ∈ substore_keys) ks ->
  (0 < n \/ n = -1)%Z -> let rest := readable (following last (listed_at key)) ++ all_readable ks in
  ends_as ((let* c := list_store q key (mkCatalog last n false []) in list_substores q n storePath ks c) rg)
    (if (0 <? n)%Z then take (Z.to_nat n) rest else rest) ((0 <? n)%Z && bool_decide (n <= Z.of_nat (length rest))%Z).
Proof.
  intros Hk Hs Hks Hn rest. unfold bind. rewrite list_store_run by (simpl; lia || done). simpl.
  set (R := readable (following last (listed_at key))) in *. destruct (Z.ltb_spec 0 n); simpl.
  - case_bool_decide as Hle.
    + rewrite list_substores_skip; [|apply last_readable; [lia|done|done]|done]. eexists. split; [done|]. simpl. subst rest.
      rewrite take_app_le by lia. split; [done|]. by rewrite bool_decide_eq_true_2 by (rewrite length_app; lia).
    + destruct (list_substores_run n storePath ks Hs Hks (mkCatalog "" (n - Z.of_nat (length R)) false R)) as (c&E&Er&Em);
        [done..|left; simpl; lia|]. exists c. split; [done|]. simpl in Er, Em. rewrite Er, Em. subst rest.
      destruct (Z.ltb_spec 0 (n - Z.of_nat (length R))); [|lia]. rewrite (take_app_ge R) by lia. split.
      * do 3 f_equal. lia.
      * apply bool_decide_ext. rewrite length_app. lia.
  - destruct (list_substores_run n storePath ks Hs Hks (mkCatalog "" (n - Z.of_nat (length R)) false R)) as (c&E&Er&Em);
      [done..|right; simpl; lia|]. exists c. split; [done|]. simpl in Er, Em. rewrite Er, Em.
    by destruct (Z.ltb_spec 0 (n - Z.of_nat (length R))); [lia|].
Qed.

Lemma catalog_page last n : last = "" \/ last ∈ catalogue -> (0 < n \/ n = -1)%Z ->
  let rest := readable (following last catalogue) in
  ends_as (listStorageRepositories q last n rg)
    (if (0 <? n)%Z then take (Z.to_nat n) rest else rest) ((0 <? n)%Z && bool_decide (n <= Z.of_nat (length rest))%Z).
Proof.
  intros Hl Hn rest. unfold listStorageRepositories. unfold bind at 1. unfold get. fold substore_keys.
  pose proof Hrouted as (Hd&Hs&Hno).
  assert (last = "" \/ last ∈ listed_at None \/ exists k, k ∈ substore_keys /\ last ∈ listed_at (Some k)) as Hcase.
  { destruct Hl as [|Hl]; [by left|]. right. unfold catalogue in Hl. apply elem_of_app in Hl as [|(k&?&?)%list_elem_of_bind]; [by left|].
    right. by exists k. }
  assert (last = "" \/ last ∈ listed_at None -> GetStorePath rg last = DefaultStorePath) as Hpath.
  { intros [->|Hx]; [|by apply Hd]. unfold GetStorePath. destruct (SubStore rg); [|done]. by rewrite bool_decide_eq_true_2. }
  destruct Hcase as [Hx|[Hx|(k&Hk&Hx)]].
  1,2: rewrite Hpath by auto; rewrite bool_decide_eq_true_2 by done; subst rest; rewrite following_default by auto;
    by apply store_then_substores; [|apply Hno|apply all_keys|].
  rewrite (Hs k last Hk Hx). rewrite bool_decide_eq_false_2 by (intros ->; done).
  apply list_elem_of_split in Hk as (k1&k2&Ek).
  pose proof substore_keys_NoDup as Hnd. rewrite Ek in Hnd. apply NoDup_app in Hnd as (_&Hdis&Hnd). apply NoDup_cons in Hnd as [Hk2 _].
  assert (last <> "") as Hne.
  { intros ->. eapply listing_names; [|exact Hx]. apply store_at_good. intros ? [= <-]. rewrite Ek. apply elem_of_app. right. by left. }
  subst rest. rewrite (following_sub last k k1 k2 Ek Hx). unfold bind at 1. unfold ret at 1. rewrite Ek at 1.
  rewrite list_substores_before; [|done|intros Hin; apply (Hdis k Hin); by left].
  assert (list_substores q n k (k :: k2) (mkCatalog last n false []) =
    (let* c := list_store q (Some k) (mkCatalog last n false []) in list_substores q n k k2 c)) as ->.
  { simpl. rewrite (bool_decide_eq_true_2 (k = k)) by done. rewrite andb_false_r.
    assert ((0 <? n)%Z || (n =? -1)%Z = true) as -> by lia. done. }
  apply store_then_substores; [|done|apply Forall_forall; intros k' Hk'; rewrite Ek; apply elem_of_app; right; by right|done].
  - intros ? [= <-]. rewrite Ek. apply elem_of_app. right. by left.
Qed.
End catalog.

(** The answers of the handler. *)
Definition ask_catalog `{CelEngine} `{MapIter} `{Glob} {S M : Type} `{ApiStoreI S} (rg : registry S M) (q : request) : res response :=
  fst (recovered (ListRepositories q) rg).

Section catalog_answers.
Context `{CelEngine} `{MapIter} `{!MapIterLaws} `{Glob} {S M : Type} `{ApiStoreI S} (good : S -> Prop) `{!Listed S good}.
Context (rg : registry S M) (q : request).
Local Notation readable l := (filter (fun r => Can (q_userAc q) ReadPermission r = true) l).

Lemma ListRepositories_answer (q' : request) last m repos more : q_method q' <> "OPTIONS" ->
  default "" (head (default [] (q_query q' !! "last"))) = last ->
  default (-1)%Z (ParseInt (default "" (head (default [] (q_query q' !! "n"))))) = m ->
  ends_as rg (listStorageRepositories q' last m rg) repos more ->
  ask_catalog rg q' = Ok (mkResponse 200
    (if more && negb (bool_decide (repos = []))
     then [link ("/v2/_catalog?n=" ++ FormatInt m ++ "&last=" ++ default "" (list.last repos))%string] else [])
    (RepositoryList repos)).
Proof.
  intros Hm El Em (c&E&Er&Emo). unfold ask_catalog, recovered, ListRepositories. rewrite bool_decide_eq_false_2 by done. cbv zeta.
  rewrite El, Em. unfold bind, try at 1, try at 1. rewrite E. simpl. by rewrite Er, Emo.
Qed.

(** A page of the catalog, with the request that its link gives. *)
Lemma catalog_page_read ns n last : all_stores good rg -> routed good rg -> q_method q <> "OPTIONS" ->
  path_str (q_path q) = "/v2/_catalog" -> Forall (fun r => unreserved r = true) (catalogue good rg) ->
  ParseInt ns = Some n -> (0 < n)%Z -> last = "" \/ last ∈ catalogue good rg ->
  let q' := page_query ns last q in let rest := readable (following last (catalogue good rg)) in let page := take (Z.to_nat n) rest in
  read_page q' (ask_catalog rg q') =
    Some (page, if bool_decide (n <= Z.of_nat (length rest))%Z then Some (page_query (FormatInt n) (default "" (list.last page)) q) else None).
Proof.
  intros Hg Hr Hm Hpath Hun Hns Hn Hl q' rest page.
  pose proof (catalog_page good rg Hg Hr q' last n Hl (or_introl Hn)) as Hp. cbv zeta in Hp.
  change (q_userAc q') with (q_userAc q) in Hp. fold rest in Hp.
  assert (0 <? n = true)%Z as Hpos by lia. rewrite Hpos in Hp. fold page in Hp.
  erewrite ListRepositories_answer; [|exact Hm| | |exact Hp].
  2: { subst q'. simpl. unfold page_values. by destruct (decide _); simplify_map_eq. }
  2: { assert (q_query q' !! "n" = Some [ns]) as -> by (subst q'; simpl; unfold page_values; destruct (decide _); by simplify_map_eq).
       simpl. by rewrite Hns. }
  case_bool_decide as Hle; [|done].
  destruct (following_page (catalogue good rg) (fun r => Can (q_userAc q) ReadPermission r) (Z.to_nat n)) with (last := last)
    as (r&Er&Hrin&_); [by apply catalogue_NoDup|by apply catalogue_names|lia|fold rest; lia|]. fold rest page in Er. rewrite Er.
  rewrite (bool_decide_eq_false_2 (page = [])) by (by intros Epage; rewrite Epage in Er). cbn [andb negb default].
  apply read_page_more; [done|].
  etransitivity; [|apply (read_link_next q' n r Hn); change (q_path q') with (q_path q)].
  - change (q_path q') with (q_path q). by rewrite Hpath.
  - intros ->. by eapply catalogue_names.
  - by eapply Forall_forall in Hun.
  - by rewrite Hpath.
Qed.

(** C25 The pages of the catalog, over the default store and the substores in
    order, make up the repositories that the user may read: each page is the
    first [n] of those after the last one of the page before, in whatever
    store they are, it has a link exactly when it is full, the target of the
    link is the request for what follows the page, and a client that reads
    the links and follows them gets every repository once and comes to an
    end; a request without a page size gets them all. The page size is
    positive; each store lists the repositories that the controller routes to
    it ([routed]); the names hold no character that a URL reserves. *)
Theorem catalog_pages_complete ns n : all_stores good rg -> routed good rg -> q_method q <> "OPTIONS" ->
  path_str (q_path q) = "/v2/_catalog" -> Forall (fun r => unreserved r = true) (catalogue good rg) ->
  ParseInt ns = Some n -> (0 < n)%Z ->
  (forall last, last = "" \/ last ∈ catalogue good rg ->
     let q' := page_query ns last q in let rest := readable (following last (catalogue good rg)) in let page := take (Z.to_nat n) rest in
     read_page q' (ask_catalog rg q') =
       Some (page, if bool_decide (n <= Z.of_nat (length rest))%Z
                   then Some (page_query (FormatInt n) (default "" (list.last page)) q) else None)) /\
  follow_links (ask_catalog rg) (Datatypes.S (length (catalogue good rg))) (page_query ns "" q) = Some (readable (catalogue good rg)) /\
  ask_catalog rg (with_query ∅ q) = Ok (mkResponse 200 [] (RepositoryList (readable (catalogue good rg)))).
Proof.
  intros Hg Hr Hm Hpath Hun Hns Hn. split; [by intros last; apply catalog_page_read|]. split.
  - rewrite (follow_links_all (catalogue good rg) (fun r => Can (q_userAc q) ReadPermission r) (Z.to_nat n)) with
      (req := fun ns last => page_query ns last q) (ok := fun ns => ParseInt ns = Some n) (next := FormatInt n).
    + done.
    + by apply catalogue_NoDup.
    + by apply catalogue_names.
    + lia.
    + apply ParseInt_FormatInt. apply ParseInt_bound in Hns. lia.
    + intros ns' last Hns' Hl rest. eexists. rewrite (catalog_page_read ns' n last) by done. fold rest.
      split; [done|]. split; intros Hd; [apply bool_decide_eq_true_1 in Hd; lia|apply bool_decide_eq_false_1 in Hd; lia].
    + done.
    + by left.
    + unfold following. rewrite decide_True by done. apply Nat.lt_succ_r, length_filter.
  - pose proof (catalog_page good rg Hg Hr (with_query ∅ q) "" (-1) (or_introl eq_refl) (or_intror eq_refl)) as Hp.
    cbv zeta in Hp. erewrite ListRepositories_answer; [|exact Hm|by vm_compute|by vm_compute|exact Hp]. done.
Qed.
End catalog_answers.
