(* ===== verification/Uploads.v ===== *)
(** * Upload sessions

    What a session of NewBlobUpload, chunks and FinishBlobUpload does on local
    storage: the chunks add up in the file of the session, at the offsets they
    announce, and the blob is accepted only under the digest of their sum. *)

From Stdlib Require Import ZArith Lia Ascii String.
From stdpp Require Import base tactics list gmap strings.
From S2P Require Import Prelude Regexp Driver BlobCache Oci IndexOps StorageCommon Concrete ImageStore Content.
From S2P Require Import ConcreteStore Addressing.

Local Open Scope string_scope.
Local Open Scope list_scope.

(** ** Chunks *)

(** The calls that add to an upload: with a range, and streamed. *)
Inductive chunk : Type :=
  | Ranged (ctx : option err) (from to : Z) (body : reader)
  | Streamed (ctx : option err) (body : reader).
Definition chunk_body (k : chunk) : string := rd_data (match k with Ranged _ _ _ b | Streamed _ b => b end).

Section session.
Context {C : Type} `{CacheLaws C} `{GoDigestLaws} `{OciCodec} (cfg : config fs C).
Local Notation store := (store fs C).
Local Notation ok := (store_ok cfg None).
Implicit Types s : store.
Hypothesis Hroot : is_abs (cf_rootDir cfg) = true.
Context (repo : string) (Hrepo : repo_ok repo).

Definition put_chunk (u : string) (k : chunk) : ST store Z :=
  match k with
  | Ranged ctx from to body => IS.PutBlobChunk cfg ctx repo u from to body
  | Streamed ctx body => IS.PutBlobChunkStreamed cfg ctx repo u body
  end.
(** A client that stops at the first error. *)
Fixpoint put_chunks (u : string) (ks : list chunk) : ST store (list Z) :=
  match ks with
  | [] => ret []
  | k :: ks => let* n := put_chunk u k in let* ns := put_chunks u ks in ret (n :: ns)
  end.

Section upload.
Context (u : string) (Hu : uuid_ok u).
Local Notation src := (IS.BlobUploadPath cfg repo u).
Local Notation upload s c := (holds (st_drv s) src c).

(** Opening the upload leaves its content. *)
Lemma prepare_upload ctx s r s' c : upload s c -> IS.prepareBlobUploadDir cfg ctx repo s = (r, s') -> upload s' c.
Proof.
  intros Hh Hm. unfold IS.prepareBlobUploadDir in Hm. destruct ctx; [by injection Hm as _ <-|].
  assert (forall r0 s0, IS.validateRepoName repo s = (r0, s0) -> s0 = s) as Hv.
  { intros r0 s0. unfold IS.validateRepoName. destruct (negb _); [by intros [= _ <-]|]. destruct (negb _); by intros [= _ <-]. }
  steps Hm; apply Hv in E; [by subst|]. subst s0. apply drv_state in Hm as (d&E%ensure_dir_spec&->).
  destruct Hh as (i&Hi&Hc). exists i. simpl. split; [by apply E|]. by rewrite (content_ext (st_drv s) d) by apply E.
Qed.

Lemma open_upload ctx s w s' c : ok s -> upload s c -> IS.openBlobUploadWriter cfg ctx repo u s = (Ok w, s') ->
  ok s' /\ exists i, file_at (st_drv s') src i /\ content (st_drv s') i = c /\ fresh_writer w src i (String.length c).
Proof.
  intros Hs Hh Hm. unfold IS.openBlobUploadWriter in Hm. stepo Hm.
  pose proof (prepare_upload _ _ _ _ _ Hh E) as Hh0. apply (pres_prepare cfg None) in E; [|done].
  stepo Hm. apply try_state in E0 as (r0&[= ->]&E0). assert (ok s1) as Hs1 by by eapply pres_upload_writer in E0.
  destruct r0 as [w'|e]; [|done]. injection Hm as <- <-. split; [done|]. apply drv_state in E0 as (f&E0&->). simpl in E0 |- *.
  apply writer_append_spec in E0 as [Hsf Hw]. destruct (Hw w' eq_refl) as (i&Hi&Hf). destruct Hh0 as (j&Hj&<-).
  assert (i = j) as -> by (unfold file_at in *; congruence). exists j. split; [by apply Hsf|].
  by rewrite (content_ext (st_drv s0) f) by apply Hsf.
Qed.

Lemma upload_appended s i c data : file_at (st_drv s) src i -> content (st_drv s) i = c ->
  upload (with_drv s (appended (st_drv s) i data)) (c ++ data).
Proof.
  intros Hi <-. exists i. simpl. unfold appended. case_decide as Hd.
  - subst data. split; [done|]. by rewrite string_app_nil_r.
  - split; [done|]. by rewrite content_set_inodes, decide_True.
Qed.

(** What a chunk reports: a ranged one the size of the upload, a streamed one
    its own. *)
Definition reported (before : string) (k : chunk) : Z :=
  match k with
  | Ranged _ _ _ _ => Z.of_nat (String.length (before ++ chunk_body k))
  | Streamed _ _ => Z.of_nat (String.length (chunk_body k))
  end.

Lemma put_chunk_spec k s n s' c : ok s -> upload s c -> put_chunk u k s = (Ok n, s') ->
  ok s' /\ upload s' (c ++ chunk_body k) /\ n = reported c k /\
  match k with Ranged _ from _ _ => from = Z.of_nat (String.length c) | Streamed _ _ => True end.
Proof.
  assert (forall body w s n s', ok s -> (exists i, file_at (st_drv s) src i /\ content (st_drv s) i = c /\ fresh_writer w src i (String.length c)) ->
  IS.copy_and_close w body s = (Ok n, s') ->
  ok s' /\ upload s' (c ++ rd_data body) /\ n = Z.of_nat (String.length (rd_data body))) as Hcopy.
  { clear s n s' k. intros body w s n s' Hs (i&Hi&Hc&Hf) Hm. eapply copy_and_close_spec in Hm as [-> Hr]; [|exact Hi|exact Hf|by rewrite Hc].
    split; [by eapply ok_with_appended|]. split; [by apply upload_appended|]. destruct (rd_err body); [done|]. by injection Hr. }
  intros Hs Hh Hm. destruct k as [ctx from to body|ctx body]; simpl in Hm; unfold chunk_body; simpl.
  - unfold IS.PutBlobChunk in Hm. stepo Hm. destruct (open_upload _ _ _ _ _ Hs Hh E) as (Hs0&i&Hi&Hc&Hf). cbv zeta in Hm.
    destruct (Z.eqb_spec from (fw_Size a)) as [->|]; simpl in Hm; [|stepo Hm; done]. stepo Hm. injection Hm as <- <-.
    apply Hcopy in E0 as (?&?&->); [|done|by exists i]. split; [done|]. split; [done|].
    unfold fresh_writer in Hf. subst a. unfold reported, chunk_body. rewrite string_length_app. simpl. lia.
  - unfold IS.PutBlobChunkStreamed in Hm. stepo Hm. destruct (open_upload _ _ _ _ _ Hs Hh E) as (Hs0&i&Hi&Hc&Hf).
    apply Hcopy in Hm as (?&?&->); [|done|by exists i]. done.
Qed.

(** The sum of the chunks. *)
Definition bodies (ks : list chunk) : string := foldr (fun k sum => chunk_body k ++ sum)%string "" ks.

(** What the chunks report and where the ranged ones start, given what was
    there before. *)
Fixpoint chunks_fit (before : string) (ks : list chunk) (ns : list Z) : Prop :=
  match ks, ns with
  | [], [] => True
  | k :: ks, n :: ns => n = reported before k /\
      match k with Ranged _ from _ _ => from = Z.of_nat (String.length before) | Streamed _ _ => True end /\
      chunks_fit (before ++ chunk_body k) ks ns
  | _, _ => False
  end.

Lemma put_chunks_spec ks : forall s ns s' c, ok s -> upload s c -> put_chunks u ks s = (Ok ns, s') ->
  ok s' /\ upload s' (c ++ bodies ks) /\ chunks_fit c ks ns.
Proof.
  induction ks as [|k ks IH]; intros s ns s' c Hs Hh Hm; simpl in Hm.
  { injection Hm as <- <-. unfold bodies. simpl. by rewrite string_app_nil_r. }
  stepo Hm. stepo Hm. injection Hm as <- <-. apply (put_chunk_spec k _ _ _ c) in E as (Hs1&Hh1&Hn&Hk); [|done..].
  apply (IH _ _ _ (c ++ chunk_body k)%string) in E0 as (Hs2&Hh2&Hfit); [|done..]. simpl.
  split; [done|]. split; [by rewrite <-string_app_assoc|done].
Qed.

(** The size GetBlobUpload tells. *)
Lemma upload_size_spec s n s' c : ok s -> upload s c -> IS.GetBlobUpload cfg repo u s = (Ok n, s') ->
  n = Z.of_nat (String.length c).
Proof.
  intros Hs Hh Hm. unfold IS.GetBlobUpload in Hm. cbv zeta in Hm. destruct (negb _); [done|]. unfold IS.upload_size in Hm.
  stepo Hm. apply try_state in E as (r0&[= ->]&E). destruct r0 as [w|e]; [|done]. stepo Hm. injection Hm as <- _.
  apply drv_state in E as (f&E&->). simpl in E. apply writer_append_spec in E as [Hsf Hw]. destruct (Hw w eq_refl) as (i&Hi&->).
  destruct Hh as (j&Hj&<-). assert (i = j) as -> by (unfold file_at in *; congruence). done.
Qed.

(** The blob is placed only when the sum hashes to the digest. *)
Lemma finish_upload_spec d s s' c : ok s -> upload s c -> IS.FinishBlobUpload cfg repo u d s = (Ok tt, s') ->
  Validate d = None /\ FromBytes (Algorithm d) c = d.
Proof.
  intros Hs Hh Hm. unfold IS.FinishBlobUpload in Hm. stepo Hm. destruct a. apply valid_state in E as [Hv ->]. split; [done|].
  cbv zeta in Hm. stepo Hm. apply try_state in E as (r0&[= ->]&E). destruct r0 as [w|e]; [|done].
  apply drv_state in E as (f&E&->). simpl in E. apply writer_append_spec in E as [Hsf Hw]. destruct (Hw w eq_refl) as (i&Hi&->).
  destruct Hh as (j&Hj&<-). assert (i = j) as -> by (unfold file_at in *; congruence).
  stepo Hm. apply drv_state in E as (f1&E&->). cbn [fw_Commit local_driver st_drv] in E.
  rewrite <-(content_ext (st_drv s) f j) in E by apply Hsf. rewrite commit_spec in E by done. injection E as <- <-.
  stepo Hm. apply drv_state in E as (f2&E&->). cbn [fw_Close local_driver st_drv] in E.
  rewrite close_spec in E by apply (length_appended f j ""). injection E as _ <-.
  unfold IS.getBlobDigest in Hm. stepo Hm. stepo E. apply try_state in E0 as (r0&[= ->]&E0). apply drv_state in E0 as (f3&E0&->).
  apply reader_spec in E0 as [-> Hdata]. destruct r0 as [data|]; [|done]. injection E as <- <-.
  destruct (Hdata data eq_refl) as (k&Hk&_&->). cbn [st_drv] in *.
  change (appended (appended f j "") j "") with f in *. rewrite substring_all in Hm by done.
  assert (k = j) as -> by (apply Hsf in Hj; unfold file_at in *; congruence).
  destruct (bool_decide _) eqn:Eb; [|done]. apply bool_decide_eq_true_1 in Eb.
  by rewrite (content_ext (st_drv s) f j) in Eb by apply Hsf.
Qed.
End upload.

(** ** A session *)
Lemma new_upload_spec s u s' : ok s -> IS.NewBlobUpload cfg repo s = (Ok u, s') ->
  ok s' /\ uuid_ok u /\ holds (st_drv s') (IS.BlobUploadPath cfg repo u) "".
Proof.
  intros Hs Hm. pose proof Hm as Hok. eapply pres_NewBlobUpload in Hok; [|done..]. split; [done|].
  unfold IS.NewBlobUpload in Hm. stepo Hm. eapply pres_InitRepo in E; [|done..].
  stepo Hm. pose proof (NewV4_uuid cfg None _ _ _ E E0) as Hu. apply (pres_NewV4 cfg None) in E0; [|done].
  stepo Hm. apply try_state in E1 as (r0&[= ->]&E1). destruct r0 as [w|e]; [|done].
  assert (ok s2) as Hs2 by (eapply (pres_upload_writer cfg repo a0 Hrepo Hu false) in E1; done).
  apply drv_state in E1 as (f&E1&->). simpl in E1. apply writer_create_spec in E1 as (i&Hw&Hf).
  stepo Hm. injection Hm as <- <-. split; [done|].
  apply (ignore_close_fresh cfg repo a0 false w) in E1 as [_ ->].
  - exists i. split; [apply Hw|exact (w_content _ _ _ _ _ Hw)].
  - split; [done|]. exists i. split; [apply Hw|]. simpl. by rewrite (w_content _ _ _ _ _ Hw).
Qed.
End session.

(** C27 A session of uploads: the chunks that a client sends add up in the file
    of the session, each ranged one starts at the size of what came before and
    is answered with the new size, the status of the upload tells that size,
    and the upload is finished only under the digest of the sum; but a
    streamed chunk is answered with its own size instead of the new size. *)
Theorem upload_session {C} `{CacheLaws C} `{GoDigestLaws} `{OciCodec} (cfg : config fs C) (s0 s1 s2 : store fs C)
    (repo u : string) (ks : list chunk) (ns : list Z) :
  is_abs (cf_rootDir cfg) = true -> repo_ok repo -> store_ok cfg None s0 ->
  IS.NewBlobUpload cfg repo s0 = (Ok u, s1) -> put_chunks cfg repo u ks s1 = (Ok ns, s2) ->
  holds (st_drv s2) (IS.BlobUploadPath cfg repo u) (bodies ks) /\ chunks_fit "" ks ns /\
  (forall n s3, IS.GetBlobUpload cfg repo u s2 = (Ok n, s3) -> n = Z.of_nat (String.length (bodies ks))) /\
  (forall d s3, IS.FinishBlobUpload cfg repo u d s2 = (Ok tt, s3) ->
     Validate d = None /\ FromBytes (Algorithm d) (bodies ks) = d).
Proof.
  intros Hroot Hrepo Hs Hn Hc. apply new_upload_spec in Hn as (Hs1&Hu&Hh); [|done..].
  apply (put_chunks_spec cfg repo Hrepo u Hu ks _ _ _ "") in Hc as (Hs2&Hh2&Hfit); [|done..].
  split; [done|]. split; [done|]. split.
  - intros n s3. by apply upload_size_spec.
  - intros d s3. by apply finish_upload_spec.
Qed.

(** ** A session of three chunks, one of them streamed *)
Definition three_chunks : list chunk :=
  [Ranged None 0 1 (reader_of "la"); Streamed None (reader_of "y"); Ranged None 3 4 (reader_of "er")].
Definition chunked : store fs Bolt.db := snd (IS.NewBlobUpload (zot_cfg true) "a" zot_new).
Lemma upload_session_witness :
  let '(r, s2) := put_chunks (zot_cfg true) "a" "u1" three_chunks chunked in
  r = Ok [2; 1; 5]%Z /\ fst (IS.FinishBlobUpload (zot_cfg true) "a" "u1" (sha256 a_layer) s2) = Ok tt /\
  holds (st_drv s2) (IS.BlobUploadPath (zot_cfg true) "a" "u1") "layer".
Proof.
  destruct (put_chunks (zot_cfg true) "a" "u1" three_chunks chunked) as [r s2] eqn:E.
  assert (r = Ok [2; 1; 5]%Z) as ->.
  { apply (f_equal fst) in E. simpl in E. rewrite <-E. vm_compute. reflexivity. }
  split; [reflexivity|]. split.
  - apply (f_equal snd) in E. simpl in E. rewrite <-E. vm_compute. reflexivity.
  - apply (upload_session (zot_cfg true) zot_new chunked s2 "a" "u1" three_chunks [2; 1; 5]%Z).
    + reflexivity.
    + vm_compute. reflexivity.
    + apply initial_ok, zot_new_initial.
    + apply (pair_fst (IS.NewBlobUpload (zot_cfg true) "a" zot_new) (Ok "u1")). vm_compute. reflexivity.
    + exact E.
Defined.
