(* ===== verification/Api.v ===== *)
(** * The registry as a whole

    The handlers over the image stores of ImageStore.v: each store of the
    registry with the configuration it was made with. Any sequence of requests
    of the distribution API, after authorization, keeps the addressing of
    every store and is answered with the content asked for; what authorization
    refuses changes nothing. *)

From Stdlib Require Import ZArith Lia Ascii String Sorted.
From stdpp Require Import base tactics list gmap strings sorting.
From S2P Require Import Prelude Runtime Regexp Driver BlobCache Oci IndexOps StorageCommon Concrete ImageStore.
From S2P Require Import Content ConcreteStore Addressing Listing Retention Authz Access Http Routes Router Serving Paging.

Local Open Scope string_scope.
Local Open Scope list_scope.

(** ** An image store behind the interface of the handlers *)

(** RedirectURL of a storage driver, for the drivers of object storage. *)
Class RedirectI (F : Type) := RedirectURL : path -> ST F string.
#[export] Instance local_redirect : RedirectI fs := fun _ => ret "".

Section interface.
Context {F C : Type} `{Driver F} `{Cache C} `{GoDigest} `{OciCodec} `{RedirectI F}.

Definition GetBlobRedirectURL (cfg : config F C) (repo digest : string) : ST (store F C) string :=
  match Validate digest with
  | Some _ => throw ErrBadBlobDigest
  | None =>
      let* s := get in
      if bool_decide (Name (st_drv s) = LocalStorageDriverName) then ret ""
      else
        let* binfo := IS.originalBlobInfo cfg repo digest in
        IS.drv (RedirectURL (fi_Path binfo))
  end.

Definition image_store : Type := config F C * store F C.
Definition call {A} (m : config F C -> ST (store F C) A) : ST image_store A := fun s =>
  let '(r, st) := m (fst s) (snd s) in (r, (fst s, st)).

#[export] Instance api_store : ApiStoreI image_store := {
  as_GetImageTags repo := call (fun cfg => IS.GetImageTags cfg repo);
  as_GetImageManifest repo reference := call (fun cfg => IS.GetImageManifest cfg repo reference);
  as_GetReferrers repo d ts := call (fun cfg => IS.GetReferrers cfg repo d ts);
  as_PutImageManifest repo reference mt body tags := call (fun cfg => IS.PutImageManifest cfg repo reference mt body tags);
  as_DeleteImageManifest repo reference dc := call (fun cfg => IS.DeleteImageManifest cfg repo reference dc);
  as_StatBlob repo d := call (fun cfg => IS.StatBlob cfg repo d);
  as_CheckBlob repo d := call (fun cfg => IS.CheckBlob cfg repo d);
  as_GetAllDedupeReposCandidates d := call (fun cfg => IS.GetAllDedupeReposCandidates cfg d);
  as_GetBlob repo d := call (fun cfg => IS.GetBlob cfg repo d);
  as_GetBlobPartial repo d from to := call (fun cfg => IS.GetBlobPartial cfg repo d from to);
  as_GetBlobRedirectURL repo d := call (fun cfg => GetBlobRedirectURL cfg repo d);
  as_DeleteBlob repo d := call (fun cfg => IS.DeleteBlob cfg repo d);
  as_NewBlobUpload repo := call (fun cfg => IS.NewBlobUpload cfg repo);
  as_GetBlobUpload repo u := call (fun cfg => IS.GetBlobUpload cfg repo u);
  as_PutBlobChunkStreamed ctx repo u body := call (fun cfg => IS.PutBlobChunkStreamed cfg ctx repo u body);
  as_PutBlobChunk ctx repo u from to body := call (fun cfg => IS.PutBlobChunk cfg ctx repo u from to body);
  as_FinishBlobUpload repo u d := call (fun cfg => IS.FinishBlobUpload cfg repo u d);
  as_FullBlobUpload ctx repo body d := call (fun cfg => IS.FullBlobUpload cfg ctx repo body d);
  as_DeleteBlobUpload repo u := call (fun cfg => IS.DeleteBlobUpload cfg repo u);
  as_GetNextRepositories last n f := call (fun cfg => IS.GetNextRepositories cfg last n f)
  }.
End interface.

(** ** The image store keeps the promises of the interface *)
Section implements.
Context {C : Type} `{CacheLaws C} `{GoDigestLaws} `{OciCodec}.

(** A store on local storage whose root is absolute, whose linter only reads,
    and whose blobs are addressed by content. *)
Definition addressed (s : image_store (F := fs) (C := C)) : Prop :=
  is_abs (cf_rootDir (fst s)) = true /\
  (forall lint, cf_linter (fst s) = Some lint -> forall repo d st, snd (lint repo d st) = st) /\
  store_ok (fst s) None (snd s).

Lemma ens_call {A} (m : config fs C -> ST (store fs C) A) Q :
  (forall cfg, is_abs (cf_rootDir cfg) = true ->
     (forall lint, cf_linter cfg = Some lint -> forall repo d st, snd (lint repo d st) = st) ->
     ensures (store_ok cfg None) (m cfg) Q) ->
  ensures addressed (call m) Q.
Proof.
  intros Hm [cfg st] r s' (Hr&Hl&Hs). unfold call. simpl. destruct (m cfg st) as [r0 st'] eqn:E. intros [= <- <-].
  destruct (Hm cfg Hr Hl st r0 st' Hs E) as [Hs' HQ]. by split.
Qed.
Lemma pres_call {A} (m : config fs C -> ST (store fs C) A) :
  (forall cfg, is_abs (cf_rootDir cfg) = true ->
     (forall lint, cf_linter cfg = Some lint -> forall repo d st, snd (lint repo d st) = st) ->
     preserves (store_ok cfg None) (m cfg)) ->
  preserves addressed (call m).
Proof. intros Hm. eapply ensures_preserves, ens_call. intros. by apply preserves_ensures, Hm. Qed.

Lemma pres_redirect (cfg : config fs C) repo d : is_abs (cf_rootDir cfg) = true ->
  preserves (store_ok cfg None) (GetBlobRedirectURL cfg repo d).
Proof.
  intros Hr. unfold GetBlobRedirectURL, RedirectURL, local_redirect. pres.
  - by apply pres_originalBlobInfo.
  - apply pres_drv, preserves_ret.
Qed.
Lemma pres_read_upload (cfg : config fs C) repo u : is_abs (cf_rootDir cfg) = true -> repo_ok repo -> uuid_ok u ->
  preserves (store_ok cfg None) (IS.GetBlobUpload cfg repo u).
Proof. intros. unfold IS.GetBlobUpload. cbv zeta. destruct (negb _); [apply preserves_throw|by apply pres_upload_size]. Qed.
Lemma pres_tags (cfg : config fs C) repo : is_abs (cf_rootDir cfg) = true -> preserves (store_ok cfg None) (IS.GetImageTags cfg repo).
Proof. intros Hr. unfold IS.GetImageTags. pres; [by apply pres_repo_is_dir|by apply pres_get_index]. Qed.
Lemma pres_next_repositories (cfg : config fs C) last n f : preserves (store_ok cfg None) (IS.GetNextRepositories cfg last n f).
Proof.
  intros s r s' Hs. unfold IS.GetNextRepositories. destruct (IS.walk_root _ _ _ _) as [[e|] pg]; [|by intros [= _ <-]].
  destruct (IS.not_found e); [by intros [= _ <-]|]. destruct (IS.stopped e); by intros [= _ <-].
Qed.

#[export] Instance image_store_spec : ApiStoreSpec addressed.
Proof.
  split; intros.
  - apply pres_call. intros. by apply pres_tags.
  - apply ens_call. intros cfg Hr Hl st r st' Hs E. split; [by eapply pres_get_manifest in E|].
    destruct r as [[[b d] mt]|]; [|done]. by eapply GetImageManifest_content in E.
  - apply pres_call. intros. unfold IS.GetReferrers. by apply pres_referrers.
  - apply pres_call. intros. by apply pres_PutImageManifest.
  - apply pres_call. intros. by apply pres_DeleteImageManifest.
  - apply pres_call. intros. by apply pres_StatBlob.
  - apply pres_call. intros. by apply pres_CheckBlob.
  - apply pres_call. intros. by apply pres_candidates.
  - apply ens_call. intros cfg Hr Hl st r st' Hs E. split; [by eapply pres_GetBlob in E|].
    destruct r as [[b n]|]; [|done]. by eapply GetBlob_content in E.
  - apply ens_call. intros cfg Hr Hl st r st' Hs E. split; [by eapply pres_GetBlobPartial in E|].
    destruct r as [[[b n] z]|]; [|done]. by eapply GetBlobPartial_content in E.
  - apply pres_call. intros. by apply pres_redirect.
  - apply pres_call. intros. by apply pres_DeleteBlob.
  - apply pres_call. intros. by apply pres_NewBlobUpload.
  - apply pres_call. intros. by apply pres_read_upload.
  - apply pres_call. intros. by apply pres_PutBlobChunkStreamed.
  - apply pres_call. intros. by apply pres_PutBlobChunk.
  - apply pres_call. intros. by apply pres_FinishBlobUpload.
  - apply pres_call. intros. by apply pres_FullBlobUpload.
  - apply pres_call. intros. by apply pres_DeleteBlobUpload.
  - apply pres_call. intros. apply pres_next_repositories.
Qed.
#[export] Instance image_store_push : PushDigest (S := image_store (F := fs) (C := C)).
Proof.
  intros repo reference mt body tags [cfg st] d sd s' E. simpl in E. unfold call in E. simpl in E.
  destruct (IS.PutImageManifest cfg repo reference mt body tags st) as [r st'] eqn:Ep. injection E as -> _. unfold IS.PutImageManifest in Ep.
  apply bind_ok in Ep as ([]&s1&_&Ep). apply bind_ok in Ep as ([d' refIsDigest]&s2&Ed&Ep). injection Ed as Ed _. apply push_reference_digest in Ed as [_ Ed].
  apply bind_ok in Ep as ([]&s3&_&Ep). apply bind_ok in Ep as (index&s4&_&Ep). apply bind_ok in Ep as ([subject artifact]&s5&_&Ep).
  apply bind_ok in Ep as ([]&s6&_&Ep). apply bind_ok in Ep as (u&s7&_&Ep). destruct u as [[[index' lint] changed]|].
  - apply bind_ok in Ep as ([]&s8&_&Ep). by injection Ep as <- _ _.
  - by injection Ep as <- _ _.
Qed.
End implements.

(** The listings of image stores, for the pages of tags and of the catalog. *)
Section listed.
Context {C : Type} `{Cache C} `{GoDigest} `{OciCodec}.

Lemma tags_only_read (s : image_store (F := fs) (C := C)) repo : snd (as_GetImageTags repo s) = s.
Proof.
  destruct s as [cfg st]. assert (forall A (m : ST fs A), (forall d, snd (m d) = d) -> preserves (eq st) (IS.drv m)) as Hdrv.
  { intros A m Hm s r s' <- E%drv_state. destruct E as (f&E&->). specialize (Hm (st_drv st)). rewrite E in Hm. simpl in Hm. subst f.
    by destruct st. }
  assert (preserves (eq st) (IS.GetImageTags cfg repo)) as Hp.
  { unfold IS.GetImageTags, IS.repo_is_dir, GetIndex. pres.
    - apply Hdrv. intros d. simpl. destruct (Local.Stat _ d) as [r d'] eqn:E. by apply stat_spec in E as [-> _].
    - change (preserves (eq st) (IS.GetIndexContent cfg repo)). apply Hdrv. intros d. simpl. destruct (Local.ReadFile _ d) as [r d'] eqn:E. by apply read_file_spec in E as [-> _]. }
  unfold as_GetImageTags, api_store, call. simpl. destruct (IS.GetImageTags cfg repo st) as [r s'] eqn:E. by rewrite <-(Hp _ _ _ eq_refl E).
Qed.

Definition walkable (s : image_store (F := fs) (C := C)) : Prop := walkable_root (fst s) (snd s).

#[export] Program Instance image_store_listed : Listed (image_store (F := fs) (C := C)) walkable :=
  {| listing s := repos_in_order (fst s) (snd s) |}.
Next Obligation. intros [cfg s] Hs. by apply NoDup_repos. Qed.
Next Obligation. intros [cfg s] Hs. by intros []%repos_nonempty. Qed.
Next Obligation.
  intros [cfg s] last max f Hs Hm rest. unfold walkable in Hs. simpl in *. unfold call. simpl. subst rest. destruct (Z.ltb_spec max 0).
  - by rewrite GetNextRepositories_all.
  - by rewrite GetNextRepositories_page by (done || lia).
Qed.
End listed.

(** ** The registry under requests *)
Section registry.
Context {C : Type} `{CacheLaws C} `{GoDigestLaws} `{OciCodec} {M : Type}.
Context `{CelEngine} `{MapIter} `{Glob} `{SliceSort} `{!SliceSortLaws} `{PushProbe} `{UrlParse}.
Context `{SyncOnDemandI (image_store (F := fs) (C := C))} `{MetaHooksI (image_store (F := fs) (C := C)) M}.
Local Notation reg := (registry (image_store (F := fs) (C := C)) M).
Context (conf : rh_config).

(** One request after the other; what other routes serve is left out. *)
Definition http_step (rg : reg) (request : arrival * Routes.request) : reg :=
  match serve_http conf (fst request) (snd request) with
  | Some m => snd (m rg)
  | None => rg
  end.
Definition http_run (requests : list (arrival * Routes.request)) (rg : reg) : reg := foldl http_step rg requests.

(** A store as it is before the first request. *)
Definition new_store (s : image_store (F := fs) (C := C)) : Prop :=
  is_abs (cf_rootDir (fst s)) = true /\
  (forall lint, cf_linter (fst s) = Some lint -> forall repo d st, snd (lint repo d st) = st) /\
  initial (fst s) (snd s).

Lemma new_stores_addressed (rg : reg) : all_stores new_store rg -> all_stores addressed rg.
Proof.
  assert (forall s, new_store s -> addressed s) as Hn.
  { intros s (Hr&Hl&Hi). split_and!; [done..|by apply initial_ok]. }
  intros [Hd Hs]. split; [by apply Hn|]. intros. by eapply Hn, Hs.
Qed.

Lemma recovered_answers (m : ST reg response) rg : exists resp rg', recovered m rg = (Ok resp, rg').
Proof. unfold recovered, bind, try. destruct (m rg) as [[resp|e] rg']; by eexists _, _. Qed.

Context `{!MetaHooksSpec (M := M) (addressed (C := C))} `{!SyncSpec (addressed (C := C))}.

Lemma http_run_addressed requests : forall rg : reg, Forall (fun r => clean_path (snd r)) requests ->
  all_stores addressed rg -> all_stores addressed (http_run requests rg).
Proof.
  induction requests as [|[a q] requests IH]; intros rg Hc Hrg; [done|]. apply Forall_cons in Hc as [Hq Hc].
  simpl. apply IH; [done|]. unfold http_step. simpl in *. destruct (serve_http _ a q) as [m|] eqn:E; [|done].
  destruct (m rg) as [r rg'] eqn:Em. by eapply (ens_serve addressed conf a q m Hq E rg).
Qed.

(** C4 Every request of the distribution API, whatever requests came before on
    new stores, gets an answer, and the content in the answer is the one asked
    for: a whole blob or manifest hashes to the digest that the answer
    announces, which for a blob is the one of the request, a range is that
    range of such content, and so are the parts of a multipart answer that is
    complete. All stores stay addressed by content. *)
Theorem answers_match_digest (rg0 : reg) requests a q m :
  all_stores new_store rg0 -> Forall (fun r => clean_path (snd r)) requests -> clean_path q ->
  serve_http conf a q = Some m ->
  exists resp rg, m (http_run requests rg0) = (Ok resp, rg) /\ answer_ok q resp /\ all_stores addressed rg.
Proof.
  intros Hn Hc Hq Hm. assert (all_stores addressed (http_run requests rg0)) as Hrg by by apply http_run_addressed, new_stores_addressed.
  pose proof (ens_serve addressed conf a q m Hq Hm) as He.
  assert (exists resp rg, m (http_run requests rg0) = (Ok resp, rg)) as (resp&rg&E).
  { unfold serve_http in Hm. destruct (dispatch q); [|done]. injection Hm as <-. apply recovered_answers. }
  exists resp, rg. split; [done|]. destruct (He _ _ _ Hrg E) as [Hrg' Ha]. done.
Qed.
End registry.

(** ** Authorization before the handlers *)
Section authorization.
Context {S M : Type} `{ApiStoreI S} `{SyncOnDemandI S} `{MetaHooksI S M}.
Context `{CelEngine} `{MapIter} `{!MapIterLaws} `{Glob} `{GoDigest} `{SliceSort} `{PushProbe} `{UrlParse}.
Context (conf : rh_config).

Definition with_env (e : env) (rg : registry S M) : registry S M := mkRegistry (DefaultStore rg) (SubStore rg) (rg_meta rg) e.

(** The user as the handler of an authorized request sees it. *)
Definition user_of (ac : AccessControlConfig) (a : arrival) (q : request) : UserAccessControl :=
  attachPermissionEvaluator ac (Some (authz_view a q)) (updateUserAccessControl ac (Some (authz_view a q)) (q_userAc q)).

(** What authorization makes of a request on a repository. *)
Lemma authorized_decides (rg : registry S M) (ac : AccessControlConfig) a q rt now p repoTags :
  let name := default "" (q_vars q !! "name") in
  rc_access conf = Some ac -> rt_distspec rt = true -> bypassed (authz_view a q) = false -> ar_requestURI a <> "/v2/" ->
  constant_clock now (rg_env rg) -> decisive name (patterns_of ac) p ->
  (contains ["PUT"; "PATCH"; "POST"] (q_method q) = true -> is_Some (q_vars q !! "reference") ->
     repoTagsForManifestWriteAuthz (fst (as_GetImageTags name (GetImageStore rg name))) = Ok repoTags) ->
  exists e, let refused := exists status code,
      authorized conf rt a q rg = (Ok (mkResponse status [] (ErrorBody code)), with_env e rg) /\ status ∈ [401; 403]%Z in
    let served := authorized conf rt a q rg = handler conf (rt_endpoint rt) (with_user (user_of ac a q) q) (with_env e rg) in
    (allowed ac (authz_view a q) (user_of ac a q) now repoTags /\ served) \/
    (~ allowed ac (authz_view a q) (user_of ac a q) now repoTags /\ refused).
Proof.
  intros name Hac Hds Hb Huri Hc Hp Ht.
  unfold authorized. rewrite Hac, Hds. unfold BaseAuthzHandler. rewrite Hb. cbn [ar_requestURI authz_view RequestURI].
  rewrite bool_decide_eq_false_2 by done. simpl orb. cbv iota. change (NewAccessController (Some ac)) with ac.
  fold (user_of ac a q). cbv zeta.
  destruct (distspec_decides (Some ac) (fun repo => fst (as_GetImageTags repo (GetImageStore rg repo)))
    (authz_view a (with_user (user_of ac a q) q)) (user_of ac a q) repoTags now (rg_env rg) p Hc Hp Hb Ht) as (o&s'&E&Ha&Hn&Hx).
  assert (distspec_authz conf a (with_user (user_of ac a q) q) rg = (Ok o, with_env s' rg)) as Ed.
  { unfold distspec_authz, on_env, zoom. rewrite Hac. cbn [q_userAc with_user]. by rewrite E. }
  change (authz_view a (with_user (user_of ac a q) q)) with (authz_view a q) in Ha, Hn, Hx.
  change (NewAccessController (Some ac)) with ac in Ha, Hn, Hx. exists s'. cbn [orb]. cbv iota zeta. rewrite (bind_step _ _ _ _ _ Ed).
  assert (o = Next (user_of ac a q) \/ ~ allowed ac (authz_view a q) (user_of ac a q) now repoTags) as [->|Hno].
  { destruct o as [u|status reason|]; [left; f_equal; by eapply distspec_user|right; by intros ?%Ha..]. }
  - left. split; [by apply Hx|done].
  - right. split; [done|]. destruct (Hn Hno) as [reason ->]. unfold AuthzFailWithReason.
    case_bool_decide; simpl; eexists _, _; split; (done || set_solver).
Qed.

(** A request that authorization does not look at. *)
Lemma authorized_bypass (rg : registry S M) (ac : AccessControlConfig) a q rt : rc_access conf = Some ac -> rt_distspec rt = true ->
  bypassed (authz_view a q) = true ->
  authorized conf rt a q rg = handler conf (rt_endpoint rt) (with_user (q_userAc q) q) rg.
Proof.
  intros Hac Hds Hb. unfold authorized. rewrite Hac, Hds. unfold BaseAuthzHandler. rewrite Hb. cbn [orb]. cbv iota zeta.
  assert (distspec_authz conf a (with_user (q_userAc q) q) rg = (Ok (Next (q_userAc q)), rg)) as Ed.
  { unfold distspec_authz, on_env, zoom, DistSpecAuthzHandler.
    change (authz_view a (with_user (q_userAc q) q)) with (authz_view a q). rewrite Hb. by destruct rg. }
  by rewrite (bind_step _ _ _ _ _ Ed).
Qed.
(** A manifest write to a repository whose tags cannot be read. *)
Lemma authorized_unreadable (rg : registry S M) (ac : AccessControlConfig) a q rt e : let name := default "" (q_vars q !! "name") in
  rc_access conf = Some ac -> rt_distspec rt = true -> bypassed (authz_view a q) = false -> ar_requestURI a <> "/v2/" ->
  contains ["PUT"; "PATCH"; "POST"] (q_method q) = true -> is_Some (q_vars q !! "reference") ->
  repoTagsForManifestWriteAuthz (fst (as_GetImageTags name (GetImageStore rg name))) = Err e ->
  authorized conf rt a q rg = (Ok (mkResponse 500 [] NoBody), rg).
Proof.
  intros name Hac Hds Hb Huri Hw [reference Hr] Ht. unfold authorized. rewrite Hac, Hds. unfold BaseAuthzHandler. rewrite Hb.
  cbn [ar_requestURI authz_view RequestURI]. rewrite bool_decide_eq_false_2 by done. cbn [orb]. cbv iota zeta.
  change (NewAccessController (Some ac)) with ac. fold (user_of ac a q).
  assert (distspec_authz conf a (with_user (user_of ac a q) q) rg = (Ok InternalServerError, rg)) as Ed.
  { unfold distspec_authz, on_env, zoom, DistSpecAuthzHandler.
    change (authz_view a (with_user (user_of ac a q) q)) with (authz_view a q). rewrite Hb. cbv zeta. change (Method (authz_view a q)) with (q_method q). rewrite Hw.
    assert (contains ["GET"; "HEAD"] (q_method q) = false) as ->.
    { apply contains_spec in Hw. rewrite !elem_of_cons in Hw. by destruct Hw as [->|[->|[->|[]%not_elem_of_nil]]]. }
    cbn [var_reference var_name authz_view]. rewrite Hr. fold name. rewrite Ht. by destruct rg. }
  by rewrite (bind_step _ _ _ _ _ Ed).
Qed.

End authorization.
