(* ===== verification/Aggregates.v ===== *)
(** * What the metadata database remembers of a repository, and its aggregates

    The messages of pkg/meta/proto and the image data of pkg/meta/types, the
    conversions between them (pkg/meta/convert), and the size, the vendors and
    the platforms of a repository, gathered by walking from its tags over the
    blobs it is known to hold (pkg/meta/common). The messages are records,
    since their codec is a third-party library. *)

From Stdlib Require Import ZArith Lia Ascii String.
From stdpp Require Import base tactics list gmap strings sorting.
From S2P Require Import Prelude Runtime Oci StorageCommon.

Local Open Scope string_scope.
Local Open Scope list_scope.

(** ** Messages (pkg/meta/proto) and image data (pkg/meta/types) *)
Record Platform : Type := mkPlatform { p_OS : string; p_Architecture : string }.

(** The config of an image, as far as it is read. *)
Record ImageConfig : Type := mkImageConfig {
  ic_Created : option Z;
  ic_OS : string;
  ic_Architecture : string;
  ic_Variant : string;
  ic_History : list (option Z)   (* when each layer was created *)
}.
Definition no_config : ImageConfig := mkImageConfig None "" "" "" [].
(** The JSON of a config; [None] when it is malformed. *)
Class ConfigCodec := unmarshal_config : string -> option ImageConfig.

Record ManifestMeta : Type := mkManifestMeta {
  mm_Size : Z;
  mm_Digest : string;
  mm_Manifest : Manifest;
  mm_Config : ImageConfig
}.
Record ImageMeta : Type := mkImageMeta {
  im_MediaType : string;
  im_Digest : string;
  im_Size : Z;
  im_Index : option Index;
  im_Manifests : list ManifestMeta
}.
(** The stored form: one manifest, or an index with its size and digest. *)
Record ProtoImageMeta : Type := mkProtoImage {
  pi_MediaType : string;
  pi_Manifests : list ManifestMeta;
  pi_Index : option (Index * Z * string)
}.

Record TagDescriptor : Type := mkTag { td_Digest : string; td_MediaType : string; td_TaggedTimestamp : option Z }.
Record Statistics : Type := mkStats {
  st_DownloadCount : Z;
  st_LastPullTimestamp : Z;
  st_PushTimestamp : Z;
  st_PushedBy : string
}.
Record ReferrerInfo : Type := mkReferrer {
  rf_Digest : string;
  rf_MediaType : string;
  rf_ArtifactType : string;
  rf_Size : Z;
  rf_Annotations : gmap string string;
  rf_Count : Z
}.
Record LayersInfo : Type := mkLayerInfo {
  li_LayerDigest : string;
  li_LayerContent : string;
  li_SignatureKey : string;
  li_Signer : string;
  li_Date : option Z
}.
Record SignatureInfo : Type := mkSignature { si_Digest : string; si_LayersInfo : list LayersInfo }.
(** Signatures of a manifest by type. *)
Definition ManifestSignatures : Type := gmap string (list SignatureInfo).
Record LastUpdatedImage : Type := mkLastUpdated {
  lu_LastUpdated : option Z;
  lu_MediaType : string;
  lu_Digest : string;
  lu_Tag : string
}.
Record ProtoRepoMeta : Type := mkProtoRepo {
  pr_Name : string;
  pr_Tags : gmap string TagDescriptor;
  pr_Statistics : gmap string Statistics;
  pr_Signatures : gmap string ManifestSignatures;
  pr_Referrers : gmap string (list ReferrerInfo);
  pr_Stars : Z;
  pr_Size : Z;
  pr_Vendors : list string;
  pr_Platforms : list Platform;
  pr_LastUpdatedImage : option LastUpdatedImage
}.
Record BlobInfo : Type := mkBlobInfo {
  bi_Size : Z;
  bi_Vendors : list string;
  bi_Platforms : list Platform;
  bi_SubBlobs : list string;
  bi_LastUpdated : option Z
}.
Record TagHistoryEntry : Type := mkHistory {
  he_Tag : string;
  he_Digest : string;
  he_MediaType : string;
  he_Timestamp : Z;
  he_User : string;
  he_Action : string
}.

#[export] Instance Platform_eq_dec : EqDecision Platform.
Proof. solve_decision. Defined.
#[export] Instance BlobInfo_eq_dec : EqDecision BlobInfo.
Proof. solve_decision. Defined.

Definition with_tags (m : ProtoRepoMeta) (tags : gmap string TagDescriptor) : ProtoRepoMeta :=
  mkProtoRepo (pr_Name m) tags (pr_Statistics m) (pr_Signatures m) (pr_Referrers m) (pr_Stars m) (pr_Size m)
    (pr_Vendors m) (pr_Platforms m) (pr_LastUpdatedImage m).
Definition with_statistics (m : ProtoRepoMeta) (stats : gmap string Statistics) : ProtoRepoMeta :=
  mkProtoRepo (pr_Name m) (pr_Tags m) stats (pr_Signatures m) (pr_Referrers m) (pr_Stars m) (pr_Size m)
    (pr_Vendors m) (pr_Platforms m) (pr_LastUpdatedImage m).
Definition with_signatures (m : ProtoRepoMeta) (sigs : gmap string ManifestSignatures) : ProtoRepoMeta :=
  mkProtoRepo (pr_Name m) (pr_Tags m) (pr_Statistics m) sigs (pr_Referrers m) (pr_Stars m) (pr_Size m)
    (pr_Vendors m) (pr_Platforms m) (pr_LastUpdatedImage m).
Definition with_referrers (m : ProtoRepoMeta) (refs : gmap string (list ReferrerInfo)) : ProtoRepoMeta :=
  mkProtoRepo (pr_Name m) (pr_Tags m) (pr_Statistics m) (pr_Signatures m) refs (pr_Stars m) (pr_Size m)
    (pr_Vendors m) (pr_Platforms m) (pr_LastUpdatedImage m).
Definition with_stars (m : ProtoRepoMeta) (stars : Z) : ProtoRepoMeta :=
  mkProtoRepo (pr_Name m) (pr_Tags m) (pr_Statistics m) (pr_Signatures m) (pr_Referrers m) stars (pr_Size m)
    (pr_Vendors m) (pr_Platforms m) (pr_LastUpdatedImage m).
Definition with_aggregates (m : ProtoRepoMeta) (size : Z) (vendors : list string) (platforms : list Platform)
    (last : option LastUpdatedImage) : ProtoRepoMeta :=
  mkProtoRepo (pr_Name m) (pr_Tags m) (pr_Statistics m) (pr_Signatures m) (pr_Referrers m) (pr_Stars m) size
    vendors platforms last.

(** ** Times and machine integers *)

(** The zero time of Go (the year 1), in nanoseconds since 1970; the empty
    protobuf timestamp is 1970 itself. *)
Definition zero_time : Z := (- 62135596800 * 1000000000)%Z.
Definition IsZero (t : Z) : bool := (t =? zero_time)%Z.
Definition int32 (z : Z) : Z := ((z + 2 ^ 31) mod 2 ^ 32 - 2 ^ 31)%Z.

(** ** Conversions (pkg/meta/convert, pkg/common/oci.go) *)
Definition GetImageLastUpdated (imageInfo : ImageConfig) : Z :=
  match ic_Created imageInfo with
  | Some t => if IsZero t then default zero_time (default (Some t) (last (ic_History imageInfo))) else t
  | None => default zero_time (default None (last (ic_History imageInfo)))
  end.

Definition GetImageManifestMeta (manifestContent : Manifest) (configContent : ImageConfig) (size : Z)
    (digest mediaType : string) : ImageMeta :=
  let mediaType := if bool_decide (mediaType = "") then MediaTypeImageManifest else mediaType in
  mkImageMeta mediaType digest size None [mkManifestMeta size digest manifestContent configContent].

Definition empty_manifest : Manifest := mkManifest "" empty_descriptor [] None ∅.
Definition GetManifests (descriptors : list Descriptor) : list ManifestMeta :=
  (fun d => mkManifestMeta (Size d) (Digest d) empty_manifest no_config) <$>
    filter (fun d => IsImageManifestMediaType (MediaType d) || IsImageIndexMediaType (MediaType d) = true) descriptors.
Definition GetImageIndexMeta (indexContent : Index) (size : Z) (digest mediaType : string) : ImageMeta :=
  let mediaType := if bool_decide (mediaType = "") then MediaTypeImageIndex else mediaType in
  mkImageMeta mediaType digest size (Some indexContent) (GetManifests (Manifests indexContent)).

Definition GetProtoImageMeta (imageMeta : ImageMeta) : option ProtoImageMeta :=
  if IsImageManifestMediaType (im_MediaType imageMeta) then
    match im_Manifests imageMeta with
    | [] => None
    | manifestData :: _ => Some (mkProtoImage (im_MediaType imageMeta) [manifestData] None)
    end
  else if IsImageIndexMediaType (im_MediaType imageMeta) then
    index ← im_Index imageMeta;
    Some (mkProtoImage (im_MediaType imageMeta) [] (Some (index, im_Size imageMeta, im_Digest imageMeta)))
  else None.

(** The run-time panics of a nil pointer and of a nil map. *)
Definition ErrNilPointer : err := ErrPanic "invalid memory address or nil pointer dereference".
Definition ErrNilMap : err := ErrPanic "assignment to entry in nil map".

(** What is read of a stored image, with the defaults of the generated getters
    when it is nil; the manifest of an image with the media type of one is
    there, for GetProtoImageMeta put it there. *)
Definition image_part {A} (image : option ProtoImageMeta) (none : A) (of_manifest : ManifestMeta -> A)
    (of_index : Index * Z * string -> A) : A :=
  match image with
  | None => none
  | Some im =>
      if IsImageManifestMediaType (pi_MediaType im) then
        match pi_Manifests im with m :: _ => of_manifest m | [] => none end
      else if IsImageIndexMediaType (pi_MediaType im) then
        match pi_Index im with Some i => of_index i | None => none end
      else none
  end.
Definition GetImageArtifactType (image : option ProtoImageMeta) : string :=
  image_part image "" (fun m => GetManifestArtifactType (mm_Manifest m)) (fun i => idx_ArtifactType (fst (fst i))).
Definition GetImageManifestSize (image : option ProtoImageMeta) : Z :=
  image_part image 0%Z mm_Size (fun i => snd (fst i)).
Definition GetImageDigestStr (image : option ProtoImageMeta) : string :=
  image_part image "" mm_Digest snd.
Definition GetImageAnnotations (image : option ProtoImageMeta) : gmap string string :=
  image_part image ∅ (fun m => m_Annotations (mm_Manifest m)) (fun i => idx_Annotations (fst (fst i))).
Definition GetImageSubject (image : option ProtoImageMeta) : option Descriptor :=
  image_part image None (fun m => m_Subject (mm_Manifest m)) (fun i => idx_Subject (fst (fst i))).

Definition AddVendors (vendors newVendors : list string) : list string :=
  foldl (fun vs v => if bool_decide (v ∈ vs) then vs else vs ++ [v]) vendors newVendors.
Definition AddProtoPlatforms (platforms newPlatforms : list Platform) : list Platform :=
  foldl (fun ps p => if bool_decide (p ∈ ps) then ps else ps ++ [p]) platforms newPlatforms.

Definition GetProtoEarlierUpdatedImage (repoLastImage lastImage : option LastUpdatedImage) : option LastUpdatedImage :=
  match repoLastImage, lastImage with
  | None, _ => lastImage
  | Some _, None => repoLastImage
  | Some r, Some l =>
      match lu_LastUpdated r, lu_LastUpdated l with
      | _, None => repoLastImage
      | None, Some _ => lastImage
      | Some tr, Some tl => if (tr <? tl)%Z then lastImage else repoLastImage
      end
  end.
Definition GetProtoPushTimestamp (now pushTimestamp : Z) : Z := if IsZero pushTimestamp then now else pushTimestamp.

(** ** Sizes, vendors and platforms of a repository (pkg/meta/common) *)
Section aggregates.
Context `{GoDigest} `{MapIter}.

Definition ValidateRepoReferenceInput (repo reference manifestDigest : string) : option err :=
  if bool_decide (repo = "") then Some (ErrOther "repo name can't be empty string")
  else if bool_decide (reference = "") then Some (ErrOther "tag can't be empty string")
  else if bool_decide (manifestDigest = "") then Some (ErrOther "digest can't be empty string")
  else None.

Definition ReferenceIsDigest (reference : string) : bool := is_ok (Parse reference).

Definition MatchesArtifactTypes (descriptorMediaType : string) (artifactTypes : list string) : bool :=
  match artifactTypes with
  | [] => true
  | _ => existsb (fun artifactType => bool_decide (artifactType = "") || bool_decide (descriptorMediaType = artifactType))
           artifactTypes
  end.

Definition getArch (arch variant : string) : string :=
  if bool_decide (variant = "") then arch else (arch ++ "/" ++ variant)%string.
Definition GetProtoPlatform (c : ImageConfig) : Platform := mkPlatform (ic_OS c) (getArch (ic_Architecture c) (ic_Variant c)).

Definition GetAnnotationValue (annotations : gmap string string) (annotationKey labelKey : string) : string :=
  match annotations !! annotationKey with
  | Some value => if bool_decide (value = "") then default "" (annotations !! labelKey) else value
  | None => default "" (annotations !! labelKey)
  end.
Definition GetVendor (annotations : gmap string string) : string :=
  GetAnnotationValue annotations "org.opencontainers.image.vendor" "org.label-schema.vendor".

(** What the walks over the blobs gather; [ag_Blobs] are the blobs met. *)
Record aggregate : Type := mkAggregate {
  ag_Blobs : gmap string BlobInfo;
  ag_Size : Z;
  ag_Vendors : list string;
  ag_Platforms : list Platform
}.
Definition no_blobs : aggregate := mkAggregate ∅ 0 [] [].

(** The loop over the queue of a tag; [None] when the fuel is out. *)
Fixpoint blob_queue (fuel : nat) (blobs : gmap string BlobInfo) (queue : list string) (a : aggregate) : option aggregate :=
  match fuel with
  | 0 => None
  | S fuel =>
      match queue with
      | [] => Some a
      | currentBlob :: queue =>
          match ag_Blobs a !! currentBlob with
          | Some _ => blob_queue fuel blobs queue a
          | None =>
              match blobs !! currentBlob with
              | None => blob_queue fuel blobs queue a
              | Some blobInfo =>
                  blob_queue fuel blobs (queue ++ bi_SubBlobs blobInfo)
                    (mkAggregate (<[currentBlob := blobInfo]> (ag_Blobs a)) (int64 (ag_Size a + bi_Size blobInfo))
                       (AddVendors (ag_Vendors a) (bi_Vendors blobInfo))
                       (AddProtoPlatforms (ag_Platforms a) (bi_Platforms blobInfo)))
              end
          end
      end
  end.
(** Enough turns for any queue of one element: each blob is entered once. *)
Definition queue_fuel (blobs : gmap string BlobInfo) : nat :=
  2 + map_fold (fun _ blobInfo n => length (bi_SubBlobs blobInfo) + n) 0 blobs.

Definition recalculate_tag (blobs : gmap string BlobInfo) (a : option aggregate) (tag : string * TagDescriptor)
    : option aggregate :=
  a ← a;
  if bool_decide (td_Digest (snd tag) = "") then Some a
  else blob_queue (queue_fuel blobs) blobs [td_Digest (snd tag)] a.
Definition recalculateAggregateFields (repoMeta : ProtoRepoMeta) (blobs : gmap string BlobInfo) : option aggregate :=
  foldl (recalculate_tag blobs) (Some no_blobs) (map_iter (pr_Tags repoMeta)).

(** The tag loop of RemoveImageFromRepoMeta, with the last updated image. *)
Definition remove_tag (blobs : gmap string BlobInfo) (c : option (aggregate * option LastUpdatedImage))
    (tag : string * TagDescriptor) : option (aggregate * option LastUpdatedImage) :=
  c ← c;
  let '(a, updatedLastImage) := c in
  let '(name, descriptor) := tag in
  if bool_decide (td_Digest descriptor = "") then Some c
  else match blobs !! td_Digest descriptor with
  | None => Some c
  | Some descriptorBlobInfo =>
      let updatedLastImage := GetProtoEarlierUpdatedImage updatedLastImage
        (Some (mkLastUpdated (bi_LastUpdated descriptorBlobInfo) (td_MediaType descriptor) (td_Digest descriptor) name)) in
      a ← blob_queue (queue_fuel blobs) blobs [td_Digest descriptor] a;
      Some (a, updatedLastImage)
  end.
Definition RemoveImageFromRepoMeta (repoMeta : ProtoRepoMeta) (blobs : gmap string BlobInfo)
    : option (ProtoRepoMeta * gmap string BlobInfo) :=
  c ← foldl (remove_tag blobs) (Some (no_blobs, None)) (map_iter (pr_Tags repoMeta));
  let '(a, updatedLastImage) := c in
  Some (with_aggregates repoMeta (ag_Size a) (ag_Vendors a) (ag_Platforms a) updatedLastImage, ag_Blobs a).

(** The blobs of an image. *)
Definition manifest_blobs (imageMeta : ImageMeta) (blobs : gmap string BlobInfo) : gmap string BlobInfo :=
  match im_Manifests imageMeta with
  | [] => <[im_Digest imageMeta := mkBlobInfo (im_Size imageMeta) [] [] [] None]> blobs
  | manifestData :: _ =>
      let manifest := mm_Manifest manifestData in
      let vendor := GetVendor (m_Annotations manifest) in
      let vendors := if bool_decide (vendor = "") then [] else [vendor] in
      let platform := GetProtoPlatform (mm_Config manifestData) in
      let platforms :=
        if bool_decide (p_OS platform = "") && bool_decide (p_Architecture platform = "") then [] else [platform] in
      let blobs := <[Digest (Config manifest) := mkBlobInfo (Size (Config manifest)) [] [] [] None]> blobs in
      let blobs := foldl (fun bs layer => <[Digest layer := mkBlobInfo (Size layer) [] [] [] None]> bs) blobs (Layers manifest) in
      <[im_Digest imageMeta :=
          mkBlobInfo (im_Size imageMeta) vendors platforms (Digest (Config manifest) :: (Digest <$> Layers manifest))
            (Some (GetImageLastUpdated (mm_Config manifestData)))]> blobs
  end.
Definition index_blobs (imageMeta : ImageMeta) (index : Index) (blobs : gmap string BlobInfo) : gmap string BlobInfo :=
  let lastUpdated := foldl (fun t manifest =>
    match blobs !! Digest manifest with
    | Some blobInfo => match bi_LastUpdated blobInfo with Some u => if (t <? u)%Z then u else t | None => t end
    | None => t
    end) zero_time (Manifests index) in
  <[im_Digest imageMeta := mkBlobInfo (im_Size imageMeta) [] [] (Digest <$> Manifests index) (Some lastUpdated)]> blobs.

Definition AddImageMetaToRepoMeta (repoMeta : ProtoRepoMeta) (blobs : gmap string BlobInfo) (reference : string)
    (imageMeta : ImageMeta) : res (ProtoRepoMeta * gmap string BlobInfo) :=
  match
    if IsImageManifestMediaType (im_MediaType imageMeta) then Ok (manifest_blobs imageMeta blobs)
    else if IsImageIndexMediaType (im_MediaType imageMeta) then
      match im_Index imageMeta with
      | Some index => Ok (index_blobs imageMeta index blobs)
      | None => Err ErrNilPointer
      end
    else Ok blobs
  with
  | Err e => Err e
  | Ok blobs =>
      if IsDigest reference then Ok (repoMeta, blobs)
      else match recalculateAggregateFields repoMeta blobs with
      | None => Err ErrFuel
      | Some a =>
          match blobs !! im_Digest imageMeta with
          | None => Err ErrNilPointer
          | Some imageBlobInfo =>
              Ok (with_aggregates repoMeta (ag_Size a) (ag_Vendors a) (ag_Platforms a)
                    (GetProtoEarlierUpdatedImage (pr_LastUpdatedImage repoMeta)
                       (Some (mkLastUpdated (bi_LastUpdated imageBlobInfo) (im_MediaType imageMeta) (im_Digest imageMeta)
                                reference))), blobs)
          end
      end
  end.
End aggregates.

(** ** What the walks gather *)

(** The blobs met by following the sub-blobs of known blobs. *)
Inductive reached (blobs : gmap string BlobInfo) : string -> string -> Prop :=
  | reached_self d info : blobs !! d = Some info -> reached blobs d d
  | reached_sub r info x d : blobs !! r = Some info -> x ∈ bi_SubBlobs info -> reached blobs x d -> reached blobs r d.
Lemma reached_trans blobs r e d : reached blobs r e -> reached blobs e d -> reached blobs r d.
Proof. induction 1; [done|]. intros ?. econstructor; eauto. Qed.
(** From the tags of a repository. *)
Definition reachable (m : ProtoRepoMeta) (blobs : gmap string BlobInfo) (d : string) : Prop :=
  exists tag td, pr_Tags m !! tag = Some td /\ td_Digest td <> "" /\ reached blobs (td_Digest td) d.

(** The sum of the sizes, and the 64 bits that are left of it. *)
Definition sum_of_sizes (blobs : gmap string BlobInfo) : Z := map_fold (fun _ blobInfo n => bi_Size blobInfo + n)%Z 0%Z blobs.
Definition total_size (blobs : gmap string BlobInfo) : Z := int64 (sum_of_sizes blobs).
(** A list with each of the values the blobs have, once. *)
Definition lists_values {A} (l : list A) (values : BlobInfo -> list A) (blobs : gmap string BlobInfo) : Prop :=
  NoDup l /\ forall v, v ∈ l <-> exists d info, blobs !! d = Some info /\ v ∈ values info.

(** The size, vendors and platforms are those of the gathered blobs. *)
Record gathered (blobs : gmap string BlobInfo) (a : aggregate) : Prop := {
  ga_known : ag_Blobs a ⊆ blobs;
  ga_size : ag_Size a = total_size (ag_Blobs a);
  ga_vendors : lists_values (ag_Vendors a) bi_Vendors (ag_Blobs a);
  ga_platforms : lists_values (ag_Platforms a) bi_Platforms (ag_Blobs a)
}.

Lemma reached_known blobs r d : reached blobs r d -> is_Some (blobs !! d).
Proof. by induction 1. Qed.
Lemma reached_root blobs r d : reached blobs r d -> is_Some (blobs !! r).
Proof. by destruct 1. Qed.

(** *** Vendors and platforms *)
Lemma add_new_spec {A} `{EqDecision A} (new : list A) : forall l, NoDup l ->
  let l' := foldl (fun vs v => if bool_decide (v ∈ vs) then vs else vs ++ [v]) l new in
  NoDup l' /\ forall v, v ∈ l' <-> v ∈ l \/ v ∈ new.
Proof.
  induction new as [|v new IH]; intros l Hl; simpl; [split; [done|]; intros v; rewrite elem_of_nil; tauto|].
  case_bool_decide as Hv.
  - destruct (IH l Hl) as [H1 H2]. split; [done|]. intros w. rewrite H2, elem_of_cons. naive_solver.
  - destruct (IH (l ++ [v])) as [H1 H2].
    { apply NoDup_app. repeat split; [done| |apply NoDup_singleton]. intros w Hw ->%list_elem_of_singleton. done. }
    split; [done|]. intros w. rewrite H2, elem_of_app, list_elem_of_singleton, elem_of_cons. tauto.
Qed.

Lemma lists_values_add {A} `{EqDecision A} (l : list A) values blobs d info : blobs !! d = None ->
  lists_values l values blobs ->
  lists_values (foldl (fun vs v => if bool_decide (v ∈ vs) then vs else vs ++ [v]) l (values info)) values (<[d := info]> blobs).
Proof.
  intros Hd [Hl Hin]. destruct (add_new_spec (values info) l Hl) as [H1 H2]. split; [done|].
  intros v. rewrite H2, Hin. split.
  - intros [(d' & i & Hi & Hv)|Hv].
    + exists d', i. split; [|done]. rewrite lookup_insert_ne; [done|]. intros ->. by rewrite Hd in Hi.
    + exists d, info. by rewrite lookup_insert_eq.
  - intros (d' & i & [[<- <-]|[_ Hi]]%lookup_insert_Some & Hv); [by right|left; eauto].
Qed.

Lemma total_size_insert blobs d info : blobs !! d = None ->
  total_size (<[d := info]> blobs) = int64 (total_size blobs + bi_Size info).
Proof.
  intros Hd. unfold total_size. rewrite int64_add_l. f_equal. rewrite Z.add_comm.
  apply (map_fold_insert_L (fun _ i n => bi_Size i + n)%Z); [|done]. intros. lia.
Qed.

Lemma no_blobs_gathered blobs : gathered blobs no_blobs.
Proof.
  split; simpl; [apply map_empty_subseteq|done| |]; (split; [constructor|]); intros v; rewrite elem_of_nil;
    (split; [done|]); intros (d & i & Hd & _); by rewrite lookup_empty in Hd.
Qed.

(** One more blob, as in a turn of the loop. *)
Definition gather (d : string) (info : BlobInfo) (a : aggregate) : aggregate :=
  mkAggregate (<[d := info]> (ag_Blobs a)) (int64 (ag_Size a + bi_Size info))
    (AddVendors (ag_Vendors a) (bi_Vendors info)) (AddProtoPlatforms (ag_Platforms a) (bi_Platforms info)).
Lemma gather_ok blobs d info a : blobs !! d = Some info -> ag_Blobs a !! d = None -> gathered blobs a ->
  gathered blobs (gather d info a).
Proof.
  intros Hd Hn [H1 H2 H3 H4]. split; simpl.
  - by apply insert_subseteq_l.
  - by rewrite total_size_insert, H2 by done.
  - by apply lists_values_add.
  - by apply lists_values_add.
Qed.

(** *** The loop ends *)
Definition sub_count (blobs : gmap string BlobInfo) : nat :=
  map_fold (fun _ blobInfo n => length (bi_SubBlobs blobInfo) + n) 0 blobs.
Lemma sub_count_insert blobs d info : blobs !! d = None ->
  sub_count (<[d := info]> blobs) = length (bi_SubBlobs info) + sub_count blobs.
Proof. intros Hd. apply (map_fold_insert_L (fun _ i n => length (bi_SubBlobs i) + n)); [|done]. intros. lia. Qed.

(** What the blobs not met yet can still put in the queue. *)
Lemma pending_insert blobs met d info : blobs !! d = Some info -> met !! d = None ->
  sub_count (blobs ∖ met) = length (bi_SubBlobs info) + sub_count (blobs ∖ <[d := info]> met).
Proof.
  intros Hd Hn. rewrite <-(sub_count_insert _ d) by (by rewrite lookup_difference, lookup_insert_eq). f_equal.
  apply map_eq. intros x. destruct (decide (x = d)) as [->|Hx].
  - by rewrite lookup_insert_eq, lookup_difference, Hn.
  - by rewrite lookup_insert_ne, !lookup_difference, lookup_insert_ne by done.
Qed.
Lemma pending_le blobs met : met ⊆ blobs -> sub_count (blobs ∖ met) <= sub_count blobs.
Proof.
  induction met as [|d info met Hd IH] using map_ind; intros Hs; [by rewrite map_difference_empty|].
  assert (blobs !! d = Some info) as Hb by (eapply lookup_weaken; [|exact Hs]; apply lookup_insert_eq).
  assert (met ⊆ blobs) as Hm by (etrans; [by apply insert_subseteq|done]).
  specialize (IH Hm). rewrite (pending_insert _ _ d info) in IH by done. lia.
Qed.

(** *** The loop gathers what is reached *)

(** Every known sub-blob of a gathered blob is gathered, or in the queue. *)
Definition closed_upto (blobs : gmap string BlobInfo) (queue : list string) (a : aggregate) : Prop :=
  forall d info x, ag_Blobs a !! d = Some info -> x ∈ bi_SubBlobs info -> is_Some (blobs !! x) ->
    is_Some (ag_Blobs a !! x) \/ x ∈ queue.

Lemma closed_reached blobs a r d : gathered blobs a -> closed_upto blobs [] a ->
  is_Some (ag_Blobs a !! r) -> reached blobs r d -> is_Some (ag_Blobs a !! d).
Proof.
  intros Hg Hc Hr. induction 1 as [d info Hd|r info x d Hi Hx Hxd IH]; [done|]. apply IH.
  destruct Hr as [info' Hr]. pose proof (lookup_weaken _ _ _ _ Hr (ga_known _ _ Hg)) as E. rewrite Hi in E. simplify_eq.
  destruct (Hc r info' x Hr Hx) as [?|Hn]; [by eapply reached_root|done|by apply elem_of_nil in Hn].
Qed.

Lemma closed_skip blobs r queue a : is_Some (ag_Blobs a !! r) \/ blobs !! r = None ->
  closed_upto blobs (r :: queue) a -> closed_upto blobs queue a.
Proof.
  intros Hr Hc d info x Hd Hx Hk. destruct (Hc d info x Hd Hx Hk) as [?|[->|?]%elem_of_cons]; [by left| |by right].
  destruct Hr as [Hr|Hr]; [by left|]. rewrite Hr in Hk. by destruct Hk.
Qed.
Lemma closed_gather blobs r info queue a : blobs !! r = Some info -> closed_upto blobs (r :: queue) a ->
  closed_upto blobs (queue ++ bi_SubBlobs info) (gather r info a).
Proof.
  intros Hr Hc d i x Hd Hx Hk. simpl in *. rewrite elem_of_app.
  apply lookup_insert_Some in Hd as [[<- <-]|[Hd' Hd]]; [by right; right|].
  destruct (decide (x = r)) as [->|Hxr]; [left; by rewrite lookup_insert_eq|]. rewrite lookup_insert_ne by done.
  destruct (Hc d i x Hd Hx Hk) as [?|[?|?]%elem_of_cons]; [by left|done|by right; left].
Qed.

Lemma blob_queue_spec blobs : forall fuel queue a, gathered blobs a -> closed_upto blobs queue a ->
  length queue + sub_count (blobs ∖ ag_Blobs a) < fuel ->
  exists a', blob_queue fuel blobs queue a = Some a' /\ gathered blobs a' /\ closed_upto blobs [] a' /\
    ag_Blobs a ⊆ ag_Blobs a' /\ (forall r, r ∈ queue -> is_Some (blobs !! r) -> is_Some (ag_Blobs a' !! r)) /\
    (forall d, is_Some (ag_Blobs a' !! d) -> is_Some (ag_Blobs a !! d) \/ exists r, r ∈ queue /\ reached blobs r d).
Proof.
  induction fuel as [|fuel IH]; intros queue a Hg Hc Hf; [lia|]. destruct queue as [|r queue]; simpl.
  { exists a. repeat split; try done; try apply Hg. by intros r ?%elem_of_nil. by left. }
  assert (forall a', ag_Blobs a ⊆ ag_Blobs a' -> is_Some (ag_Blobs a !! r) -> is_Some (ag_Blobs a' !! r)) as Hin.
  { intros a' Hs [i Hi]. exists i. by eapply lookup_weaken. }
  destruct (ag_Blobs a !! r) as [i|] eqn:Ea; [|destruct (blobs !! r) as [info|] eqn:Er].
  - destruct (IH queue a) as (a'&E&Hg'&Hc'&Hs&Hq&Hd); [done|by eapply closed_skip; eauto|simpl in Hf; lia|].
    exists a'. repeat split; try done; try apply Hg'; [intros x [->|?]%elem_of_cons ?; [by apply Hin|auto]|].
    intros d Hi. destruct (Hd d Hi) as [?|(x&?&?)]; [by left|right]. exists x. by rewrite elem_of_cons; auto.
  - destruct (IH (queue ++ bi_SubBlobs info) (gather r info a)) as (a'&E&Hg'&Hc'&Hs&Hq&Hd).
    { by apply gather_ok. } { by apply closed_gather. }
    { simpl in *. rewrite length_app. rewrite (pending_insert _ _ r info) in Hf by done. lia. }
    exists a'. simpl in *. split; [exact E|]. split; [done|]. split; [done|].
    assert (is_Some (ag_Blobs a' !! r)) as Hr by (eexists; eapply lookup_weaken; [apply lookup_insert_eq|exact Hs]).
    split; [etrans; [by apply insert_subseteq|exact Hs]|]. split.
    + intros x [->|Hx]%elem_of_cons Hk; [done|]. apply Hq; [|done]. apply elem_of_app. by left.
    + intros d Hi. destruct (Hd d Hi) as [[j Hj]|(x&Hx&?)].
      * apply lookup_insert_Some in Hj as [[<- _]|[_ Hj]]; [|left; eauto]. right. exists r. split; [constructor|].
        by econstructor.
      * right. apply elem_of_app in Hx as [Hx|Hx]; [exists x; by rewrite elem_of_cons; auto|].
        exists r. split; [constructor|]. by econstructor.
  - destruct (IH queue a) as (a'&E&Hg'&Hc'&Hs&Hq&Hd); [done|by eapply closed_skip; eauto|simpl in Hf; lia|].
    exists a'. repeat split; try done; try apply Hg'; [intros x [->|?]%elem_of_cons ?; [by rewrite Er in *; destruct H|auto]|].
    intros d Hi. destruct (Hd d Hi) as [?|(x&?&?)]; [by left|right]. exists x. by rewrite elem_of_cons; auto.
Qed.

(** The blobs gathered are those reached from the roots. *)
Definition gathers_from (blobs : gmap string BlobInfo) (roots : list string) (a : aggregate) : Prop :=
  gathered blobs a /\ forall d, is_Some (ag_Blobs a !! d) <-> exists r, r ∈ roots /\ reached blobs r d.

Lemma gathers_closed blobs roots a : gathers_from blobs roots a -> closed_upto blobs [] a.
Proof.
  intros [Hg Hr] d info x Hd Hx [i Hi]. left. apply Hr. assert (is_Some (ag_Blobs a !! d)) as (r&Hin&Hrd)%Hr by done.
  exists r. split; [done|]. pose proof (lookup_weaken _ _ _ _ Hd (ga_known _ _ Hg)) as Hb. clear Hin Hd.
  induction Hrd as [d j Hj|r j y d Hj Hy Hyd IH]; [|by econstructor; eauto].
  rewrite Hj in Hb. simplify_eq. econstructor; [done..|]. by econstructor.
Qed.

Lemma blob_queue_root blobs roots r a : gathers_from blobs roots a ->
  exists a', blob_queue (queue_fuel blobs) blobs [r] a = Some a' /\ gathers_from blobs (roots ++ [r]) a'.
Proof.
  intros Hr. pose proof Hr as [Hg Hin]. pose proof (gathers_closed _ _ _ Hr) as Hc.
  destruct (blob_queue_spec blobs (queue_fuel blobs) [r] a) as (a'&E&Hg'&Hc'&Hs&Hq&Hd).
  - done.
  - intros d info x Hd Hx Hk. destruct (Hc d info x Hd Hx Hk) as [?|?%elem_of_nil]; [by left|done].
  - pose proof (pending_le blobs (ag_Blobs a) (ga_known _ _ Hg)) as Hp. unfold sub_count at 2 in Hp. unfold queue_fuel. simpl. lia.
  - exists a'. split; [done|]. split; [done|]. intros d. split.
    + intros [(x&Hx&?)%Hin|(x&->%list_elem_of_singleton&?)]%Hd; [exists x|exists r]; by rewrite elem_of_app, ?list_elem_of_singleton; auto.
    + intros (x&[Hx| ->%list_elem_of_singleton]%elem_of_app&Hxd).
      * assert (is_Some (ag_Blobs a !! d)) as [i Hi] by (apply Hin; eauto). exists i. by eapply lookup_weaken.
      * eapply closed_reached; [done..| |done]. apply Hq; [constructor|by eapply reached_root].
Qed.

(** *** The loops over the tags *)
Section tag_loops.
Context `{GoDigest} `{MapIter} `{!MapIterLaws}.
#[local] Arguments recalculate_tag : simpl never.
#[local] Arguments remove_tag : simpl never.

(** The last updated image of the loop of removals. *)
Definition tag_image (blobs : gmap string BlobInfo) (tag : string * TagDescriptor) : option LastUpdatedImage :=
  if bool_decide (td_Digest (snd tag) = "") then None
  else info ← blobs !! td_Digest (snd tag);
       Some (mkLastUpdated (bi_LastUpdated info) (td_MediaType (snd tag)) (td_Digest (snd tag)) (fst tag)).
Definition last_tag (blobs : gmap string BlobInfo) (last : option LastUpdatedImage) (tag : string * TagDescriptor)
    : option LastUpdatedImage :=
  match tag_image blobs tag with None => last | image => GetProtoEarlierUpdatedImage last image end.

Lemma recalculate_tag_some blobs a tag : recalculate_tag blobs (Some a) tag =
  if bool_decide (td_Digest (snd tag) = "") then Some a else blob_queue (queue_fuel blobs) blobs [td_Digest (snd tag)] a.
Proof. reflexivity. Qed.
Lemma remove_tag_some blobs a last tag : remove_tag blobs (Some (a, last)) tag =
  (fun a' => (a', last_tag blobs last tag)) <$> recalculate_tag blobs (Some a) tag.
Proof.
  rewrite recalculate_tag_some. unfold remove_tag, last_tag, tag_image. destruct tag as [name td]. simpl fst. simpl snd.
  cbn [mbind option_bind]. case_bool_decide; [done|]. destruct (blobs !! td_Digest td) as [info|] eqn:Eb; [by destruct (blob_queue _ _ _ a)|].
  simpl. rewrite Eb. by destruct (ag_Blobs a !! td_Digest td).
Qed.

Definition tag_roots (tags : list (string * TagDescriptor)) : list string :=
  filter (fun d => d <> "") ((fun tag => td_Digest (snd tag)) <$> tags).
Lemma recalculate_tags blobs tags : forall roots a, gathers_from blobs roots a ->
  exists a', foldl (recalculate_tag blobs) (Some a) tags = Some a' /\ gathers_from blobs (roots ++ tag_roots tags) a'.
Proof.
  induction tags as [|[tag td] tags IH]; intros roots a Ha.
  { exists a. unfold tag_roots. simpl. by rewrite app_nil_r. }
  unfold tag_roots. simpl. rewrite recalculate_tag_some, filter_cons. simpl snd. case_bool_decide as Hd.
  - rewrite decide_False by naive_solver. by apply IH.
  - rewrite decide_True by done. destruct (blob_queue_root blobs roots (td_Digest td) a Ha) as (a'&->&Ha').
    destruct (IH _ a' Ha') as (a''&E&H'). exists a''. split; [done|]. by rewrite <-app_assoc in H'.
Qed.

Lemma tag_roots_reachable m blobs d : (exists r, r ∈ tag_roots (map_iter (pr_Tags m)) /\ reached blobs r d) <-> reachable m blobs d.
Proof.
  unfold reachable, tag_roots. setoid_rewrite list_elem_of_filter. setoid_rewrite list_elem_of_fmap.
  setoid_rewrite map_iter_perm. split.
  - intros (r&(Hr&[tag td]&->&Hin%elem_of_map_to_list)&Hd). eauto 6.
  - intros (tag&td&Ht&Hn&Hd). exists (td_Digest td). split; [|done]. split; [done|]. exists (tag, td).
    split; [done|]. by apply elem_of_map_to_list.
Qed.

(** The aggregates of a repository are those of the blobs reachable from its
    tags, each counted once. *)
Definition aggregates (m : ProtoRepoMeta) (blobs : gmap string BlobInfo) (a : aggregate) : Prop :=
  (forall d info, ag_Blobs a !! d = Some info <-> blobs !! d = Some info /\ reachable m blobs d) /\
  ag_Size a = total_size (ag_Blobs a) /\
  lists_values (ag_Vendors a) bi_Vendors (ag_Blobs a) /\ lists_values (ag_Platforms a) bi_Platforms (ag_Blobs a).

Lemma recalculate_spec m blobs : exists a, recalculateAggregateFields m blobs = Some a /\ aggregates m blobs a.
Proof.
  destruct (recalculate_tags blobs (map_iter (pr_Tags m)) [] no_blobs) as (a&E&[Hg Hin]).
  - split; [apply no_blobs_gathered|]. intros d. simpl. rewrite lookup_empty. split; [by intros [? ?]|].
    by intros (r&?%elem_of_nil&_).
  - exists a. split; [done|]. setoid_rewrite tag_roots_reachable in Hin.
    split; [|split; [apply Hg|split; apply Hg]]. intros d info. rewrite <-Hin. split.
    + intros Hd. split; [by eapply lookup_weaken; [|apply Hg]|done].
    + intros [Hd [i Hi]]. pose proof (lookup_weaken _ _ _ _ Hi (ga_known _ _ Hg)). naive_solver.
Qed.

(** The record's aggregates are those of its tags' blobs. *)
Definition aggregated (m : ProtoRepoMeta) (blobs : gmap string BlobInfo) : Prop :=
  exists a, aggregates m blobs a /\ pr_Size m = ag_Size a /\ pr_Vendors m = ag_Vendors a /\ pr_Platforms m = ag_Platforms a.

(** Keeping only the blobs that are counted changes nothing of what is
    reached. *)
Lemma reachable_sub m blobs r info x : reachable m blobs r -> blobs !! r = Some info -> x ∈ bi_SubBlobs info ->
  is_Some (blobs !! x) -> reachable m blobs x.
Proof.
  intros (tag&td&Htd&Hne&Hr) Hi Hx [j Hj]. exists tag, td. split; [done|]. split; [done|].
  eapply reached_trans; [exact Hr|]. eapply reached_sub; [exact Hi|exact Hx|]. by econstructor.
Qed.
Lemma reached_restrict m blobs a r d : aggregates m blobs a -> reached blobs r d -> reachable m blobs r -> reached (ag_Blobs a) r d.
Proof.
  intros [Hin _]. induction 1 as [d info Hd|r info x d Hi Hx Hxd IH]; intros Hr.
  - econstructor. by apply Hin.
  - econstructor; [by apply Hin|exact Hx|]. apply IH. eapply reachable_sub; [exact Hr|exact Hi|exact Hx|]. by eapply reached_root.
Qed.
Lemma reached_extend m blobs a r d : aggregates m blobs a -> reached (ag_Blobs a) r d -> reached blobs r d.
Proof. intros [Hin _]. induction 1 as [d info [Hd _]%Hin|r info x d [Hi _]%Hin Hx _ IH]; by econstructor. Qed.
Lemma reachable_restrict m blobs a d : aggregates m blobs a -> reachable m (ag_Blobs a) d <-> reachable m blobs d.
Proof.
  intros Ha. split; intros (tag&td&Htd&Hne&Hr); exists tag, td; (split; [done|]); (split; [done|]).
  - by eapply reached_extend.
  - eapply reached_restrict; [done..|]. exists tag, td. split; [done|]. split; [done|].
    apply reached_root in Hr as [? ?]. by econstructor.
Qed.

Lemma aggregates_restrict m blobs a last : aggregates m blobs a ->
  let m' := with_aggregates m (ag_Size a) (ag_Vendors a) (ag_Platforms a) last in
  aggregated m' (ag_Blobs a) /\
  forall tag td, pr_Tags m' !! tag = Some td -> td_Digest td <> "" -> is_Some (blobs !! td_Digest td) ->
    is_Some (ag_Blobs a !! td_Digest td).
Proof.
  intros Ha m'. pose proof Ha as (Hin&Hrest). split.
  - exists a. split; [|done]. split; [|exact Hrest]. intros d info.
    change (reachable m' (ag_Blobs a) d) with (reachable m (ag_Blobs a) d). rewrite reachable_restrict by done.
    rewrite Hin. tauto.
  - intros tag td Htd Hne [info Hb]. exists info. apply Hin. split; [done|]. exists tag, td.
    split; [done|]. split; [done|]. by econstructor.
Qed.

Lemma remove_tags blobs tags : forall a last,
  foldl (remove_tag blobs) (Some (a, last)) tags =
  (fun a' => (a', foldl (last_tag blobs) last tags)) <$> foldl (recalculate_tag blobs) (Some a) tags.
Proof.
  assert (forall l, foldl (remove_tag blobs) None l = None) as Hn by (induction l; done).
  assert (forall l, foldl (recalculate_tag blobs) None l = None) as Hn' by (induction l; done).
  induction tags as [|tag tags IH]; intros a last; [done|]. simpl. rewrite remove_tag_some.
  destruct (recalculate_tag blobs (Some a) tag) as [a'|]; simpl; [by rewrite IH|]. by rewrite Hn, Hn'.
Qed.

(** [last] is the image of a tag, and none was updated later. *)
Definition newest (images : list LastUpdatedImage) (last : option LastUpdatedImage) : Prop :=
  match last with
  | None => images = []
  | Some l => l ∈ images /\ forall i t, i ∈ images -> lu_LastUpdated i = Some t ->
                exists t', lu_LastUpdated l = Some t' /\ (t <= t')%Z
  end.
Lemma newest_snoc images last i : newest images last -> newest (images ++ [i]) (GetProtoEarlierUpdatedImage last (Some i)).
Proof.
  destruct last as [l|]; simpl; [|intros ->; simpl; split; [constructor|]; intros j t ->%list_elem_of_singleton; by eauto with lia].
  intros [Hl Hmax]. assert (forall j, j ∈ images ++ [i] -> j ∈ images \/ j = i) as Hj.
  { intros j. by rewrite elem_of_app, list_elem_of_singleton. }
  destruct (lu_LastUpdated l) as [tl|] eqn:El, (lu_LastUpdated i) as [ti|] eqn:Ei; [destruct (Z.ltb_spec tl ti)| | |];
    (split; [rewrite elem_of_app, list_elem_of_singleton; tauto|]); intros j t [Hin| ->]%Hj Et;
    try (specialize (Hmax j t Hin Et) as (t'&?&?)); simplify_eq; eauto with lia; eexists; split; eauto; lia.
Qed.
Lemma newest_tags blobs tags : newest (omap (tag_image blobs) tags) (foldl (last_tag blobs) None tags).
Proof.
  induction tags as [|tag tags IH] using rev_ind; [done|]. rewrite foldl_snoc, omap_app. unfold last_tag at 1. simpl.
  destruct (tag_image blobs tag) as [i|]; [by apply newest_snoc|by rewrite app_nil_r].
Qed.

(** The images of the tags that are known. *)
Definition tag_images (m : ProtoRepoMeta) (blobs : gmap string BlobInfo) : list LastUpdatedImage :=
  omap (tag_image blobs) (map_iter (pr_Tags m)).

(** C21 The walks over the blobs of a repository end, whatever the blobs refer
    to, cycles and missing blobs included; the size is the sum of those of the
    blobs reachable from the tags, each counted once, in 64 bits with
    wrap-around, with their vendors and platforms once each; pushing and removing compute the same values, and a
    removal keeps exactly those blobs and names the image of a tag that was
    updated last. *)
Theorem aggregates_exact (m : ProtoRepoMeta) (blobs : gmap string BlobInfo) :
  exists a last, recalculateAggregateFields m blobs = Some a /\ aggregates m blobs a /\
    RemoveImageFromRepoMeta m blobs =
      Some (with_aggregates m (ag_Size a) (ag_Vendors a) (ag_Platforms a) last, ag_Blobs a) /\
    newest (tag_images m blobs) last.
Proof.
  destruct (recalculate_spec m blobs) as (a&E&Ha). eexists a, _. split; [done|]. split; [done|].
  split; [|apply newest_tags]. unfold RemoveImageFromRepoMeta. rewrite remove_tags.
  unfold recalculateAggregateFields in E. by rewrite E.
Qed.
End tag_loops.
