(* ===== verification/MetaDB.v ===== *)
(** * The metadata database on BoltDB (pkg/meta/boltdb)

    What zot remembers of each repository next to its image layout: tags,
    statistics, signatures, referrers, the blobs with their sizes, and the
    history of the tags. A bucket is a map whose values are the messages of
    Aggregates.v; a map that was written empty is read as one that is missing. *)

From Stdlib Require Import ZArith Lia Ascii String.
From stdpp Require Import base tactics list gmap strings sorting functions.
From S2P Require Import Prelude Runtime Regexp Oci StorageCommon GC Aggregates.

Local Open Scope string_scope.
Local Open Scope list_scope.

(** ** The database *)

(** VerifySignature of the trust store: the signer, the expiry date and whether
    the signature is trusted; a failure is only logged. *)
Class ImageTrustStore := VerifySignature :
  string -> string -> string -> string -> ProtoImageMeta -> string -> string * Z * bool.

Record bolt : Type := mkBolt {
  b_RepoMeta : gmap string ProtoRepoMeta;
  b_ImageMeta : gmap string ProtoImageMeta;
  b_RepoBlobs : gmap string (gmap string BlobInfo);
  b_RepoLastUpdated : gmap string Z;
  b_TagHistory : gmap string (list TagHistoryEntry);
  b_FastRestartStamp : string;
  b_trusted : bool;   (* a trust store is set *)
  b_env : env
}.
Definition empty_bolt (trusted : bool) (e : env) : bolt := mkBolt ∅ ∅ ∅ ∅ ∅ "" trusted e.

Definition set_repo_meta (f : gmap string ProtoRepoMeta -> gmap string ProtoRepoMeta) (b : bolt) : bolt :=
  mkBolt (f (b_RepoMeta b)) (b_ImageMeta b) (b_RepoBlobs b) (b_RepoLastUpdated b) (b_TagHistory b)
    (b_FastRestartStamp b) (b_trusted b) (b_env b).
Definition set_image_meta (f : gmap string ProtoImageMeta -> gmap string ProtoImageMeta) (b : bolt) : bolt :=
  mkBolt (b_RepoMeta b) (f (b_ImageMeta b)) (b_RepoBlobs b) (b_RepoLastUpdated b) (b_TagHistory b)
    (b_FastRestartStamp b) (b_trusted b) (b_env b).
Definition set_repo_blobs (f : gmap string (gmap string BlobInfo) -> gmap string (gmap string BlobInfo)) (b : bolt) : bolt :=
  mkBolt (b_RepoMeta b) (b_ImageMeta b) (f (b_RepoBlobs b)) (b_RepoLastUpdated b) (b_TagHistory b)
    (b_FastRestartStamp b) (b_trusted b) (b_env b).
Definition set_last_updated (f : gmap string Z -> gmap string Z) (b : bolt) : bolt :=
  mkBolt (b_RepoMeta b) (b_ImageMeta b) (b_RepoBlobs b) (f (b_RepoLastUpdated b)) (b_TagHistory b)
    (b_FastRestartStamp b) (b_trusted b) (b_env b).
Definition set_tag_history (f : gmap string (list TagHistoryEntry) -> gmap string (list TagHistoryEntry)) (b : bolt) : bolt :=
  mkBolt (b_RepoMeta b) (b_ImageMeta b) (b_RepoBlobs b) (b_RepoLastUpdated b) (f (b_TagHistory b))
    (b_FastRestartStamp b) (b_trusted b) (b_env b).
Definition set_stamp (stamp : string) (b : bolt) : bolt :=
  mkBolt (b_RepoMeta b) (b_ImageMeta b) (b_RepoBlobs b) (b_RepoLastUpdated b) (b_TagHistory b)
    stamp (b_trusted b) (b_env b).
Definition set_env (e : env) (b : bolt) : bolt :=
  mkBolt (b_RepoMeta b) (b_ImageMeta b) (b_RepoBlobs b) (b_RepoLastUpdated b) (b_TagHistory b)
    (b_FastRestartStamp b) (b_trusted b) e.

(** bbolt's Update: nothing of a transaction that fails, or panics, is kept. *)
Definition update {A} (m : ST bolt A) : ST bolt A := fun b =>
  match m b with
  | (Ok a, b') => (Ok a, b')
  | (Err e, b') => (Err e, set_env (b_env b') b)
  end.
Definition on_clock {A} (m : ST env A) : ST bolt A := zoom b_env set_env m.
Definition tx_now : ST bolt Z := on_clock Now.

(** ** Reading and writing the messages *)

(** A protobuf map that is empty is read as nil, and replaced by one with an
    entry for the empty key. *)
Definition init_map {A} (none : A) (m : gmap string A) : gmap string A :=
  if decide (m = ∅) then {["" := none]} else m.
Definition init_repo (m : ProtoRepoMeta) : ProtoRepoMeta :=
  mkProtoRepo (pr_Name m) (init_map (mkTag "" "" None) (pr_Tags m)) (init_map (mkStats 0 0 0 "") (pr_Statistics m))
    (init_map ∅ (pr_Signatures m)) (init_map [] (pr_Referrers m)) (pr_Stars m) (pr_Size m) (pr_Vendors m)
    (pr_Platforms m) (pr_LastUpdatedImage m).
Definition new_repo (repo : string) : ProtoRepoMeta := mkProtoRepo repo ∅ ∅ ∅ ∅ 0 0 [] [] None.

(** unmarshalProtoRepoMeta: the message, and whether there was one
    (ErrRepoMetaNotFound otherwise). *)
Definition getProtoRepoMeta (repo : string) : ST bolt (ProtoRepoMeta * bool) :=
  gets (fun b => match b_RepoMeta b !! repo with
                 | Some m => (init_repo m, true)
                 | None => (init_repo (new_repo repo), false)
                 end).
Definition ErrRepoMetaNotFound : err := ErrOther "repo metadata not found for given repo name".
Definition ErrImageMetaNotFound : err := ErrOther "image meta not found".
Definition existing_repo (missing : err) (repo : string) : ST bolt ProtoRepoMeta :=
  let* (m, found) := getProtoRepoMeta repo in
  if (found : bool) then ret m else throw missing.
Definition setProtoRepoMeta (m : ProtoRepoMeta) : ST bolt unit := modify (set_repo_meta <[pr_Name m := m]>).

Definition unmarshalProtoRepoBlobs (repo : string) : ST bolt (gmap string BlobInfo) :=
  gets (fun b => init_map (mkBlobInfo 0 [] [] [] None) (default ∅ (b_RepoBlobs b !! repo))).
Definition setProtoRepoBlobs (repo : string) (blobs : gmap string BlobInfo) : ST bolt unit :=
  modify (set_repo_blobs <[repo := blobs]>).
Definition setRepoLastUpdated (repo : string) (t : Z) : ST bolt unit := modify (set_last_updated <[repo := t]>).

Definition tagHistoryMaxEntries : nat := 200.
Definition appendTagHistory (repo : string) (entry : TagHistoryEntry) : ST bolt unit :=
  modify (set_tag_history (fun h =>
    let entries := default [] (h !! repo) ++ [entry] in
    <[repo := drop (length entries - tagHistoryMaxEntries) entries]> h)).

Section boltdb.
Context `{GoDigest} `{MapIter} `{!ImageTrustStore}.

Definition GetAllRepoNames : ST bolt (list string) :=
  gets (fun b => merge_sort str_le (fst <$> map_to_list (b_RepoMeta b))).
Definition CountRepos : ST bolt Z := gets (fun b => Z.of_nat (size (b_RepoMeta b))).
Definition GetRepoLastUpdated (repo : string) : ST bolt Z :=
  gets (fun b => default zero_time (b_RepoLastUpdated b !! repo)).

(** ** SetRepoReference *)

(** The referrers of a subject once an image that refers to it is added. *)
Fixpoint count_referrer (digest : string) (l : list ReferrerInfo) : option (list ReferrerInfo) :=
  match l with
  | [] => None
  | r :: rest =>
      if bool_decide (rf_Digest r = digest) then
        Some (mkReferrer (rf_Digest r) (rf_MediaType r) (rf_ArtifactType r) (rf_Size r) (rf_Annotations r)
                (int32 (rf_Count r + 1)) :: rest)
      else rest ← count_referrer digest rest; Some (r :: rest)
  end.
Definition add_referrer (image : option ProtoImageMeta) (m : ProtoRepoMeta) : ProtoRepoMeta :=
  match GetImageSubject image with
  | None => m
  | Some subject =>
      let refInfo := default [] (pr_Referrers m !! Digest subject) in
      let refInfo :=
        match count_referrer (GetImageDigestStr image) refInfo with
        | Some l => l
        | None =>
            refInfo ++ [mkReferrer (GetImageDigestStr image)
              (match image with Some im => pi_MediaType im | None => "" end) (GetImageArtifactType image)
              (GetImageManifestSize image) (GetImageAnnotations image) 1]
        end in
      with_referrers m (<[Digest subject := refInfo]> (pr_Referrers m))
  end.

(** The tag moves to the image; a movement is recorded in the history. *)
Definition set_tag (repo reference : string) (imageMeta : ImageMeta) (pushTimestamp : Z) (userid : string)
    (m : ProtoRepoMeta) : ST bolt ProtoRepoMeta :=
  if ReferenceIsDigest reference then ret m
  else
    let existingTag := pr_Tags m !! reference in
    let* taggedTimestamp :=
      match existingTag with
      | Some tag => ret (td_TaggedTimestamp tag)
      | None => let* now := tx_now in ret (Some now)
      end in
    (if match existingTag with Some tag => bool_decide (td_Digest tag = im_Digest imageMeta) | None => false end then ret tt
     else
       let* entryTime := (if IsZero pushTimestamp then tx_now else ret pushTimestamp) in
       appendTagHistory repo (mkHistory reference (im_Digest imageMeta) (im_MediaType imageMeta) entryTime userid "push")) ;;;
    ret (with_tags m (<[reference := mkTag (im_Digest imageMeta) (im_MediaType imageMeta) taggedTimestamp]> (pr_Tags m))).

Definition set_statistics (digestStr : string) (pushTimestamp : Z) (userid : string) (m : ProtoRepoMeta)
    : ST bolt ProtoRepoMeta :=
  let* stats :=
    match pr_Statistics m !! digestStr with
    | None =>
        let* now := (if IsZero pushTimestamp then tx_now else ret zero_time) in
        ret (mkStats 0 0 (GetProtoPushTimestamp now pushTimestamp) userid)
    | Some stats =>
        let* push := (if IsZero (st_PushTimestamp stats) then
                        let* now := (if IsZero pushTimestamp then tx_now else ret zero_time) in
                        ret (GetProtoPushTimestamp now pushTimestamp)
                      else ret (st_PushTimestamp stats)) in
        ret (mkStats (st_DownloadCount stats) (st_LastPullTimestamp stats) push
               (if negb (bool_decide (userid = "")) && bool_decide (st_PushedBy stats = "") then userid
                else st_PushedBy stats))
    end in
  ret (with_statistics m (<[digestStr := stats]> (pr_Statistics m))).

(** An entry for the image's signatures and referrers. *)
Definition ensure_entries (digestStr : string) (m : ProtoRepoMeta) : ProtoRepoMeta :=
  let m := match pr_Signatures m !! digestStr with
           | Some _ => m
           | None => with_signatures m (<[digestStr := {["" := []]}]> (pr_Signatures m))
           end in
  match pr_Referrers m !! digestStr with
  | Some _ => m
  | None => with_referrers m (<[digestStr := []]> (pr_Referrers m))
  end.

(** The image in its bucket; the bytes of a nil message are empty, which reads
    as no image. *)
Definition put_image (digest : string) (image : option ProtoImageMeta) : ST bolt unit :=
  modify (set_image_meta (fun images =>
    match image with Some im => <[digest := im]> images | None => delete digest images end)).

Definition SetRepoReference (repo reference : string) (imageMeta : ImageMeta) (pushTimestamp : Z) (userid : string)
    : ST bolt unit :=
  match ValidateRepoReferenceInput repo reference (im_Digest imageMeta) with
  | Some e => throw e
  | None => update (
      let protoImageMeta := GetProtoImageMeta imageMeta in
      put_image (im_Digest imageMeta) protoImageMeta ;;;
      let* (protoRepoMeta, _) := getProtoRepoMeta repo in
      let protoRepoMeta := add_referrer protoImageMeta protoRepoMeta in
      let* protoRepoMeta := set_tag repo reference imageMeta pushTimestamp userid protoRepoMeta in
      let* protoRepoMeta := set_statistics (im_Digest imageMeta) pushTimestamp userid protoRepoMeta in
      let protoRepoMeta := ensure_entries (im_Digest imageMeta) protoRepoMeta in
      let* repoBlobs := unmarshalProtoRepoBlobs repo in
      let* (protoRepoMeta, repoBlobs) := lift_res (AddImageMetaToRepoMeta protoRepoMeta repoBlobs reference imageMeta) in
      let* now := tx_now in
      setRepoLastUpdated repo now ;;;
      setProtoRepoBlobs repo repoBlobs ;;;
      setProtoRepoMeta protoRepoMeta)
  end.

(** ** RemoveRepoReference *)

(** The referrers once a reference to one of them is removed. *)
Fixpoint uncount_referrer (manifestDigest : string) (byDigest : bool) (l : list ReferrerInfo) : list ReferrerInfo :=
  match l with
  | [] => []
  | r :: rest =>
      if bool_decide (rf_Digest r = manifestDigest) then
        let count := int32 (rf_Count r - 1) in
        if (count =? 0)%Z || byDigest then rest
        else mkReferrer (rf_Digest r) (rf_MediaType r) (rf_ArtifactType r) (rf_Size r) (rf_Annotations r) count :: rest
      else r :: uncount_referrer manifestDigest byDigest rest
  end.
Definition remove_referrer (image : ProtoImageMeta) (reference manifestDigest : string) (m : ProtoRepoMeta) : ProtoRepoMeta :=
  match GetImageSubject (Some image) with
  | None => m
  | Some subject =>
      with_referrers m (<[Digest subject :=
        uncount_referrer manifestDigest (ReferenceIsDigest reference) (default [] (pr_Referrers m !! Digest subject))]>
        (pr_Referrers m))
  end.

Definition record_delete (repo userid : string) (tag : string * TagDescriptor) : ST bolt unit :=
  let* now := tx_now in
  appendTagHistory repo (mkHistory (fst tag) (td_Digest (snd tag)) (td_MediaType (snd tag)) now userid "delete").
Fixpoint delete_tags (repo userid : string) (tags : list string) (m : ProtoRepoMeta) : ST bolt ProtoRepoMeta :=
  match tags with
  | [] => ret m
  | tag :: rest =>
      match pr_Tags m !! tag with
      | Some desc => record_delete repo userid (tag, desc)
      | None => ret tt
      end ;;;
      delete_tags repo userid rest (with_tags m (delete tag (pr_Tags m)))
  end.
(** The tags a removal takes away: the reference itself, or every tag of the
    digest, sorted. *)
Definition removed_tags (reference : string) (m : ProtoRepoMeta) : list string :=
  if ReferenceIsDigest reference then
    merge_sort str_le (fst <$> filter (fun tag => td_Digest (snd tag) = reference) (map_to_list (pr_Tags m)))
  else [reference].

(** Without a tag, everything known of the digest goes. *)
Definition forget_untagged (manifestDigest : string) (m : ProtoRepoMeta) : ProtoRepoMeta :=
  if existsb (fun tag => bool_decide (td_Digest (snd tag) = manifestDigest)) (map_to_list (pr_Tags m)) then m
  else
    with_referrers (with_signatures (with_statistics m (delete manifestDigest (pr_Statistics m)))
      (delete manifestDigest (pr_Signatures m))) (delete manifestDigest (pr_Referrers m)).

Definition RemoveRepoReference (repo reference manifestDigest userid : string) : ST bolt unit := update (
  let* (protoRepoMeta, found) := getProtoRepoMeta repo in
  if negb found then ret tt
  else
    let* image := gets (fun b => b_ImageMeta b !! manifestDigest) in
    match image with
    | None => ret tt
    | Some image =>
        let protoRepoMeta := remove_referrer image reference manifestDigest protoRepoMeta in
        let* protoRepoMeta := delete_tags repo userid (removed_tags reference protoRepoMeta) protoRepoMeta in
        let protoRepoMeta := forget_untagged manifestDigest protoRepoMeta in
        let* repoBlobs := unmarshalProtoRepoBlobs (pr_Name protoRepoMeta) in
        let* now := tx_now in
        setRepoLastUpdated repo now ;;;
        match RemoveImageFromRepoMeta protoRepoMeta repoBlobs with
        | None => throw ErrFuel
        | Some (protoRepoMeta, repoBlobs) =>
            setProtoRepoBlobs (pr_Name protoRepoMeta) repoBlobs ;;;
            setProtoRepoMeta protoRepoMeta
        end
    end).

(** ** Signatures *)
Record SignatureMetadata : Type := mkSignatureMeta {
  sm_SignatureType : string;
  sm_SignatureDigest : string;
  sm_SignatureTag : string;
  sm_LayersInfo : list LayersInfo
}.
Definition CosignSignature : string := "cosign".
Definition NotationSignature : string := "notation".

Definition ProtoSignatureAlreadyExists (l : list SignatureInfo) (sm : SignatureMetadata) : bool :=
  existsb (fun sigInfo => bool_decide (sm_SignatureDigest sm = si_Digest sigInfo)) l.

(** The signatures of a type once one is added; the first place of the cosign
    ones is kept for the signature under the tag "sha256-<digest>.sig". *)
Definition add_signature (sm : SignatureMetadata) (l : list SignatureInfo) : list SignatureInfo :=
  let new := mkSignature (sm_SignatureDigest sm) (sm_LayersInfo sm) in
  if ProtoSignatureAlreadyExists l sm then l
  else if bool_decide (sm_SignatureType sm = NotationSignature) then l ++ [new]
  else if bool_decide (sm_SignatureType sm = CosignSignature) then
    if IsCosignSignature (sm_SignatureTag sm) then new :: tl l
    else match l with [] => [mkSignature "" []; new] | _ => l ++ [new] end
  else l.

Definition AddManifestSignature (repo signedManifestDigest : string) (sm : SignatureMetadata) : ST bolt unit := update (
  let* (protoRepoMeta, found) := getProtoRepoMeta repo in
  if negb found then
    setProtoRepoMeta (with_signatures protoRepoMeta
      {[signedManifestDigest := {[sm_SignatureType sm := [mkSignature (sm_SignatureDigest sm) (sm_LayersInfo sm)]]}]})
  else
    let manifestSignatures := default {["" := []]} (pr_Signatures protoRepoMeta !! signedManifestDigest) in
    if decide (manifestSignatures = ∅) then throw ErrNilMap
    else
      let signatureSlice := default [] (manifestSignatures !! sm_SignatureType sm) in
      setProtoRepoMeta (with_signatures protoRepoMeta
        (<[signedManifestDigest := <[sm_SignatureType sm := add_signature sm signatureSlice]> manifestSignatures]>
           (pr_Signatures protoRepoMeta)))).

Definition DeleteSignature (repo signedManifestDigest signatureDigest signatureType : string) : ST bolt unit := update (
  let* protoRepoMeta := existing_repo ErrImageMetaNotFound repo in
  match pr_Signatures protoRepoMeta !! signedManifestDigest with
  | None => throw ErrImageMetaNotFound
  | Some manifestSignatures =>
      match manifestSignatures !! signatureType with
      | None => throw ErrNilPointer   (* signatureSlice.List of a nil pointer *)
      | Some signatureSlice =>
          let newSignatureSlice := filter (fun sigInfo => si_Digest sigInfo <> signatureDigest) signatureSlice in
          setProtoRepoMeta (with_signatures protoRepoMeta
            (<[signedManifestDigest := <[signatureType := newSignatureSlice]> manifestSignatures]>
               (pr_Signatures protoRepoMeta)))
      end
  end).

Definition verify_layer (sigType manifestDigest repo : string) (image : ProtoImageMeta) (layerInfo : LayersInfo) : LayersInfo :=
  let '(author, date, isTrusted) :=
    VerifySignature sigType (li_LayerContent layerInfo) (li_SignatureKey layerInfo) manifestDigest image repo in
  mkLayerInfo (li_LayerDigest layerInfo) (li_LayerContent layerInfo) (li_SignatureKey layerInfo)
    (if isTrusted then author else "") (if IsZero date then li_Date layerInfo else Some date).
Fixpoint verify_types (manifestDigest repo : string) (image : ProtoImageMeta) (sigs : list (string * list SignatureInfo))
    (verified : ManifestSignatures) : ST bolt ManifestSignatures :=
  match sigs with
  | [] => ret verified
  | (sigType, l) :: rest =>
      let* done := on_clock IsContextDone in
      if (done : bool) then throw ErrContext
      else
        verify_types manifestDigest repo image rest
          (<[sigType := (fun sigInfo => mkSignature (si_Digest sigInfo)
                           (verify_layer sigType manifestDigest repo image <$> si_LayersInfo sigInfo)) <$> l]> verified)
  end.
Definition UpdateSignaturesValidity (repo manifestDigest : string) : ST bolt unit := update (
  let* b := get in
  if negb (b_trusted b) then ret tt
  else match b_ImageMeta b !! manifestDigest with
  | None => ret tt
  | Some image =>
      let* protoRepoMeta := existing_repo ErrRepoMetaNotFound repo in
      match pr_Signatures protoRepoMeta !! manifestDigest with
      | None => throw ErrNilPointer
      | Some sigs =>
          let* verified := verify_types manifestDigest repo image (map_iter sigs) {["" := []]} in
          setProtoRepoMeta (with_signatures protoRepoMeta (<[manifestDigest := verified]> (pr_Signatures protoRepoMeta)))
      end
  end).

(** ** The rest of the repository's record *)
Definition IncrementRepoStars (repo : string) : ST bolt unit := update (
  let* m := existing_repo ErrRepoMetaNotFound repo in
  setProtoRepoMeta (with_stars m (int32 (pr_Stars m + 1)))).
Definition DecrementRepoStars (repo : string) : ST bolt unit := update (
  let* m := existing_repo ErrRepoMetaNotFound repo in
  if (pr_Stars m =? 0)%Z then ret tt else setProtoRepoMeta (with_stars m (int32 (pr_Stars m - 1)))).

Definition DeleteRepoMeta (repo : string) : ST bolt unit := update (
  modify (set_repo_meta (delete repo)) ;;;
  modify (set_repo_blobs (delete repo)) ;;;
  modify (set_tag_history (delete repo)) ;;;
  modify (set_last_updated (delete repo))).

Definition ResetRepoReferences (repo : string) (tagsToKeep : gset string) : ST bolt unit := update (
  let* (m, found) := getProtoRepoMeta repo in
  if negb found then ret tt
  else
    let preservedTags := filter (fun tag => fst tag = "" \/ fst tag ∈ tagsToKeep) (pr_Tags m) in
    let preservedTags := match preservedTags !! "" with Some _ => preservedTags | None => <["" := mkTag "" "" None]> preservedTags end in
    modify (set_repo_meta <[repo := mkProtoRepo repo preservedTags (pr_Statistics m) {["" := {["" := []]}]} {["" := []]}
      (pr_Stars m) 0 [] [] None]>)).

Definition GetReferrersInfo (repo referredDigest : string) (artifactTypes : list string) : ST bolt (list ReferrerInfo) :=
  let* m := existing_repo ErrRepoMetaNotFound repo in
  ret (fst (foldl (fun '(l, seen) r =>
    if negb (MatchesArtifactTypes (rf_ArtifactType r) artifactTypes) then (l, seen)
    else if bool_decide (rf_Digest r ∈ seen) then (l, seen)
    else (l ++ [r], {[rf_Digest r]} ∪ seen)) ([], (∅ : gset string)) (default [] (pr_Referrers m !! referredDigest)))).

Definition UpdateStatsOnDownload (repo reference : string) : ST bolt unit := update (
  let* m := existing_repo ErrRepoMetaNotFound repo in
  let* manifestDigest :=
    (if ReferenceIsDigest reference then ret reference
     else match pr_Tags m !! reference with
     | None => throw ErrImageMetaNotFound
     | Some descriptor => ret (td_Digest descriptor)
     end) in
  let* stats :=
    match pr_Statistics m !! manifestDigest with
    | Some stats => ret stats
    | None =>
        if existsb (fun tag => bool_decide (td_Digest (snd tag) = manifestDigest)) (map_to_list (pr_Tags m))
        then ret (mkStats 0 0 0 "") else throw ErrImageMetaNotFound
    end in
  let* now := tx_now in
  setProtoRepoMeta (with_statistics m
    (<[manifestDigest := mkStats (int32 (st_DownloadCount stats + 1)) now (st_PushTimestamp stats) (st_PushedBy stats)]>
       (pr_Statistics m)))).

Definition GetTagHistory (repo : string) : ST bolt (list TagHistoryEntry) :=
  gets (fun b => reverse (default [] (b_TagHistory b !! repo))).
Definition GetFastRestartStamp : ST bolt string := gets b_FastRestartStamp.
Definition SetFastRestartStamp (stamp : string) : ST bolt unit := modify (set_stamp stamp).

(** GetRepoMeta, without what belongs to the user that asks. *)
Definition GetRepoMeta (repo : string) : ST bolt ProtoRepoMeta :=
  let* m := existing_repo ErrRepoMetaNotFound repo in
  ret (with_tags m (delete "" (pr_Tags m))).
End boltdb.

(** ** Operations in sequence *)
Section history.
Context `{GoDigest} `{MapIter} `{!MapIterLaws} `{!ImageTrustStore}.

(** The writing operations on repositories. *)
Inductive meta_op : Type :=
  | OpSetRepoReference (repo reference : string) (imageMeta : ImageMeta) (pushTimestamp : Z) (userid : string)
  | OpRemoveRepoReference (repo reference manifestDigest userid : string)
  | OpAddManifestSignature (repo signedManifestDigest : string) (sm : SignatureMetadata)
  | OpDeleteSignature (repo signedManifestDigest signatureDigest signatureType : string)
  | OpUpdateSignaturesValidity (repo manifestDigest : string)
  | OpIncrementRepoStars (repo : string)
  | OpDecrementRepoStars (repo : string)
  | OpDeleteRepoMeta (repo : string)
  | OpResetRepoReferences (repo : string) (tagsToKeep : gset string)
  | OpUpdateStatsOnDownload (repo reference : string)
  | OpSetFastRestartStamp (stamp : string).
Definition do_op (o : meta_op) : ST bolt unit :=
  match o with
  | OpSetRepoReference repo reference imageMeta ts userid => SetRepoReference repo reference imageMeta ts userid
  | OpRemoveRepoReference repo reference d userid => RemoveRepoReference repo reference d userid
  | OpAddManifestSignature repo d sm => AddManifestSignature repo d sm
  | OpDeleteSignature repo d sd st => DeleteSignature repo d sd st
  | OpUpdateSignaturesValidity repo d => UpdateSignaturesValidity repo d
  | OpIncrementRepoStars repo => IncrementRepoStars repo
  | OpDecrementRepoStars repo => DecrementRepoStars repo
  | OpDeleteRepoMeta repo => DeleteRepoMeta repo
  | OpResetRepoReferences repo keep => ResetRepoReferences repo keep
  | OpUpdateStatsOnDownload repo reference => UpdateStatsOnDownload repo reference
  | OpSetFastRestartStamp stamp => SetFastRestartStamp stamp
  end.
Definition run_ops (ops : list meta_op) (b : bolt) : bolt := foldl (fun b o => snd (do_op o b)) b ops.

(** An image as SetImageMetaFromInput makes it. *)
Definition image_ok (imageMeta : ImageMeta) : Prop :=
  is_Some (GetProtoImageMeta imageMeta) /\ im_Digest imageMeta <> "".
Definition op_ok (o : meta_op) : Prop :=
  match o with
  | OpSetRepoReference repo reference imageMeta _ _ => repo <> "" /\ reference <> "" /\ image_ok imageMeta
  | OpRemoveRepoReference _ reference _ _ => reference <> ""
  | _ => True
  end.

(** *** The abstract record of the tags *)

(** A movement of a tag: its name, the digest, the user and what was done. *)
Definition movement : Type := string * string * string * string.
(** For each repository its tags, the images known, and every movement. *)
Record book : Type := mkBook {
  bk_tags : string -> gmap string string;
  bk_images : gset string;
  bk_log : string -> list movement
}.
Definition empty_book : book := mkBook (fun _ => ∅) ∅ (fun _ => []).

Definition push_tag (repo tag digest userid : string) (k : book) : book :=
  if decide (bk_tags k repo !! tag = Some digest) then k
  else mkBook (<[repo := <[tag := digest]> (bk_tags k repo)]> (bk_tags k)) (bk_images k)
         (<[repo := bk_log k repo ++ [(tag, digest, userid, "push")]]> (bk_log k)).
Definition drop_tag (repo userid : string) (k : book) (tag : string) : book :=
  match bk_tags k repo !! tag with
  | None => k
  | Some digest =>
      mkBook (<[repo := delete tag (bk_tags k repo)]> (bk_tags k)) (bk_images k)
        (<[repo := bk_log k repo ++ [(tag, digest, userid, "delete")]]> (bk_log k))
  end.
(** The tags of a digest, sorted. *)
Definition tags_of_digest (digest : string) (tags : gmap string string) : list string :=
  merge_sort str_le (fst <$> filter (fun tag => snd tag = digest) (map_to_list tags)).

Definition book_op (o : meta_op) (k : book) : book :=
  match o with
  | OpSetRepoReference repo reference imageMeta _ userid =>
      let k := mkBook (bk_tags k) ({[im_Digest imageMeta]} ∪ bk_images k) (bk_log k) in
      if ReferenceIsDigest reference then k else push_tag repo reference (im_Digest imageMeta) userid k
  | OpRemoveRepoReference repo reference manifestDigest userid =>
      if decide (manifestDigest ∈ bk_images k) then
        foldl (drop_tag repo userid) k
          (if ReferenceIsDigest reference then tags_of_digest reference (bk_tags k repo) else [reference])
      else k
  | OpDeleteRepoMeta repo => mkBook (<[repo := ∅]> (bk_tags k)) (bk_images k) (<[repo := []]> (bk_log k))
  | OpResetRepoReferences repo keep =>
      mkBook (<[repo := filter (fun tag => fst tag ∈ keep) (bk_tags k repo)]> (bk_tags k)) (bk_images k) (bk_log k)
  | _ => k
  end.
Definition run_book (ops : list meta_op) (k : book) : book := foldl (fun k o => book_op o k) k ops.

(** *** What the database shows of it *)
Definition stored_tags (b : bolt) (repo : string) : gmap string TagDescriptor :=
  match b_RepoMeta b !! repo with Some m => delete "" (pr_Tags m) | None => ∅ end.
Definition tags_of (b : bolt) (repo : string) : gmap string string := td_Digest <$> stored_tags b repo.
Definition entry_movement (e : TagHistoryEntry) : movement := (he_Tag e, he_Digest e, he_User e, he_Action e).
Definition history_of (b : bolt) (repo : string) : list movement := entry_movement <$> default [] (b_TagHistory b !! repo).
Definition last_entries {A} (l : list A) : list A := drop (length l - tagHistoryMaxEntries) l.

Record refines (b : bolt) (k : book) : Prop := {
  rf_tags : forall repo, tags_of b repo = bk_tags k repo;
  rf_images : forall d, is_Some (b_ImageMeta b !! d) <-> d ∈ bk_images k;
  rf_log : forall repo, history_of b repo = last_entries (bk_log k repo)
}.

(** Every record is under its own name, and what a tag points to is known:
    the image, its statistics and its blob. *)
Record meta_wf (b : bolt) : Prop := {
  wf_name : forall repo m, b_RepoMeta b !! repo = Some m -> pr_Name m = repo;
  wf_tag : forall repo m tag td, b_RepoMeta b !! repo = Some m -> tag <> "" -> pr_Tags m !! tag = Some td ->
    td_Digest td <> "" /\ is_Some (b_ImageMeta b !! td_Digest td) /\ is_Some (pr_Statistics m !! td_Digest td) /\
    is_Some (default ∅ (b_RepoBlobs b !! repo) !! td_Digest td);
  wf_empty : forall repo m td, b_RepoMeta b !! repo = Some m -> pr_Tags m !! "" = Some td -> td_Digest td = ""
}.

(** *** Operations that move no tag *)
Record quiet (b b' : bolt) : Prop := {
  q_images : b_ImageMeta b' = b_ImageMeta b;
  q_history : b_TagHistory b' = b_TagHistory b;
  q_blobs : b_RepoBlobs b' = b_RepoBlobs b;
  q_meta : forall repo m', b_RepoMeta b' !! repo = Some m' -> pr_Name m' = repo /\
    delete "" (pr_Tags m') = stored_tags b repo /\
    (forall m d, b_RepoMeta b !! repo = Some m -> is_Some (pr_Statistics m !! d) -> is_Some (pr_Statistics m' !! d)) /\
    (forall td, pr_Tags m' !! "" = Some td -> td_Digest td = "");
  q_kept : forall repo, is_Some (b_RepoMeta b !! repo) -> is_Some (b_RepoMeta b' !! repo)
}.

Lemma stored_tag b repo tag td : stored_tags b repo !! tag = Some td ->
  exists m, b_RepoMeta b !! repo = Some m /\ tag <> "" /\ pr_Tags m !! tag = Some td.
Proof.
  unfold stored_tags. destruct (b_RepoMeta b !! repo) as [m|]; [|by rewrite lookup_empty].
  intros [? ?]%lookup_delete_Some. eauto.
Qed.
Lemma quiet_tags b b' repo : quiet b b' -> stored_tags b' repo = stored_tags b repo.
Proof.
  intros [_ _ _ Hm Hk]. unfold stored_tags at 1. destruct (b_RepoMeta b' !! repo) as [m'|] eqn:E; [by apply Hm in E as (_&->&_)|].
  unfold stored_tags. destruct (b_RepoMeta b !! repo) as [m|] eqn:E'; [|done].
  destruct (Hk repo) as [? ?]; [by rewrite E'|congruence].
Qed.
Lemma quiet_refines b b' k : quiet b b' -> refines b k -> refines b' k.
Proof.
  intros Hq [HH1 HH2 HH3]. split.
  - intros repo. unfold tags_of. rewrite (quiet_tags b) by done. apply HH1.
  - intros d. rewrite (q_images _ _ Hq). apply HH2.
  - intros repo. unfold history_of. rewrite (q_history _ _ Hq). apply HH3.
Qed.
Lemma quiet_wf b b' : quiet b b' -> meta_wf b -> meta_wf b'.
Proof.
  intros Hq [HH1 HH2 HH3]. split; [|intros repo m' tag td E Ht Htd|].
  - intros repo m' E. by apply (q_meta _ _ Hq) in E as (?&_&_).
  - destruct (q_meta _ _ Hq _ _ E) as (_&Hs&Hst&_).
    assert (stored_tags b repo !! tag = Some td) as (m&Em&_&Etd)%stored_tag by (rewrite <-Hs; by rewrite lookup_delete_ne).
    destruct (HH2 repo m tag td Em Ht Etd) as (?&?&?&?).
    rewrite (q_images _ _ Hq), (q_blobs _ _ Hq). eauto 6.
  - intros repo m' td E. destruct (q_meta _ _ Hq _ _ E) as (_&_&_&He). apply He.
Qed.

Lemma quiet_refl b : meta_wf b -> quiet b b.
Proof.
  intros Hw. split; try done. intros repo m' E. split; [by eapply wf_name|]. unfold stored_tags. rewrite E. split; [done|].
  split; [by intros m d [= ->]|by intros td; eapply wf_empty].
Qed.
Lemma quiet_env b b' e : quiet b b' -> quiet b (set_env e b').
Proof. by intros [HH1 HH2 HH3 HH4 HH5]; split. Qed.

Lemma quiet_update {A} (m : ST bolt A) b : meta_wf b -> quiet b (snd (m b)) -> quiet b (snd (update m b)).
Proof. intros Hw Hq. unfold update. destruct (m b) as [[a|e] b']; [done|]. by apply quiet_env, quiet_refl. Qed.

Lemma delete_init_map {A} (none : A) (m : gmap string A) : delete "" (init_map none m) = delete "" m.
Proof. unfold init_map. case_decide as Hm; [|done]. by rewrite Hm, delete_singleton_eq, delete_empty. Qed.
Lemma init_map_some {A} (none : A) (m : gmap string A) d : is_Some (m !! d) -> is_Some (init_map none m !! d).
Proof. unfold init_map. case_decide as Hm; [|done]. rewrite Hm, lookup_empty. by intros [? ?]. Qed.

(** The record of a repository as it is read. *)
Definition read_repo (b : bolt) (repo : string) : ProtoRepoMeta :=
  init_repo (default (new_repo repo) (b_RepoMeta b !! repo)).
Lemma read_repo_name b repo : meta_wf b -> pr_Name (read_repo b repo) = repo.
Proof. intros Hw. unfold read_repo. simpl. destruct (b_RepoMeta b !! repo) eqn:E; [by eapply wf_name in E|done]. Qed.
Lemma read_repo_tags b repo : delete "" (pr_Tags (read_repo b repo)) = stored_tags b repo.
Proof. unfold read_repo, stored_tags. simpl. rewrite delete_init_map. by destruct (b_RepoMeta b !! repo). Qed.
Lemma read_repo_empty b repo td : meta_wf b -> pr_Tags (read_repo b repo) !! "" = Some td -> td_Digest td = "".
Proof.
  intros Hw. unfold read_repo. simpl. unfold init_map. case_decide; [by intros [_ <-]%lookup_singleton_Some|].
  destruct (b_RepoMeta b !! repo) eqn:E; simpl; [by eapply wf_empty|]. by rewrite lookup_empty.
Qed.
Lemma get_repo b repo :
  getProtoRepoMeta repo b = (Ok (read_repo b repo, bool_decide (is_Some (b_RepoMeta b !! repo))), b).
Proof.
  unfold getProtoRepoMeta, gets, read_repo. destruct (b_RepoMeta b !! repo) eqn:E.
  - by rewrite bool_decide_true by done.
  - by rewrite bool_decide_false by by intros [? ?].
Qed.
Lemma get_existing e b repo :
  existing_repo e repo b =
    ((if bool_decide (is_Some (b_RepoMeta b !! repo)) then Ok (read_repo b repo) else Err e), b).
Proof. unfold existing_repo, bind. rewrite get_repo. by destruct (bool_decide _). Qed.

(** A record that only differs in what is not a tag. *)
Definition same_tags (m m' : ProtoRepoMeta) : Prop :=
  pr_Name m' = pr_Name m /\ pr_Tags m' = pr_Tags m /\
  forall d, is_Some (pr_Statistics m !! d) -> is_Some (pr_Statistics m' !! d).
Lemma quiet_set b repo m' : meta_wf b -> same_tags (read_repo b repo) m' -> quiet b (snd (setProtoRepoMeta m' b)).
Proof.
  intros Hw (Hn&Ht&Hs). rewrite read_repo_name in Hn by done. unfold setProtoRepoMeta. simpl. rewrite Hn.
  pose proof (quiet_refl b Hw) as [_ _ _ Hr _]. split; try done; simpl.
  - intros r m [[<- <-]|[_ E]]%lookup_insert_Some; [|by apply Hr]. split; [done|]. rewrite Ht, read_repo_tags. split; [done|].
    split; [|intros td; by apply read_repo_empty]. intros m d Em Hd. apply Hs. unfold read_repo. rewrite Em. by apply init_map_some.
  - intros r Hk. destruct (decide (r = repo)) as [->|Hne]; [by rewrite lookup_insert_eq|by rewrite lookup_insert_ne].
Qed.
Lemma quiet_change e b repo (f : ProtoRepoMeta -> ST bolt unit) : meta_wf b ->
  quiet b (snd (f (read_repo b repo) b)) -> quiet b (snd (bind (existing_repo e repo) f b)).
Proof. intros Hw Hf. unfold bind. rewrite get_existing. case_bool_decide; [done|by apply quiet_refl]. Qed.

Definition moves_tags (o : meta_op) : bool :=
  match o with
  | OpSetRepoReference _ _ _ _ _ | OpRemoveRepoReference _ _ _ _ | OpDeleteRepoMeta _ | OpResetRepoReferences _ _ => true
  | _ => false
  end.

Lemma same_tags_with_signatures b repo sigs : same_tags (read_repo b repo) (with_signatures (read_repo b repo) sigs).
Proof. done. Qed.
Lemma same_tags_with_stars b repo stars : same_tags (read_repo b repo) (with_stars (read_repo b repo) stars).
Proof. done. Qed.
Lemma same_tags_insert_statistics b repo d st :
  same_tags (read_repo b repo) (with_statistics (read_repo b repo) (<[d := st]> (pr_Statistics (read_repo b repo)))).
Proof.
  split; [done|]. split; [done|]. intros d' Hd. unfold with_statistics, pr_Statistics at 1.
  destruct (decide (d = d')) as [->|Hne]; [by rewrite lookup_insert_eq|by rewrite lookup_insert_ne].
Qed.
Hint Resolve same_tags_with_signatures same_tags_with_stars same_tags_insert_statistics quiet_refl quiet_set : core.

Lemma quiet_add_signature b repo d sm : meta_wf b -> quiet b (snd (AddManifestSignature repo d sm b)).
Proof.
  intros Hw. apply quiet_update; [done|]. unfold bind. rewrite get_repo. case_bool_decide; cbn [negb]; [|by apply (quiet_set b repo)].
  case_decide; [by apply quiet_refl|by apply (quiet_set b repo)].
Qed.
Lemma quiet_delete_signature b repo d sd st : meta_wf b -> quiet b (snd (DeleteSignature repo d sd st b)).
Proof.
  intros Hw. apply quiet_update; [done|]. apply quiet_change; [done|].
  destruct (pr_Signatures _ !! d); [|by apply quiet_refl]. destruct (_ !! st); [by apply (quiet_set b repo)|by apply quiet_refl].
Qed.

(** The clock alone moves. *)
Definition clock_only {A} (m : ST bolt A) : Prop := forall b, exists r e, m b = (r, set_env e b).
Lemma set_env_same b : set_env (b_env b) b = b.
Proof. by destruct b. Qed.
Lemma clock_zoom {A} (m : ST env A) : clock_only (on_clock m).
Proof. intros b. unfold on_clock, zoom. destruct (m (b_env b)) as [r e]. eauto. Qed.
Lemma clock_ret {A} (a : A) : clock_only (ret a).
Proof. intros b. exists (Ok a), (b_env b). by rewrite set_env_same. Qed.
Lemma clock_throw {A} e : clock_only (A := A) (throw e).
Proof. intros b. exists (Err e), (b_env b). by rewrite set_env_same. Qed.
Lemma clock_gets {A} (f : bolt -> A) : clock_only (gets f).
Proof. intros b. exists (Ok (f b)), (b_env b). by rewrite set_env_same. Qed.
Lemma clock_bind {A B} (m : ST bolt A) (k : A -> ST bolt B) : clock_only m -> (forall a, clock_only (k a)) -> clock_only (bind m k).
Proof.
  intros Hm Hk b. unfold bind. destruct (Hm b) as ([a|er]&e&->); [|eauto]. destruct (Hk a (set_env e b)) as (r&e'&->).
  exists r, e'. by destruct b.
Qed.
Lemma clock_verify d repo image sigs : forall v, clock_only (verify_types d repo image sigs v).
Proof.
  induction sigs as [|[t l] sigs IH]; intros v; [apply clock_ret|]. apply clock_bind; [apply clock_zoom|].
  intros [|]; [apply clock_throw|apply IH].
Qed.

Lemma quiet_clock {A B} (m : ST bolt A) (k : A -> ST bolt B) b : meta_wf b -> clock_only m ->
  (forall a e, meta_wf (set_env e b) -> quiet (set_env e b) (snd (k a (set_env e b)))) -> quiet b (snd (bind m k b)).
Proof.
  intros Hw Hm Hk. unfold bind. destruct (Hm b) as ([a|er]&e&->); [|by apply quiet_env, quiet_refl].
  assert (meta_wf (set_env e b)) as Hw' by (by destruct Hw; split). destruct (Hk a e Hw') as [HH1 HH2 HH3 HH4 HH5]. by split.
Qed.
Lemma quiet_validity b repo d : meta_wf b -> quiet b (snd (UpdateSignaturesValidity repo d b)).
Proof.
  intros Hw. apply quiet_update; [done|]. unfold bind at 1. simpl. destruct (negb (b_trusted b)); [by apply quiet_refl|].
  destruct (b_ImageMeta b !! d) as [image|]; [|by apply quiet_refl]. apply quiet_change; [done|].
  destruct (pr_Signatures _ !! d) as [sigs|]; [|by apply quiet_refl]. apply quiet_clock; [done|apply clock_verify|].
  intros v e Hw'. by apply (quiet_set (set_env e b) repo).
Qed.
Lemma quiet_download b repo reference : meta_wf b -> quiet b (snd (UpdateStatsOnDownload repo reference b)).
Proof.
  intros Hw. apply quiet_update; [done|]. apply quiet_change; [done|].
  apply quiet_clock; [done| |].
  { destruct (ReferenceIsDigest reference); [apply clock_ret|]. destruct (_ !! reference); [apply clock_ret|apply clock_throw]. }
  intros d e Hw'. apply quiet_clock; [done| |].
  { destruct (_ !! d); [apply clock_ret|]. destruct (existsb _ _); [apply clock_ret|apply clock_throw]. }
  intros st e' Hw''. apply quiet_clock; [done|apply clock_zoom|]. intros now e'' Hw'''.
  apply (quiet_set (set_env e'' (set_env e' (set_env e b))) repo); [done|]. apply (same_tags_insert_statistics b repo).
Qed.

Lemma quiet_op o b : moves_tags o = false -> meta_wf b -> quiet b (snd (do_op o b)).
Proof.
  intros Ho Hw. destruct o; try done; simpl.
  - by apply quiet_add_signature.
  - by apply quiet_delete_signature.
  - by apply quiet_validity.
  - apply quiet_update; [done|]. apply quiet_change; [done|]. by apply (quiet_set b repo).
  - apply quiet_update; [done|]. apply quiet_change; [done|]. destruct (_ =? _)%Z; [by apply quiet_refl|by apply (quiet_set b repo)].
  - by apply quiet_download.
  - apply (quiet_refl b) in Hw as [HH1 HH2 HH3 HH4 HH5]. by split.
Qed.

(** *** Pushing *)

Lemma last_entries_snoc {A} (l : list A) x : last_entries (last_entries l ++ [x]) = last_entries (l ++ [x]).
Proof.
  unfold last_entries. rewrite !length_app, length_drop. simpl.
  destruct (decide (length l <= tagHistoryMaxEntries)) as [Hl|Hl].
  - replace (length l - tagHistoryMaxEntries) with 0 by lia. by rewrite drop_0, Nat.sub_0_r.
  - rewrite !drop_app, !length_drop, drop_drop. f_equal; [|f_equal; lia]. f_equal. lia.
Qed.
Lemma last_entries_fmap {A B} (f : A -> B) (l : list A) : f <$> last_entries l = last_entries (f <$> l).
Proof. unfold last_entries. by rewrite fmap_drop, length_fmap. Qed.

(** The history after one more movement. *)
Lemma append_history b repo e : exists b', appendTagHistory repo e b = (Ok tt, b') /\
  b_RepoMeta b' = b_RepoMeta b /\ b_ImageMeta b' = b_ImageMeta b /\ b_RepoBlobs b' = b_RepoBlobs b /\
  forall r, history_of b' r = if decide (r = repo) then last_entries (history_of b repo ++ [entry_movement e]) else history_of b r.
Proof.
  eexists. split; [reflexivity|]. split; [done|]. split; [done|]. split; [done|]. intros r. unfold history_of. simpl.
  case_decide as Hr; [subst; rewrite lookup_insert_eq|by rewrite lookup_insert_ne]. simpl.
  change (drop _ _) with (last_entries (default [] (b_TagHistory b !! repo) ++ [e])).
  by rewrite last_entries_fmap, fmap_app.
Qed.

(** The tags of the record after a push. *)
Definition pushed_tag (reference : string) (im : ImageMeta) (t : option Z) (tags : gmap string TagDescriptor) : gmap string TagDescriptor :=
  if ReferenceIsDigest reference then tags
  else <[reference := mkTag (im_Digest im) (im_MediaType im) t]> tags.
(** Whether a push moves the tag. *)
Definition moves (reference : string) (im : ImageMeta) (tags : gmap string TagDescriptor) : bool :=
  negb (ReferenceIsDigest reference) &&
  match tags !! reference with Some td => negb (bool_decide (td_Digest td = im_Digest im)) | None => true end.
Definition push_history (repo reference userid : string) (im : ImageMeta) (tags : gmap string TagDescriptor) (b : bolt)
    (r : string) : list movement :=
  if moves reference im tags && bool_decide (r = repo)
  then last_entries (history_of b repo ++ [(reference, im_Digest im, userid, "push")]) else history_of b r.

Lemma set_tag_spec b repo reference im ts userid m : exists t b',
  set_tag repo reference im ts userid m b = (Ok (with_tags m (pushed_tag reference im t (pr_Tags m))), b') /\
  b_RepoMeta b' = b_RepoMeta b /\ b_ImageMeta b' = b_ImageMeta b /\ b_RepoBlobs b' = b_RepoBlobs b /\
  forall r, history_of b' r = push_history repo reference userid im (pr_Tags m) b r.
Proof.
  unfold set_tag, push_history, moves, pushed_tag. destruct (ReferenceIsDigest reference) eqn:Er.
  { exists None, b. simpl. split; [|done]. by destruct m. }
  set (first := match pr_Tags m !! reference with Some tag => ret (td_TaggedTimestamp tag) | None => let* now := tx_now in ret (Some now) end).
  assert (exists t e, first b = (Ok t, set_env e b)) as (t&e&E).
  { subst first. destruct (pr_Tags m !! reference); [exists (td_TaggedTimestamp t), (b_env b); by rewrite set_env_same|].
    unfold bind, tx_now, on_clock, zoom. simpl. eauto. }
  rewrite (bind_step _ _ _ _ _ E). exists t. cbv zeta.
  assert (forall n e', exists b', appendTagHistory repo (mkHistory reference (im_Digest im) (im_MediaType im) n userid "push") (set_env e' b) = (Ok tt, b') /\
    b_RepoMeta b' = b_RepoMeta b /\ b_ImageMeta b' = b_ImageMeta b /\ b_RepoBlobs b' = b_RepoBlobs b /\
    forall r, history_of b' r = if bool_decide (r = repo) then last_entries (history_of b repo ++ [(reference, im_Digest im, userid, "push")]) else history_of b r) as Happ.
  { intros n e'. destruct (append_history (set_env e' b) repo (mkHistory reference (im_Digest im) (im_MediaType im) n userid "push"))
      as (b'&->&HH1&HH2&HH3&HH4). exists b'. split; [done|]. split; [done|]. split; [done|]. split; [done|]. intros r. rewrite HH4.
    by case_decide; [rewrite bool_decide_true|rewrite bool_decide_false]. }
  assert (exists n e', (if IsZero ts then tx_now else ret ts) (set_env e b) = (Ok n, set_env e' b)) as (n&e'&En).
  { destruct (IsZero ts); [eexists _, _; reflexivity|]. by exists ts, e. }
  destruct (Happ n e') as (b'&Eb&Hb).
  destruct (pr_Tags m !! reference) as [td|]; [case_bool_decide|]; cbn [negb andb].
  - exists (set_env e b). done.
  - exists b'. split; [|exact Hb]. unfold bind. by rewrite En, Eb.
  - exists b'. split; [|exact Hb]. unfold bind. by rewrite En, Eb.
Qed.

Lemma set_statistics_spec b d ts userid m : exists st e,
  set_statistics d ts userid m b = (Ok (with_statistics m (<[d := st]> (pr_Statistics m))), set_env e b).
Proof.
  unfold set_statistics. destruct (pr_Statistics m !! d) as [s|]; [destruct (IsZero (st_PushTimestamp s))|]; destruct (IsZero ts);
    eexists _, _; try reflexivity; unfold bind, ret; (replace b with (set_env (b_env b) b) at 1 by apply set_env_same); reflexivity.
Qed.

Lemma fold_insert_some {A} (f : A -> string) (g : A -> BlobInfo) l d : forall blobs : gmap string BlobInfo,
  is_Some (blobs !! d) -> is_Some (foldl (fun bs x => <[f x := g x]> bs) blobs l !! d).
Proof.
  induction l as [|x l IH]; intros blobs Hd; [done|]. simpl. apply IH.
  destruct (decide (f x = d)) as [->|Hne]; [by rewrite lookup_insert_eq|by rewrite lookup_insert_ne].
Qed.
Lemma insert_keeps {A} (m : gmap string A) k v d : is_Some (m !! d) -> is_Some (<[k := v]> m !! d).
Proof. destruct (decide (k = d)) as [->|?]; [by rewrite lookup_insert_eq|by rewrite lookup_insert_ne]. Qed.

(** The blobs after an image is added: its own and those known before. *)
Lemma manifest_blobs_spec im blobs : is_Some (manifest_blobs im blobs !! im_Digest im) /\
  forall d, is_Some (blobs !! d) -> is_Some (manifest_blobs im blobs !! d).
Proof.
  unfold manifest_blobs. destruct (im_Manifests im); cbv zeta; (split; [by rewrite lookup_insert_eq|]); intros d Hd; apply insert_keeps; [done|].
  apply (fold_insert_some Digest (fun l => mkBlobInfo (Size l) [] [] [] None)). by apply insert_keeps.
Qed.
Lemma index_blobs_spec im index blobs : is_Some (index_blobs im index blobs !! im_Digest im) /\
  forall d, is_Some (blobs !! d) -> is_Some (index_blobs im index blobs !! d).
Proof. unfold index_blobs. split; [by rewrite lookup_insert_eq|]. intros d Hd. by apply insert_keeps. Qed.

Lemma add_image_spec m blobs reference im : image_ok im -> exists m' blobs',
  AddImageMetaToRepoMeta m blobs reference im = Ok (m', blobs') /\
  is_Some (blobs' !! im_Digest im) /\ (forall d, is_Some (blobs !! d) -> is_Some (blobs' !! d)) /\
  (m' = m \/ exists size vs ps last, m' = with_aggregates m size vs ps last) /\
  (ReferenceIsDigest reference = false -> aggregated m' blobs').
Proof.
  intros [Him _]. unfold AddImageMetaToRepoMeta.
  assert (exists blobs', (if IsImageManifestMediaType (im_MediaType im) then Ok (manifest_blobs im blobs)
    else if IsImageIndexMediaType (im_MediaType im) then
      match im_Index im with Some index => Ok (index_blobs im index blobs) | None => Err ErrNilPointer end
    else Ok blobs) = Ok blobs' /\ is_Some (blobs' !! im_Digest im) /\ forall d, is_Some (blobs !! d) -> is_Some (blobs' !! d)) as (blobs'&->&Hd&Hk).
  { unfold GetProtoImageMeta in Him. destruct (IsImageManifestMediaType _); [eexists; split; [done|apply manifest_blobs_spec]|].
    destruct (IsImageIndexMediaType _); [|by destruct Him]. destruct (im_Index im) as [index|]; [|by destruct Him].
    eexists. split; [done|]. apply index_blobs_spec. }
  change (IsDigest reference) with (ReferenceIsDigest reference). destruct (ReferenceIsDigest reference) eqn:Er.
  { exists m, blobs'. split; [done|]. split; [done|]. split; [done|]. split; [by left|done]. }
  destruct (recalculate_spec m blobs') as (a&->&Ha). destruct Hd as [info Hd]. rewrite Hd.
  eexists _, blobs'. split; [done|]. split; [by rewrite Hd|]. split; [done|]. split; [right; eauto 6|]. intros _.
  exists a. split; [|done]. destruct Ha as (HH1&HH2). split; [|done]. intros d info'. rewrite HH1. done.
Qed.

Lemma image_valid repo reference im : repo <> "" -> reference <> "" -> image_ok im ->
  ValidateRepoReferenceInput repo reference (im_Digest im) = None.
Proof. intros Hr Hf [_ Hd]. unfold ValidateRepoReferenceInput. by rewrite !bool_decide_false. Qed.

(** A push of an image always goes through; what it leaves of the record. *)
Record pushed (repo reference userid : string) (im : ImageMeta) (b : bolt) (m' : ProtoRepoMeta) (blobs' : gmap string BlobInfo)
    (b' : bolt) : Prop := {
  pu_meta : b_RepoMeta b' = <[repo := m']> (b_RepoMeta b);
  pu_name : pr_Name m' = repo;
  pu_tags : exists t, pr_Tags m' = pushed_tag reference im t (pr_Tags (read_repo b repo));
  pu_statistics : exists st, pr_Statistics m' = <[im_Digest im := st]> (pr_Statistics (read_repo b repo));
  pu_signatures : pr_Signatures m' = match pr_Signatures (read_repo b repo) !! im_Digest im with
    | Some _ => pr_Signatures (read_repo b repo)
    | None => <[im_Digest im := {["" := []]}]> (pr_Signatures (read_repo b repo)) end;
  pu_images : exists p, GetProtoImageMeta im = Some p /\ b_ImageMeta b' = <[im_Digest im := p]> (b_ImageMeta b);
  pu_blobs : b_RepoBlobs b' = <[repo := blobs']> (b_RepoBlobs b);
  pu_blob : is_Some (blobs' !! im_Digest im);
  pu_known : forall d, is_Some (default ∅ (b_RepoBlobs b !! repo) !! d) -> is_Some (blobs' !! d);
  pu_history : forall r, history_of b' r = push_history repo reference userid im (pr_Tags (read_repo b repo)) b r;
  pu_aggregates : ReferenceIsDigest reference = false -> aggregated m' blobs'
}.

Lemma ensure_same d m : pr_Name (ensure_entries d m) = pr_Name m /\ pr_Tags (ensure_entries d m) = pr_Tags m /\
  pr_Statistics (ensure_entries d m) = pr_Statistics m /\
  pr_Signatures (ensure_entries d m) =
    match pr_Signatures m !! d with Some _ => pr_Signatures m | None => <[d := {["" := []]}]> (pr_Signatures m) end.
Proof. unfold ensure_entries. destruct (pr_Signatures m !! d); simpl; by destruct (pr_Referrers m !! d). Qed.
Lemma add_referrer_same image m : exists refs, add_referrer image m = with_referrers m refs.
Proof. unfold add_referrer. destruct (GetImageSubject image); [eexists; done|]. exists (pr_Referrers m). by destruct m. Qed.

Lemma push_spec b repo reference im ts userid : meta_wf b -> repo <> "" -> reference <> "" -> image_ok im ->
  exists m' blobs' b', SetRepoReference repo reference im ts userid b = (Ok tt, b') /\ pushed repo reference userid im b m' blobs' b'.
Proof.
  intros Hw Hr Hf Him. pose proof Him as [[p Hp] _]. unfold SetRepoReference. rewrite image_valid by done. unfold update. cbv zeta.
  rewrite Hp. set (b0 := set_image_meta <[im_Digest im := p]> b).
  rewrite (bind_step _ _ b tt b0) by done. rewrite (bind_step _ _ _ _ _ (get_repo b0 repo)). change (read_repo b0 repo) with (read_repo b repo).
  destruct (add_referrer_same (Some p) (read_repo b repo)) as [refs ->].
  destruct (set_tag_spec b0 repo reference im ts userid (with_referrers (read_repo b repo) refs)) as (t&b1&E1&HR1&HI1&HB1&HH1).
  rewrite (bind_step _ _ _ _ _ E1).
  destruct (set_statistics_spec b1 (im_Digest im) ts userid
    (with_tags (with_referrers (read_repo b repo) refs) (pushed_tag reference im t (pr_Tags (with_referrers (read_repo b repo) refs))))) as (st&e&E2).
  rewrite (bind_step _ _ _ _ _ E2). set (m2 := with_statistics _ _).
  rewrite (bind_step _ _ (set_env e b1) (init_map (mkBlobInfo 0 [] [] [] None) (default ∅ (b_RepoBlobs b !! repo))) (set_env e b1))
    by (unfold unmarshalProtoRepoBlobs, gets; simpl; by rewrite HB1).
  destruct (add_image_spec (ensure_entries (im_Digest im) m2) (init_map (mkBlobInfo 0 [] [] [] None) (default ∅ (b_RepoBlobs b !! repo)))
    reference im Him) as (m'&blobs'&E3&Hd&Hk&Hm'&Ha).
  unfold lift_res. erewrite bind_step by (rewrite E3; reflexivity).
  assert (pr_Name m' = repo /\ pr_Tags m' = pr_Tags m2 /\ pr_Statistics m' = pr_Statistics m2 /\
    pr_Signatures m' = pr_Signatures (ensure_entries (im_Digest im) m2)) as (Hn&Ht&Hs&Hg).
  { assert (pr_Name m2 = repo) as Hn by (by apply read_repo_name).
    destruct (ensure_same (im_Digest im) m2) as (?&?&?&_).
    destruct Hm' as [->|(?&?&?&?&->)]; cbn [pr_Name pr_Tags pr_Statistics pr_Signatures with_aggregates]; split_and!; congruence. }
  eexists m', blobs', _. split; [reflexivity|]. split; simpl.
  - by rewrite Hn, HR1.
  - done.
  - exists t. by rewrite Ht.
  - exists st. by rewrite Hs.
  - rewrite Hg, (proj2 (proj2 (proj2 (ensure_same _ m2)))). reflexivity.
  - exists p. split; [done|]. by rewrite HI1.
  - by rewrite HB1.
  - done.
  - intros d Hin. apply Hk. by apply init_map_some.
  - intros r. change (history_of _ r) with (history_of b1 r) at 1. by rewrite HH1.
  - done.
Qed.

(** *** Removing *)
Definition visible (tags : gmap string TagDescriptor) : gmap string string := td_Digest <$> delete "" tags.
Lemma visible_lookup tags tag : tag <> "" -> visible tags !! tag = td_Digest <$> tags !! tag.
Proof. intros Ht. unfold visible. by rewrite lookup_fmap, lookup_delete_ne. Qed.
Lemma visible_delete tags tag : visible (delete tag tags) = delete tag (visible tags).
Proof. unfold visible. by rewrite delete_delete, fmap_delete. Qed.
Lemma visible_init none tags : visible (init_map none tags) = visible tags.
Proof. unfold visible. by rewrite delete_init_map. Qed.
Lemma visible_read b repo : visible (pr_Tags (read_repo b repo)) = tags_of b repo.
Proof. unfold visible, tags_of. by rewrite read_repo_tags. Qed.

(** The record and the history stand for the tags and the log of the book. *)
Definition shows (m : ProtoRepoMeta) (b : bolt) (repo : string) (k : book) : Prop :=
  visible (pr_Tags m) = bk_tags k repo /\ forall r, history_of b r = last_entries (bk_log k r).
Definition same_buckets (b b' : bolt) : Prop :=
  b_RepoMeta b' = b_RepoMeta b /\ b_ImageMeta b' = b_ImageMeta b /\ b_RepoBlobs b' = b_RepoBlobs b.

Lemma record_delete_spec b repo userid tag td k m : pr_Tags m !! tag = Some td -> tag <> "" -> shows m b repo k ->
  exists b', record_delete repo userid (tag, td) b = (Ok tt, b') /\ same_buckets b b' /\
    shows (with_tags m (delete tag (pr_Tags m))) b' repo (drop_tag repo userid k tag).
Proof.
  intros Htd Hne [Hk Hl]. unfold record_delete. set (n := fst (Now (b_env b))).
  destruct (append_history (set_env (snd (Now (b_env b))) b) repo
    (mkHistory tag (td_Digest td) (td_MediaType td) (env_clock (b_env b) (env_reads (b_env b))) userid "delete")) as (b'&E&HM&HI&HB&HH).
  exists b'. split; [exact E|]. split; [done|]. unfold drop_tag. rewrite <-Hk, visible_lookup, Htd by done.
  split; simpl; [by rewrite fn_lookup_insert, visible_delete|]. intros r. rewrite HH. change (history_of (set_env _ b)) with (history_of b).
  case_decide as Hr; [subst; rewrite fn_lookup_insert, Hl; apply last_entries_snoc|]. by rewrite fn_lookup_insert_ne.
Qed.

Lemma delete_tags_spec repo userid tags : Forall (fun tag => tag <> "") tags -> forall m b k, shows m b repo k ->
  exists b', let m' := with_tags m (foldl (fun ts tag => delete tag ts) (pr_Tags m) tags) in
    delete_tags repo userid tags m b = (Ok m', b') /\ same_buckets b b' /\ shows m' b' repo (foldl (drop_tag repo userid) k tags).
Proof.
  induction 1 as [|tag tags Hne _ IH]; intros m b k Hk; simpl.
  { exists b. destruct m. done. }
  destruct (pr_Tags m !! tag) as [td|] eqn:Htd.
  - destruct (record_delete_spec b repo userid tag td k m Htd Hne Hk) as (b1&E&(HM&HI&HB)&Hk1).
    destruct (IH _ b1 _ Hk1) as (b'&E'&(HM'&HI'&HB')&Hk'). exists b'. rewrite (bind_step _ _ _ _ _ E).
    split; [exact E'|]. split; [|exact Hk']. split_and!; congruence.
  - assert (drop_tag repo userid k tag = k) as ->.
    { unfold drop_tag. destruct Hk as [<- _]. by rewrite visible_lookup, Htd. }
    destruct (IH (with_tags m (delete tag (pr_Tags m))) b k) as (b'&E'&Hs'&Hk').
    { split; [|apply Hk]. simpl. rewrite delete_id by done. apply Hk. }
    exists b'. done.
Qed.

Lemma drop_tag_other repo userid tags : forall k, bk_images (foldl (drop_tag repo userid) k tags) = bk_images k /\
  forall r, r <> repo -> bk_tags (foldl (drop_tag repo userid) k tags) r = bk_tags k r.
Proof.
  induction tags as [|tag tags IH]; intros k; [done|]. simpl. destruct (IH (drop_tag repo userid k tag)) as [-> Hr].
  unfold drop_tag in *. destruct (bk_tags k repo !! tag); [|done]. split; [done|]. intros r Hne. rewrite Hr by done. simpl.
  by rewrite fn_lookup_insert_ne.
Qed.

Lemma removed_tags_visible reference m : reference <> "" ->
  (forall td, pr_Tags m !! "" = Some td -> td_Digest td = "") -> ReferenceIsDigest reference = true ->
  removed_tags reference m = tags_of_digest reference (visible (pr_Tags m)).
Proof.
  intros Hne He Hd. unfold removed_tags, tags_of_digest. rewrite Hd. apply merge_sort_str_perm.
  apply NoDup_Permutation; [apply NoDup_fmap_fst; [|apply list.NoDup_filter, NoDup_map_to_list]..|].
  1, 2: intros ??? [_ ?%elem_of_map_to_list]%list_elem_of_filter [_ ?%elem_of_map_to_list]%list_elem_of_filter; congruence.
  intros tag. rewrite !list_elem_of_fmap. setoid_rewrite list_elem_of_filter. split.
  - intros ([t td]&->&Htd&Hin%elem_of_map_to_list). simpl in *. assert (t <> "") as Ht by (intros ->; apply He in Hin; congruence).
    exists (t, reference). split; [done|]. split; [done|]. apply elem_of_map_to_list. by rewrite visible_lookup, Hin, <-Htd.
  - intros ([t d]&->&Htd&Hin%elem_of_map_to_list). simpl in *. subst d. destruct (decide (t = "")) as [->|Ht].
    + unfold visible in Hin. by rewrite lookup_fmap, lookup_delete_eq in Hin.
    + rewrite visible_lookup in Hin by done. destruct (pr_Tags m !! t) as [td|] eqn:Etd; [|done]. injection Hin as Hd'.
      exists (t, td). split; [done|]. split; [done|]. by apply elem_of_map_to_list.
Qed.
Lemma removed_tags_named reference m : reference <> "" -> (forall td, pr_Tags m !! "" = Some td -> td_Digest td = "") ->
  Forall (fun tag => tag <> "") (removed_tags reference m).
Proof.
  intros Hne He. unfold removed_tags. destruct (ReferenceIsDigest reference); [|by repeat constructor].
  rewrite merge_sort_Permutation. apply list.Forall_forall. intros t ([t' td]&->&[Htd Hin%elem_of_map_to_list]%list_elem_of_filter)%list_elem_of_fmap.
  simpl in *. intros ->. apply He in Hin. congruence.
Qed.

(** *** Writing one record *)
Lemma wf_write b b' repo m' blobs' : meta_wf b ->
  b_RepoMeta b' = <[repo := m']> (b_RepoMeta b) ->
  default ∅ (b_RepoBlobs b' !! repo) = blobs' -> (forall r, r <> repo -> b_RepoBlobs b' !! r = b_RepoBlobs b !! r) ->
  (forall d, is_Some (b_ImageMeta b !! d) -> is_Some (b_ImageMeta b' !! d)) ->
  pr_Name m' = repo -> (forall td, pr_Tags m' !! "" = Some td -> td_Digest td = "") ->
  (forall tag td, tag <> "" -> pr_Tags m' !! tag = Some td -> td_Digest td <> "" /\ is_Some (b_ImageMeta b' !! td_Digest td) /\
     is_Some (pr_Statistics m' !! td_Digest td) /\ is_Some (blobs' !! td_Digest td)) -> meta_wf b'.
Proof.
  intros Hw HM HB HB' HI Hn He Ht. split.
  - intros r m. rewrite HM. intros [[<- <-]|[_ E]]%lookup_insert_Some; [done|by eapply wf_name].
  - intros r m tag td. rewrite HM. intros [[<- <-]|[Hne E]]%lookup_insert_Some Hne' Htd.
    + rewrite HB. by eapply Ht.
    + rewrite HB' by done. destruct (wf_tag _ Hw r m tag td E Hne' Htd) as (?&?&?&?). auto.
  - intros r m td. rewrite HM. intros [[<- <-]|[_ E]]%lookup_insert_Some; [apply He|by eapply wf_empty].
Qed.
Lemma tags_write b b' repo m' : b_RepoMeta b' = <[repo := m']> (b_RepoMeta b) ->
  forall r, tags_of b' r = if decide (r = repo) then visible (pr_Tags m') else tags_of b r.
Proof.
  intros HM r. unfold tags_of, stored_tags. rewrite HM. case_decide as Hr; [subst; by rewrite lookup_insert_eq|].
  by rewrite lookup_insert_ne.
Qed.
(** A tag of the record as it is read is one of the record that is stored. *)
Lemma wf_read_tag b repo tag td : meta_wf b -> tag <> "" -> pr_Tags (read_repo b repo) !! tag = Some td ->
  td_Digest td <> "" /\ is_Some (b_ImageMeta b !! td_Digest td) /\ is_Some (pr_Statistics (read_repo b repo) !! td_Digest td) /\
  is_Some (default ∅ (b_RepoBlobs b !! repo) !! td_Digest td).
Proof.
  intros Hw Hne Htd. assert (stored_tags b repo !! tag = Some td) as (m&Em&_&Htd')%stored_tag.
  { rewrite <-read_repo_tags. by rewrite lookup_delete_ne. }
  destruct (wf_tag _ Hw repo m tag td Em Hne Htd') as (?&?&?&?). split_and!; try done.
  unfold read_repo. rewrite Em. by apply init_map_some.
Qed.

Lemma drop_tags_none repo userid tags : forall k, bk_tags k repo = ∅ -> foldl (drop_tag repo userid) k tags = k.
Proof.
  induction tags as [|tag tags IH]; intros k Hk; [done|]. simpl. unfold drop_tag at 2. rewrite Hk, lookup_empty. by apply IH.
Qed.

(** What is left of a record without a tag of the digest. *)
Lemma forget_spec d m : pr_Name (forget_untagged d m) = pr_Name m /\ pr_Tags (forget_untagged d m) = pr_Tags m /\
  forall tag td, pr_Tags m !! tag = Some td -> is_Some (pr_Statistics m !! td_Digest td) ->
    is_Some (pr_Statistics (forget_untagged d m) !! td_Digest td).
Proof.
  unfold forget_untagged. destruct (existsb _ _) eqn:E; [done|]. split; [done|]. split; [done|]. intros tag td Htd Hs.
  simpl. rewrite lookup_delete_ne; [done|]. intros ->. apply not_true_iff_false in E. apply E. apply existsb_exists.
  exists (tag, td). split; [|by apply bool_decide_true]. by apply list_elem_of_In, elem_of_map_to_list.
Qed.
Lemma forget_signatures d m : (forall tag td, pr_Tags m !! tag = Some td -> td_Digest td <> d) ->
  pr_Signatures (forget_untagged d m) !! d = None.
Proof.
  intros Hno. unfold forget_untagged. destruct (existsb _ _) eqn:E; [|by apply lookup_delete_eq].
  apply existsb_exists in E as ([tag td]&Hin&Hd%bool_decide_eq_true_1). apply list_elem_of_In, elem_of_map_to_list in Hin.
  by apply Hno in Hin.
Qed.
Lemma remove_referrer_same image reference d m : exists refs, remove_referrer image reference d m = with_referrers m refs.
Proof. unfold remove_referrer. destruct (GetImageSubject _); [eexists; done|]. exists (pr_Referrers m). by destruct m. Qed.

Lemma foldl_delete_some (tags : list string) : forall (ts : gmap string TagDescriptor) tag td,
  foldl (fun ts tag => delete tag ts) ts tags !! tag = Some td -> ts !! tag = Some td.
Proof. induction tags as [|t tags IH]; intros ts tag td; [done|]. simpl. by intros [_ ?]%IH%lookup_delete_Some. Qed.

(** The tags a removal takes away, as the book has them. *)
Definition book_removed (repo reference : string) (k : book) : list string :=
  if ReferenceIsDigest reference then tags_of_digest reference (bk_tags k repo) else [reference].

(** A removal of what is known goes through; what it leaves of the record. *)
Record removed (repo reference d userid : string) (b : bolt) (k : book) (m' : ProtoRepoMeta) (blobs' : gmap string BlobInfo)
    (b' : bolt) : Prop := {
  re_meta : b_RepoMeta b' = <[repo := m']> (b_RepoMeta b);
  re_images : b_ImageMeta b' = b_ImageMeta b;
  re_blobs : b_RepoBlobs b' = <[repo := blobs']> (b_RepoBlobs b);
  re_name : pr_Name m' = repo;
  re_tags : forall tag td, pr_Tags m' !! tag = Some td -> pr_Tags (read_repo b repo) !! tag = Some td;
  re_statistics : forall tag td, pr_Tags m' !! tag = Some td -> is_Some (pr_Statistics (read_repo b repo) !! td_Digest td) ->
    is_Some (pr_Statistics m' !! td_Digest td);
  re_shows : shows m' b' repo (foldl (drop_tag repo userid) k (book_removed repo reference k));
  re_aggregates : aggregated m' blobs';
  re_forgotten : (forall tag td, pr_Tags m' !! tag = Some td -> td_Digest td <> d) -> pr_Signatures m' !! d = None;
  re_known : forall tag td, pr_Tags m' !! tag = Some td -> td_Digest td <> "" ->
    is_Some (default ∅ (b_RepoBlobs b !! repo) !! td_Digest td) -> is_Some (blobs' !! td_Digest td)
}.

Lemma remove_run b k repo reference d userid : meta_wf b -> refines b k -> reference <> "" ->
  is_Some (b_RepoMeta b !! repo) -> is_Some (b_ImageMeta b !! d) -> exists m' blobs' b',
  RemoveRepoReference repo reference d userid b = (Ok tt, b') /\ removed repo reference d userid b k m' blobs' b'.
Proof.
  intros Hw Hk Hne Hf [image Ei]. unfold RemoveRepoReference, update. rewrite (bind_step _ _ _ _ _ (get_repo b repo)).
  rewrite bool_decide_true by done. cbn [negb]. rewrite (bind_step _ _ b (b_ImageMeta b !! d) b) by done. rewrite Ei. cbv zeta.
  destruct (remove_referrer_same image reference d (read_repo b repo)) as [refs ->].
  set (m0 := with_referrers (read_repo b repo) refs).
  assert (forall td, pr_Tags m0 !! "" = Some td -> td_Digest td = "") as He by (intros td; by apply read_repo_empty).
  destruct (delete_tags_spec repo userid (removed_tags reference m0)) with (m := m0) (b := b) (k := k) as (b1&E1&(HM&HI&HB)&Hs).
  { by apply removed_tags_named. } { split; [|apply Hk]. rewrite <-(rf_tags _ _ Hk). apply visible_read. }
  rewrite (bind_step _ _ _ _ _ E1). set (m1 := with_tags m0 _) in *.
  assert (removed_tags reference m0 = book_removed repo reference k) as Ert.
  { unfold book_removed. destruct (ReferenceIsDigest reference) eqn:Ed; [|unfold removed_tags; by rewrite Ed].
    rewrite removed_tags_visible by done. change (pr_Tags m0) with (pr_Tags (read_repo b repo)). by rewrite visible_read, (rf_tags _ _ Hk). }
  rewrite Ert in Hs. destruct (forget_spec d m1) as (Hn1&Ht1&Hs1). set (m2 := forget_untagged d m1) in *.
  assert (pr_Name m2 = repo) as Hn by (rewrite Hn1; by apply read_repo_name).
  set (bl := init_map (mkBlobInfo 0 [] [] [] None) (default ∅ (b_RepoBlobs b !! repo))).
  rewrite (bind_step _ _ _ bl b1) by (unfold unmarshalProtoRepoBlobs, gets; by rewrite HB, Hn).
  destruct (aggregates_exact m2 bl) as (a&last&_&Ha&Er&_). apply (aggregates_restrict _ _ _ last) in Ha as [Ha Hknown].
  rewrite (bind_step _ _ _ _ _ (eq_refl : tx_now b1 = (Ok _, _))).
  rewrite (bind_step _ _ _ _ _ (eq_refl : setRepoLastUpdated _ _ _ = (Ok tt, _))). rewrite Er.
  eexists _, _, _. split; [reflexivity|]. split.
  - simpl. by rewrite Hn, HM.
  - exact HI.
  - simpl. by rewrite Hn, HB.
  - done.
  - intros tag td Htd. change (pr_Tags m2 !! tag = Some td) in Htd. rewrite Ht1 in Htd. by apply foldl_delete_some in Htd.
  - intros tag td Htd. change (pr_Tags m2 !! tag = Some td) in Htd. rewrite Ht1 in Htd. by apply (Hs1 tag).
  - destruct Hs as [Hv Hh]. split; [|exact Hh]. rewrite <-Ht1 in Hv. exact Hv.
  - exact Ha.
  - intros Hno. apply forget_signatures. intros tag td Htd. apply (Hno tag). simpl. by rewrite Ht1.
  - intros tag td Htd Hd Hb. apply (Hknown tag td); [done..|]. by apply init_map_some.
Qed.

Lemma remove_nothing b k repo reference d userid : refines b k ->
  ~ is_Some (b_RepoMeta b !! repo) \/ ~ is_Some (b_ImageMeta b !! d) ->
  RemoveRepoReference repo reference d userid b = (Ok tt, b) /\ book_op (OpRemoveRepoReference repo reference d userid) k = k.
Proof.
  intros Hk Hno. unfold RemoveRepoReference, update. rewrite (bind_step _ _ _ _ _ (get_repo b repo)). cbn [book_op].
  case_bool_decide as Hf; cbn [negb].
  - destruct Hno as [?|Hi]; [done|]. rewrite (bind_step _ _ b (b_ImageMeta b !! d) b) by done.
    destruct (b_ImageMeta b !! d) as [image|] eqn:Ei; [by destruct Hi|]. split; [done|].
    rewrite decide_False; [done|]. rewrite <-(rf_images _ _ Hk), Ei. by intros [? ?].
  - split; [done|]. case_decide; [|done]. apply drop_tags_none. rewrite <-(rf_tags _ _ Hk). unfold tags_of, stored_tags.
    destruct (b_RepoMeta b !! repo); [by destruct Hf|done].
Qed.

(** *** The database refines the book *)
Lemma visible_insert tags tag td : tag <> "" -> visible (<[tag := td]> tags) = <[tag := td_Digest td]> (visible tags).
Proof. intros Ht. unfold visible. by rewrite delete_insert_ne, fmap_insert by done. Qed.

Lemma moves_visible reference im tags : reference <> "" -> ReferenceIsDigest reference = false ->
  moves reference im tags = negb (bool_decide (visible tags !! reference = Some (im_Digest im))).
Proof.
  intros Hne Hd. unfold moves. rewrite Hd, visible_lookup by done. destruct (tags !! reference); simpl; [|done]. f_equal.
  apply bool_decide_ext. split; congruence.
Qed.

Lemma push_wf b repo reference userid im m' blobs' b' : meta_wf b -> reference <> "" -> image_ok im ->
  pushed repo reference userid im b m' blobs' b' -> meta_wf b'.
Proof.
  intros Hw Hf Him [HM Hn [t Ht] [st Hs] _ (p&_&HI) HB Hblob Hknown Hh _].
  apply (wf_write b b' repo m' blobs'); try done; [by rewrite HB, lookup_insert_eq|intros; by rewrite HB, lookup_insert_ne|..].
  - intros d Hd. rewrite HI. by apply insert_keeps.
  - intros td. rewrite Ht. unfold pushed_tag. destruct (ReferenceIsDigest reference); [by apply read_repo_empty|].
    rewrite lookup_insert_ne by done. by apply read_repo_empty.
  - intros tag td Hne Htd. rewrite HI, Hs. rewrite Ht in Htd.
    assert (td_Digest td = im_Digest im \/ pr_Tags (read_repo b repo) !! tag = Some td) as [->|Hold].
    { revert Htd. unfold pushed_tag. destruct (ReferenceIsDigest reference); [by right|].
      intros [[<- <-]|[_ ?]]%lookup_insert_Some; [by left|by right]. }
    + rewrite !lookup_insert_eq. split; [apply Him|]. split; [done|]. split; [done|]. exact Hblob.
    + destruct (wf_read_tag _ _ _ _ Hw Hne Hold) as (?&?&?&?). split; [done|]. split; [by apply insert_keeps|].
      split; [by apply insert_keeps|]. by apply Hknown.
Qed.
Lemma push_sim b k repo reference im ts userid : meta_wf b -> refines b k -> repo <> "" -> reference <> "" -> image_ok im ->
  meta_wf (snd (SetRepoReference repo reference im ts userid b)) /\
  refines (snd (SetRepoReference repo reference im ts userid b)) (book_op (OpSetRepoReference repo reference im ts userid) k).
Proof.
  intros Hw Hk Hr Hf Him. destruct (push_spec b repo reference im ts userid Hw Hr Hf Him) as (m'&blobs'&b'&->&Hp). simpl snd.
  split; [by eapply push_wf|]. destruct Hp as [HM Hn [t Ht] [st Hs] _ (p&_&HI) HB Hblob Hknown Hh _].
  pose proof (tags_write _ _ _ _ HM) as Htags. pose proof (rf_tags _ _ Hk repo) as Hkt. rewrite <-visible_read in Hkt.
  unfold push_history in Hh. cbn [book_op]. split.
  + intros r. rewrite Htags, Ht. unfold pushed_tag. destruct (ReferenceIsDigest reference) eqn:Ed; simpl.
    { case_decide; [subst; exact Hkt|apply Hk]. }
    unfold push_tag. simpl. rewrite <-Hkt. case_decide as Hr'; [subst r|]; case_decide as Hm; simpl.
    * rewrite visible_insert by done. simpl. rewrite insert_id by done. exact Hkt.
    * by rewrite fn_lookup_insert, visible_insert.
    * apply Hk.
    * rewrite fn_lookup_insert_ne by done. apply Hk.
  + intros d. rewrite HI, lookup_insert_is_Some'. rewrite (rf_images _ _ Hk).
    assert (bk_images (if ReferenceIsDigest reference then mkBook (bk_tags k) ({[im_Digest im]} ∪ bk_images k) (bk_log k)
      else push_tag repo reference (im_Digest im) userid (mkBook (bk_tags k) ({[im_Digest im]} ∪ bk_images k) (bk_log k))) =
      {[im_Digest im]} ∪ bk_images k) as -> by (destruct (ReferenceIsDigest _); [done|]; unfold push_tag; by case_decide).
    set_solver.
  + intros r. rewrite Hh. destruct (ReferenceIsDigest reference) eqn:Ed.
    { unfold moves. rewrite Ed. simpl. apply Hk. }
    rewrite moves_visible, Hkt by done. unfold push_tag. simpl.
    case_bool_decide as Hm; [rewrite decide_True by done; simpl; apply Hk|]. rewrite decide_False by done. simpl.
    case_bool_decide as Hr'; [subst; by rewrite fn_lookup_insert, (rf_log _ _ Hk), last_entries_snoc|].
    rewrite fn_lookup_insert_ne by done. apply Hk.
Qed.

Lemma remove_sim b k repo reference d userid : meta_wf b -> refines b k -> reference <> "" ->
  meta_wf (snd (RemoveRepoReference repo reference d userid b)) /\
  refines (snd (RemoveRepoReference repo reference d userid b)) (book_op (OpRemoveRepoReference repo reference d userid) k).
Proof.
  intros Hw Hk Hne. destruct (decide (is_Some (b_RepoMeta b !! repo) /\ is_Some (b_ImageMeta b !! d))) as [[Hf Hi]|Hno]; cycle 1.
  { destruct (remove_nothing b k repo reference d userid Hk) as [-> ->]; [|done].
    destruct (decide (is_Some (b_RepoMeta b !! repo))); [right|by left]. tauto. }
  destruct (remove_run b k repo reference d userid Hw Hk Hne Hf Hi) as (m'&blobs'&b'&->&[HM HI HB Hn Ht Hs [Hv Hh] _ _ Hknown]). simpl snd. split.
  - apply (wf_write b b' repo m' blobs'); try done; [by rewrite HB, lookup_insert_eq|intros; by rewrite HB, lookup_insert_ne|..].
    + by rewrite HI.
    + intros td Htd%Ht. by eapply read_repo_empty.
    + intros tag td Hne' Htd. destruct (wf_read_tag b repo tag td Hw Hne' (Ht _ _ Htd)) as (?&?&?&?). rewrite HI. eauto 6.
  - cbn [book_op]. rewrite decide_True by by apply (rf_images _ _ Hk).
    change (if ReferenceIsDigest reference then _ else _) with (book_removed repo reference k).
    destruct (drop_tag_other repo userid (book_removed repo reference k) k) as [Hbi Hbt]. split.
    + intros r. rewrite (tags_write _ _ _ _ HM). case_decide as Hr; [subst; exact Hv|]. rewrite Hbt by done. apply Hk.
    + intros d'. rewrite HI, Hbi. apply Hk.
    + exact Hh.
Qed.

Lemma delete_sim b k repo : meta_wf b -> refines b k ->
  meta_wf (snd (DeleteRepoMeta repo b)) /\ refines (snd (DeleteRepoMeta repo b)) (book_op (OpDeleteRepoMeta repo) k).
Proof.
  intros Hw Hk. set (b' := snd (DeleteRepoMeta repo b)).
  assert (forall r m, b_RepoMeta b' !! r = Some m -> r <> repo /\ b_RepoMeta b !! r = Some m) as HM
    by (simpl; intros r m [? ?]%lookup_delete_Some; done).
  split.
  - split; intros r m; [|intros tag|]; [intros [_ E]%HM; by eapply wf_name| |intros td [_ E]%HM; by eapply wf_empty].
    intros td [Hr E]%HM Hne Htd. destruct (wf_tag _ Hw r m tag td E Hne Htd) as (?&?&?&?). split_and!; try done.
    simpl. by rewrite lookup_delete_ne.
  - cbn [book_op]. split; simpl.
    + intros r. unfold tags_of, stored_tags. simpl. destruct (decide (r = repo)) as [->|Hr].
      * by rewrite lookup_delete_eq, fn_lookup_insert, fmap_empty.
      * rewrite lookup_delete_ne, fn_lookup_insert_ne by done. apply Hk.
    + apply Hk.
    + intros r. unfold history_of. simpl. destruct (decide (r = repo)) as [->|Hr].
      * by rewrite lookup_delete_eq, fn_lookup_insert.
      * rewrite lookup_delete_ne, fn_lookup_insert_ne by done. apply Hk.
Qed.

Lemma visible_filter (keep : gset string) tags : let kept := filter (fun tag => fst tag = "" \/ fst tag ∈ keep) tags in
  visible (match kept !! "" with Some _ => kept | None => <["" := mkTag "" "" None]> kept end) =
  filter (fun tag => fst tag ∈ keep) (visible tags).
Proof.
  intros kept. transitivity (visible kept).
  { destruct (kept !! ""); [done|]. unfold visible. by rewrite delete_insert_eq. }
  unfold visible. apply map_eq. intros tag. rewrite lookup_fmap, map_lookup_filter, lookup_fmap.
  destruct (decide (tag = "")) as [->|Hne]; [by rewrite !lookup_delete_eq|]. rewrite !lookup_delete_ne by done.
  subst kept. rewrite map_lookup_filter. destruct (tags !! tag) as [td|]; [|done]. simpl.
  destruct (decide (tag ∈ keep)) as [Hk|Hk].
  - rewrite !option_guard_True by (simpl; tauto). done.
  - rewrite !option_guard_False by (simpl; tauto). done.
Qed.

Lemma reset_meta_spec b repo keep : meta_wf b -> exists b', ResetRepoReferences repo keep b = (Ok tt, b') /\ meta_wf b' /\
  b_ImageMeta b' = b_ImageMeta b /\ b_TagHistory b' = b_TagHistory b /\
  forall r, tags_of b' r = if decide (r = repo) then filter (fun tag => fst tag ∈ keep) (tags_of b repo) else tags_of b r.
Proof.
  intros Hw. unfold ResetRepoReferences, update. rewrite (bind_step _ _ _ _ _ (get_repo b repo)).
  case_bool_decide as Hf; cbn [negb]; cbv zeta.
  - set (kept := filter _ (pr_Tags (read_repo b repo))).
    set (tags' := match kept !! "" with Some _ => kept | None => <["" := mkTag "" "" None]> kept end).
    set (m' := mkProtoRepo _ _ _ _ _ _ _ _ _ _). eexists. split; [reflexivity|]. set (b' := set_repo_meta _ b).
    assert (forall tag td, tags' !! tag = Some td -> pr_Tags (read_repo b repo) !! tag = Some td \/ (tag = "" /\ td = mkTag "" "" None)) as Hsub.
    { intros tag td. subst tags'. destruct (kept !! "") eqn:Ek; [intros [? _]%map_lookup_filter_Some; by left|].
      intros [[<- <-]|[_ [? _]%map_lookup_filter_Some]]%lookup_insert_Some; [by right|by left]. }
    split; [|split; [done|split; [done|]]].
    + apply (wf_write b b' repo m' (default ∅ (b_RepoBlobs b !! repo))); try done.
      * intros td [Htd|[_ ->]]%Hsub; [by eapply read_repo_empty|done].
      * intros tag td Hne [Htd|[? _]]%Hsub; [exact (wf_read_tag b repo tag td Hw Hne Htd)|done].
    + intros r. rewrite (tags_write b b' repo m') by done. case_decide; [|done]. rewrite <-visible_read. apply visible_filter.
  - exists b. split; [done|]. split; [done|]. split; [done|]. split; [done|]. intros r. case_decide as Hr; [|done]. subst r.
    unfold tags_of, stored_tags. destruct (b_RepoMeta b !! repo); [by destruct Hf|]. by rewrite fmap_empty, map_filter_empty.
Qed.
Lemma reset_sim b k repo keep : meta_wf b -> refines b k ->
  meta_wf (snd (ResetRepoReferences repo keep b)) /\ refines (snd (ResetRepoReferences repo keep b)) (book_op (OpResetRepoReferences repo keep) k).
Proof.
  intros Hw Hk. destruct (reset_meta_spec b repo keep Hw) as (b'&->&Hw'&HI&HH&Ht). simpl. split; [done|]. split.
  - intros r. rewrite Ht. cbn [bk_tags]. case_decide as Hr; [subst; by rewrite fn_lookup_insert, (rf_tags _ _ Hk)|].
    rewrite fn_lookup_insert_ne by done. apply Hk.
  - intros d. rewrite HI. apply Hk.
  - intros r. unfold history_of. rewrite HH. apply Hk.
Qed.

Lemma step_sim o b k : op_ok o -> meta_wf b -> refines b k ->
  meta_wf (snd (do_op o b)) /\ refines (snd (do_op o b)) (book_op o k).
Proof.
  intros Ho Hw Hk. destruct (moves_tags o) eqn:Em.
  - destruct o; try done.
    + destruct Ho as (?&?&?). by apply push_sim.
    + by apply remove_sim.
    + by apply delete_sim.
    + by apply reset_sim.
  - pose proof (quiet_op o b Em Hw) as Hq. split; [by eapply quiet_wf|].
    replace (book_op o k) with k by by destruct o. by eapply quiet_refines.
Qed.
Lemma empty_sim trusted e : meta_wf (empty_bolt trusted e) /\ refines (empty_bolt trusted e) empty_book.
Proof.
  split; split; try done.
  intros d. simpl. rewrite lookup_empty. split; [by intros [? ?]|set_solver].
Qed.
Lemma run_sim ops : forall b k, Forall op_ok ops -> meta_wf b -> refines b k ->
  meta_wf (run_ops ops b) /\ refines (run_ops ops b) (run_book ops k).
Proof.
  induction ops as [|o ops IH]; intros b k Hops Hw Hk; [done|]. apply Forall_cons_1 in Hops as [Ho Hops].
  destruct (step_sim o b k Ho Hw Hk). by apply IH.
Qed.

(** C18 The metadata database keeps the tags as an abstract book does that maps
    each repository to its tags and logs every movement: after any operations
    on a new database, failed ones included, the tags of every repository point
    to the digests of the book, and GetTagHistory gives the last two hundred
    movements of the log, the latest first. *)
Theorem tags_refine_book (ops : list meta_op) (trusted : bool) (e : env) (Hops : Forall op_ok ops) (repo : string) :
  let b := run_ops ops (empty_bolt trusted e) in
  let k := run_book ops empty_book in
  tags_of b repo = bk_tags k repo /\
  exists l, GetTagHistory repo b = (Ok l, b) /\ entry_movement <$> l = reverse (last_entries (bk_log k repo)) /\
    length l <= tagHistoryMaxEntries.
Proof.
  destruct (empty_sim trusted e) as [Hw Hk]. destruct (run_sim ops _ _ Hops Hw Hk) as [Hw' Hk']. intros b k.
  split; [apply Hk'|]. eexists. split; [reflexivity|]. rewrite fmap_reverse. pose proof (rf_log _ _ Hk' repo) as Hl.
  unfold history_of in Hl. fold b k in Hl. split; [by rewrite <-Hl|]. rewrite length_reverse, <-(length_fmap entry_movement), Hl.
  unfold last_entries. rewrite length_drop. lia.
Qed.

(** C20 Every record of the database is well formed after any operations: it is
    under its own name, and the digest of each of its tags has its image, its
    statistics and its blob in the database. *)
Theorem records_well_formed (ops : list meta_op) (trusted : bool) (e : env) (Hops : Forall op_ok ops) :
  meta_wf (run_ops ops (empty_bolt trusted e)).
Proof. destruct (empty_sim trusted e) as [Hw Hk]. by apply (run_sim ops _ _ Hops Hw Hk). Qed.

(** The size, the vendors and the platforms of a repository are right
    after every push under a tag and every removal, whatever was done to the
    database before: they are those of the blobs its tags reach. *)
Theorem sizes_follow_tags (ops : list meta_op) (trusted : bool) (e : env) (Hops : Forall op_ok ops) (repo reference : string)
    (userid : string) (Href : reference <> "") :
  let b := run_ops ops (empty_bolt trusted e) in
  (forall imageMeta ts, repo <> "" -> image_ok imageMeta -> ReferenceIsDigest reference = false ->
     exists m blobs b', SetRepoReference repo reference imageMeta ts userid b = (Ok tt, b') /\
       b_RepoMeta b' !! repo = Some m /\ b_RepoBlobs b' !! repo = Some blobs /\ aggregated m blobs) /\
  (forall d, is_Some (b_RepoMeta b !! repo) -> is_Some (b_ImageMeta b !! d) ->
     exists m blobs b', RemoveRepoReference repo reference d userid b = (Ok tt, b') /\
       b_RepoMeta b' !! repo = Some m /\ b_RepoBlobs b' !! repo = Some blobs /\ aggregated m blobs).
Proof.
  intros b. destruct (empty_sim trusted e) as [Hw Hk]. destruct (run_sim ops _ _ Hops Hw Hk) as [Hw' Hk']. fold b in Hw', Hk'. split.
  - intros im ts Hr Him Hd. destruct (push_spec b repo reference im ts userid Hw' Hr Href Him) as (m&blobs&b'&E&Hp).
    exists m, blobs, b'. rewrite (pu_meta _ _ _ _ _ _ _ _ Hp), (pu_blobs _ _ _ _ _ _ _ _ Hp), !lookup_insert_eq.
    split_and!; try done. by apply Hp.
  - intros d Hf Hi. destruct (remove_run b _ repo reference d userid Hw' Hk' Href Hf Hi) as (m&blobs&b'&E&Hp).
    exists m, blobs, b'. rewrite (re_meta _ _ _ _ _ _ _ _ _ Hp), (re_blobs _ _ _ _ _ _ _ _ _ Hp), !lookup_insert_eq.
    split_and!; try done. apply Hp.
Qed.

(** Deleting a signature of an image whose tag was removed and pushed again
    panics on a nil pointer, whatever signatures were recorded: the removal
    forgot them, and the push put an entry in their place that has none of the
    type. *)
Theorem retagged_signature_panics (ops : list meta_op) (trusted : bool) (e : env) (Hops : Forall op_ok ops)
    (repo tag userid : string) (imageMeta : ImageMeta) (ts : Z) (signatureDigest signatureType : string)
    (Hrepo : repo <> "") (Htag : tag <> "" /\ ReferenceIsDigest tag = false) (Himage : image_ok imageMeta) (Htype : signatureType <> "") :
  let b := run_ops ops (empty_bolt trusted e) in
  is_Some (b_RepoMeta b !! repo) -> is_Some (b_ImageMeta b !! im_Digest imageMeta) ->
  (forall other, tags_of b repo !! other = Some (im_Digest imageMeta) -> other = tag) ->
  exists b1 b2, RemoveRepoReference repo tag (im_Digest imageMeta) userid b = (Ok tt, b1) /\
    SetRepoReference repo tag imageMeta ts userid b1 = (Ok tt, b2) /\
    DeleteSignature repo (im_Digest imageMeta) signatureDigest signatureType b2 = (Err ErrNilPointer, b2).
Proof.
  destruct Htag as [Htag Hdig]. intros b Hf Hi Honly. destruct (empty_sim trusted e) as [Hw Hk].
  destruct (run_sim ops _ _ Hops Hw Hk) as [Hw' Hk']. fold b in Hw', Hk'. set (d := im_Digest imageMeta) in *.
  destruct (remove_run b _ repo tag d userid Hw' Hk' Htag Hf Hi) as (m1&blobs1&b1&E1&Hp1).
  destruct (remove_sim b _ repo tag d userid Hw' Hk' Htag) as [Hw1 _]. rewrite E1 in Hw1. simpl in Hw1.
  destruct (push_spec b1 repo tag imageMeta ts userid Hw1 Hrepo Htag Himage) as (m2&blobs2&b2&E2&Hp2).
  exists b1, b2. split; [done|]. split; [done|].
  assert (d <> "") as Hd by apply Himage.
  assert (pr_Signatures m1 !! d = None) as Hno.
  { apply (re_forgotten _ _ _ _ _ _ _ _ _ Hp1). intros t td Htd Etd.
    destruct (re_shows _ _ _ _ _ _ _ _ _ Hp1) as [Hv _]. unfold book_removed in Hv. rewrite Hdig in Hv. simpl in Hv.
    assert (t <> "") as Ht by (intros ->; apply (re_tags _ _ _ _ _ _ _ _ _ Hp1) in Htd; apply read_repo_empty in Htd; [congruence|done]).
    assert (bk_tags (drop_tag repo userid (run_book ops empty_book) tag) repo !! t = Some d) as Hbt by (rewrite <-Hv, visible_lookup, Htd, <-Etd; done).
    assert (t <> tag /\ bk_tags (run_book ops empty_book) repo !! t = Some d) as [Hne Hbk].
    { unfold drop_tag in Hbt. destruct (bk_tags _ repo !! tag) eqn:Eb.
      - simpl in Hbt. rewrite fn_lookup_insert in Hbt. apply lookup_delete_Some in Hbt as [? ?]. done.
      - split; [|done]. intros ->. congruence. }
    rewrite <-(rf_tags _ _ Hk') in Hbk. by apply Hne, Honly. }
  assert (pr_Signatures (read_repo b1 repo) !! d = None) as Hread.
  { unfold read_repo. rewrite (re_meta _ _ _ _ _ _ _ _ _ Hp1), lookup_insert_eq. simpl. unfold init_map. case_decide; [|done].
    by rewrite lookup_singleton_ne. }
  pose proof (pu_signatures _ _ _ _ _ _ _ _ Hp2) as Hs. fold d in Hs. rewrite Hread in Hs.
  unfold DeleteSignature, update, bind. rewrite get_existing, bool_decide_true by (by rewrite (pu_meta _ _ _ _ _ _ _ _ Hp2), lookup_insert_eq).
  assert (pr_Signatures (read_repo b2 repo) !! d = Some {["" := []]}) as ->.
  { unfold read_repo. rewrite (pu_meta _ _ _ _ _ _ _ _ Hp2), lookup_insert_eq. simpl. rewrite Hs. unfold init_map.
    rewrite decide_False by apply insert_non_empty. by rewrite lookup_insert_eq. }
  destruct (_ !! signatureType) eqn:E; [by apply lookup_singleton_Some in E as [? _]|]. unfold throw. by rewrite set_env_same.
Qed.

(** *** The stamp *)
Section stamp.
Context (x : string).
Definition stamped (b : bolt) : Prop := b_FastRestartStamp b = x.
#[local] Hint Extern 1 (preserves _ (modify _)) => intros ? ? ? ? [= _ <-]; done : pres.
#[local] Hint Extern 1 (preserves _ (gets _)) => apply preserves_gets : pres.
#[local] Hint Extern 1 (preserves _ (setProtoRepoMeta _)) => unfold setProtoRepoMeta; solve [auto with pres] : pres.
#[local] Hint Extern 1 (preserves _ (appendTagHistory _ _)) => unfold appendTagHistory; solve [auto with pres] : pres.
Lemma stamped_update {A} (m : ST bolt A) : preserves stamped m -> preserves stamped (update m).
Proof. intros Hm b r b' Hb. unfold update. destruct (m b) as [[a|e] b1] eqn:E; intros [= <- <-]; [by eapply Hm|done]. Qed.
Lemma stamped_clock {A} (m : ST env A) : preserves stamped (on_clock m).
Proof. intros b r b' Hb E. destruct (clock_zoom m b) as (r0&e&E'). rewrite E in E'. by injection E' as _ ->. Qed.
#[local] Hint Resolve stamped_clock : pres.
Lemma stamped_now : preserves stamped tx_now.
Proof. apply stamped_clock. Qed.
Lemma stamped_repo repo : preserves stamped (getProtoRepoMeta repo).
Proof. apply preserves_gets. Qed.
Lemma stamped_blobs repo : preserves stamped (unmarshalProtoRepoBlobs repo).
Proof. apply preserves_gets. Qed.
#[local] Hint Resolve stamped_now stamped_repo stamped_blobs : pres.
Lemma stamped_existing e repo : preserves stamped (existing_repo e repo).
Proof. unfold existing_repo. pres. Qed.
Lemma stamped_push repo reference im ts userid m : preserves stamped (set_tag repo reference im ts userid m).
Proof. unfold set_tag. pres. Qed.
Lemma stamped_statistics d ts userid m : preserves stamped (set_statistics d ts userid m).
Proof. unfold set_statistics. pres. Qed.
Lemma stamped_delete_tags repo userid tags : forall m, preserves stamped (delete_tags repo userid tags m).
Proof. induction tags as [|t tags IH]; intros m; simpl; [pres|]. unfold record_delete. pres. Qed.
Lemma stamped_verify d repo image sigs : forall v, preserves stamped (verify_types d repo image sigs v).
Proof. induction sigs as [|[t l] sigs IH]; intros v; simpl; pres. Qed.
#[local] Hint Resolve stamped_existing stamped_push stamped_statistics stamped_delete_tags stamped_verify : pres.
Lemma stamped_op o : (forall st, o <> OpSetFastRestartStamp st) -> preserves stamped (do_op o).
Proof.
  intros Ho. destruct o; simpl; [unfold SetRepoReference; destruct (ValidateRepoReferenceInput _ _ _); [apply preserves_throw|]|..|by destruct (Ho stamp)];
    apply stamped_update; unfold put_image, setRepoLastUpdated, setProtoRepoBlobs; pres.
Qed.
End stamp.
End history.
