(* ===== verification/Hooks.v ===== *)
(** * Keeping the metadata database in step (pkg/meta/hooks.go, parse.go)

    The hooks the handlers call when manifests are pushed, deleted and pulled,
    and the walk that brings the database up to date with the storage when the
    registry starts. Both are written against an image store ([HookStoreI])
    and a metadata database ([MetaRepoI]), which the database of MetaDB.v
    implements; the hooks give the instance of [MetaHooksI] that the handlers
    of Routes.v use. Logs are left out; locks are not modelled. *)

From Stdlib Require Import ZArith Lia Ascii String.
From stdpp Require Import base tactics list gmap strings sorting functions.
From S2P Require Import Prelude Runtime Regexp Driver BlobCache Oci StorageCommon ImageStore Content Addressing Retention GC Authz Http.
From S2P Require Import Routes Serving Api Aggregates MetaDB.

Local Open Scope string_scope.
Local Open Scope list_scope.

(** ** Interfaces *)

(** The methods of an image store that the hooks and the walk call. *)
Class HookStoreI (S : Type) := {
  hk_GetBlobContent : string -> string -> ST S string;
  hk_GetIndexContent : string -> ST S string;
  hk_StatIndex : string -> ST S (bool * Z * Z);
  hk_StatBlob : string -> string -> ST S (bool * Z * Z);
  hk_GetRepositories : ST S (list string);
  hk_PutImageManifest : string -> string -> string -> string -> list string -> ST S (string * string);
  hk_DeleteImageManifest : string -> string -> bool -> ST S unit;
  hk_RemoveIdleRepository : Z -> Z -> string -> ST S bool  (* the time, the delay *)
}.

(** The methods of mTypes.MetaDB that they call, and the clock. *)
Class MetaRepoI (D : Type) := {
  md_SetRepoReference : string -> string -> ImageMeta -> Z -> string -> ST D unit;
  md_AddManifestSignature : string -> string -> SignatureMetadata -> ST D unit;
  md_UpdateSignaturesValidity : string -> string -> ST D unit;
  md_DeleteSignature : string -> string -> string -> string -> ST D unit;
  md_RemoveRepoReference : string -> string -> string -> string -> ST D unit;
  md_DeleteRepoMeta : string -> ST D unit;
  md_UpdateStatsOnDownload : string -> string -> ST D unit;
  md_GetRepoMeta : string -> ST D ProtoRepoMeta;
  md_GetAllRepoNames : ST D (list string);
  md_GetRepoLastUpdated : string -> ST D Z;
  md_ResetRepoReferences : string -> gset string -> ST D unit;
  md_GetFastRestartStamp : ST D string;
  md_SetFastRestartStamp : string -> ST D unit;
  md_now : ST D Z
}.
#[export] Instance bolt_meta `{GoDigest} `{MapIter} `{!ImageTrustStore} : MetaRepoI bolt := {
  md_SetRepoReference := SetRepoReference;
  md_AddManifestSignature := AddManifestSignature;
  md_UpdateSignaturesValidity := UpdateSignaturesValidity;
  md_DeleteSignature := DeleteSignature;
  md_RemoveRepoReference := RemoveRepoReference;
  md_DeleteRepoMeta := DeleteRepoMeta;
  md_UpdateStatsOnDownload := UpdateStatsOnDownload;
  md_GetRepoMeta := GetRepoMeta;
  md_GetAllRepoNames := GetAllRepoNames;
  md_GetRepoLastUpdated := GetRepoLastUpdated;
  md_ResetRepoReferences := ResetRepoReferences;
  md_GetFastRestartStamp := GetFastRestartStamp;
  md_SetFastRestartStamp := SetFastRestartStamp;
  md_now := tx_now
}.

(** The mediaType field of the JSON of a manifest. *)
Class MediaTypeProbe := body_media_type : string -> string.

(** ** Signatures *)
Definition CosignSigKey : string := "dev.cosignproject.cosign/signature".

Section signatures.
Context `{GoDigest} `{OciCodec}.

(** The digest that a tag "sha256-<digest>.sig" names. *)
Definition signed_by_tag (tag : string) : string := NewDigestFromEncoded "sha256" (String.substring 7 64 tag).

(** The type of a signature and the digest it signs. *)
Definition signed_subject (manifest : Manifest) : option (string * string) :=
  let artifactType := GetManifestArtifactType manifest in
  match m_Subject manifest with
  | Some subject =>
      if bool_decide (artifactType = ArtifactTypeNotation) then Some (NotationType, Digest subject)
      else if IsArtifactTypeCosign artifactType then Some (CosignType, Digest subject)
      else None
  | None => None
  end.

Definition isSignature (reference : string) (manifest : Manifest) : option (string * string) :=
  match signed_subject manifest with
  | Some s => Some s
  | None =>
      if IsCosignSignature reference then
        if negb (String.length reference =? 7 + 64 + 4)%nat then None
        else match Validate (signed_by_tag reference) with
        | Some _ => None
        | None => Some (CosignType, signed_by_tag reference)
        end
      else None
  end.

(** storage.CheckIsImageSignature *)
Definition CheckIsImageSignature (manifestBlob reference : string) : res (option (string * string)) :=
  match unmarshal_manifest manifestBlob with
  | None => Err ErrJSON
  | Some manifest =>
      Ok (match signed_subject manifest with
          | Some s => Some s
          | None => if IsCosignSignature reference then Some (CosignType, signed_by_tag reference) else None
          end)
  end.
End signatures.

(** ** The hooks *)
Section hooks.
Context `{GoDigest} `{OciCodec} `{ConfigCodec} `{MediaTypeProbe} `{LocalFS} {S D : Type} `{HookStoreI S} `{MetaRepoI D}.
(** SyncStagingRootForRepo, [None] for the empty string. *)
Context (StagingRoot : string -> option path).

Definition on_st {A} (m : ST S A) : ST (S * D) A := zoom fst (fun s x => (s, snd x)) m.
Definition on_db {A} (m : ST D A) : ST (S * D) A := zoom snd (fun d x => (fst x, d)) m.

(** The layers of a cosign signature, with their contents. *)
Fixpoint cosign_layers (repo : string) (layers : list Descriptor) : ST (S * D) (list LayersInfo) :=
  match layers with
  | [] => ret []
  | layer :: layers =>
      let* layerContent := on_st (hk_GetBlobContent repo (Digest layer)) in
      let* infos := cosign_layers repo layers in
      ret (mkLayerInfo (Digest layer) layerContent (default "" (Annotations layer !! CosignSigKey)) "" None :: infos)
  end.
Definition getCosignSignatureLayersInfo (repo manifestBlob : string) : ST (S * D) (list LayersInfo) :=
  match unmarshal_manifest manifestBlob with
  | None => throw ErrJSON
  | Some manifest => cosign_layers repo (Layers manifest)
  end.
Definition getNotationSignatureLayersInfo (repo manifestBlob : string) : ST (S * D) (list LayersInfo) :=
  match unmarshal_manifest manifestBlob with
  | None => throw ErrJSON
  | Some manifest =>
      if bool_decide (body_media_type manifestBlob = MediaTypeImageIndex) then ret []
      else match Layers manifest with
      | [layer] =>
          let* layerContent := on_st (hk_GetBlobContent repo (Digest layer)) in
          ret [mkLayerInfo (Digest layer) layerContent (MediaType layer) "" None]
      | _ => throw ErrBadManifest
      end
  end.
Definition GetSignatureLayersInfo (repo signatureType manifestBlob : string) : ST (S * D) (list LayersInfo) :=
  if bool_decide (signatureType = CosignSignature) then getCosignSignatureLayersInfo repo manifestBlob
  else if bool_decide (signatureType = NotationSignature) then getNotationSignatureLayersInfo repo manifestBlob
  else ret [].

Definition set_signature (repo reference digest blob sigType signedManifestDigest : string) : ST (S * D) unit :=
  let* layers := GetSignatureLayersInfo repo sigType blob in
  on_db (md_AddManifestSignature repo signedManifestDigest (mkSignatureMeta sigType digest reference layers)) ;;;
  on_db (md_UpdateSignaturesValidity repo signedManifestDigest).

(** The config of a manifest, when it is one of an image. *)
Definition read_config (repo : string) (manifest : Manifest) : ST (S * D) ImageConfig :=
  if bool_decide (MediaType (Config manifest) = MediaTypeImageConfig)
     || bool_decide (MediaType (Config manifest) = DockerMediaTypeImageConfig) then
    let* configBlob := on_st (hk_GetBlobContent repo (Digest (Config manifest))) in
    match unmarshal_config configBlob with None => throw ErrJSON | Some config => ret config end
  else ret no_config.

Definition SetImageMetaFromInput (user repo reference mediaType digest blob : string) (pushTimestamp : Z) : ST (S * D) unit :=
  let size := Z.of_nat (String.length blob) in
  if IsImageManifestMediaType mediaType then
    match unmarshal_manifest blob with
    | None => throw ErrJSON
    | Some manifest =>
        let* config := read_config repo manifest in
        match isSignature reference manifest with
        | Some (sigType, signedManifestDigest) => set_signature repo reference digest blob sigType signedManifestDigest
        | None =>
            on_db (md_SetRepoReference repo reference (GetImageManifestMeta manifest config size digest mediaType) pushTimestamp user)
        end
    end
  else if IsImageIndexMediaType mediaType then
    match unmarshal_index blob with
    | None => throw ErrJSON
    | Some index => on_db (md_SetRepoReference repo reference (GetImageIndexMeta index size digest mediaType) pushTimestamp user)
    end
  else ret tt.

Definition releaseIdleRepository (repo : string) : ST (S * D) unit :=
  if HasInProgressSessions (StagingRoot repo) repo then ret tt
  else
    let* now := on_db md_now in
    let* r := attempt (on_st (hk_RemoveIdleRepository now 0 repo)) in
    match r with
    | Ok true => attempt (on_db (md_DeleteRepoMeta repo)) ;;; ret tt
    | _ => ret tt
    end.

Definition OnUpdateManifest (user repo reference mediaType digest body : string) : ST (S * D) unit :=
  if IsReferrersTag reference then ret tt
  else
    let* r := attempt (SetImageMetaFromInput user repo reference mediaType digest body zero_time) in
    match r with
    | Ok _ => ret tt
    | Err e => on_st (hk_DeleteImageManifest repo reference false) ;;; throw e
    end.

Definition OnDeleteManifest (user repo reference mediaType digest manifestBlob : string) : ST (S * D) unit :=
  if IsReferrersTag reference then releaseIdleRepository repo
  else
    let* isSig := lift_res (CheckIsImageSignature manifestBlob reference) in
    match isSig with
    | Some (signatureType, signedManifestDigest) =>
        let* metaErr := attempt (on_db (md_DeleteSignature repo signedManifestDigest digest signatureType)) in
        releaseIdleRepository repo ;;;
        match metaErr with
        | Err e => if bool_decide (e = ErrImageMetaNotFound) then ret tt else throw e
        | Ok _ => ret tt
        end
    | None =>
        let* metaErr := attempt (on_db (md_RemoveRepoReference repo reference digest user)) in
        match metaErr with
        | Err _ =>
            attempt (on_st (hk_PutImageManifest repo reference mediaType manifestBlob [])) ;;;
            throw ErrManifestRestoreAttempted
        | Ok _ => releaseIdleRepository repo
        end
    end.

(** The digest and the media type that the database has for each tag. *)
Definition prior_tag (tags : gmap string TagDescriptor) (tag : string) : option (string * (string * string)) :=
  desc ← tags !! tag;
  if bool_decide (td_Digest desc = "") then None
  else match Parse (td_Digest desc) with
  | Err _ => None
  | Ok dgst =>
      Some (tag, (dgst, if bool_decide (td_MediaType desc = "") then MediaTypeImageManifest else td_MediaType desc))
  end.
Definition priorTagManifestsFromMetaDB (repo : string) (tags : list string) : ST (S * D) (gmap string (string * string)) :=
  match tags with
  | [] => ret ∅
  | _ =>
      let* r := attempt (on_db (md_GetRepoMeta repo)) in
      match r with
      | Err e => if bool_decide (e = ErrRepoMetaNotFound) then ret ∅ else throw e
      | Ok repoMeta => ret (list_to_map (omap (prior_tag (pr_Tags repoMeta)) tags))
      end
  end.

Fixpoint each {A} (f : A -> ST (S * D) unit) (l : list A) : ST (S * D) unit :=
  match l with
  | [] => ret tt
  | x :: l => attempt (f x) ;;; each f l
  end.
Definition restore_prior (user repo : string) (prior : gmap string (string * string)) (tag : string) : ST (S * D) unit :=
  match prior !! tag with
  | None => ret tt
  | Some (digest, mediaType) =>
      let* restoreBody := on_st (hk_GetBlobContent repo digest) in
      on_st (hk_PutImageManifest repo digest mediaType restoreBody [tag]) ;;;
      OnUpdateManifest user repo tag mediaType digest restoreBody
  end.
Definition rollbackDigestManifestTags (user repo : string) (tags applied : list string) (mediaType digest body : string)
    (prior : gmap string (string * string)) : ST (S * D) unit :=
  each (fun tag => on_st (hk_DeleteImageManifest repo tag false)) (reverse tags) ;;;
  each (fun tag => OnDeleteManifest user repo tag mediaType digest body) (reverse applied) ;;;
  each (restore_prior user repo prior) tags.

Fixpoint update_tags (user repo : string) (all rest applied : list string) (mediaType digest body : string)
    (prior : gmap string (string * string)) : ST (S * D) unit :=
  match rest with
  | [] => ret tt
  | tag :: rest =>
      let* r := attempt (OnUpdateManifest user repo tag mediaType digest body) in
      match r with
      | Err e => rollbackDigestManifestTags user repo all applied mediaType digest body prior ;;; throw e
      | Ok _ => update_tags user repo all rest (applied ++ [tag]) mediaType digest body prior
      end
  end.
Definition OnUpdateManifestDigestTags (user repo : string) (tags : list string) (mediaType digest body : string)
    : ST (S * D) unit :=
  match tags with
  | [] => ret tt
  | _ =>
      let* prior := priorTagManifestsFromMetaDB repo tags in
      update_tags user repo tags tags [] mediaType digest body prior
  end.

Definition OnGetManifest (name reference mediaType body : string) : ST (S * D) unit :=
  let* isSig := lift_res (CheckIsImageSignature body reference) in
  match isSig with
  | Some _ => ret tt
  | None =>
      if IsReferrersTag reference then ret tt
      else if negb (IsImageManifestMediaType mediaType) && negb (IsImageIndexMediaType mediaType) then ret tt
      else on_db (md_UpdateStatsOnDownload name reference)
  end.
End hooks.

(** ** Parsing the storage (parse.go) *)
Section parse.
Context `{GoDigest} `{OciCodec} `{ConfigCodec} `{MediaTypeProbe} `{MapIter} {S D : Type} `{HookStoreI S} `{MetaRepoI D}.
Abbreviation reg := (registry S D).

(** A step on the image store of a repository and the database, which is
    there. *)
Definition with_repo {A} (repo : string) (m : ST (S * D) A) : ST reg A := fun rg =>
  match rg_meta rg with
  | None => (Err ErrNilPointer, rg)
  | Some db =>
      let '(r, (s, db)) := m (GetImageStore rg repo, db) in
      let rg := set_image_store repo s rg in
      (r, mkRegistry (DefaultStore rg) (SubStore rg) (Some db) (rg_env rg))
  end.
Definition with_db {A} (m : ST D A) : ST reg A := fun rg =>
  match rg_meta rg with
  | None => (Err ErrNilPointer, rg)
  | Some db => let '(r, db) := m db in (r, mkRegistry (DefaultStore rg) (SubStore rg) (Some db) (rg_env rg))
  end.

Definition row_tag (manifest : Descriptor) : string := default "" (ref_name manifest).
Definition tags_to_keep (rows : list Descriptor) : gset string :=
  list_to_set (filter (fun tag => tag <> "" /\ IsReferrersTag tag = false) (row_tag <$> rows)).

(** One row of index.json; whether its blob is missing. *)
Definition parse_row (repo : string) (manifest : Descriptor) : ST (S * D) bool :=
  let tag := row_tag manifest in
  if IsReferrersTag tag then ret false
  else
    let* r := attempt (on_st (hk_GetBlobContent repo (Digest manifest))) in
    match r with
    | Err e => if missing e then ret true else throw e
    | Ok manifestBlob =>
        let reference := if bool_decide (tag = "") then Digest manifest else tag in
        let* stat := attempt (on_st (hk_StatBlob repo (Digest manifest))) in
        let pushTimestamp := match stat with Ok (true, _, modTime) => modTime | _ => zero_time end in
        SetImageMetaFromInput "" repo reference (MediaType manifest) (Digest manifest) manifestBlob pushTimestamp ;;;
        ret false
    end.
Fixpoint parse_rows (repo : string) (rows : list Descriptor) (partial : bool) : ST (S * D) bool :=
  match rows with
  | [] => ret partial
  | manifest :: rows =>
      let* skipped := parse_row repo manifest in
      parse_rows repo rows (partial || skipped)
  end.
Definition parseRepo (repo : string) : ST (S * D) bool :=
  let* indexBlob := on_st (hk_GetIndexContent repo) in
  match unmarshal_index indexBlob with
  | None => throw ErrJSON
  | Some indexContent =>
      let* r := attempt (on_db (md_ResetRepoReferences repo (tags_to_keep (Manifests indexContent)))) in
      match r with
      | Err e => if bool_decide (e = ErrRepoMetaNotFound) then parse_rows repo (Manifests indexContent) false else throw e
      | Ok _ => parse_rows repo (Manifests indexContent) false
      end
  end.

Definition add_repos (all repos : list string) : list string :=
  foldl (fun all repo => if bool_decide (repo ∈ all) then all else all ++ [repo]) all repos.
Fixpoint substore_repos (keys all : list string) : ST reg (list string) :=
  match keys with
  | [] => ret all
  | k :: keys =>
      let* repos := on_key (Some k) hk_GetRepositories in
      substore_repos keys (add_repos all repos)
  end.
Definition getAllRepos : ST reg (list string) :=
  let* rg := get in
  let* all := substore_repos (fst <$> map_iter (default ∅ (SubStore rg))) [] in
  let* repos := on_key None hk_GetRepositories in
  ret (add_repos all repos).
Definition getReposToBeDeleted (allStorageRepos allMetaDBRepos : list string) : list string :=
  filter (fun repo => repo ∉ allStorageRepos) allMetaDBRepos.

Record parseStats : Type := mkParseStats { failedRepos : nat; partialRepos : nat }.
Definition complete (s : parseStats) : bool := (failedRepos s =? 0)%nat && (partialRepos s =? 0)%nat.

Fixpoint delete_repos (repos : list string) : ST reg unit :=
  match repos with
  | [] => ret tt
  | repo :: repos => with_db (md_DeleteRepoMeta repo) ;;; delete_repos repos
  end.
(** One repository of the walk, and what it counts as. *)
Definition parse_repo_step (repo : string) (stats : parseStats) : ST reg parseStats :=
  let* stat := attempt (with_repo repo (on_st (hk_StatIndex repo))) in
  match stat with
  | Err _ => ret (mkParseStats (1 + failedRepos stats) (partialRepos stats))
  | Ok (_, _, storageLastUpdated) =>
      let* metaLastUpdated := with_db (md_GetRepoLastUpdated repo) in
      if negb (IsZero metaLastUpdated) && (storageLastUpdated <? metaLastUpdated)%Z then ret stats
      else
        let* r := attempt (with_repo repo (parseRepo repo)) in
        match r with
        | Err _ => ret (mkParseStats (1 + failedRepos stats) (partialRepos stats))
        | Ok true => ret (mkParseStats (failedRepos stats) (1 + partialRepos stats))
        | Ok false => ret stats
        end
  end.
Fixpoint parse_repos (repos : list string) (stats : parseStats) : ST reg parseStats :=
  match repos with
  | [] => ret stats
  | repo :: repos =>
      let* stats := parse_repo_step repo stats in
      parse_repos repos stats
  end.
Definition parseStorage : ST reg parseStats :=
  let* allStorageRepos := getAllRepos in
  let* allMetaDBRepos := with_db md_GetAllRepoNames in
  delete_repos (getReposToBeDeleted allStorageRepos allMetaDBRepos) ;;;
  parse_repos allStorageRepos (mkParseStats 0 0).
Definition ParseStorage : ST reg unit := let* _ := parseStorage in ret tt.
Definition ParseRepo (repo : string) : ST (S * D) unit := let* _ := parseRepo repo in ret tt.

Definition FastRestartStamp (binaryVersion storageFingerprint : string) : string :=
  if bool_decide (binaryVersion = "") || bool_decide (storageFingerprint = "") then ""
  else (binaryVersion ++ "|" ++ storageFingerprint)%string.

Definition MaybeParseStorage (fastRestart : bool) (fastRestartStamp : string) : ST reg unit :=
  let* skip :=
    (if fastRestart && negb (bool_decide (fastRestartStamp = "")) then
       let* storedStamp := attempt (with_db md_GetFastRestartStamp) in
       ret (match storedStamp with Ok stored => bool_decide (stored = fastRestartStamp) | Err _ => false end)
     else ret false) in
  if (skip : bool) then ret tt
  else
    let* stats := parseStorage in
    if bool_decide (fastRestartStamp = "") || negb (complete stats) then ret tt
    else (attempt (with_db (md_SetFastRestartStamp fastRestartStamp)) ;;; ret tt).
End parse.

(** ** The hooks as the handlers see them *)
Definition signers (m : ProtoRepoMeta) (digest : string) : list string :=
  sigs ← snd <$> map_to_list (default ∅ (pr_Signatures m !! digest));
  sigInfo ← sigs;
  li_Signer <$> si_LayersInfo sigInfo.

Section instance_of.
Context `{GoDigest} `{OciCodec} `{ConfigCodec} `{MediaTypeProbe} `{LocalFS} {S D : Type} `{HookStoreI S} `{MetaRepoI D}.
Context (StagingRoot : string -> option path).

#[export] Instance meta_hooks : MetaHooksI S D := {
  OnGetManifest := OnGetManifest;
  OnUpdateManifest := OnUpdateManifest;
  OnUpdateManifestDigestTags := OnUpdateManifestDigestTags StagingRoot;
  OnDeleteManifest := OnDeleteManifest StagingRoot;
  GetSigners repo digest := let* m := md_GetRepoMeta repo in ret (signers m digest)
}.
End instance_of.

(** What the hooks rely on of the image store: of its reads, and of the rest. *)
Class HookReadSpec {S} `{HookStoreI S} (I : S -> Prop) : Prop := {
  ks_GetBlobContent : forall repo d, preserves I (hk_GetBlobContent repo d);
  ks_GetIndexContent : forall repo, preserves I (hk_GetIndexContent repo);
  ks_StatIndex : forall repo, preserves I (hk_StatIndex repo);
  ks_StatBlob : forall repo d, preserves I (hk_StatBlob repo d);
  ks_GetRepositories : preserves I hk_GetRepositories
}.
Class HookStoreSpec {S} `{HookStoreI S} (I : S -> Prop) : Prop := {
  ks_reads :: HookReadSpec I;
  ks_PutImageManifest : forall repo reference mt body tags, repo_ok repo -> preserves I (hk_PutImageManifest repo reference mt body tags);
  ks_DeleteImageManifest : forall repo reference dc, repo_ok repo -> preserves I (hk_DeleteImageManifest repo reference dc);
  ks_RemoveIdleRepository : forall now age repo, repo_ok repo -> preserves I (hk_RemoveIdleRepository now age repo)
}.
#[export] Hint Resolve ks_reads ks_GetBlobContent ks_GetIndexContent ks_StatIndex ks_StatBlob ks_GetRepositories ks_PutImageManifest
  ks_DeleteImageManifest ks_RemoveIdleRepository : pres.

Section keep_reads.
Context `{GoDigest} `{OciCodec} `{ConfigCodec} `{MediaTypeProbe} {S D : Type} `{HookStoreI S} `{MetaRepoI D}.
Context (I : S -> Prop) `{!HookReadSpec I}.
Local Notation keeps := (preserves (fun sm : S * D => I (fst sm))).

Lemma keeps_st {A} (m : ST S A) : preserves I m -> keeps (on_st m).
Proof.
  intros Hm [s d] r [s' d'] HI. unfold on_st, zoom. simpl. destruct (m s) as [r0 s0] eqn:E. intros [= <- <- <-]. by eapply Hm.
Qed.
Lemma keeps_db {A} (m : ST D A) : keeps (on_db m).
Proof. intros [s d] r [s' d'] HI. unfold on_db, zoom. simpl. destruct (m d). by intros [= <- <- <-]. Qed.
#[local] Hint Resolve keeps_st keeps_db : pres.
#[local] Hint Extern 3 (preserves _ (on_st _)) => apply keeps_st; solve [eauto with pres] : pres.

Lemma keeps_layers repo layers : keeps (cosign_layers repo layers).
Proof. induction layers as [|layer layers IH]; simpl; pres. Qed.
#[local] Hint Resolve keeps_layers : pres.
Lemma keeps_set_signature repo reference d blob t sd : keeps (set_signature repo reference d blob t sd).
Proof. unfold set_signature, GetSignatureLayersInfo, getCosignSignatureLayersInfo, getNotationSignatureLayersInfo. pres. Qed.
#[local] Hint Resolve keeps_set_signature : pres.
Lemma keeps_input user repo reference mt d blob t : keeps (SetImageMetaFromInput user repo reference mt d blob t).
Proof. unfold SetImageMetaFromInput, read_config. pres. Qed.
End keep_reads.

Section keep_store.
Context `{GoDigest} `{OciCodec} `{ConfigCodec} `{MediaTypeProbe} `{LocalFS} {S D : Type} `{HookStoreI S} `{MetaRepoI D}.
Context (StagingRoot : string -> option path) (I : S -> Prop) `{!HookStoreSpec I}.
Local Notation keeps := (preserves (fun sm : S * D => I (fst sm))).
#[local] Hint Extern 1 (preserves _ (SetImageMetaFromInput _ _ _ _ _ _ _)) => apply (keeps_input I) : pres.
#[local] Hint Extern 1 (preserves _ (on_db _)) => apply (keeps_db I) : pres.
#[local] Hint Extern 3 (preserves _ (on_st _)) => apply (keeps_st I); solve [eauto with pres] : pres.

Lemma keeps_each {A} (f : A -> ST (S * D) unit) l : (forall x, keeps (f x)) -> keeps (each f l).
Proof. intros Hf. induction l as [|x l IH]; [apply preserves_ret|]. simpl. pres. Qed.
Lemma keeps_release repo : repo_ok repo -> keeps (releaseIdleRepository StagingRoot repo).
Proof. intros Hr. unfold releaseIdleRepository. pres. Qed.
#[local] Hint Resolve keeps_release : pres.
Lemma keeps_update user repo reference mt d body : repo_ok repo -> keeps (OnUpdateManifest user repo reference mt d body).
Proof. intros Hr. unfold OnUpdateManifest. pres. Qed.
Lemma keeps_delete user repo reference mt d body : repo_ok repo -> keeps (OnDeleteManifest StagingRoot user repo reference mt d body).
Proof. intros Hr. unfold OnDeleteManifest. pres. Qed.
#[local] Hint Resolve keeps_update keeps_delete : pres.
Lemma keeps_restore user repo prior tag : repo_ok repo -> keeps (restore_prior user repo prior tag).
Proof. intros Hr. unfold restore_prior. pres. Qed.
Lemma keeps_rollback user repo tags applied mt d body prior : repo_ok repo ->
  keeps (rollbackDigestManifestTags StagingRoot user repo tags applied mt d body prior).
Proof.
  intros Hr. unfold rollbackDigestManifestTags. pres; [apply keeps_each; intros; auto with pres..|]. apply keeps_each.
  intros. by apply keeps_restore.
Qed.
#[local] Hint Resolve keeps_rollback : pres.
Lemma keeps_update_tags user repo all mt d body prior : repo_ok repo -> forall rest applied,
  keeps (update_tags StagingRoot user repo all rest applied mt d body prior).
Proof. intros Hr. induction rest as [|tag rest IH]; intros applied; simpl; pres. Qed.
#[local] Hint Resolve keeps_update_tags : pres.

#[export] Instance meta_hooks_spec : MetaHooksSpec (H := meta_hooks StagingRoot) I.
Proof.
  split; intros; simpl.
  - unfold OnGetManifest. pres.
  - auto with pres.
  - unfold OnUpdateManifestDigestTags, priorTagManifestsFromMetaDB. pres.
  - auto with pres.
Qed.
End keep_store.

(** ** What the walk makes of the tags *)
Section tags.
Context `{GoDigest} `{OciCodec} `{ConfigCodec} `{MediaTypeProbe} `{MapIter} `{!MapIterLaws} `{!ImageTrustStore}.
Context {S : Type} `{HookStoreI S}.
Local Notation state := (S * bolt)%type.

(** The store does not touch the database. *)
Lemma st_keeps_db {A} (P : bolt -> Prop) (m : ST S A) : preserves (fun sm : state => P (snd sm)) (on_st m).
Proof. intros [s d] r [s' d'] HP. unfold on_st, zoom. simpl. destruct (m s). by intros [= <- <- <-]. Qed.
Lemma db_preserves {A} (P : bolt -> Prop) (m : ST bolt A) : preserves P m -> preserves (fun sm : state => P (snd sm)) (on_db m).
Proof.
  intros Hm [s d] r [s' d'] HP. unfold on_db, zoom. simpl. destruct (m d) as [r0 d0] eqn:E. intros [= <- <- <-]. by eapply Hm.
Qed.
#[local] Hint Resolve st_keeps_db : pres.

(** A database that shows the tags [f], well formed. *)
Definition showing (f : string -> gmap string string) (b : bolt) : Prop := meta_wf b /\ forall r, tags_of b r = f r.
Lemma quiet_showing f b b' : quiet b b' -> showing f b -> showing f b'.
Proof. intros Hq [Hw Hf]. split; [by eapply quiet_wf|]. intros r. rewrite <-Hf. unfold tags_of. by rewrite (quiet_tags b). Qed.
Lemma showing_op f (o : meta_op) : moves_tags o = false -> preserves (showing f) (do_op o).
Proof. intros Ho b r b' Hb E. eapply quiet_showing; [|exact Hb]. rewrite <-(f_equal snd E : snd (do_op o b) = b'). apply quiet_op; [done|apply Hb]. Qed.

Lemma layers_keep_db (P : bolt -> Prop) repo layers : preserves (fun sm : state => P (snd sm)) (cosign_layers repo layers).
Proof. induction layers as [|layer layers IH]; simpl; pres. Qed.
#[local] Hint Resolve layers_keep_db : pres.
Lemma signature_showing f repo reference d blob t sd : preserves (fun sm : state => showing f (snd sm)) (set_signature repo reference d blob t sd).
Proof.
  unfold set_signature, GetSignatureLayersInfo, getCosignSignatureLayersInfo, getNotationSignatureLayersInfo. pres.
  - apply db_preserves. apply (showing_op f (OpAddManifestSignature repo sd _)). done.
  - apply db_preserves. apply (showing_op f (OpUpdateSignaturesValidity repo sd)). done.
Qed.

(** Whether a pushed body is one of an image, and not of a signature. *)
Definition image_input (mediaType reference blob : string) : bool :=
  if IsImageManifestMediaType mediaType then
    match unmarshal_manifest blob with
    | Some manifest => match isSignature reference manifest with None => true | Some _ => false end
    | None => false
    end
  else IsImageIndexMediaType mediaType && match unmarshal_index blob with Some _ => true | None => false end.
Definition show_tag (repo tag digest : string) (f : string -> gmap string string) : string -> gmap string string :=
  if ReferenceIsDigest tag then f else <[repo := <[tag := digest]> (f repo)]> f.

Lemma image_type_nonempty mt : IsImageManifestMediaType mt || IsImageIndexMediaType mt = true -> mt <> "".
Proof. by intros Ht ->. Qed.
Lemma manifest_meta_ok m c n d mt : IsImageManifestMediaType mt = true ->
  is_Some (GetProtoImageMeta (GetImageManifestMeta m c n d mt)).
Proof.
  intros Ht. unfold GetImageManifestMeta. rewrite bool_decide_false by (apply image_type_nonempty; by rewrite Ht).
  unfold GetProtoImageMeta. simpl. by rewrite Ht.
Qed.
Lemma index_meta_ok i n d mt : IsImageManifestMediaType mt = false -> IsImageIndexMediaType mt = true ->
  is_Some (GetProtoImageMeta (GetImageIndexMeta i n d mt)).
Proof.
  intros Hf Ht. unfold GetImageIndexMeta. rewrite bool_decide_false by (apply image_type_nonempty; by rewrite Ht, orb_true_r).
  unfold GetProtoImageMeta. simpl. by rewrite Hf, Ht.
Qed.

Lemma set_reference_showing f b repo reference im ts user : showing f b -> repo <> "" -> reference <> "" -> image_ok im ->
  exists b', SetRepoReference repo reference im ts user b = (Ok tt, b') /\ showing (show_tag repo reference (im_Digest im) f) b'.
Proof.
  intros [Hw Hf] Hr Hre Him.
  destruct (push_spec b repo reference im ts user Hw Hr Hre Him) as (m'&blobs'&b'&E&Hp). exists b'. split; [done|].
  split; [by eapply push_wf|].
  intros r. rewrite (tags_write _ _ _ _ (pu_meta _ _ _ _ _ _ _ _ Hp)). destruct (pu_tags _ _ _ _ _ _ _ _ Hp) as [t ->].
  unfold pushed_tag, show_tag. destruct (ReferenceIsDigest reference); case_decide as Hd; try subst r; rewrite ?visible_insert, ?visible_read by done;
    rewrite ?fn_lookup_insert, ?fn_lookup_insert_ne by done; rewrite ?Hf; done.
Qed.

Lemma set_on_db f (s : S) b user repo reference im ts r s' b' : showing f b -> is_Some (GetProtoImageMeta im) ->
  on_db (md_SetRepoReference repo reference im ts user) (s, b) = (r, (s', b')) ->
  match r with Ok _ => showing (show_tag repo reference (im_Digest im) f) b' | Err _ => showing f b' end.
Proof.
  intros Hb Him. unfold on_db, zoom. simpl. destruct (ValidateRepoReferenceInput repo reference (im_Digest im)) as [e|] eqn:Ev.
  - unfold SetRepoReference. rewrite Ev. by intros [= <- <- <-].
  - assert (repo <> "" /\ reference <> "" /\ im_Digest im <> "") as (?&?&?).
    { unfold ValidateRepoReferenceInput in Ev. by repeat case_bool_decide. }
    destruct (set_reference_showing f b repo reference im ts user) as (b1&E&Hs); [done..|]. rewrite E. by intros [= <- <- <-].
Qed.
Lemma config_keeps_db (b : bolt) repo m : preserves (fun sm : state => snd sm = b) (read_config repo m).
Proof. unfold read_config. pres. apply (st_keeps_db (fun b0 => b0 = b)). Qed.

(** Setting the metadata of a manifest, as far as the tags are concerned. *)
Lemma input_showing f (s : S) b user repo reference mt d blob ts r (s' : S) b' : showing f b ->
  SetImageMetaFromInput user repo reference mt d blob ts (s, b) = (r, (s', b')) ->
  match r with
  | Ok _ => showing (if image_input mt reference blob then show_tag repo reference d f else f) b'
  | Err _ => showing f b'
  end.
Proof.
  intros Hb. unfold SetImageMetaFromInput, image_input. cbv zeta.
  destruct (IsImageManifestMediaType mt) eqn:Em; [|destruct (IsImageIndexMediaType mt) eqn:Ei].
  - destruct (unmarshal_manifest blob) as [m|]; [|by intros [= <- <- <-]]. intros E. apply bind_state in E as [(e&E&->)|(c&[s1 b1]&Ec&E)].
    + apply (config_keeps_db b) in E; [|done]. simpl in E. by subst.
    + apply (config_keeps_db b) in Ec; [|done]. simpl in Ec. subst b1. destruct (isSignature reference m) as [[t sd]|].
      * eapply signature_showing in E; [|exact Hb]. by destruct r.
      * eapply set_on_db in E; [exact E|done|]. by apply manifest_meta_ok.
  - destruct (unmarshal_index blob) as [i|]; simpl; [|by intros [= <- <- <-]]. intros E.
    eapply set_on_db in E; [exact E|done|]. by apply index_meta_ok.
  - by intros [= <- <- <-].
Qed.

(** *** Parsing a repository *)
Section parsed.
Context (I : S -> Prop) `{!HookReadSpec I} (repo : string) (body : string -> string).
(** The blobs read have the contents [body]. *)
Context (Hbody : forall d s b s', I s -> hk_GetBlobContent repo d s = (Ok b, s') -> b = body d).

Definition row_reference (row : Descriptor) : string := if bool_decide (row_tag row = "") then Digest row else row_tag row.
(** A row whose tag the database is to show. *)
Definition shown_row (row : Descriptor) : bool :=
  negb (IsReferrersTag (row_tag row)) && image_input (MediaType row) (row_reference row) (body (Digest row)).
Definition row_effect (f : string -> gmap string string) (row : Descriptor) : string -> gmap string string :=
  if shown_row row then show_tag repo (row_reference row) (Digest row) f else f.

Lemma parse_row_keeps row : preserves (fun sm : state => I (fst sm)) (parse_row repo row).
Proof.
  unfold parse_row. pres; [by apply keeps_st, ks_GetBlobContent|by apply keeps_st, ks_StatBlob|].
  by apply keeps_input.
Qed.
Lemma parse_row_spec f row s b p s' b' : I s -> showing f b ->
  parse_row repo row (s, b) = (Ok p, (s', b')) -> I s' /\ showing (if p then f else row_effect f row) b'.
Proof.
  intros Hs Hb E. split; [by apply (parse_row_keeps row _ _ _ (Hs : (fun sm => I (fst sm)) (s, b)) E)|].
  revert E. unfold parse_row, row_effect, shown_row, row_reference. cbv zeta. destruct (IsReferrersTag (row_tag row)); [by intros [= <- <- <-]|].
  simpl negb. simpl andb. intros E. stepo E. destruct s0 as [s1 b1].
  assert (b1 = b) as ->.
  { revert E0. unfold attempt, on_st, zoom. simpl. destruct (hk_GetBlobContent _ _ s) as [[?|[]] ?]; by intros [= _ _ <-]. }
  destruct a as [blob|e]; cycle 1.
  { destruct (missing e); [|done]. injection E as <- <- <-. done. }
  assert (blob = body (Digest row)) as ->.
  { revert E0. unfold attempt, on_st, zoom. simpl. destruct (hk_GetBlobContent _ _ s) as [[?|[]] ?] eqn:Eg; try done.
    intros [= -> _]. by eapply Hbody in Eg. }
  stepo E. destruct s0 as [s2 b2].
  assert (b2 = b) as ->.
  { revert E1. unfold attempt, on_st, zoom. simpl. destruct (hk_StatBlob _ _ s1) as [[?|[]] ?]; by intros [= _ _ <-]. }
  stepo E. destruct s0 as [s3 b3]. injection E as <- <- <-.
  by eapply input_showing in E2.
Qed.

Lemma parse_rows_spec rows : forall f s b partial s' b', I s -> showing f b -> parse_rows repo rows partial (s, b) = (Ok false, (s', b')) ->
  I s' /\ showing (foldl row_effect f rows) b'.
Proof.
  induction rows as [|row rows IH]; intros f s b partial s' b' Hs Hb; simpl; [by intros [= _ <- <-]|].
  intros E. stepo E. destruct s0 as [s1 b1]. destruct (parse_row_spec f row s b a s1 b1) as [Hs1 Hb1]; [done..|].
  destruct a; [|by eapply IH; eauto].
  exfalso. clear -E. rewrite orb_true_r in E. revert s1 b1 E. induction rows as [|row' rows IH]; intros s1 b1; simpl; [done|].
  intros E. stepo E. destruct s as [s2 b2]. by apply IH in E.
Qed.

(** The tags after all rows: those of the last shown rows. *)
Definition row_ok (row : Descriptor) : Prop :=
  Validate (Digest row) = None /\ (row_tag row <> "" -> ReferenceIsDigest (row_tag row) = false).
Lemma row_effect_other f row r tag : row_ok row -> (r <> repo \/ tag <> "" /\ (row_tag row = tag -> shown_row row = false)) ->
  row_effect f row r !! tag = f r !! tag.
Proof.
  intros (Hd&Ht) Hor. unfold row_effect, show_tag, row_reference. destruct (shown_row row) eqn:Es; [|done].
  case_bool_decide as Hrt.
  - unfold ReferenceIsDigest, Parse. rewrite Hd. done.
  - rewrite Ht by done. destruct (decide (r = repo)) as [->|Hr]; [|by rewrite fn_lookup_insert_ne].
    rewrite fn_lookup_insert, lookup_insert_ne; [done|]. destruct Hor as [?|[_ Hor]]; [done|]. intros E. by specialize (Hor E).
Qed.
Lemma row_effects_other rows r tag : Forall row_ok rows ->
  (r <> repo \/ tag <> "" /\ forall row, row ∈ rows -> row_tag row = tag -> shown_row row = false) -> forall f,
  foldl row_effect f rows r !! tag = f r !! tag.
Proof.
  intros Hok. induction Hok as [|row rows Hrow Hok IH]; intros Hor f; [done|]. simpl. rewrite IH.
  - apply row_effect_other; [done|]. destruct Hor as [?|[? Hor]]; [by left|right]. split; [done|]. apply Hor. by left.
  - destruct Hor as [?|[? Hor]]; [by left|right]. split; [done|]. intros row' Hin. apply Hor. by right.
Qed.
Lemma row_effects_shown rows row f : Forall row_ok rows -> NoDup (filter (fun tag => tag <> "") (row_tag <$> rows)) ->
  row ∈ rows -> row_tag row <> "" -> shown_row row = true -> foldl row_effect f rows repo !! row_tag row = Some (Digest row).
Proof.
  intros Hok Hnd (l1&l2&->)%list_elem_of_split Hne Hs. rewrite foldl_app. simpl.
  apply Forall_app in Hok as [_ [Hrow Hok]%Forall_cons_1]. rewrite row_effects_other; [|done|].
  - unfold row_effect, show_tag, row_reference. rewrite Hs, bool_decide_false by done. destruct Hrow as [_ ->]; [|done].
    by rewrite fn_lookup_insert, lookup_insert_eq.
  - right. split; [done|]. intros row' Hin Et. exfalso. rewrite fmap_app, list.filter_app in Hnd. apply list.NoDup_app in Hnd as (_&_&Hnd).
    rewrite fmap_cons, filter_cons_True in Hnd by done. apply list.NoDup_cons in Hnd as [Hnin _]. apply Hnin.
    apply list_elem_of_filter. split; [done|]. apply list_elem_of_fmap. exists row'. done.
Qed.

End parsed.
End tags.

(** ** The handlers with the hooks *)
Section served.
Context `{GoDigest} `{OciCodec} `{ConfigCodec} `{MediaTypeProbe} `{MapIter} `{!MapIterLaws} `{!ImageTrustStore} `{LocalFS}.
Context `{CelEngine} `{Glob} `{SliceSort} `{PushProbe} `{UrlParse}.
Context {S : Type} `{ApiStoreI S} `{SyncOnDemandI S} `{HookStoreI S} (StagingRoot : string -> option path) (conf : rh_config).
Local Notation state := (S * bolt)%type.
Local Notation reg := (registry S bolt).
#[local] Instance bolt_hooks : MetaHooksI S bolt := meta_hooks StagingRoot.

(** What a push of a manifest adds to the tags the database shows. *)
Definition record_tag (repo mediaType digest body : string) (f : string -> gmap string string) (tag : string)
    : string -> gmap string string :=
  if negb (IsReferrersTag tag) && image_input mediaType tag body then show_tag repo tag digest f else f.

Lemma update_showing f (s : S) b user repo tag mt d body (s' : S) b' : showing f b ->
  OnUpdateManifest user repo tag mt d body (s, b) = (Ok tt, (s', b')) -> showing (record_tag repo mt d body f tag) b'.
Proof.
  intros Hb. unfold OnUpdateManifest, record_tag. destruct (IsReferrersTag tag); [by intros [= _ <-]|]. simpl. intros E. stepo E.
  destruct s0 as [s1 b1]. unfold attempt in E0. destruct (SetImageMetaFromInput _ _ _ _ _ _ _ _) as [[[]|e] [s2 b2]] eqn:Ei.
  - injection E0 as <- <- <-. injection E as <- <-. by eapply input_showing in Ei.
  - destruct a as [|e']; [by destruct e|]. stepo E. done.
Qed.
Lemma tags_showing user repo all mt d body prior rest : forall applied f (s : S) b (s' : S) b', showing f b ->
  update_tags StagingRoot user repo all rest applied mt d body prior (s, b) = (Ok tt, (s', b')) ->
  showing (foldl (record_tag repo mt d body) f rest) b'.
Proof.
  induction rest as [|tag rest IH]; intros applied f s b s' b' Hb; simpl; [by intros [= _ <-]|]. intros E. stepo E.
  destruct s0 as [s1 b1]. unfold attempt in E0. destruct (OnUpdateManifest _ _ _ _ _ _ _) as [[[]|e] [s2 b2]] eqn:Ei.
  - injection E0 as <- <- <-. eapply update_showing in Ei; [|exact Hb]. by eapply IH in E.
  - destruct a as [|e']; [by destruct e|]. stepo E. done.
Qed.
Lemma prior_keeps_db repo tags (b : bolt) : preserves (fun sm : state => snd sm = b) (priorTagManifestsFromMetaDB repo tags).
Proof.
  unfold priorTagManifestsFromMetaDB. destruct tags; [apply preserves_ret|]. pres. apply (db_preserves (fun b' => b' = b)).
  intros b0 r b1 ->. simpl. unfold GetRepoMeta, bind. rewrite get_existing. by destruct (bool_decide _); intros [= _ <-].
Qed.

(** The database of the registry is not touched by its stores. *)
Definition has_db (b : bolt) (rg : reg) : Prop := rg_meta rg = Some b.
Lemma on_store_db {A} b name (m : ST S A) : preserves (has_db b) (on_store name m).
Proof.
  intros rg r rg' Hb. unfold on_store, zoom, set_image_store. destruct (m _) as [r0 s]. intros [= <- <-].
  by destruct (substore_of rg name).
Qed.
Lemma reject_keeps_db b name reference mt body create : preserves (has_db b) (rejectUnsignedManifest conf name reference mt body create).
Proof.
  unfold rejectUnsignedManifest. pres. intros rg r rg' Hb. unfold on_meta. rewrite Hb. simpl. unfold bind, GetRepoMeta, bind.
  rewrite get_existing. destruct (bool_decide _); simpl; intros [= <- <-]; unfold set_image_store; by destruct (substore_of rg name).
Qed.

Lemma accepted_showing f b user name reference mt d sd body tags rg resp rg' : has_db b rg -> showing f b ->
  push_accepted user name reference mt d sd body tags rg = (Ok resp, rg') -> rs_status resp = 201%Z ->
  exists b', has_db b' rg' /\ (DistContentDigestKey, d) ∈ rs_headers resp /\
    showing (foldl (record_tag name mt d body) f (match tags with [] => [reference] | _ => tags end)) b'.
Proof.
  intros Hm Hb E Hs. unfold push_accepted in E. stepo E. destruct a as [u|e]; [|injection E as <- <-; done]. injection E as <- <-.
  unfold attempt, on_meta in E0. rewrite Hm in E0.
  set (hook := match tags with [] => _ | _ :: _ => _ end) in E0. destruct (hook (GetImageStore rg name, b)) as [[[]|e] [s1 b1]] eqn:Eh; [|by destruct e].
  exists b1. injection E0 as _ <-. split; [done|]. split.
  { apply elem_of_app. right. right. left. }
  destruct tags as [|t ts]; [by eapply update_showing in Eh|]. subst hook. change (OnUpdateManifestDigestTags StagingRoot user name (t :: ts) mt d body (GetImageStore rg name, b) = (Ok tt, (s1, b1))) in Eh.
  unfold OnUpdateManifestDigestTags in Eh.
  stepo Eh. destruct s as [s2 b2]. apply (prior_keeps_db _ _ b) in E; [|done]. simpl in E. subst b2. by eapply tags_showing in Eh.
Qed.

Lemma push_tags_refused q reference resp : push_tags q reference = inr resp -> rs_status resp <> 201%Z.
Proof. unfold push_tags. repeat case_match; intros [= <-]; done. Qed.

(** A tag that a push shows: not one of referrers, nor for a signature, nor
    for content of another media type. *)
Definition recorded_tag (mediaType body tag : string) : bool :=
  negb (IsReferrersTag tag) && image_input mediaType tag body && negb (ReferenceIsDigest tag).
Lemma record_tags_lookup repo mt d body r tag tags : forall f,
  foldl (record_tag repo mt d body) f tags r !! tag =
    if decide (r = repo /\ tag ∈ tags /\ recorded_tag mt body tag = true) then Some d else f r !! tag.
Proof.
  induction tags as [|t tags IH]; intros f; simpl; [rewrite decide_False; [done|]; by intros (_&?%not_elem_of_nil&_)|]. rewrite IH.
  destruct (decide (r = repo /\ tag ∈ tags /\ recorded_tag mt body tag = true)) as [(?&?&?)|Hn].
  { rewrite decide_True; [done|]. split; [done|]. split; [by right|done]. }
  unfold record_tag at 1. destruct (negb (IsReferrersTag t) && image_input mt t body) eqn:Ei.
  2: { rewrite decide_False; [done|]. intros (?&[->|?]%elem_of_cons&Hr); [|tauto]. unfold recorded_tag in Hr. by rewrite Ei in Hr. }
  unfold show_tag. destruct (ReferenceIsDigest t) eqn:Er.
  { rewrite decide_False; [done|]. intros (?&[->|?]%elem_of_cons&Hr); [|tauto]. unfold recorded_tag in Hr. by rewrite Er, andb_false_r in Hr. }
  assert (recorded_tag mt body t = true) as Ht by (unfold recorded_tag; by rewrite Ei, Er).
  destruct (decide (r = repo)) as [->|Hr].
  - rewrite fn_lookup_insert. destruct (decide (tag = t)) as [->|Hne].
    + rewrite decide_True, lookup_insert_eq; [done|]. split; [done|]. split; [by left|done].
    + rewrite lookup_insert_ne by done. rewrite decide_False; [done|]. intros (_&[?|?]%elem_of_cons&?); [done|tauto].
  - rewrite fn_lookup_insert_ne by done. rewrite decide_False; [done|]. tauto.
Qed.

End served.

(** ** The image store behind the hooks *)
Section store.
Context {C : Type} `{CacheLaws C} `{GoDigestLaws} `{OciCodec}.

#[export] Instance hook_store : HookStoreI (image_store (F := fs) (C := C)) := {
  hk_GetBlobContent repo d := call (fun cfg => IS.GetBlobContent cfg repo d);
  hk_GetIndexContent repo := call (fun cfg => IS.GetIndexContent cfg repo);
  hk_StatIndex repo := call (fun cfg => IS.StatIndex cfg repo);
  hk_StatBlob repo d := call (fun cfg => IS.StatBlob cfg repo d);
  hk_GetRepositories := call (fun cfg => IS.GetRepositories cfg);
  hk_PutImageManifest repo reference mt body tags := call (fun cfg => IS.PutImageManifest cfg repo reference mt body tags);
  hk_DeleteImageManifest repo reference dc := call (fun cfg => IS.DeleteImageManifest cfg repo reference dc);
  hk_RemoveIdleRepository now age repo := call (fun cfg => IS.RemoveIdleRepository cfg now age repo)
}.

Lemma pres_repositories (cfg : config fs C) : preserves (store_ok cfg None) (IS.GetRepositories cfg).
Proof. intros s r s' Hs. unfold IS.GetRepositories. destruct (IS.walk_root _ _ _) as [e l]. repeat case_match; by intros [= _ <-]. Qed.

#[export] Instance hook_store_spec : HookStoreSpec addressed.
Proof.
  split; [split|..]; intros; apply pres_call; intros.
  - by apply pres_GetBlobContent.
  - by apply pres_GetIndexContent.
  - by apply pres_StatIndex.
  - by apply pres_StatBlob.
  - apply pres_repositories.
  - by apply pres_PutImageManifest.
  - by apply pres_DeleteImageManifest.
  - by apply pres_RemoveIdleRepository.
Qed.
End store.

(** ** The stamp of a fast restart *)
Section stamp.
Context `{GoDigest} `{OciCodec} `{ConfigCodec} `{MediaTypeProbe} `{MapIter} `{!MapIterLaws} `{!ImageTrustStore}.
Context {S : Type} `{HookStoreI S}.
Local Notation state := (S * bolt)%type.
Local Notation reg := (registry S bolt).

Section kept.
Context (x : string).
Local Notation kept := (preserves (fun sm : state => stamped x (snd sm))).
Lemma db_op (o : meta_op) : (forall st, o <> OpSetFastRestartStamp st) -> kept (on_db (do_op o)).
Proof. intros Ho. by apply db_preserves, stamped_op. Qed.
Lemma kept_set repo reference im ts user : kept (on_db (md_SetRepoReference repo reference im ts user)).
Proof. by apply (db_op (OpSetRepoReference repo reference im ts user)). Qed.
Lemma kept_sign repo d sm : kept (on_db (md_AddManifestSignature repo d sm)).
Proof. by apply (db_op (OpAddManifestSignature repo d sm)). Qed.
Lemma kept_validity repo d : kept (on_db (md_UpdateSignaturesValidity repo d)).
Proof. by apply (db_op (OpUpdateSignaturesValidity repo d)). Qed.
Lemma kept_reset repo keep : kept (on_db (md_ResetRepoReferences repo keep)).
Proof. by apply (db_op (OpResetRepoReferences repo keep)). Qed.
Lemma kept_st {A} (m : ST S A) : kept (on_st m).
Proof. apply st_keeps_db. Qed.
Lemma kept_layers repo layers : kept (cosign_layers repo layers).
Proof. apply (layers_keep_db (stamped x)). Qed.
#[local] Hint Resolve kept_set kept_sign kept_validity kept_reset kept_st kept_layers : pres.
Lemma kept_input user repo reference mt d blob ts : kept (SetImageMetaFromInput user repo reference mt d blob ts).
Proof.
  unfold SetImageMetaFromInput, read_config, set_signature, GetSignatureLayersInfo, getCosignSignatureLayersInfo,
    getNotationSignatureLayersInfo. pres.
Qed.
#[local] Hint Resolve kept_input : pres.
Lemma kept_rows repo rows : forall partial, kept (parse_rows repo rows partial).
Proof. induction rows as [|row rows IH]; intros partial; simpl; [pres|]. unfold parse_row. pres. Qed.
#[local] Hint Resolve kept_rows : pres.
Lemma kept_repo repo : kept (parseRepo repo).
Proof. unfold parseRepo. pres. Qed.

(** The database of the registry has the stamp. *)
Definition has_stamp (rg : reg) : Prop := exists b, rg_meta rg = Some b /\ stamped x b.
Lemma with_repo_stamp {A} repo (m : ST state A) : kept m -> preserves has_stamp (with_repo repo m).
Proof.
  intros Hm rg r rg' (b&Hb&Hx). unfold with_repo. rewrite Hb. destruct (m _) as [r0 [s b']] eqn:E. intros [= <- <-].
  exists b'. split; [done|]. by eapply (Hm (_, b)) in E.
Qed.
Lemma with_db_stamp {A} (m : ST bolt A) : preserves (stamped x) m -> preserves has_stamp (with_db m).
Proof.
  intros Hm rg r rg' (b&Hb&Hx). unfold with_db. rewrite Hb. destruct (m b) as [r0 b'] eqn:E. intros [= <- <-].
  exists b'. split; [done|]. by eapply Hm.
Qed.
Lemma on_key_stamp {A} key (m : ST S A) : preserves has_stamp (on_key key m).
Proof.
  intros rg r rg' Hx. unfold on_key. destruct key as [k|].
  - destruct (subs ← SubStore rg; subs !! k); [|by intros [= _ <-]]. destruct (m _). by intros [= _ <-].
  - destruct (m _). by intros [= _ <-].
Qed.
#[local] Hint Resolve on_key_stamp : pres.
Lemma stamp_substores keys : forall all, preserves has_stamp (substore_repos keys all).
Proof. induction keys as [|k keys IH]; intros all; simpl; pres. Qed.
#[local] Hint Resolve stamp_substores : pres.
Lemma stamp_all_repos : preserves has_stamp getAllRepos.
Proof. unfold getAllRepos. pres. Qed.
Lemma stamp_delete repos : preserves has_stamp (delete_repos repos).
Proof.
  induction repos as [|repo repos IH]; simpl; pres. apply with_db_stamp. by apply (stamped_op x (OpDeleteRepoMeta repo)).
Qed.
Lemma stamp_step repo stats : preserves has_stamp (parse_repo_step repo stats).
Proof.
  unfold parse_repo_step. pres; [apply with_repo_stamp, kept_st|apply with_db_stamp, preserves_gets|apply with_repo_stamp, kept_repo].
Qed.
Lemma stamp_repos repos : forall stats, preserves has_stamp (parse_repos repos stats).
Proof. induction repos as [|repo repos IH]; intros stats; simpl; pres. apply stamp_step. Qed.
Lemma stamp_names : preserves has_stamp (with_db md_GetAllRepoNames).
Proof. apply with_db_stamp, preserves_gets. Qed.
Lemma stamp_parse : preserves has_stamp parseStorage.
Proof. unfold parseStorage. pres; [apply stamp_all_repos|apply stamp_names|apply stamp_delete|apply stamp_repos]. Qed.
End kept.

(** Each repository in turn was up to date in the database, or was parsed with
    no manifest missing. *)
Inductive settled : list string -> reg -> reg -> Prop :=
  | settled_nil rg : settled [] rg rg
  | settled_fresh repo repos rg rg1 rg2 rg3 found size modTime updated :
      with_repo repo (on_st (hk_StatIndex repo)) rg = (Ok (found, size, modTime), rg1) ->
      with_db (md_GetRepoLastUpdated repo) rg1 = (Ok updated, rg2) ->
      IsZero updated = false -> (modTime < updated)%Z -> settled repos rg2 rg3 -> settled (repo :: repos) rg rg3
  | settled_parsed repo repos rg rg1 rg2 rg3 rg4 found size modTime updated :
      with_repo repo (on_st (hk_StatIndex repo)) rg = (Ok (found, size, modTime), rg1) ->
      with_db (md_GetRepoLastUpdated repo) rg1 = (Ok updated, rg2) ->
      with_repo repo (parseRepo repo) rg2 = (Ok false, rg3) -> settled repos rg3 rg4 -> settled (repo :: repos) rg rg4.

Lemma attempt_ok {St A} (m : ST St A) s r s' : attempt m s = (Ok r, s') -> m s = (r, s').
Proof. unfold attempt. destruct (m s) as [[a|e] s1]; [by intros [= <- <-]|destruct e]; by intros [= <- <-]. Qed.
Lemma parse_step_settled repo stats stats' rg rg' : parse_repo_step repo stats rg = (Ok stats', rg') -> complete stats' = true ->
  complete stats = true /\ forall repos rg'', settled repos rg' rg'' -> settled (repo :: repos) rg rg''.
Proof.
  unfold parse_repo_step. intros E Hc. stepo E. apply attempt_ok in E0. destruct a as [[[found size] t]|e]; [|injection E as <- <-; done].
  stepo E. destruct (negb (IsZero a) && (t <? a)%Z) eqn:El.
  - injection E as <- <-. split; [done|]. intros. apply andb_prop in El as [Hz%negb_true_iff Hl%Z.ltb_lt]. by eapply settled_fresh.
  - stepo E. apply attempt_ok in E2. destruct a0 as [[]|e]; injection E as <- <-.
    + unfold complete in Hc. apply andb_prop in Hc as [_ Hc]. done.
    + split; [done|]. intros. by eapply settled_parsed.
    + done.
Qed.
Lemma parse_repos_settled repos : forall stats stats' rg rg', parse_repos repos stats rg = (Ok stats', rg') -> complete stats' = true ->
  complete stats = true /\ settled repos rg rg'.
Proof.
  induction repos as [|repo repos IH]; intros stats stats' rg rg'; simpl.
  - intros [= <- <-]. split; [done|constructor].
  - intros E Hc. stepo E. apply IH in E as [Hs Hset]; [|done]. apply parse_step_settled in E0 as [? Hstep]; auto.
Qed.

(** The stores of the registry: the default one, and those of the substores. *)
Definition store_at (rg : reg) (key : option string) : option S :=
  match key with None => Some (DefaultStore rg) | Some k => subs ← SubStore rg; subs !! k end.
(** A store answers its listing with a repository. *)
Definition lists_repo (s : S) (repo : string) : Prop := exists l s', hk_GetRepositories s = (Ok l, s') /\ repo ∈ l.

Lemma add_repos_spec repos : forall all x, x ∈ add_repos all repos <-> x ∈ all \/ x ∈ repos.
Proof.
  induction repos as [|r repos IH]; intros all x; simpl; [rewrite elem_of_nil; tauto|].
  rewrite elem_of_cons. case_bool_decide; rewrite IH; [naive_solver|]. rewrite elem_of_app, list_elem_of_singleton. tauto.
Qed.
Lemma on_key_listing key (rg : reg) l rg' : on_key key hk_GetRepositories rg = (Ok l, rg') ->
  exists s s', store_at rg key = Some s /\ hk_GetRepositories s = (Ok l, s') /\
    forall key', key' <> key -> store_at rg' key' = store_at rg key'.
Proof.
  unfold on_key, store_at. destruct key as [k|].
  - destruct (SubStore rg) as [subs|] eqn:Es; simpl; [|done]. destruct (subs !! k) as [s|]; [|done].
    destruct (hk_GetRepositories s) as [r s'] eqn:E. intros [= -> <-]. exists s, s'. split; [done|]. split; [done|].
    intros [k'|] Hk; simpl; [|done]. rewrite lookup_insert_ne; [done|congruence].
  - destruct (hk_GetRepositories (DefaultStore rg)) as [r s'] eqn:E. intros [= -> <-]. eexists _, s'. split; [done|].
    split; [done|]. by intros [k'|].
Qed.
Lemma substore_repos_listed keys : forall all (rg : reg) all' rg', NoDup keys -> substore_repos keys all rg = (Ok all', rg') ->
  (forall key, (forall k, k ∈ keys -> key <> Some k) -> store_at rg' key = store_at rg key) /\
  (forall k, k ∈ keys -> exists s l s', store_at rg (Some k) = Some s /\ hk_GetRepositories s = (Ok l, s')) /\
  forall x, x ∈ all' <-> x ∈ all \/ exists k s, k ∈ keys /\ store_at rg (Some k) = Some s /\ lists_repo s x.
Proof.
  induction keys as [|k keys IH]; intros all rg all' rg' Hnd; cbn [substore_repos].
  { intros [= <- <-]. split; [done|]. split; [by intros k ?%elem_of_nil|]. intros x. split; [by left|].
    intros [?|(k&s&?%elem_of_nil&_)]; done. }
  inversion_clear Hnd as [|? ? Hk Hnd1]. intros E. stepo E. rename s into rg1. apply on_key_listing in E0 as (s1&s2&Hs&El&Hother).
  destruct (IH _ _ _ _ Hnd1 E) as (Hkeep&Hl&Hx). assert (forall k', k' ∈ keys -> store_at rg1 (Some k') = store_at rg (Some k')) as Hsame.
  { intros k' Hk'. apply Hother. by intros [= ->]. }
  split; [|split].
  - intros key Hn. rewrite Hkeep by (intros k' ?; apply Hn; by right). apply Hother. apply Hn. by left.
  - intros k' [->|Hk']%elem_of_cons; [by exists s1, a, s2|]. rewrite <-Hsame by done. by apply Hl.
  - intros x. rewrite Hx, add_repos_spec. split.
    + intros [[?|Ha]|(k'&s&Hk'&Hs'&Hr)]; [by left| |].
      * right. exists k, s1. split; [by left|]. split; [done|]. by exists a, s2.
      * right. exists k', s. split; [by right|]. by rewrite <-Hsame.
    + intros [?|(k'&s&[->|Hk']%elem_of_cons&Hs'&Hr)]; [by left; left| |].
      * left; right. rewrite Hs in Hs'. injection Hs' as <-. destruct Hr as (l&s'&E'&?). rewrite El in E'. by injection E' as <- _.
      * right. exists k', s. by rewrite Hsame.
Qed.
(** The repositories of the walk are those that the stores list. *)
Lemma getAllRepos_listed (rg : reg) repos rg' : getAllRepos rg = (Ok repos, rg') ->
  (forall key s, store_at rg key = Some s -> exists l s', hk_GetRepositories s = (Ok l, s')) /\
  forall repo, repo ∈ repos <-> exists key s, store_at rg key = Some s /\ lists_repo s repo.
Proof.
  unfold getAllRepos. unfold bind at 1, get. intros E. stepo E. rename s into rg1. stepo E. rename s into rg2. injection E as <- _.
  apply substore_repos_listed in E0 as (Hkeep&Hl&Hx).
  2:{ rewrite map_iter_perm. apply NoDup_fst_map_to_list. }
  apply on_key_listing in E1 as (s1&s2&Hs&El&_). rewrite Hkeep in Hs by done.
  assert (forall k s, store_at rg (Some k) = Some s -> k ∈ (map_iter (default ∅ (SubStore rg))).*1) as Hin.
  { intros k s Hk. simpl in Hk. destruct (SubStore rg) as [subs|]; [|done]. simpl in *.
    apply list_elem_of_fmap. exists (k, s). split; [done|]. rewrite map_iter_perm. by apply elem_of_map_to_list. }
  split.
  - intros [k|] s Hk; [|injection Hk as <-; injection Hs as <-; eauto].
    destruct (Hl k (Hin _ _ Hk)) as (s'&l&s''&Hk'&E). rewrite Hk in Hk'. injection Hk' as <-. eauto.
  - intros repo. rewrite add_repos_spec, Hx, elem_of_nil. split.
    + intros [[[]|(k&s&_&?&?)]|Ha]; [by exists (Some k), s|]. exists None, s1. split; [done|]. by exists a0, s2.
    + intros ([k|]&s&Hk&Hr); [left; right; exists k, s; eauto|right]. rewrite Hs in Hk. injection Hk as <-.
      destruct Hr as (l&s'&E&?). rewrite El in E. by injection E as <- _.
Qed.

(** C22 The stamp that lets the next start skip the parse is only written at the
    end of a walk that this call made over its own storage: the repositories of
    the walk are exactly those that the default store and the substores listed,
    each store having answered, and each of them was up to date in the
    database or was parsed completely: none failed and none had a manifest
    whose blob is missing. *)
Theorem stamp_after_complete_parse (fastRestart : bool) (stamp : string) (rg rg' : reg) (b b' : bolt) (r : res unit)
    (Hb : rg_meta rg = Some b) (Hb' : rg_meta rg' = Some b')
    (Hrun : MaybeParseStorage fastRestart stamp rg = (r, rg')) (Hnew : b_FastRestartStamp b' <> b_FastRestartStamp b) :
  stamp <> "" /\ b_FastRestartStamp b' = stamp /\ exists repos names (rg1 rg2 rg3 rg4 : reg),
    (forall key s, store_at rg key = Some s -> exists l s', hk_GetRepositories s = (Ok l, s')) /\
    (forall repo, repo ∈ repos <-> exists key s, store_at rg key = Some s /\ lists_repo s repo) /\
    getAllRepos rg = (Ok repos, rg1) /\ with_db md_GetAllRepoNames rg1 = (Ok names, rg2) /\
    delete_repos (getReposToBeDeleted repos names) rg2 = (Ok tt, rg3) /\
    settled repos rg3 rg4 /\ rg' = snd (with_db (SetFastRestartStamp stamp) rg4).
Proof.
  assert (has_stamp (b_FastRestartStamp b) rg) as Hx by (exists b; done).
  assert (forall rg, has_stamp (b_FastRestartStamp b) rg -> rg' = rg -> False) as Hsame.
  { intros rg1 (b1&Hb1&Hx1) ->. rewrite Hb' in Hb1. injection Hb1 as <-. by rewrite Hx1 in Hnew. }
  assert (exists skip, (if fastRestart && negb (bool_decide (stamp = "")) then
       let* storedStamp := attempt (with_db md_GetFastRestartStamp) in
       ret (match storedStamp with Ok stored => bool_decide (stored = stamp) | Err _ => false end)
     else ret false) rg = (Ok skip, rg)) as [skip Hskip].
  { destruct (fastRestart && _); [|by exists false]. unfold bind, attempt, with_db. rewrite Hb. cbn. destruct rg. simpl in *. subst. by eexists. }
  unfold MaybeParseStorage in Hrun. rewrite (bind_step _ _ _ _ _ Hskip) in Hrun.
  destruct skip; [injection Hrun as _ <-; by apply Hsame in Hx|].
  apply bind_state in Hrun as [(e&E1&->)|(stats&rg4&E1&Hrun)]; [apply (stamp_parse (b_FastRestartStamp b)) in E1; [by apply Hsame in E1|done]|].
  destruct (bool_decide (stamp = "") || negb (complete stats)) eqn:Ec.
  { injection Hrun as _ <-. apply (stamp_parse (b_FastRestartStamp b)) in E1; [by apply Hsame in E1|done]. }
  apply orb_false_elim in Ec as [Hne%bool_decide_eq_false_1 Hc%negb_false_iff]. split; [done|].
  pose proof E1 as (b4&Hb4&_)%(stamp_parse (b_FastRestartStamp b)); [|done].
  unfold bind, attempt, with_db in Hrun. rewrite Hb4 in Hrun. injection Hrun as _ <-. injection Hb' as <-. split; [done|].
  unfold parseStorage in E1. stepo E1. stepo E1. stepo E1. apply parse_repos_settled in E1 as [_ Hs]; [|done].
  destruct (getAllRepos_listed _ _ _ E) as [Hl Hr]. destruct a1.
  eexists a, _, _, _, _, rg4. split_and!; try done. unfold with_db. by rewrite Hb4.
Qed.
End stamp.
