(* ===== verification/Sweep.v ===== *)
(** * Garbage collection on the image store

    cleanRepo of pkg/storage/gc/gc.go run on the image store of ImageStore.v
    over a local file system: every blob that the index.json it leaves behind
    reaches is the one that was there, and no file outside the directory of the
    repository changes. A repository whose name continues that of another lies
    inside its directory: what removing an idle repository does to it is at
    the end. *)

From Stdlib Require Import ZArith Lia Ascii String.
From stdpp Require Import base tactics list gmap strings sorting.
From S2P Require Import Prelude Runtime Regexp Driver BlobCache Oci IndexOps StorageCommon RefGraph ImageStore.
From S2P Require Import Content Addressing Frame Aggregates MetaDB.
From S2P Require Import Retention GC Collect.

Local Open Scope string_scope.
Local Open Scope list_scope.

(** ** Two views with the same blobs *)
Section views.
Context `{GoDigest} `{OciCodec} (v1 v2 : string -> res string).
Hypothesis Hv : forall d c, v1 d = Ok c -> v2 d = Ok c.

Lemma view_index_mono d i : view_index v1 d = Ok i -> view_index v2 d = Ok i.
Proof. unfold view_index. destruct (Validate d); [done|]. destruct (v1 d) eqn:E; [|done]. by rewrite (Hv _ _ E). Qed.
Lemma view_manifest_mono d m : view_manifest v1 d = Ok m -> view_manifest v2 d = Ok m.
Proof. unfold view_manifest. destruct (v1 d) eqn:E; [|done]. by rewrite (Hv _ _ E). Qed.
Lemma reaches_mono x ms : reaches v1 x ms -> reaches v2 x ms.
Proof.
  induction 1; [by eapply reaches_here|eapply reaches_index|eapply reaches_manifest];
    eauto using view_index_mono, view_manifest_mono.
Qed.
Lemma consistent_mono mt ms : consistent v2 mt ms -> consistent v1 mt ms.
Proof.
  intros Hc d Hl. apply Hc. clear Hc. induction Hl; [by apply listed_here|]. eapply listed_index; eauto using view_index_mono.
Qed.
End views.

(** ** The image store as garbage collection uses it *)
Section store.
Context {C : Type} `{CacheLaws C} `{GoDigestLaws} `{OciCodec} (cfg : config fs C) (repo : string).
Local Notation root := (cf_rootDir cfg).
Local Notation dir := (root ++ split_on slash repo).
Local Notation store := (store fs C).

#[local] Instance image_reads : ImageStoreI store := IS.image_store cfg.
#[local] Instance image_gc : GcStoreI store := {|
  gs_GetAllBlobs := IS.GetAllBlobs cfg;
  gs_PutIndexContent := IS.PutIndexContent cfg;
  gs_CleanupRepo := IS.CleanupRepo cfg;
  gs_RemoveIdleRepository := IS.RemoveIdleRepository cfg;
  gs_ListBlobUploads := IS.ListBlobUploads cfg;
  gs_StatBlobUpload := IS.StatBlobUpload cfg;
  gs_DeleteBlobUpload := IS.DeleteBlobUpload cfg
|}.

(** The blobs of the repository as the store reads them. *)
Definition blob_view (s : store) (d : string) : res string := fst (IS.GetBlobContent cfg repo d s).

(** A store as the methods of Addressing.v leave it, on a tree of names. *)
Definition tidy (s : store) : Prop :=
  store_ok cfg None s /\ relative_records s /\ shaped (good_node cfg repo) (st_drv s).

Hypothesis (Hroot : is_abs root = true) (Hnames : Forall uuid_ok (tail root)) (Hrepo : repo_ok repo).
Local Notation steady := (Frame.steady cfg repo).

Lemma steady_start W s : tidy s -> steady W (st_drv s) s.
Proof. intros (Hs&Hr&Hg). split; [done|]. split; [done|]. split; [apply Hs|done..]. Qed.
Lemma steady_tidy W f0 s : steady W f0 s -> tidy s.
Proof. intros (Hs&Hr&Hk). split; [done|]. split; [done|]. by eapply k_shape. Qed.
Lemma steady_weaken (W W' : path -> Prop) f0 s : (forall q, W' q -> W q) -> steady W f0 s -> steady W' f0 s.
Proof. intros Hw (Hs&Hr&[Hi Hk Hg]). split; [done|]. split; [done|]. split; auto. Qed.
Lemma quiet_trans W f0 (s s' : store) : steady W f0 s -> steady W (st_drv s) s' -> steady W f0 s'.
Proof.
  intros (_&_&[_ Hk _]) (Hs&Hr&[Hi Hk' Hg]). split; [done|]. split; [done|]. split; [done| |done].
  intros p c Hp. by rewrite Hk', Hk.
Qed.

(** *** Paths *)
Definition outside (q : path) : Prop := under dir q = false.
Definition blob_path (q : path) : Prop := exists d, Validate d = None /\ q = IS.BlobPath cfg repo d.
Lemma under_join p a b : under (p ++ a) (p ++ b) = under a b.
Proof. induction p as [|x p IH]; simpl; [done|]. by rewrite bool_decide_eq_true_2. Qed.
Lemma outside_above l q : outside q -> under (dir ++ l) q = false.
Proof. intros Hq. apply not_true_iff_false. intros Hu%under_app_l. unfold outside in Hq. congruence. Qed.
Lemma outside_not_below l : ~ outside (dir ++ l).
Proof. unfold outside. intros Hu. pose proof (under_join dir [] l) as Hx. rewrite app_nil_r, Hu in Hx. by destruct l. Qed.
Lemma upload_above u q : uuid_ok u -> blob_path q \/ outside q \/ q = IS.index_path cfg repo ->
  under (IS.BlobUploadPath cfg repo u) q = false.
Proof.
  intros Hu Hq. rewrite upload_path_eq by done. destruct Hq as [(d&Hv&->)|[Hq| ->]]; [|by apply outside_above|].
  - rewrite blob_below by done. by rewrite under_join.
  - rewrite index_path_eq by done. by rewrite under_join.
Qed.
Lemma blob_path_inj d d' : Validate d = None -> Validate d' = None ->
  under (IS.BlobPath cfg repo d) (IS.BlobPath cfg repo d') = true -> d = d'.
Proof.
  intros Hv Hv'. rewrite !blob_below by done. rewrite under_join. cbn [under]. rewrite (bool_decide_eq_true_2 (ImageBlobsDir = _)) by done. cbn [andb].
  intros [Ha%bool_decide_eq_true Hb]%andb_prop. apply andb_prop in Hb as [He%bool_decide_eq_true _].
  by rewrite <-(validate_parts d Hv), <-(validate_parts d' Hv'), Ha, He.
Qed.

(** *** Reads, of whichever repository *)
Section reads.
Context (W : path -> Prop) (f0 : fs).
#[local] Hint Extern 1 (preserves (Frame.steady _ _ _ _) (IS.drv (Stat _))) => apply steady_of_reads, reads_stat : pres.
#[local] Hint Extern 1 (preserves (Frame.steady _ _ _ _) (IS.drv (ReadFile _))) => apply steady_of_reads, reads_file : pres.
#[local] Hint Extern 1 (preserves (Frame.steady _ _ _ _) (IS.cache (BlobCache.GetBlob _))) => apply steady_of_reads, reads_cache_get : pres.
#[local] Hint Resolve steady_cache_delete : pres.
Lemma steady_original r d : preserves (steady W f0) (IS.originalBlobInfo cfg r d).
Proof. unfold IS.originalBlobInfo, IS.checkCacheBlob. pres. Qed.
#[local] Hint Resolve steady_original : pres.
Lemma steady_GetBlobContent r d : preserves (steady W f0) (GetBlobContent r d).
Proof. cbn [GetBlobContent image_reads IS.image_store]. unfold IS.GetBlobContent, IS.valid. pres. Qed.
Lemma steady_StatBlob r d : preserves (steady W f0) (StatBlob r d).
Proof. cbn [StatBlob image_reads IS.image_store]. unfold IS.StatBlob, IS.valid. pres. Qed.
Lemma steady_GetIndexContent r : preserves (steady W f0) (GetIndexContent r).
Proof. cbn [GetIndexContent image_reads IS.image_store]. unfold IS.GetIndexContent. pres. Qed.
Lemma steady_blobs r : preserves (steady W f0) (gs_GetAllBlobs r).
Proof. apply steady_of_reads, reads_blobs. Qed.
End reads.

(** index.json reads as the file says. *)
Lemma read_file_err f p : (forall i, ~ file_at f p i) -> exists e, Local.ReadFile p f = (Err e, f).
Proof.
  intros Hn. destruct (Local.ReadFile p f) as [[c|e] f'] eqn:E; apply read_file_spec in E as [-> He]; [|by eexists].
  destruct (He c eq_refl) as (i&Hi&_). by destruct (Hn i).
Qed.
Lemma GetIndex_run (s : store) : exists r, GetIndex repo s = (r, s) /\
  forall i, r = Ok i <-> exists c, holds (st_drv s) (IS.index_path cfg repo) c /\ unmarshal_index c = Some i.
Proof.
  set (p := IS.index_path cfg repo). unfold GetIndex. cbn [GetIndexContent image_reads IS.image_store].
  unfold IS.GetIndexContent, IS.drv, bind, try. cbn [ReadFile local_driver]. fold p.
  destruct (fs_nodes (st_drv s) !! p) as [[|k]|] eqn:Ep.
  2:{ rewrite (read_file_run _ _ _ Ep). destruct (unmarshal_index _) as [i|] eqn:Eu; eexists; (split; [by destruct s|]).
      - intros j. split; [intros [= <-]; eexists; split; [by exists k|done]|]. intros (c&(k'&Hk&<-)&Hc).
        unfold file_at in Hk. congruence.
      - intros j. split; [done|]. intros (c&(k'&Hk&<-)&Hc). unfold file_at in Hk. congruence. }
  all: destruct (read_file_err (st_drv s) p) as [e ->]; [intros k; unfold file_at; by rewrite Ep|];
    eexists; (split; [by destruct s|]); intros j; (split; [done|]); intros (c&(k&Hk&_)&_); unfold file_at in Hk; congruence.
Qed.
Lemma index_same W f0 (s s' : store) i : W (IS.index_path cfg repo) -> steady W f0 s -> steady W f0 s' ->
  fst (GetIndex repo s) = Ok i -> fst (GetIndex repo s') = Ok i.
Proof.
  intros Hw (_&_&[_ Hk _]) (_&_&[_ Hk' _]). destruct (GetIndex_run s) as (r&->&Hr), (GetIndex_run s') as (r'&->&Hr').
  simpl. rewrite Hr, Hr'. intros (c&Hc&Hu). exists c. split; [|done]. by apply Hk', Hk.
Qed.
Lemma view_ok W f0 s d c : steady W f0 s -> blob_view s d = Ok c <-> Validate d = None /\ holds (st_drv s) (IS.BlobPath cfg repo d) c.
Proof.
  intros Hs. unfold blob_view. destruct (GetBlobContent_run cfg repo Hrepo W f0 s Hs d) as (r&->&Hr). apply Hr.
Qed.
Lemma view_same W f0 s s' d c : (forall d, Validate d = None -> W (IS.BlobPath cfg repo d)) -> steady W f0 s -> steady W f0 s' ->
  blob_view s d = Ok c -> blob_view s' d = Ok c.
Proof.
  intros Hw Hs Hs'. rewrite (view_ok W f0), (view_ok W f0) by done. intros [Hv Hc]. split; [done|].
  destruct Hs as (_&_&[_ Hk _]), Hs' as (_&_&[_ Hk' _]). apply Hk', Hk; auto.
Qed.

(** Every readable index of the repository is a file of its tree. *)
Definition stored_digest (q : path) : option string :=
  match drop (length dir) q with [_; a; e] => Some (NewDigestFromEncoded a e) | _ => None end.
Definition stored_digests (f : fs) : gset string := list_to_set (omap stored_digest (map_to_list (fs_nodes f)).*1).
Lemma stored_few f : size (stored_digests f) <= size (fs_nodes f).
Proof.
  unfold stored_digests. rewrite <-length_map_to_list, <-(length_fmap fst).
  generalize ((map_to_list (fs_nodes f)).*1). intros l. induction l as [|q l IH]; [done|]. cbn [length].
  assert (omap stored_digest (q :: l) = option_list (stored_digest q) ++ omap stored_digest l) as ->
    by (simpl; by destruct (stored_digest q)).
  destruct (stored_digest q) as [d|]; [|simpl; lia]. simpl. rewrite size_union_alt, size_singleton.
  assert (size (list_to_set (C := gset string) (omap stored_digest l) ∖ {[d]}) <= size (list_to_set (C := gset string) (omap stored_digest l)))
    by (apply subseteq_size; set_solver). lia.
Qed.
Lemma readable_stored s d i : tidy s -> view_index (blob_view s) d = Ok i -> d ∈ stored_digests (st_drv s).
Proof.
  intros Hs. unfold view_index. destruct (Validate d) eqn:Hv; [done|]. destruct (blob_view s d) as [c|] eqn:E; [|done]. intros _.
  apply (view_ok outside (st_drv s)) in E as [_ (k&Hk&_)]; [|by apply steady_start]. unfold stored_digests.
  rewrite elem_of_list_to_set. apply list_elem_of_omap. exists (IS.BlobPath cfg repo d). split.
  - apply list_elem_of_fmap. eexists (_, _). split; [done|]. by apply elem_of_map_to_list.
  - rewrite blob_below by done. unfold stored_digest. rewrite drop_app_length. by rewrite validate_parts.
Qed.

(** ** The phases of cleanRepo *)
Section clean.
Context `{SliceSort} `{MapIter} `{Glob} `{RegexpEngine} `{LocalFS} {M : Type} `{MetaDBI M} (opts : Options) (fuel : nat).
Local Notation st := (gc_state store M).

Section phases.
Context (W : path -> Prop) (f0 : fs).
Definition quiet (x : st) : Prop := steady W f0 (gc_store x).
Lemma quiet_untouched (x : st) : untouched (steady W f0) (fun _ : M => True) x <-> quiet x.
Proof. split; [by intros [? _]|by split]. Qed.
Lemma quiet_of {A} (m : ST st A) : preserves (untouched (steady W f0) (fun _ : M => True)) m -> preserves quiet m.
Proof. intros Hm x r x' Hx E. apply quiet_untouched. by eapply Hm; [by apply quiet_untouched|]. Qed.
Lemma any_meta (A : Type) (m : ST M A) : preserves (fun _ : M => True) m.
Proof. by intros ?. Qed.
#[local] Hint Resolve steady_GetBlobContent steady_StatBlob steady_GetIndexContent steady_blobs any_meta : core.

(** Until index.json is written the store is only read. *)
Lemma quiet_pruned_index : preserves quiet (pruned_index opts fuel repo).
Proof. apply quiet_of, pres_pruned_index; auto. Qed.
Lemma quiet_on_store {A} (m : ST store A) : preserves (steady W f0) m -> preserves quiet (on_store m).
Proof. intros Hm. by apply quiet_of, pres_on_store. Qed.
Lemma quiet_on_env {A} (m : ST env A) : preserves quiet (on_env (S := store) (M := M) m).
Proof. apply quiet_of, pres_on_env. Qed.
Lemma quiet_on_meta {A} (a : A) (m : ST M A) : preserves quiet (on_meta a m).
Proof. apply quiet_of, pres_on_meta, any_meta. Qed.
Lemma quiet_candidates refs delay all acc : preserves quiet (gc_candidates repo refs delay all acc).
Proof. apply quiet_of, pres_gc_candidates. auto. Qed.
Lemma quiet_uploads delay us : Forall uuid_ok us ->
  (forall u q, uuid_ok u -> W q -> under (IS.BlobUploadPath cfg repo u) q = false) ->
  forall n failed, preserves quiet (uploads_loop repo delay us n failed).
Proof.
  intros Hus Hw. induction Hus as [|u us Hu _ IH]; intros n failed; simpl; [pres|].
  assert (preserves quiet (on_store (IS.StatBlobUpload cfg repo u))) as Hst.
  { apply quiet_on_store. unfold IS.StatBlobUpload. apply preserves_bind; [apply steady_of_reads, reads_stat|]. intros ?. apply preserves_ret. }
  assert (preserves quiet (on_store (IS.DeleteBlobUpload cfg repo u))) as Hdel.
  { apply quiet_on_store, steady_DeleteBlobUpload; auto. }
  pose proof (quiet_on_env Now) as Hnow. pres.
Qed.
Lemma quiet_uploads_phase delay :
  (forall u q, uuid_ok u -> W q -> under (IS.BlobUploadPath cfg repo u) q = false) ->
  preserves quiet (deleteBlobUploads repo delay).
Proof.
  intros Hw x r x' Hx E. unfold deleteBlobUploads, bind at 1, repo_exists at 1 in E.
  destruct (negb _); [by injection E as _ <-|]. unfold bind, on_store, zoom in E.
  cbn [gs_ListBlobUploads image_gc] in E. destruct (IS.ListBlobUploads cfg repo (gc_store x)) as [rl s1] eqn:El.
  assert (steady W f0 s1) as Hs1 by (eapply steady_of_reads, El; [apply reads_uploads|exact Hx]).
  destruct rl as [us|e]; [|by injection E as _ <-]. apply (uploads_listed cfg repo Hroot Hnames Hrepo W f0 _ _ _ Hx) in El.
  eapply quiet_uploads, E; [done|done|exact Hs1].
Qed.
End phases.
(** *** From the written index on *)
Section sweep.
Context (s1 : store) (mt : string -> string).
Local Notation view := (blob_view s1).

(** The digests that index.json reaches. *)
Definition needed (d : string) : Prop := exists i, fst (GetIndex repo s1) = Ok i /\
  consistent view mt (Manifests i) /\ reaches view d (Manifests i).
Definition kept_path (q : path) : Prop :=
  q = IS.index_path cfg repo \/ (exists d, Validate d = None /\ needed d /\ q = IS.BlobPath cfg repo d) \/ outside q.
Local Notation swept := (steady kept_path (st_drv s1)).
Context (dom : gset string).
Hypothesis (Htidy : tidy s1) (Hdom : forall d i, view_index view d = Ok i -> d ∈ dom) (Hfuel : size dom < fuel).

Lemma kept_upload u q : uuid_ok u -> kept_path q -> under (IS.BlobUploadPath cfg repo u) q = false.
Proof.
  intros Hu [->|[(d&Hv&_&->)|Hq]]; apply upload_above; auto. left. by exists d.
Qed.
Lemma not_needed_deletable d : Validate d = None -> ~ needed d -> deletable kept_path (IS.BlobPath cfg repo d).
Proof.
  intros Hv Hn. rewrite blob_below by done. split; [by apply dir_root|].
  intros q [->|[(d'&Hv'&Hd'&->)|Hq]]; [|apply not_true_iff_false; intros Hu|by apply outside_above].
  - rewrite index_path_eq by done. by rewrite under_join.
  - apply Hn. rewrite <-blob_below in Hu by done. by apply blob_path_inj in Hu as ->.
Qed.

Lemma view_stable : stable_at repo view s1.
Proof.
  intros d. unfold blob_view. cbn [GetBlobContent image_reads IS.image_store].
  by destruct (GetBlobContent_run cfg repo Hrepo kept_path (st_drv s1) s1 (steady_start _ _ Htidy) d) as (r&->&_).
Qed.
Lemma needed_referenced refs s' d : GetReferencedBlobs fuel repo s1 = (Ok (Some refs), s') -> needed d -> d ∈ refs.
Proof.
  intros E (i&Hi&Hc&Hr). destruct (GetIndex_run s1) as (ri&Ei&_). rewrite Ei in Hi. simpl in Hi. subst ri.
  assert (DirExists (repo_dir repo s1) s1 = true) as Hdir.
  { unfold GetReferencedBlobs, bind at 1, get at 1 in E. by destruct (DirExists _ _). }
  destruct (referenced_blobs_run repo view s1 dom mt i fuel) as (r&E'&Hr').
  - split; [apply view_stable|done..].
  - done.
  - rewrite E in E'. injection E' as <- _. by apply Hr'.
Qed.

(** Blobs: only what index.json does not reach goes. *)
Lemma swept_blobs delay (x : st) r x' : gc_store x = s1 -> deleteUnreferencedBlobs fuel repo delay x = (r, x') -> swept (gc_store x').
Proof.
  intros Hx E. assert (quiet kept_path (st_drv s1) x) as Hq by (unfold quiet; rewrite Hx; by apply steady_start).
  pose proof (quiet_on_store kept_path (st_drv s1) (GetReferencedBlobs fuel repo)) as Hrefs.
  pose proof (quiet_on_store kept_path (st_drv s1) (gs_GetAllBlobs repo)) as Hall.
  specialize (Hrefs ltac:(apply pres_GetReferencedBlobs; auto using steady_GetBlobContent, steady_GetIndexContent)).
  specialize (Hall ltac:(apply steady_blobs)).
  unfold deleteUnreferencedBlobs in E. steps E; [by eapply Hrefs|]. pose proof (Hrefs _ _ _ Hq E0) as Hq1.
  destruct a as [refs|]; [|by injection E as _ <-].
  assert (forall d, needed d -> d ∈ refs) as Hneed.
  { intros d. unfold on_store, zoom in E0. destruct (GetReferencedBlobs fuel repo (gc_store x)) as [r0 s2] eqn:Er.
    injection E0 as -> _. rewrite Hx in Er. by eapply needed_referenced. }
  steps E; [by apply try_state in E as (?&[=]&_)|]. apply try_state in E1 as (r1&[= ->]&E1). apply Hall in E1; [|done].
  destruct r1 as [all|e]; [|destruct (bool_decide _); by injection E as _ <-].
  steps E; [exact (quiet_candidates kept_path (st_drv s1) _ _ _ _ _ _ _ E1 E)|]. pose proof (gc_candidates_sound _ _ _ _ _ _ _ _ E2) as Hsound.
  apply (quiet_candidates kept_path (st_drv s1)) in E2; [|done].
  assert (preserves (quiet kept_path (st_drv s1)) (on_store (gs_CleanupRepo repo a))) as Hclean.
  { apply quiet_on_store, steady_cleanup; [done..|]. apply list.Forall_forall. intros d Hd.
    destruct (Hsound d Hd) as [[]%not_elem_of_nil|[Hv Hn]]. apply not_needed_deletable; [done|]. intros Hd'. by apply Hn, Hneed. }
  steps E; [exact (Hclean _ _ _ E2 E)|]. apply Hclean in E3; [|done]. destruct a0 as [n [e|]]; by injection E as _ <-.
Qed.
(** The repository itself goes only when its index.json lists nothing. *)
Definition gone (s : store) : Prop := steady outside (st_drv s1) s /\
  forall q, under dir q = true -> fs_nodes (st_drv s) !! q = None.
Lemma gone_wiped (s s' : store) : swept s -> wiped cfg repo (st_drv s) (st_drv s') -> relative_records s' -> store_ok cfg None s' -> gone s'.
Proof.
  intros Hs Hw Hr Hok. assert (forall q, fs_nodes (st_drv s') !! q = if under dir q then None else fs_nodes (st_drv s) !! q) as Hl.
  { intros q. rewrite Hw. cbn [set_nodes fs_nodes]. destruct (under dir q) eqn:Eu.
    - apply map_lookup_filter_None. right. intros n _. simpl. by rewrite Eu.
    - destruct (fs_nodes (st_drv s) !! q) eqn:E; [by apply map_lookup_filter_Some|]. apply map_lookup_filter_None. by left. }
  split; [|intros q Hq; by rewrite Hl, Hq].
  apply (steady_weaken _ outside) in Hs; [|by right; right]. destruct Hs as (_&_&[_ Hk Hg]). split; [done|]. split; [done|]. split; [apply Hok|..].
  - intros p c Hp. rewrite <-Hk by done. unfold holds, file_at. setoid_rewrite Hl. unfold outside in Hp. rewrite Hp.
    split; intros (i&Hi&<-); exists i; (split; [done|]); symmetry; apply content_ext; by rewrite Hw.
  - eapply shaped_fewer, Hg. rewrite Hw. apply map_filter_subseteq.
Qed.

Lemma swept_idle_store now age (s : store) r s' : swept s -> IS.RemoveIdleRepository cfg now age repo s = (r, s') -> swept s' \/ gone s'.
Proof.
  intros Hs E. destruct (GetIndex_run s) as (ri&Ei&_).
  destruct (match ri with Ok i => bool_decide (Manifests i = []) | Err _ => false end) eqn:Eb.
  2:{ left. apply idle_busy in E as ->; [done|]. intros i Hi. change (fst (GetIndex repo s) = Ok i) in Hi.
      rewrite Ei in Hi. simpl in Hi. subst ri. by apply bool_decide_eq_false in Eb. }
  destruct ri as [i|]; [|done]. apply bool_decide_eq_true in Eb.
  assert (forall d, ~ needed d) as Hnone.
  { intros d (i'&Hi'&_&Hr). apply (index_same kept_path (st_drv s1) s1 s) in Hi'; [|by left|by apply steady_start|done].
    rewrite Ei in Hi'. injection Hi' as <-. rewrite Eb in Hr. inversion Hr as [? ? Hd|? ? ? Hd|? ? ? Hd]; by apply not_elem_of_nil in Hd. }
  assert (forall l q, length l = 3 -> kept_path q -> under (dir ++ l) q = false) as Hblobs.
  { intros l q Hl [->|[(d&_&Hd&_)|Hq]]; [|by destruct (Hnone d)|by apply outside_above].
    rewrite index_path_eq, under_join by done. destruct l as [|? [|? l]]; [done..|]. simpl. apply andb_false_r. }
  apply (idle_outcome cfg repo Hroot Hnames Hrepo kept_path (st_drv s1) Hblobs now age s r s' Hs) in E
    as [[Hq _]|(_&s2&Hs2&Hw&Hr&Hok)]; [by left|right; by eapply gone_wiped].
Qed.
Lemma swept_idle (x : st) r x' : swept (gc_store x) -> remove_idle opts repo x = (r, x') -> swept (gc_store x') \/ gone (gc_store x').
Proof.
  intros Hs E. unfold remove_idle in E. destruct (HasInProgressSessions _ _); [injection E as _ <-; by left|].
  pose proof (quiet_on_env kept_path (st_drv s1) Now) as Hnow.
  steps E; [left; exact (Hnow _ _ _ Hs E)|]. apply Hnow in E0; [|exact Hs].
  unfold bind at 1, on_store, zoom in E. destruct (gs_RemoveIdleRepository _ _ _ (gc_store s)) as [rb s2] eqn:Eb.
  apply (swept_idle_store _ _ _ _ _ E0) in Eb.
  assert (gc_store x' = s2) as ->; [|done]. destruct rb as [[]|e]; [|by injection E as _ <-..].
  unfold bind, try, on_meta in E. simpl in E. destruct (gc_meta s) as [m|]; [|by injection E as _ <-].
  destruct (DeleteRepoMeta repo m). by injection E as _ <-.
Qed.
Lemma swept_uploads delay (x : st) r x' : swept (gc_store x) \/ gone (gc_store x) ->
  deleteBlobUploads repo delay x = (r, x') -> swept (gc_store x') \/ gone (gc_store x').
Proof.
  intros [Hs|Hs] E.
  - left. exact (quiet_uploads_phase kept_path (st_drv s1) delay kept_upload _ _ _ Hs E).
  - right. unfold deleteBlobUploads, bind at 1, repo_exists at 1 in E.
    replace (DirExists _ _) with false in E; [by injection E as _ <-|]. symmetry. destruct Hs as [_ Hn].
    cbn [DirExists RootDir image_reads IS.image_store]. rewrite repo_join by done. cbn [drv_DirExists local_driver].
    unfold Local.DirExists, os_Stat, lookup_node. rewrite Hn by apply under_self.
    destruct (forallb utf8_valid dir); [|done]. simpl. by destruct (existsb _ _).
Qed.

(** What is left of cleanRepo once index.json is written. *)
Lemma swept_phases (x : st) r x' : gc_store x = s1 ->
  (deleteUnreferencedBlobs fuel repo (o_Delay opts) ;;; remove_idle opts repo ;;;
   deleteBlobUploads repo (o_Delay opts) ;;; ret tt) x = (r, x') -> swept (gc_store x') \/ gone (gc_store x').
Proof.
  intros Hx E. steps E; [left; by eapply swept_blobs|]. apply swept_blobs in E0; [|done].
  steps E; [by eapply swept_idle|]. apply swept_idle in E1; [|done].
  steps E; [by eapply swept_uploads|]. apply swept_uploads in E2; [|done]. by injection E as _ <-.
Qed.
End sweep.

(** Up to the write of index.json no blob changes; what follows sweeps. *)
Definition pre_sweep (q : path) : Prop := blob_path q \/ outside q.
Lemma clean_cases (x : st) r x' : tidy (gc_store x) -> cleanRepo opts fuel repo x = (r, x') ->
  steady pre_sweep (st_drv (gc_store x)) (gc_store x') \/
  exists x1, steady pre_sweep (st_drv (gc_store x)) (gc_store x1) /\
    (deleteUnreferencedBlobs fuel repo (o_Delay opts) ;;; remove_idle opts repo ;;;
     deleteBlobUploads repo (o_Delay opts) ;;; ret tt) x1 = (r, x').
Proof.
  intros Hx E. set (f := st_drv (gc_store x)). assert (quiet pre_sweep f x) as Hq by by apply steady_start.
  unfold cleanRepo in E. unfold bind at 1, repo_exists at 1 in E. destruct (negb _); [injection E as _ <-; by left|].
  pose proof (quiet_pruned_index pre_sweep f) as Hp.
  steps E; [left; exact (Hp _ _ _ Hq E)|]. apply Hp in E0; [|done].
  destruct (DryRun _); [injection E as _ <-; by left|].
  assert (preserves (quiet pre_sweep f) (on_store (gs_PutIndexContent repo a))) as Hput.
  { apply quiet_on_store, steady_put_index; [done..| |].
    - intros [(d&Hv&Hd)|Hq0]; [by apply (index_not_blob cfg repo Hrepo d); rewrite Hd; apply BlobPath_is_blob|].
      revert Hq0. rewrite index_path_eq by done. apply outside_not_below.
    - intros u q Hu [Hq0|Hq0]; apply upload_above; auto. }
  steps E; [left; exact (Hput _ _ _ E0 E)|]. apply Hput in E1; [|done]. right. eexists; split; [exact E1|exact E].
Qed.

(** The same blobs read the same. *)
Lemma same_views W f0 s s' : (forall d, Validate d = None -> W (IS.BlobPath cfg repo d)) -> steady W f0 s -> steady W f0 s' ->
  forall d c, blob_view s' d = Ok c <-> blob_view s d = Ok c.
Proof. intros Hw Hs Hs' d c. split; by apply (view_same W f0). Qed.
Lemma pre_sweep_blob d : Validate d = None -> pre_sweep (IS.BlobPath cfg repo d).
Proof. intros Hv. left. by exists d. Qed.

Lemma swept_answers (s s1 s' : store) mt index d c : tidy s -> steady pre_sweep (st_drv s) s1 ->
  steady (kept_path s1 mt) (st_drv s1) s' \/ gone s1 s' ->
  fst (GetIndex repo s') = Ok index -> consistent (blob_view s) mt (Manifests index) -> reaches (blob_view s) d (Manifests index) ->
  blob_view s' d = Ok c <-> blob_view s d = Ok c.
Proof.
  intros Ht Hs1 Hs' Hi Hc Hr. pose proof (steady_start pre_sweep s Ht) as Hs.
  assert (tidy s1) as Ht1 by by eapply steady_tidy.
  assert (forall d c, blob_view s1 d = Ok c <-> blob_view s d = Ok c) as Hv1 by (eapply same_views; [apply pre_sweep_blob|done..]).
  rewrite <-Hv1. destruct Hs' as [Hs'|[_ Hn]].
  - assert (needed s1 mt d) as Hd.
    { exists index. split; [by eapply (index_same (kept_path s1 mt)), Hi; [by left|done|by apply steady_start]|].
      split; [eapply consistent_mono, Hc|eapply reaches_mono, Hr]; intros ??; apply Hv1. }
    rewrite (view_ok _ _ s') by done. rewrite (view_ok outside (st_drv s1) s1) by by apply steady_start.
    destruct Hs' as (_&_&[_ Hk _]). split; intros [Hv Hh]; (split; [done|]); (eapply Hk; [|done]); right; left; by exists d.
  - destruct (GetIndex_run s') as (ri&Ei&Hri). rewrite Ei in Hi. apply Hri in Hi as (c'&(i&Hf&_)&_). unfold file_at in Hf.
    rewrite Hn in Hf; [done|]. rewrite index_path_eq by done. apply not_false_iff_true, outside_not_below.
Qed.
Lemma swept_outside (s s1 s' : store) mt q c : steady pre_sweep (st_drv s) s1 ->
  steady (kept_path s1 mt) (st_drv s1) s' \/ gone s1 s' -> outside q -> holds (st_drv s') q c <-> holds (st_drv s) q c.
Proof.
  intros (_&_&[_ Hk _]) Hs' Hq. rewrite <-Hk by by right.
  destruct Hs' as [(_&_&[_ Hk' _])|[(_&_&[_ Hk' _]) _]]; apply Hk'; [by right; right|done].
Qed.
Lemma swept_tidy (s1 s' : store) mt : steady (kept_path s1 mt) (st_drv s1) s' \/ gone s1 s' -> tidy s'.
Proof. by intros [?%steady_tidy|[?%steady_tidy _]]. Qed.

Lemma clean_swept mt (x : st) r x' : tidy (gc_store x) -> size (fs_nodes (st_drv (gc_store x))) < fuel ->
  cleanRepo opts fuel repo x = (r, x') ->
  exists s1, steady pre_sweep (st_drv (gc_store x)) s1 /\
    (steady (kept_path s1 mt) (st_drv s1) (gc_store x') \/ gone s1 (gc_store x')).
Proof.
  intros Hx Hfuel [Hs|(x1&Hs&E)]%clean_cases; [eexists; split; [done|]; left; by eapply steady_start, steady_tidy| |done].
  exists (gc_store x1). split; [done|].
  refine (swept_phases (gc_store x1) mt (stored_digests (st_drv (gc_store x))) _ _ _ x1 r x' eq_refl E).
  - by eapply steady_tidy.
  - intros d i Hd. apply (readable_stored _ d i Hx). eapply view_index_mono, Hd. intros d' c.
    apply (same_views pre_sweep (st_drv (gc_store x)) _ _ pre_sweep_blob (steady_start _ _ Hx) Hs).
  - eapply Nat.le_lt_trans; [apply stored_few|done].
Qed.
End clean.
End store.


(** ** The database as garbage collection uses it *)
Section database.
Context `{GoDigest} `{MapIter} `{ImageTrustStore}.

(** GetRepoMeta of pkg/meta/convert, the parts retention reads. *)
Definition GetTags (tags : gmap string TagDescriptor) : gmap string meta_descriptor :=
  (fun t => mkMetaDescriptor (td_Digest t) (td_MediaType t)) <$> tags.
Definition GetStatisticsMap (stats : gmap string Statistics) : gmap string DescriptorStatistics :=
  (fun s => mkStatistics (st_LastPullTimestamp s) (st_PushTimestamp s)) <$> stats.
Definition retained_meta (m : ProtoRepoMeta) : RepoMeta :=
  mkRepoMeta (pr_Name m) (GetTags (pr_Tags m)) (GetStatisticsMap (pr_Statistics m)).
#[local] Instance bolt_gc : MetaDBI bolt := {|
  GetRepoMeta repo := let* m := MetaDB.GetRepoMeta repo in ret (retained_meta m);
  DeleteSignature := MetaDB.DeleteSignature;
  RemoveRepoReference repo reference digest := MetaDB.RemoveRepoReference repo reference digest "";
  DeleteRepoMeta := MetaDB.DeleteRepoMeta
|}.
End database.


(** C23 Removing an idle repository removes every repository whose name
    continues its own: RemoveIdleRepository looks at the index.json, the uploads
    and the blobs of the repository alone, and then deletes its directory, in
    which the others lie. No blob and no index.json of them can be read after. *)
Theorem idle_removal_takes_nested {C : Type} `{CacheLaws C} `{GoDigestLaws} `{OciCodec} (cfg : config fs C)
    (repo rest : string) (now age : Z) (s s' : store fs C) :
  is_abs (cf_rootDir cfg) = true -> Forall uuid_ok (tail (cf_rootDir cfg)) -> repo_ok repo ->
  repo_ok (repo ++ "/" ++ rest) -> tidy cfg repo s ->
  IS.RemoveIdleRepository cfg now age repo s = (Ok true, s') ->
  (forall d, is_ok (fst (IS.GetBlobContent cfg (repo ++ "/" ++ rest) d s')) = false) /\
  is_ok (fst (IS.GetIndexContent cfg (repo ++ "/" ++ rest) s')) = false.
Proof.
  intros Hroot Hnames Hrepo Hnested Ht E.
  assert (forall q, under (cf_rootDir cfg ++ split_on slash repo) q = true -> fs_nodes (st_drv s') !! q = None) as Hgone.
  { apply (idle_outcome cfg repo Hroot Hnames Hrepo (outside cfg repo) (st_drv s)) in E as [[_ Hr]|(_&s1&_&Hw&_)]; [by destruct Hr| | |].
    - intros q Hq. rewrite Hw. cbn [set_nodes fs_nodes]. apply map_lookup_filter_None. right. intros n _. simpl. by rewrite Hq.
    - intros l q _. apply outside_above.
    - by apply steady_start. }
  assert (cf_rootDir cfg ++ split_on slash (repo ++ "/" ++ rest) = (cf_rootDir cfg ++ split_on slash repo) ++ split_on slash rest) as Hdir.
  { rewrite <-app_assoc. f_equal. apply split_on_app. }
  assert (forall l, fs_nodes (st_drv s') !! ((cf_rootDir cfg ++ split_on slash (repo ++ "/" ++ rest)) ++ l) = None) as Hnone.
  { intros l. apply Hgone. rewrite Hdir, <-app_assoc. apply not_false_iff_true, outside_not_below. }
  split.
  - intros d. unfold IS.GetBlobContent, IS.valid, bind at 1. destruct (Validate d) as [e|] eqn:Hv; [done|].
    unfold bind, ret, IS.originalBlobInfo, bind, try, IS.drv. cbn [Stat local_driver]. unfold Local.Stat, Local.map_err, os_Stat, lookup_node.
    rewrite blob_below, Hnone by done. by destruct (existsb _ _).
  - unfold IS.GetIndexContent, IS.drv. cbn [ReadFile local_driver].
    destruct (read_file_err (st_drv s') (IS.index_path cfg (repo ++ "/" ++ rest))) as [e ->]; [|done].
    intros i. unfold file_at. by rewrite index_path_eq, Hnone.
Qed.
