(* ===== verification/Scrub.v ===== *)
(** * The integrity check of stored images (pkg/storage/scrub.go)

    Scrub walks the images of a repository - the rows of its index.json, the
    manifests of an index, their subjects - reads every manifest and config,
    hashes manifests, configs and layers, and reports one row per image. What a
    walk found about a digest is kept and used again. The walk is written
    against an image store ([ScrubStoreI]); the store of ImageStore.v is an
    instance. A row holds an error where the code holds its text, [None] for
    the empty one. The rendering of the report as a table, locks and logs are
    left out. *)

From Stdlib Require Import ZArith Lia Ascii String.
From stdpp Require Import base tactics list gmap strings sorting.
From S2P Require Import Prelude Runtime Regexp Driver BlobCache Oci StorageCommon ImageStore Content Addressing Frame Retention GC.
From S2P Require Import Authz Http Routes Aggregates Collect Sweep.

Local Open Scope string_scope.
Local Open Scope list_scope.

(** ** Interfaces *)

(** The methods of an image store that the check calls. *)
Class ScrubStoreI (S : Type) := {
  sb_GetRepositories : ST S (list string);
  sb_ValidateRepo : string -> ST S bool;
  sb_GetIndexContent : string -> ST S string;
  sb_GetBlobContent : string -> string -> ST S string;
  sb_VerifyBlobDigestValue : string -> string -> ST S unit
}.

(** Encoded of a digest that was not validated: [None] where it panics. *)
Class DigestEncoding := encoded_of : string -> option string.

(** ** The report *)
Record ScrubImageResult : Type := mkResult {
  sr_ImageName : string;
  sr_Tag : string;
  sr_Status : string;
  sr_AffectedBlob : string;
  sr_Error : option err
}.

Definition statusAffected : string := "affected".
Definition statusOK : string := "ok".
Definition no_result : ScrubImageResult := mkResult "" "" "" "" None.

Definition newScrubImageResult (imageName tag status affectedBlob : string) (e : option err) : ScrubImageResult :=
  mkResult imageName tag status affectedBlob e.

Definition ErrBadConfig : err := ErrOther "invalid server config".
Definition ErrRepoBadLayout : err := ErrOther "invalid repository layout".
Definition ErrBadDigestFormat : err := ErrPanic "no ':' separator in digest".
(** Go ends a program whose stack grows beyond its limit. *)
Definition ErrStackOverflow : err := ErrPanic "stack overflow".

Definition getResult `{DigestEncoding} (imageName tag affectedBlobDigest : string) (e : option err) : res ScrubImageResult :=
  match e with
  | Some e =>
      match encoded_of affectedBlobDigest with
      | Some blob => Ok (newScrubImageResult imageName tag statusAffected blob (Some e))
      | None => Err ErrBadDigestFormat
      end
  | None => Ok (newScrubImageResult imageName tag statusOK "" None)
  end.

(** ** One image *)
Section check.
Context {S : Type} `{ScrubStoreI S} `{OciCodec} `{ConfigCodec} `{DigestEncoding}.

(** getIndex *)
Definition getIndex (imageName : string) : ST S string :=
  let* ok := sb_ValidateRepo imageName in
  if negb ok then throw ErrRepoBadLayout else sb_GetIndexContent imageName.

(** The blob at fault, and the manifest or the error. *)
Definition CheckManifestAndConfig (imageName : string) (manifestDesc : Descriptor) (manifestContent : string)
    : ST S (string * res Manifest) :=
  if negb (IsImageManifestMediaType (MediaType manifestDesc)) then ret (Digest manifestDesc, Err ErrBadManifest)
  else match unmarshal_manifest manifestContent with
  | None => ret (Digest manifestDesc, Err ErrBadManifest)
  | Some manifest =>
      let* r := attempt (sb_VerifyBlobDigestValue imageName (Digest manifestDesc)) in
      match r with
      | Err e => ret (Digest manifestDesc, Err e)
      | Ok _ =>
          let* r := attempt (sb_GetBlobContent imageName (Digest (Config manifest))) in
          match r with
          | Err e => ret (Digest (Config manifest), Err e)
          | Ok configContent =>
              match unmarshal_config configContent with
              | None => ret (Digest (Config manifest), Err ErrBadConfig)
              | Some _ =>
                  let* r := attempt (sb_VerifyBlobDigestValue imageName (Digest (Config manifest))) in
                  match r with
                  | Err e => ret (Digest (Config manifest), Err e)
                  | Ok _ => ret ("", Ok manifest)
                  end
              end
          end
      end
  end.

(** [imageRes] is the result so far. *)
Fixpoint CheckLayers (imageName tagName : string) (layers : list Descriptor) (imageRes : ScrubImageResult)
    : ST S ScrubImageResult :=
  match layers with
  | [] => ret imageRes
  | layer :: layers =>
      let* r := attempt (sb_VerifyBlobDigestValue imageName (Digest layer)) in
      match r with
      | Err e => lift_res (getResult imageName tagName (Digest layer) (Some e))
      | Ok _ =>
          let* imageRes := lift_res (getResult imageName tagName "" None) in
          CheckLayers imageName tagName layers imageRes
      end
  end.

(** *** The walk, with the results of the digests it has met *)
Record walk : Type := mkWalk {
  wk_store : S;
  wk_env : env;
  scrubbedManifests : gmap string ScrubImageResult
}.

Definition on_store {A} (m : ST S A) : ST walk A :=
  zoom wk_store (fun s w => mkWalk s (wk_env w) (scrubbedManifests w)) m.
Definition on_env {A} (m : ST env A) : ST walk A :=
  zoom wk_env (fun e w => mkWalk (wk_store w) e (scrubbedManifests w)) m.
Definition set_result (digest : string) (r : ScrubImageResult) : ST walk unit :=
  modify (fun w => mkWalk (wk_store w) (wk_env w) (<[digest := r]> (scrubbedManifests w))).
Definition find_result (digest : string) : ST walk (option ScrubImageResult) :=
  gets (fun w => scrubbedManifests w !! digest).

(** [!exists || res.Status != statusAffected] *)
Definition not_affected (r : option ScrubImageResult) : bool :=
  match r with Some r => negb (bool_decide (sr_Status r = statusAffected)) | None => true end.

Section step.
Context (imageName tag : string).
(** The recursive call. *)
Context (rec : Descriptor -> string -> ST walk (list Descriptor)).

(** A result that an index or a manifest takes over from another digest. *)
Definition take_over (from : ScrubImageResult) : ScrubImageResult :=
  newScrubImageResult imageName tag (sr_Status from) (sr_AffectedBlob from) (sr_Error from).

(** The manifests of an index: the layers to check, whether one is affected. *)
Fixpoint scrub_children (parent : string) (ms : list Descriptor) (layers : list Descriptor) (indexAffected : bool)
    : ST walk (list Descriptor * bool) :=
  match ms with
  | [] => ret (layers, indexAffected)
  | man :: ms =>
      let* r := attempt (on_store (sb_GetBlobContent imageName (Digest man))) in
      match r with
      | Err e =>
          if missing e then
            let* imgRes := lift_res (getResult imageName tag (Digest man) (Some e)) in
            set_result (Digest man) imgRes ;;;
            set_result parent imgRes ;;;
            scrub_children parent ms layers true
          else
            let* imgRes := lift_res (getResult imageName tag (Digest man) (Some ErrBadBlobDigest)) in
            set_result (Digest man) imgRes ;;;
            set_result parent imgRes ;;;
            throw e
      | Ok buf =>
          let* r := attempt (rec man buf) in
          let layers := layers ++ match r with Ok layersToScrub => layersToScrub | Err _ => [] end in
          let* mRes := find_result (Digest man) in
          let mRes := default no_result mRes in
          match sr_Error mRes with
          | Some _ => set_result parent (take_over mRes) ;;; scrub_children parent ms layers true
          | None => scrub_children parent ms layers indexAffected
          end
      end
  end.

(** The content of the subject of [parent]. *)
Definition subject_content (parent : string) (subject : Descriptor) : ST walk string :=
  let* r := attempt (on_store (sb_GetBlobContent imageName (Digest subject))) in
  match r with
  | Ok buf => ret buf
  | Err e =>
      let resultErr := if missing e then e else ErrBadBlobDigest in
      let* imgRes := lift_res (getResult imageName tag (Digest subject) (Some resultErr)) in
      set_result (Digest subject) imgRes ;;;
      set_result parent imgRes ;;;
      throw e
  end.

(** The layers so far with those of the walk of the subject, or its error. *)
Definition with_layers (layers : list Descriptor) (r : res (list Descriptor)) : ST walk (list Descriptor) :=
  match r with Ok layersToScrub => ret (layers ++ layersToScrub) | Err e => throw e end.

(** The subject of an index, then of a manifest. *)
Definition index_subject (digest : string) (layers : list Descriptor) (subject : option Descriptor) : ST walk (list Descriptor) :=
  match subject with
  | None => ret layers
  | Some subject =>
      let* buf := subject_content digest subject in
      let* r := attempt (rec subject buf) in
      let* subjectRes := find_result (Digest subject) in
      let* currentIndexRes := find_result digest in
      (if not_affected currentIndexRes
       then set_result digest (take_over (default no_result subjectRes)) else ret tt) ;;;
      with_layers layers r
  end.
Definition image_subject (digest : string) (layers : list Descriptor) (subject : option Descriptor) : ST walk (list Descriptor) :=
  match subject with
  | None => ret layers
  | Some subject =>
      let* buf := subject_content digest subject in
      let* r := attempt (rec subject buf) in
      let* subjectRes := find_result (Digest subject) in
      set_result digest (take_over (default no_result subjectRes)) ;;;
      with_layers layers r
  end.

Definition scrub_index (manifest : Descriptor) (manifestContent : string) : ST walk (list Descriptor) :=
  match unmarshal_index manifestContent with
  | None =>
      let* imgRes := lift_res (getResult imageName tag (Digest manifest) (Some ErrBadBlobDigest)) in
      set_result (Digest manifest) imgRes ;;; throw ErrJSON
  | Some idx =>
      let* (layers, indexAffected) := scrub_children (Digest manifest) (Manifests idx) [] false in
      let* currentIndexRes := find_result (Digest manifest) in
      (if negb indexAffected && not_affected currentIndexRes then
         let* imgRes := lift_res (getResult imageName tag "" None) in set_result (Digest manifest) imgRes
       else ret tt) ;;;
      index_subject (Digest manifest) layers (idx_Subject idx)
  end.

Definition scrub_image (manifest : Descriptor) (manifestContent : string) : ST walk (list Descriptor) :=
  let* (affectedBlob, man) := on_store (CheckManifestAndConfig imageName manifest manifestContent) in
  let* imgRes := lift_res (getResult imageName tag affectedBlob (match man with Err e => Some e | Ok _ => None end)) in
  set_result (Digest manifest) imgRes ;;;
  match man with
  | Err e => throw e
  | Ok man => image_subject (Digest manifest) (Layers man) (m_Subject man)
  end.

Definition scrub_step (manifest : Descriptor) (manifestContent : string) : ST walk (list Descriptor) :=
  let* res := find_result (Digest manifest) in
  match res with
  | Some res => set_result (Digest manifest) (take_over res) ;;; ret []
  | None =>
      if IsImageIndexMediaType (MediaType manifest) then scrub_index manifest manifestContent
      else if IsImageManifestMediaType (MediaType manifest) then scrub_image manifest manifestContent
      else
        let* imgRes := lift_res (getResult imageName tag (Digest manifest) (Some ErrBadManifest)) in
        set_result (Digest manifest) imgRes ;;; throw ErrBadManifest
  end.
End step.

(** [depth] is the number of nested calls that the stack has room for. *)
Fixpoint scrubManifest (depth : nat) (imageName tag : string) (manifest : Descriptor) (manifestContent : string)
    : ST walk (list Descriptor) :=
  match depth with
  | O => throw ErrStackOverflow
  | Datatypes.S depth => scrub_step imageName tag (scrubManifest depth imageName tag) manifest manifestContent
  end.

Definition checkImage (depth : nat) (manifest : Descriptor) (imageName tag : string) : ST walk (list Descriptor) :=
  let* r := attempt (on_store (sb_GetBlobContent imageName (Digest manifest))) in
  match r with
  | Err _ => throw ErrManifestNotFound
  | Ok manifestContent => scrubManifest depth imageName tag manifest manifestContent
  end.

(** *** A repository: the rows, and the error when the check stopped *)
Definition report : Type := list ScrubImageResult * option err.

(** The layers that the walk of one image left to check. *)
Definition check_walked (imageName tag digest : string) (r : res (list Descriptor)) : ST walk unit :=
  match r with
  | Ok ((_ :: _) as layers) =>
      let* currentRes := find_result digest in
      let* imgRes := on_store (CheckLayers imageName tag layers no_result) in
      if not_affected currentRes then set_result digest imgRes else ret tt
  | _ => ret tt
  end.

Fixpoint check_images (depth : nat) (imageName : string) (manifests : list Descriptor) (results : list ScrubImageResult)
    : ST walk report :=
  match manifests with
  | [] => ret (results, None)
  | manifest :: manifests =>
      let* done := on_env IsContextDone in
      if done then ret (results, Some ErrContext)
      else
        let tag := default "" (ref_name manifest) in
        let* r := attempt (checkImage depth manifest imageName tag) in
        check_walked imageName tag (Digest manifest) r ;;;
        if bool_decide (r = Err ErrManifestNotFound) then check_images depth imageName manifests results
        else
          let* res := find_result (Digest manifest) in
          check_images depth imageName manifests (results ++ [default no_result res])
  end.

(** A call that walks with no results yet. *)
Definition fresh_walk {A} (m : ST walk A) : ST (S * env) A := fun x =>
  let '(r, w) := m (mkWalk (fst x) (snd x) ∅) in (r, (wk_store w, wk_env w)).
Definition in_store {A} (m : ST S A) : ST (S * env) A := zoom fst (fun s x => (s, snd x)) m.

Definition CheckRepo (depth : nat) (imageName : string) : ST (S * env) report :=
  let* r := attempt (in_store (getIndex imageName)) in
  match r with
  | Err e => ret ([], Some e)
  | Ok indexContent =>
      match unmarshal_index indexContent with
      | None => ret ([], Some ErrRepoNotFound)
      | Some index => fresh_walk (check_images depth imageName (Manifests index) [])
      end
  end.

(** *** A store, and all of them *)
Fixpoint check_repos (depth : nat) (repos : list string) (results : list ScrubImageResult) : ST (S * env) report :=
  match repos with
  | [] => ret (results, None)
  | repo :: repos =>
      let* (imageResults, e) := CheckRepo depth repo in
      match e with
      | Some e => ret (results, Some e)
      | None => check_repos depth repos (results ++ imageResults)
      end
  end.

Definition CheckImageStoreBlobsIntegrity (depth : nat) : ST (S * env) report :=
  let* r := attempt (in_store sb_GetRepositories) in
  match r with Err e => ret ([], Some e) | Ok repos => check_repos depth repos [] end.

(** A call on the store kept under a key, with the context of the caller. *)
Definition with_context {M A} (key : option string) (m : ST (S * env) A) : ST (registry S M) A := fun rg =>
  let '(r, rg') := on_key key (fun s => let '(r, (s', e)) := m (s, rg_env rg) in (Ok (r, e), s')) rg in
  match r with
  | Ok (r, e) => (r, mkRegistry (DefaultStore rg') (SubStore rg') (rg_meta rg') e)
  | Err e => (Err e, rg')
  end.

(** The map of the stores; the default one is under the empty key, which
    replaces a substore of that name. *)
Definition image_stores {M} (rg : registry S M) : gmap string (option string) :=
  <["" := None]> (map_imap (fun route _ => Some (Some route)) (default ∅ (SubStore rg))).

Fixpoint check_stores {M} (depth : nat) (stores : list (option string)) (results : list ScrubImageResult)
    : ST (registry S M) report :=
  match stores with
  | [] => ret (results, None)
  | store :: stores =>
      let* (imgStoreResults, e) := with_context store (CheckImageStoreBlobsIntegrity depth) in
      match e with
      | Some e => ret (results, Some e)
      | None => check_stores depth stores (results ++ imgStoreResults)
      end
  end.

Definition CheckAllBlobsIntegrity {M} `{MapIter} (depth : nat) : ST (registry S M) report :=
  let* rg := get in check_stores depth (snd <$> map_iter (image_stores rg)) [].

(** pkg/extensions/scrub/scrub.go: the task of the scheduler, whose rows are logged. *)
Definition RunScrubRepo (depth : nat) (repo : string) : ST (S * env) unit :=
  let* (results, e) := CheckRepo depth repo in
  match e with Some e => throw e | None => ret tt end.
End check.

(** ** What an image refers to, and what makes it intact *)
Section graph.
Context `{OciCodec} `{ConfigCodec} (view : string -> res string) (verify : string -> res unit).

(** The manifests and subjects that a descriptor leads to. *)
Definition references (d : Descriptor) : list Descriptor :=
  match view (Digest d) with
  | Err _ => []
  | Ok c =>
      if IsImageIndexMediaType (MediaType d) then
        match unmarshal_index c with Some idx => Manifests idx ++ option_list (idx_Subject idx) | None => [] end
      else if IsImageManifestMediaType (MediaType d) then
        match unmarshal_manifest c with Some m => option_list (m_Subject m) | None => [] end
      else []
  end.

(** Every chain of references from here is shorter than [n]. *)
Fixpoint chain_below (n : nat) (d : Descriptor) : bool :=
  match n with O => false | S n => forallb (chain_below n) (references d) end.

Definition verified (d : Descriptor) : bool := is_ok (verify (Digest d)).
Definition config_intact (d : Descriptor) : bool :=
  match view (Digest d) with
  | Ok c => match unmarshal_config c with Some _ => verified d | None => false end
  | Err _ => false
  end.
(** The blob is there and parses; that of a manifest hashes to its digest, as
    its config does, which parses too. *)
Definition shell_intact (d : Descriptor) : bool :=
  match view (Digest d) with
  | Err _ => false
  | Ok c =>
      if IsImageIndexMediaType (MediaType d) then bool_decide (is_Some (unmarshal_index c))
      else IsImageManifestMediaType (MediaType d) &&
        match unmarshal_manifest c with Some m => verified d && config_intact (Config m) | None => false end
  end.
Definition image_layers (d : Descriptor) : list Descriptor :=
  match view (Digest d) with
  | Err _ => []
  | Ok c =>
      if IsImageIndexMediaType (MediaType d) then []
      else match unmarshal_manifest c with Some m => Layers m | None => [] end
  end.
Definition intact (d : Descriptor) : bool := shell_intact d && forallb verified (image_layers d).

(** What the check of a repository meets: the listed images whose blob can be
    read, and all they refer to. *)
Inductive walked (ms : list Descriptor) : Descriptor -> Prop :=
  | walked_listed d : d ∈ ms -> is_ok (view (Digest d)) = true -> walked ms d
  | walked_below d b : walked ms d -> b ∈ references d -> walked ms b.

(** A digest has one media type wherever it is met. *)
Definition typed (ms : list Descriptor) : Prop :=
  forall a b, walked ms a -> walked ms b -> Digest a = Digest b -> MediaType a = MediaType b.

Lemma typed_same ms a b : typed ms -> walked ms a -> walked ms b -> Digest a = Digest b ->
  references a = references b /\ shell_intact a = shell_intact b /\ image_layers a = image_layers b.
Proof.
  intros Ht Ha Hb Hd. specialize (Ht a b Ha Hb Hd). unfold references, shell_intact, image_layers, verified.
  by rewrite Hd, Ht.
Qed.
End graph.

(** ** The marks of a walk: which digests it met, and whether they are fine *)
Definition fine (r : ScrubImageResult) : bool := bool_decide (sr_Status r = statusOK).
Definition row_wf (r : ScrubImageResult) : Prop :=
  (sr_Status r = statusOK /\ sr_Error r = None) \/ (sr_Status r = statusAffected /\ is_Some (sr_Error r)).
Local Notation memo := (gmap string ScrubImageResult).
Definition memo_wf (M : memo) : Prop := map_Forall (fun _ => row_wf) M.
Definition mark (M : memo) (d : string) : option bool := fine <$> M !! d.

Lemma mark_insert M d r x : mark (<[d := r]> M) x = if decide (d = x) then Some (fine r) else mark M x.
Proof. unfold mark. rewrite lookup_insert. by case_decide. Qed.
Lemma memo_wf_insert M d r : row_wf r -> memo_wf M -> memo_wf (<[d := r]> M).
Proof. intros. by apply map_Forall_insert_2. Qed.
Lemma wf_fine r : row_wf r -> fine r = bool_decide (sr_Error r = None) /\ fine r = negb (bool_decide (sr_Status r = statusAffected)).
Proof. unfold fine. intros [[-> ->]|[-> [e ->]]]; done. Qed.
Lemma mark_some M d : is_Some (M !! d) <-> exists b, mark M d = Some b.
Proof.
  unfold mark. destruct (M !! d) as [r|]; simpl; split; [by eexists|by eexists|by intros [? [=]]|by intros [? [=]]].
Qed.
Lemma not_affected_mark M d : memo_wf M -> not_affected (M !! d) = negb (bool_decide (mark M d = Some false)).
Proof.
  intros Hm. unfold not_affected, mark. destruct (M !! d) as [r|] eqn:E; [|done]. simpl.
  destruct (wf_fine r (Hm _ _ E)) as [_ <-]. by destruct (fine r).
Qed.

(** What [m] found stays found: an affected digest is never cleared. *)
Definition worse (M M' : memo) : Prop := forall d, mark M d = Some false -> mark M' d = Some false.
Lemma worse_refl M : worse M M.
Proof. by intros d. Qed.
#[local] Hint Resolve worse_refl : core.
Lemma worse_trans M1 M2 M3 : worse M1 M2 -> worse M2 M3 -> worse M1 M3.
Proof. intros H1 H2 d Hd. by apply H2, H1. Qed.
Lemma worse_insert M d r : (mark M d = Some false -> fine r = false) -> worse M (<[d := r]> M).
Proof. intros Hr x Hx. rewrite mark_insert. case_decide; [|done]. subst. by rewrite Hr. Qed.

Section marks.
Context `{OciCodec} `{ConfigCodec} (view : string -> res string) (verify : string -> res unit) (graph : Descriptor -> Prop).

(** [d] was walked as a descriptor that is intact, up to the layers [L], and
    all it refers to is fine. *)
Definition good (M : memo) (L : list Descriptor) (d : string) : Prop :=
  exists x, graph x /\ Digest x = d /\ shell_intact view verify x = true /\ image_layers view x ⊆ L /\
    forall y, y ∈ references view x -> mark M (Digest y) = Some true.

(** A walk that found nothing but good digests, those of [X] left open. *)
Record step (X : gset string) (M M' : memo) (L : list Descriptor) : Prop := {
  step_kept : forall d b, mark M d = Some b -> mark M' d = Some b;
  step_new : forall d b, d ∉ X -> mark M d = None -> mark M' d = Some b -> b = true /\ good M' L d
}.

Lemma good_mono M M' L L' d : good M L d -> (forall x, mark M x = Some true -> mark M' x = Some true) -> L ⊆ L' -> good M' L' d.
Proof. intros (x&?&?&?&?&Hr) Hm Hl. exists x. split_and!; try done; [set_solver|]. intros y Hy. by apply Hm, Hr. Qed.
Lemma step_refl X M L : step X M M L.
Proof. split; [done|]. intros d b _. congruence. Qed.
Lemma step_trans X M1 M2 M3 L1 L2 : step X M1 M2 L1 -> step ∅ M2 M3 L2 -> step X M1 M3 (L1 ++ L2).
Proof.
  intros [K1 N1] [K2 N2]. split; [by auto|]. intros d b Hd H1 H3. destruct (mark M2 d) as [b2|] eqn:E2.
  - rewrite (K2 _ _ E2) in H3. injection H3 as ->. destruct (N1 _ _ Hd H1 E2) as [-> Hg]. split; [done|].
    eapply good_mono; [exact Hg|by intros x; apply K2|set_solver].
  - destruct (N2 d b) as [-> Hg]; [set_solver|done..|]. split; [done|]. eapply good_mono; [exact Hg|done|set_solver].
Qed.
Lemma step_layers X M M' L L' : step X M M' L -> L ⊆ L' -> step X M M' L'.
Proof. intros [K N] Hl. split; [done|]. intros d b Hd H1 H2. destruct (N d b Hd H1 H2) as [-> Hg]. split; [done|]. by eapply good_mono. Qed.

(** Marking a digest that is not affected as fine, its references left open. *)
Lemma step_open M M' L d r : step ∅ M M' L -> mark M' d <> Some false -> fine r = true -> step {[d]} M (<[d := r]> M') L.
Proof.
  intros [K N] Hd Hr.
  assert (forall x, mark M' x = Some true -> mark (<[d := r]> M') x = Some true) as Hm.
  { intros x Hx. rewrite mark_insert, Hr. by case_decide. }
  split.
  - intros x b Hx%K. rewrite mark_insert. case_decide; [subst|done]. rewrite Hr. destruct b; [done|]. congruence.
  - intros x b Hn H1. rewrite mark_insert. rewrite decide_False by set_solver. intros H2.
    destruct (N x b) as [-> Hg]; [set_solver|done..|]. split; [done|]. by eapply good_mono.
Qed.
(** Closing it once its references are known to be fine. *)
Lemma step_close M M' L d : step {[d]} M M' L -> (mark M' d = Some true /\ good M' L d) -> step ∅ M M' L.
Proof.
  intros [K N] [Hd Hg]. split; [done|]. intros x b _ H1 H2. destruct (decide (x = d)) as [->|Hn]; [|apply N; [set_solver|done..]].
  rewrite Hd in H2. by injection H2 as <-.
Qed.
Lemma step_ext X M M1 M2 L : step X M M1 L -> (forall d, mark M2 d = mark M1 d) -> step X M M2 L.
Proof.
  intros [K N] He. split; intros d b; rewrite He; [by apply K|]. intros Hd H1 H2.
  destruct (N d b Hd H1 H2) as [-> Hg]. split; [done|]. eapply good_mono; [exact Hg| |done]. intros x. by rewrite He.
Qed.
End marks.

(** ** The walk over a store that reads the same throughout *)

(** No panic, and not the error that stands for a listed image without a blob. *)
Definition panics {A} (r : res A) : Prop := exists p, r = Err (ErrPanic p).
Definition ordinary (x : err) : Prop := x <> ErrManifestNotFound /\ forall p, x <> ErrPanic p.

(** The store reads blobs of a repository as [view] and hashes them as
    [verify], without a change to it. *)
Record reads_as {S} `{ScrubStoreI S} (repo : string) (s : S) (view : string -> res string) (verify : string -> res unit) : Prop := {
  ra_blob : forall d, sb_GetBlobContent repo d s = (view d, s);
  ra_verify : forall d, sb_VerifyBlobDigestValue repo d s = (verify d, s);
  ra_view_err : forall d x, view d = Err x -> ordinary x;
  ra_verify_err : forall d x, verify d = Err x -> ordinary x
}.

Lemma attempt_run {T A} (m : ST T A) t r t' : m t = (r, t') -> ~ panics r -> attempt m t = (Ok r, t').
Proof. unfold attempt. intros -> Hr. destruct r as [|[]]; try done. destruct Hr. by eexists. Qed.
Lemma attempt_panics {T A} (m : ST T A) t p t' : m t = (Err (ErrPanic p), t') -> attempt m t = (Err (ErrPanic p), t').
Proof. unfold attempt. by intros ->. Qed.
Lemma bind_stop {T A B} (m : ST T A) (k : A -> ST T B) t x t' : m t = (Err x, t') -> bind m k t = (Err x, t').
Proof. unfold bind. by intros ->. Qed.
Lemma ordinary_calm {A} x : ordinary x -> ~ panics (Err x : res A).
Proof. intros [_ Hx] [p [= Hp]]. by eapply Hx. Qed.
Lemma ok_calm {A} (a : A) : ~ panics (Ok a).
Proof. by intros [p [=]]. Qed.
Lemma panics_dec {A} (r : res A) : panics r \/ ~ panics r.
Proof. destruct r as [a|[]]; try (right; by intros [? [=]]). left. by eexists. Qed.
#[export] Hint Resolve ordinary_calm ok_calm : zot.

#[local] Arguments getResult : simpl never.

Section runs.
Context {S : Type} `{ScrubStoreI S} `{OciCodec} `{ConfigCodec} `{DigestEncoding}.
Context (repo : string) (s : S) (e : env) (view : string -> res string) (verify : string -> res unit).
Hypothesis Hreads : reads_as repo s view verify.
Local Notation refs := (references view).
Local Notation at_memo := (mkWalk s e).

Lemma run_blob d M : attempt (on_store (sb_GetBlobContent repo d)) (at_memo M) = (Ok (view d), at_memo M).
Proof.
  apply attempt_run; [unfold on_store, zoom; simpl; by rewrite (ra_blob _ _ _ _ Hreads)|].
  destruct (view d) eqn:E; [by apply ok_calm|]. by eapply ordinary_calm, ra_view_err.
Qed.
Lemma run_verify d : attempt (sb_VerifyBlobDigestValue repo d) s = (Ok (verify d), s).
Proof.
  apply attempt_run; [apply (ra_verify _ _ _ _ Hreads)|].
  destruct (verify d) eqn:E; [by apply ok_calm|]. by eapply ordinary_calm, ra_verify_err.
Qed.
Lemma run_read d : attempt (sb_GetBlobContent repo d) s = (Ok (view d), s).
Proof.
  apply attempt_run; [apply (ra_blob _ _ _ _ Hreads)|].
  destruct (view d) eqn:E; [by apply ok_calm|]. by eapply ordinary_calm, ra_view_err.
Qed.

(** *** Manifests, configs and layers *)
Lemma CheckManifestAndConfig_run d c : view (Digest d) = Ok c -> IsImageIndexMediaType (MediaType d) = false ->
  exists affected man, CheckManifestAndConfig repo d c s = (Ok (affected, man), s) /\
    match man with
    | Ok m => unmarshal_manifest c = Some m /\ IsImageManifestMediaType (MediaType d) = true /\ shell_intact view verify d = true
    | Err x => ordinary x /\ shell_intact view verify d = false
    end.
Proof.
  intros Hv Hi. unfold CheckManifestAndConfig, shell_intact, verified, config_intact. rewrite Hv, Hi.
  destruct (IsImageManifestMediaType (MediaType d)) eqn:Ht; simpl; [|by eexists _, _].
  destruct (unmarshal_manifest c) as [m|] eqn:Em; [|by eexists _, _].
  rewrite (bind_step _ _ _ _ _ (run_verify _)). destruct (verify (Digest d)) as [u|x] eqn:Ev; simpl.
  2:{ eexists _, _. split; [done|]. split; [by eapply ra_verify_err|done]. }
  rewrite (bind_step _ _ _ _ _ (run_read _)). destruct (view (Digest (Config m))) as [cc|x] eqn:Ec.
  2:{ eexists _, _. split; [done|]. split; [by eapply ra_view_err|done]. }
  destruct (unmarshal_config cc); [|by eexists _, _].
  rewrite (bind_step _ _ _ _ _ (run_verify _)). unfold verified. destruct (verify (Digest (Config m))) as [u'|x] eqn:Ev'; simpl.
  2:{ eexists _, _. split; [done|]. split; [by eapply ra_verify_err|done]. }
  eexists _, _. split; [done|]. by split_and!.
Qed.

Lemma getResult_ok tag d : getResult repo tag d None = Ok (newScrubImageResult repo tag statusOK "" None).
Proof. done. Qed.
Lemma getResult_err tag d x : getResult repo tag d (Some x) = Err ErrBadDigestFormat \/
  exists r, getResult repo tag d (Some x) = Ok r /\ row_wf r /\ fine r = false.
Proof. unfold getResult. destruct (encoded_of d); [right|by left]. eexists. split; [done|]. split; [right; by split; [|eexists]|done]. Qed.

Lemma CheckLayers_run tag ls r0 : row_wf r0 \/ ls <> [] ->
  CheckLayers repo tag ls r0 s = (Err ErrBadDigestFormat, s) /\ forallb (verified verify) ls = false \/
  exists r, CheckLayers repo tag ls r0 s = (Ok r, s) /\ row_wf r /\
    fine r = forallb (verified verify) ls && (bool_decide (ls <> []) || fine r0).
Proof.
  revert r0. induction ls as [|l ls IH]; intros r0 Hr; cbn [CheckLayers forallb].
  { right. exists r0. split; [done|]. split; [by destruct Hr|]. by rewrite bool_decide_false by naive_solver. }
  rewrite (bind_step _ _ _ _ _ (run_verify _)). unfold verified at 1 3. destruct (verify (Digest l)) as [u|x]; cbn [is_ok andb].
  - rewrite (bind_step _ _ _ _ _ (eq_refl : lift_res (getResult repo tag "" None) s = (Ok _, s))).
    destruct (IH (newScrubImageResult repo tag statusOK "" None)) as [?|(r&E&Hw&Hf)]; [left; by left|by left|].
    right. exists r. split; [done|]. split; [done|]. rewrite Hf. destruct (forallb _ ls); simpl; [|done].
    by destruct (bool_decide (ls <> [])).
  - unfold lift_res. destruct (getResult_err tag (Digest l) x) as [->|(r&->&Hw&Hf)]; [by left|right].
    exists r. by split_and!.
Qed.

(** *** What a walk of [d] gives *)
Context (graph : Descriptor -> Prop).
Local Notation good := (good view verify graph).
Local Notation step := (step view verify graph).
Local Notation chain_below := (chain_below view).

(** The end of a walk that neither panicked nor ran out of stack. *)
Definition settled {A} (M : memo) (r : res A) (M' : memo) : Prop :=
  ~ panics r /\ r <> Err ErrManifestNotFound /\ memo_wf M' /\ worse M M'.
Definition outcome (n : nat) (d : Descriptor) (M : memo) (out : res (list Descriptor) * walk) : Prop :=
  exists r M', out = (r, at_memo M') /\
  (r = Err ErrBadDigestFormat \/ panics r /\ chain_below n d = false \/
   settled M r M' /\ is_Some (mark M' (Digest d)) /\
   (mark M' (Digest d) = Some true -> exists layers, r = Ok layers /\ step ∅ M M' layers)).

Lemma settled_from {A} M1 M2 (r : res A) M' : worse M1 M2 -> settled M2 r M' -> settled M1 r M'.
Proof. intros Hw (?&?&?&?). split_and!; try done. by eapply worse_trans. Qed.
Lemma settled_as {A B} (r : res A) (r' : res B) M M' : ~ panics r' -> r' <> Err ErrManifestNotFound -> settled M r M' -> settled M r' M'.
Proof. intros ?? (?&?&?&?). by split_and!. Qed.
Lemma settled_here {A} (a : A) M M' : memo_wf M' -> worse M M' -> settled M (Ok a) M'.
Proof. intros. split; [apply ok_calm|by split]. Qed.
Lemma settled_err {A} x M M' : ordinary x -> memo_wf M' -> worse M M' -> settled (A:=A) M (Err x) M'.
Proof. intros Hx ??. split; [by apply ordinary_calm|]. split; [|done]. intros [= ->]. by destruct Hx. Qed.
Lemma set_run d r M : set_result d r (at_memo M) = (Ok tt, at_memo (<[d := r]> M)).
Proof. done. Qed.
Lemma find_run d M : find_result d (at_memo M) = (Ok (M !! d), at_memo M).
Proof. done. Qed.
Lemma lift_run {A} (r : res A) M : lift_res r (at_memo M) = (r, at_memo M).
Proof. done. Qed.

(** An affected row for a digest and for what leads to it. *)
Lemma affect_both M d p r : memo_wf M -> row_wf r -> fine r = false ->
  memo_wf (<[p := r]> (<[d := r]> M)) /\ worse M (<[p := r]> (<[d := r]> M)) /\ mark (<[p := r]> (<[d := r]> M)) p = Some false.
Proof.
  intros Hm Hw Hf. split; [apply memo_wf_insert; [done|by apply memo_wf_insert]|]. split.
  - eapply worse_trans; by apply worse_insert.
  - by rewrite mark_insert, decide_True, Hf.
Qed.
Lemma take_over_wf tag r : row_wf r -> row_wf (take_over repo tag r) /\ fine (take_over repo tag r) = fine r.
Proof. by intros [[? ?]|[? ?]]; split; [left|..|right|]. Qed.

Section rec.
Context (n : nat) (tag : string) (rec : Descriptor -> string -> ST (walk (S:=S)) (list Descriptor)).
Hypothesis Hrec : forall d c M, view (Digest d) = Ok c -> graph d -> memo_wf M -> outcome n d M (rec d c (at_memo M)).

Definition children_end (D : string) (ms layers : list Descriptor) (aff : bool) (M : memo)
    (r : res (list Descriptor * bool)) (M' : memo) : Prop :=
  r = Err ErrBadDigestFormat \/ panics r /\ forallb (chain_below n) ms = false \/
  settled M r M' /\
  match r with
  | Err _ => mark M' D = Some false
  | Ok (_, true) => mark M' D = Some false
  | Ok (layers', false) =>
      aff = false /\ exists L, layers' = layers ++ L /\ step ∅ M M' L /\ forall x, x ∈ ms -> mark M' (Digest x) = Some true
  end.

(** The rest of the loop, after a child that was found affected. *)
Lemma children_affected D m ms layers layers' aff M M1 r M' : worse M M1 ->
  children_end D ms layers' true M1 r M' -> children_end D (m :: ms) layers aff M r M'.
Proof.
  intros Hw [?|[[Hp Hc]|[Hs He]]]; [by left|right; left|right; right].
  - split; [done|]. cbn [forallb]. rewrite Hc. apply andb_false_r.
  - split; [by eapply settled_from|]. destruct r as [[l []]|]; [done| |done]. by destruct He.
Qed.
Lemma children_fine D m ms layers L0 aff M M1 r M' : worse M M1 -> step ∅ M M1 L0 -> mark M1 (Digest m) = Some true ->
  children_end D ms (layers ++ L0) aff M1 r M' -> children_end D (m :: ms) layers aff M r M'.
Proof.
  intros Hw Hst Hm [?|[[Hp Hc]|[Hs He]]]; [by left|right; left|right; right].
  - split; [done|]. cbn [forallb]. rewrite Hc. apply andb_false_r.
  - split; [by eapply settled_from|]. destruct r as [[l []]|]; [done| |done]. destruct He as (->&L&->&HL&Hms).
    split; [done|]. exists (L0 ++ L). split; [by rewrite app_assoc|]. split; [by eapply step_trans|].
    intros x [->|Hx]%elem_of_cons; [|by apply Hms]. by eapply step_kept.
Qed.

Lemma children_run D ms layers aff M : (forall x, x ∈ ms -> graph x) -> memo_wf M -> (aff = true -> mark M D = Some false) ->
  exists r M', scrub_children repo tag rec D ms layers aff (at_memo M) = (r, at_memo M') /\ children_end D ms layers aff M r M'.
Proof.
  revert layers aff M. induction ms as [|m ms IH]; intros layers aff M Hg Hm Ha; cbn [scrub_children].
  { exists (Ok (layers, aff)), M. split; [done|]. right; right. split; [by apply settled_here|].
    destruct aff; [by apply Ha|]. split; [done|]. exists []. rewrite app_nil_r. split; [done|]. split; [apply step_refl|].
    by intros x ?%elem_of_nil. }
  assert (forall x, x ∈ ms -> graph x) as Hg' by (intros x Hx; apply Hg; by right).
  rewrite (bind_step _ _ _ _ _ (run_blob _ _)). destruct (view (Digest m)) as [c|x] eqn:Ev.
  - destruct (Hrec m c M Ev (Hg m (list_elem_of_here _ _)) Hm) as (r&M1&E&[->|[[[p ->] Hc]|[Hs [[b Hb] Hf]]]]).
    { eexists _, _. split; [exact (bind_stop _ _ _ _ _ (attempt_panics _ _ _ _ E))|by left]. }
    { eexists _, _. split; [exact (bind_stop _ _ _ _ _ (attempt_panics _ _ _ _ E))|]. right; left. split; [by eexists|]. cbn [forallb]. by rewrite Hc. }
    destruct Hs as (Hp&Hn&Hm1&Hw). rewrite (bind_step _ _ _ _ _ (attempt_run _ _ _ _ E Hp)).
    rewrite (bind_step _ _ _ _ _ (find_run _ _)). unfold mark in Hb. destruct (M1 !! Digest m) as [row|] eqn:Er; [|done].
    injection Hb as Hb. cbv beta zeta. cbn [from_option id]. destruct (wf_fine row (Hm1 _ _ Er)) as [Hfe _].
    destruct (sr_Error row) as [x|] eqn:Ex.
    + rewrite (bind_step _ _ _ _ _ (set_run _ _ _)). destruct (take_over_wf tag row (Hm1 _ _ Er)) as [Htw Htf].
      assert (worse M (<[D := take_over repo tag row]> M1)) as Hw' by (eapply worse_trans; [exact Hw|apply worse_insert; by rewrite Htf]).
      edestruct (IH (layers ++ match r with Ok l => l | Err _ => [] end) true (<[D := take_over repo tag row]> M1)) as (r'&M'&E'&He);
        [done|by apply memo_wf_insert|by rewrite mark_insert, decide_True, Htf, Hfe|].
      exists r', M'. split; [exact E'|]. by eapply children_affected.
    + assert (mark M1 (Digest m) = Some true) as Hmk by by unfold mark; rewrite Er; simpl; rewrite Hfe.
      destruct (Hf Hmk) as (L0&->&Hst).
      edestruct (IH (layers ++ L0) aff M1) as (r'&M'&E'&He); [done|done|intros; by apply Hw, Ha|].
      exists r', M'. split; [exact E'|]. by eapply children_fine.
  - destruct (missing x) eqn:Hx.
    + destruct (getResult_err tag (Digest m) x) as [Er|(row&Er&Hrw&Hrf)].
      { eexists _, _. split; [apply bind_stop; rewrite lift_run, Er; done|by left]. }
      destruct (affect_both M (Digest m) D row Hm Hrw Hrf) as (?&?&?).
      edestruct (IH layers true (<[D := row]> (<[Digest m := row]> M))) as (r'&M'&E'&He); [done..|].
      exists r', M'. split; [|by eapply children_affected]. by rewrite Er.
    + destruct (getResult_err tag (Digest m) ErrBadBlobDigest) as [Er|(row&Er&Hrw&Hrf)].
      { eexists _, _. split; [apply bind_stop; rewrite lift_run, Er; done|by left]. }
      destruct (affect_both M (Digest m) D row Hm Hrw Hrf) as (?&?&?).
      exists (Err x), (<[D := row]> (<[Digest m := row]> M)). split; [by rewrite Er|]. right; right.
      split; [|done]. apply settled_err; [by eapply ra_view_err|done..].
Qed.

Hypothesis Hgraph : forall d x, graph d -> x ∈ refs d -> graph x.

Lemma chain_ref d x : x ∈ refs d -> chain_below n x = false -> chain_below (Datatypes.S n) d = false.
Proof.
  intros Hx Hc. cbn [Scrub.chain_below]. apply not_true_iff_false. rewrite forallb_forall. intros Ha.
  rewrite (Ha x) in Hc; [done|]. by apply list_elem_of_In.
Qed.
Lemma on_store_run {A} (m : ST S A) r M : m s = (r, s) -> on_store m (at_memo M) = (r, at_memo M).
Proof. unfold on_store, zoom. simpl. by intros ->. Qed.
Lemma outcome_bad k d M M' w : w = at_memo M' -> outcome k d M (Err ErrBadDigestFormat, w).
Proof. intros ->. eexists _, _. split; [done|by left]. Qed.
Lemma outcome_affected k d M x M' : ordinary x -> memo_wf M' -> worse M M' -> mark M' (Digest d) = Some false ->
  outcome k d M (Err x, at_memo M').
Proof.
  intros Hx Hm Hw Hf. eexists _, _. split; [done|]. right; right. split; [by apply settled_err|].
  rewrite Hf. split; [by eexists|done].
Qed.

(** The subject's content, or the end of the walk of what has it. *)
Lemma subject_content_run k d x M0 M : memo_wf M -> worse M0 M ->
  (exists c, view (Digest x) = Ok c /\ subject_content repo tag (Digest d) x (at_memo M) = (Ok c, at_memo M)) \/
  exists y w, subject_content repo tag (Digest d) x (at_memo M) = (Err y, w) /\ outcome k d M0 (Err y, w).
Proof.
  intros Hm Hw. unfold subject_content. rewrite (bind_step _ _ _ _ _ (run_blob _ _)).
  destruct (view (Digest x)) as [c|y] eqn:Ev; [left; by exists c|right]. cbv zeta.
  destruct (getResult_err tag (Digest x) (if missing y then y else ErrBadBlobDigest)) as [Er|(row&Er&Hrw&Hrf)].
  { eexists _, _. split; [apply bind_stop; rewrite lift_run, Er; done|by eapply outcome_bad]. }
  destruct (affect_both M (Digest x) (Digest d) row Hm Hrw Hrf) as (?&?&?).
  eexists y, _. split; [by rewrite Er|]. apply outcome_affected; [by eapply ra_view_err|done|by eapply worse_trans|done].
Qed.

(** The walk of the subject [x], up to the row that it leaves. *)
Lemma subject_walk_run d x c M0 M (f : res (list Descriptor) -> ST (walk (S:=S)) (list Descriptor)) :
  x ∈ refs d -> view (Digest x) = Ok c -> graph d -> memo_wf M ->
  (forall r M', settled M r M' -> is_Some (mark M' (Digest x)) ->
     (mark M' (Digest x) = Some true -> exists layers, r = Ok layers /\ step ∅ M M' layers) ->
     outcome (Datatypes.S n) d M0 (f r (at_memo M'))) ->
  outcome (Datatypes.S n) d M0 (bind (attempt (rec x c)) f (at_memo M)).
Proof.
  intros Hx Hv Hd Hm Hend.
  destruct (Hrec x c M Hv (Hgraph _ _ Hd Hx) Hm) as (r&M'&E&[->|[[[p ->] Hc]|(Hs&Hi&Hf)]]).
  - rewrite (bind_stop _ _ _ _ _ (attempt_panics _ _ _ _ E)). by eapply outcome_bad.
  - rewrite (bind_stop _ _ _ _ _ (attempt_panics _ _ _ _ E)). eexists _, _. split; [done|]. right; left.
    split; [by eexists|]. by eapply chain_ref.
  - rewrite (bind_step _ _ _ _ _ (attempt_run _ _ _ _ E (proj1 Hs))). by apply Hend.
Qed.
Lemma with_layers_run M0 M layers r M' : settled M r M' -> worse M0 M' ->
  exists r', with_layers layers r (at_memo M') = (r', at_memo M') /\ settled M0 r' M' /\
    forall l, r = Ok l -> r' = Ok (layers ++ l).
Proof.
  intros (Hp&Hn&Hm&_) Hw. destruct r as [l|y]; eexists; (split; [done|]); (split; [|by intros ? [= ->]]).
  - by apply settled_here.
  - split; [|split; [by intros [= ->]|done]]. intros [p [= ->]]. apply Hp. by eexists.
Qed.
Lemma worse_new M d r r' M' : mark M d = None -> worse (<[d := r]> M) M' -> worse M (<[d := r']> M').
Proof.
  intros Hd Hw x Hx. rewrite mark_insert. case_decide; [congruence|]. apply Hw. rewrite mark_insert. by rewrite decide_False.
Qed.
Lemma find_marked M d b : memo_wf M -> mark M d = Some b -> exists row, M !! d = Some row /\ row_wf row /\ fine row = b.
Proof.
  unfold mark. intros Hm Hd. destruct (M !! d) as [row|] eqn:E; [|done]. injection Hd as Hd.
  exists row. split; [done|]. split; [by eapply Hm|done].
Qed.

(** *** Manifests *)
Lemma image_subject_run d m M row : graph d -> mark M (Digest d) = None -> memo_wf M -> row_wf row -> fine row = true ->
  shell_intact view verify d = true -> image_layers view d = Layers m -> refs d = option_list (m_Subject m) ->
  outcome (Datatypes.S n) d M (image_subject repo tag rec (Digest d) (Layers m) (m_Subject m) (at_memo (<[Digest d := row]> M))).
Proof.
  intros Hd Hnew Hm Hrw Hrf Hsh Hl Hr. set (M1 := <[Digest d := row]> M).
  assert (memo_wf M1) as Hm1 by by apply memo_wf_insert.
  assert (worse M M1) as Hw1 by by apply worse_insert; rewrite Hnew.
  assert (step {[Digest d]} M M1 (Layers m)) as Hs1 by (apply step_open; [apply step_refl|by rewrite Hnew|done]).
  assert (forall M' L, Layers m ⊆ L -> (forall x, x ∈ refs d -> mark M' (Digest x) = Some true) -> good M' L (Digest d)) as Hgood.
  { intros M' L HL Hx. exists d. split_and!; try done. by rewrite Hl. }
  unfold image_subject. destruct (m_Subject m) as [x|]; simpl in Hr.
  2:{ exists (Ok (Layers m)), M1. split; [done|]. right; right. split; [by apply settled_here|].
      assert (mark M1 (Digest d) = Some true) as Hmk by by unfold M1; rewrite mark_insert, decide_True, Hrf.
      split; [by eexists|]. intros _. eexists. split; [done|]. eapply step_close; [exact Hs1|]. split; [done|].
      apply Hgood; [done|]. rewrite Hr. by intros y ?%elem_of_nil. }
  assert (x ∈ refs d) as Hx by (rewrite Hr; by left).
  destruct (subject_content_run (Datatypes.S n) d x M M1 Hm1 Hw1) as [(c&Hv&E)|(y&w&E&Ho)].
  2:{ by rewrite (bind_stop _ _ _ _ _ E). }
  rewrite (bind_step _ _ _ _ _ E). apply subject_walk_run with (1 := Hx); [done..|]. intros r M2 Hs [b Hb] Hf.
  destruct (find_marked M2 (Digest x) b (proj1 (proj2 (proj2 Hs))) Hb) as (row2&Hrow2&Hrw2&Hrf2).
  rewrite (bind_step _ _ _ _ _ (find_run _ _)), Hrow2. cbn [from_option id].
  rewrite (bind_step _ _ _ _ _ (set_run _ _ _)). destruct (take_over_wf tag row2 Hrw2) as [Htw Htf].
  set (M3 := <[Digest d := take_over repo tag row2]> M2).
  assert (settled M1 r M2 -> settled M r M3) as Hset.
  { intros (?&?&?&?). split_and!; [done..|by apply memo_wf_insert|by eapply worse_new]. }
  destruct (with_layers_run M M (Layers m) r M3) as (r'&E'&Hs'&Hr'); [by apply Hset|by apply Hset|].
  exists r', M3. split; [exact E'|]. right; right. split; [done|].
  assert (mark M3 (Digest d) = Some b) as Hmk by by unfold M3; rewrite mark_insert, decide_True, Htf, Hrf2.
  rewrite Hmk. split; [by eexists|]. intros [= ->]. destruct (Hf Hb) as (L2&->&Hst). exists (Layers m ++ L2).
  split; [by apply Hr'|]. assert (mark M2 (Digest d) = Some true) as Hm2.
  { eapply step_kept; [exact Hst|]. by unfold M1; rewrite mark_insert, decide_True, Hrf. }
  assert (forall y, mark M3 y = mark M2 y) as Hext.
  { intros y. unfold M3. rewrite mark_insert. case_decide as Hy; [|done]. rewrite <-Hy. by rewrite Hm2, Htf, Hrf2. }
  eapply step_close; [eapply step_ext; [by eapply step_trans|exact Hext]|]. split; [done|]. apply Hgood; [set_solver|].
  rewrite Hr. intros y ->%list_elem_of_singleton. by rewrite Hext.
Qed.

(** *** Indexes *)

(** The marks once the manifests of an index were walked. *)
Definition children_marked (d : Descriptor) (idx : Index) (layers : list Descriptor) (M M1 : memo) : Prop :=
  mark M1 (Digest d) = Some false \/
  mark M1 (Digest d) = Some true /\ step {[Digest d]} M M1 layers /\
    forall x, x ∈ Manifests idx -> mark M1 (Digest x) = Some true.

Lemma index_subject_run d idx layers M M1 : graph d -> memo_wf M1 -> worse M M1 ->
  shell_intact view verify d = true -> image_layers view d = [] -> refs d = Manifests idx ++ option_list (idx_Subject idx) ->
  children_marked d idx layers M M1 ->
  outcome (Datatypes.S n) d M (index_subject repo tag rec (Digest d) layers (idx_Subject idx) (at_memo M1)).
Proof.
  intros Hd Hm1 Hw1 Hsh Hl Hr Hc.
  assert (forall M' L, (forall x, x ∈ refs d -> mark M' (Digest x) = Some true) -> good M' L (Digest d)) as Hgood.
  { intros M' L Hx. exists d. split_and!; try done. rewrite Hl. apply list_subseteq_nil. }
  unfold index_subject. destruct (idx_Subject idx) as [x|]; simpl in Hr.
  2:{ exists (Ok layers), M1. split; [done|]. right; right. split; [by apply settled_here|].
      destruct Hc as [Hf|(Ht&Hs&Hx)]; [rewrite Hf; split; [by eexists|done]|]. rewrite Ht. split; [by eexists|]. intros _. exists layers.
      split; [done|]. eapply step_close; [exact Hs|]. split; [done|]. apply Hgood. by rewrite Hr, app_nil_r. }
  assert (x ∈ refs d) as Hx by (rewrite Hr; set_solver).
  destruct (subject_content_run (Datatypes.S n) d x M M1 Hm1 Hw1) as [(c&Hv&E)|(y&w&E&Ho)].
  2:{ by rewrite (bind_stop _ _ _ _ _ E). }
  rewrite (bind_step _ _ _ _ _ E). apply subject_walk_run with (1 := Hx); [done..|]. intros r M2 Hs [b Hb] Hf.
  pose proof (proj1 (proj2 (proj2 Hs))) as Hm2. pose proof (worse_trans _ _ _ Hw1 (proj2 (proj2 (proj2 Hs)))) as Hw2.
  destruct (find_marked M2 (Digest x) b Hm2 Hb) as (row2&Hrow2&Hrw2&Hrf2).
  rewrite (bind_step _ _ _ _ _ (find_run _ _)), Hrow2. cbn [from_option id].
  rewrite (bind_step _ _ _ _ _ (find_run _ _)), not_affected_mark by done. case_bool_decide as Hmk; cbn [negb].
  { rewrite (bind_step _ _ _ tt (at_memo M2)) by done. destruct (with_layers_run M M1 layers r M2 Hs Hw2) as (r'&E'&Hs'&_).
    exists r', M2. split; [exact E'|]. right; right. rewrite Hmk. split; [done|]. split; [by eexists|done]. }
  rewrite (bind_step _ _ _ _ _ (set_run _ _ _)). destruct (take_over_wf tag row2 Hrw2) as [Htw Htf].
  set (M3 := <[Digest d := take_over repo tag row2]> M2).
  assert (worse M2 M3) as Hw3 by by apply worse_insert.
  assert (settled M1 r M3) as Hs3.
  { destruct Hs as (?&?&?&?). split_and!; [done..|by apply memo_wf_insert|by eapply worse_trans]. }
  destruct (with_layers_run M M1 layers r M3 Hs3) as (r'&E'&Hs'&Hr'); [by eapply worse_trans|].
  exists r', M3. split; [exact E'|]. right; right. split; [done|].
  assert (mark M3 (Digest d) = Some b) as Hmk3 by by unfold M3; rewrite mark_insert, decide_True, Htf, Hrf2.
  rewrite Hmk3. split; [by eexists|]. intros [= ->]. destruct (Hf Hb) as (L2&->&Hst). exists (layers ++ L2).
  split; [by apply Hr'|]. destruct Hc as [Hf1|(Ht1&Hs1&Hx1)]; [by destruct Hmk; eapply step_kept|].
  assert (mark M2 (Digest d) = Some true) as Hd2 by by eapply step_kept.
  assert (forall y, mark M3 y = mark M2 y) as Hext.
  { intros y. unfold M3. rewrite mark_insert. case_decide as Hy; [|done]. rewrite <-Hy. by rewrite Hd2, Htf, Hrf2. }
  eapply step_close; [eapply step_ext; [by eapply step_trans|exact Hext]|]. split; [done|]. apply Hgood.
  rewrite Hr. intros y [Hy| ->%list_elem_of_singleton]%elem_of_app; rewrite Hext; [|done]. by eapply step_kept, Hx1.
Qed.

Lemma scrub_index_run d c M : graph d -> view (Digest d) = Ok c -> IsImageIndexMediaType (MediaType d) = true -> memo_wf M ->
  outcome (Datatypes.S n) d M (scrub_index repo tag rec d c (at_memo M)).
Proof.
  intros Hd Hv Ht Hm. unfold scrub_index. destruct (unmarshal_index c) as [idx|] eqn:Ei.
  2:{ destruct (getResult_err tag (Digest d) ErrBadBlobDigest) as [Er|(row&Er&Hrw&Hrf)].
      { rewrite Er. by eapply outcome_bad. }
      rewrite Er. apply outcome_affected; [done|by apply memo_wf_insert|by apply worse_insert|by rewrite mark_insert, decide_True, Hrf]. }
  assert (refs d = Manifests idx ++ option_list (idx_Subject idx)) as Hr by by unfold references; rewrite Hv, Ht, Ei.
  destruct (children_run (Digest d) (Manifests idx) [] false M) as (r&M1&E&[->|[[[p ->] Hc]|[Hs He]]]);
    [intros x Hx; apply (Hgraph d); [done|]; rewrite Hr; set_solver|done|done|..].
  { rewrite (bind_stop _ _ _ _ _ E). by eapply outcome_bad. }
  { rewrite (bind_stop _ _ _ _ _ E). eexists _, _. split; [done|]. right; left. split; [by eexists|].
    cbn [Scrub.chain_below]. rewrite Hr, forallb_app, Hc. done. }
  destruct r as [[layers aff]|x].
  2:{ rewrite (bind_stop _ _ _ _ _ E). exists (Err x), M1. split; [done|]. right; right. rewrite He.
      split; [by destruct Hs as (Hp&Hn&?&?); split; [intros [p [= ->]]; apply Hp; by eexists|split; [by intros [= ->]|done]]|].
      split; [by eexists|done]. }
  destruct Hs as (_&_&Hm1&Hw1). rewrite (bind_step _ _ _ _ _ E). cbv beta iota.
  rewrite (bind_step _ _ _ _ _ (find_run _ _)), not_affected_mark by done.
  assert (shell_intact view verify d = true) as Hsh by (unfold shell_intact; rewrite Hv, Ht, Ei; by apply bool_decide_eq_true).
  assert (image_layers view d = []) as Hl by by unfold image_layers; rewrite Hv, Ht.
  destruct aff; cbn [negb andb].
  { rewrite (bind_step _ _ _ tt (at_memo M1)) by done. apply index_subject_run; try done. by left. }
  destruct He as (_&L&->&HL&Hx). case_bool_decide as Hmk; cbn [negb].
  { rewrite (bind_step _ _ _ tt (at_memo M1)) by done. apply index_subject_run; try done. by left. }
  set (row := newScrubImageResult repo tag statusOK "" None).
  rewrite (bind_step _ _ _ tt (at_memo (<[Digest d := row]> M1))) by done.
  assert (step {[Digest d]} M (<[Digest d := row]> M1) L) as Hst by by apply step_open.
  apply index_subject_run; try done.
  - apply memo_wf_insert; [by left|done].
  - eapply worse_trans; [exact Hw1|by apply worse_insert].
  - right. rewrite mark_insert, decide_True by done. split_and!; [done..|].
    intros x Hi. rewrite mark_insert. case_decide; [done|by apply Hx].
Qed.

Lemma scrub_step_run d c M : graph d -> view (Digest d) = Ok c -> memo_wf M ->
  outcome (Datatypes.S n) d M (scrub_step repo tag rec d c (at_memo M)).
Proof.
  intros Hd Hv Hm. unfold scrub_step. rewrite (bind_step _ _ _ _ _ (find_run _ _)).
  destruct (M !! Digest d) as [row|] eqn:Er.
  { destruct (take_over_wf tag row (Hm _ _ Er)) as [Htw Htf].
    assert (mark M (Digest d) = Some (fine row)) as Hmk by by unfold mark; rewrite Er.
    assert (forall x, mark (<[Digest d := take_over repo tag row]> M) x = mark M x) as Hext.
    { intros x. rewrite mark_insert. case_decide as Hx; [|done]. by rewrite <-Hx, Hmk, Htf. }
    exists (Ok []), (<[Digest d := take_over repo tag row]> M). split; [done|]. right; right. rewrite Hext, Hmk.
    split; [apply settled_here; [by apply memo_wf_insert|intros x Hx; by rewrite Hext]|]. split; [by eexists|]. intros _.
    exists []. split; [done|]. eapply step_ext; [apply step_refl|exact Hext]. }
  assert (mark M (Digest d) = None) as Hnew by by unfold mark; rewrite Er.
  destruct (IsImageIndexMediaType (MediaType d)) eqn:Hi; [by apply scrub_index_run|].
  assert (forall x M', ordinary x -> M' = M -> outcome (Datatypes.S n) d M
    (bind (lift_res (getResult repo tag (Digest d) (Some x))) (fun r => set_result (Digest d) r ;;; throw x) (at_memo M'))) as Hbad.
  { intros x M' Hx ->. destruct (getResult_err tag (Digest d) x) as [->|(row&->&Hrw&Hrf)]; [by eapply outcome_bad|].
    apply outcome_affected; [done|by apply memo_wf_insert|by apply worse_insert|by rewrite mark_insert, decide_True, Hrf]. }
  destruct (IsImageManifestMediaType (MediaType d)) eqn:Hmt; [|by apply Hbad].
  unfold scrub_image. destruct (CheckManifestAndConfig_run d c Hv Hi) as (blob&man&E&Hman).
  rewrite (bind_step _ _ _ _ _ (on_store_run _ _ _ E)). cbv beta iota. destruct man as [m|x].
  - destruct Hman as (Hu&_&Hsh). rewrite getResult_ok. rewrite (bind_step _ _ _ _ _ (lift_run _ _)).
    rewrite (bind_step _ _ _ _ _ (set_run _ _ _)). apply image_subject_run; try done; [by left|..].
    + unfold image_layers. by rewrite Hv, Hi, Hu.
    + unfold references. by rewrite Hv, Hi, Hmt, Hu.
  - destruct Hman as [Hx _]. destruct (getResult_err tag blob x) as [->|(row&->&Hrw&Hrf)]; [by eapply outcome_bad|].
    apply outcome_affected; [done|by apply memo_wf_insert|by apply worse_insert|by rewrite mark_insert, decide_True, Hrf].
Qed.
End rec.

Section closed.
Hypothesis Hgraph : forall d x, graph d -> x ∈ refs d -> graph x.

Lemma scrubManifest_run n tag d c M : view (Digest d) = Ok c -> graph d -> memo_wf M ->
  outcome n d M (scrubManifest n repo tag d c (at_memo M)).
Proof.
  revert d c M. induction n as [|n IH]; intros d c M Hv Hd Hm.
  - eexists _, _. split; [done|]. right; left. split; [by eexists|done].
  - cbn [scrubManifest]. apply scrub_step_run; [|done..]. intros. by apply IH.
Qed.

(** *** Where everything is intact *)
Definition all_fine (M : memo) : Prop := forall d b, mark M d = Some b -> b = true.
Lemma all_fine_insert M d r : fine r = true -> all_fine M -> all_fine (<[d := r]> M).
Proof. intros Hr Hm x b. rewrite mark_insert. case_decide; [|apply Hm]. by intros [= <-]. Qed.

Hypothesis Hintact : forall d, graph d -> intact view verify d = true.

Definition clean (M : memo) (out : res (list Descriptor) * walk) : Prop :=
  exists L M', out = (Ok L, at_memo M') /\ memo_wf M' /\ all_fine M' /\ forallb (verified verify) L = true.

Lemma graph_view d : graph d -> exists c, view (Digest d) = Ok c.
Proof. intros Hd%Hintact. unfold intact, shell_intact in Hd. destruct (view (Digest d)) as [c|]; [by eexists|done]. Qed.

Section clean.
Context (n : nat) (tag : string).
Hypothesis IH : forall d c M, view (Digest d) = Ok c -> graph d -> memo_wf M -> all_fine M -> chain_below n d = true ->
  clean M (scrubManifest n repo tag d c (at_memo M)).

(** A step into [d], and the row that it leaves. *)
Lemma rec_clean {A} d c M (f : res (list Descriptor) -> ST (walk (S:=S)) A) : view (Digest d) = Ok c -> graph d ->
  memo_wf M -> all_fine M -> chain_below n d = true ->
  exists L M' row, bind (attempt (scrubManifest n repo tag d c)) f (at_memo M) = f (Ok L) (at_memo M') /\
    memo_wf M' /\ all_fine M' /\ forallb (verified verify) L = true /\ M' !! Digest d = Some row /\ row_wf row /\ fine row = true.
Proof.
  intros Hv Hd Hm Hf Hc. destruct (IH d c M Hv Hd Hm Hf Hc) as (L&M'&E&Hm'&Hf'&HL).
  destruct (scrubManifest_run n tag d c M Hv Hd Hm) as (r&M2&E2&Ho). rewrite E in E2. injection E2 as <- <-.
  destruct Ho as [[=]|[[[p [=]] _]|(_&[b Hb]&_)]]. destruct (find_marked M' (Digest d) b Hm' Hb) as (row&Hr&Hrw&Hrf).
  exists L, M', row. split; [by rewrite (bind_step _ _ _ _ _ (attempt_run _ _ _ _ E (ok_calm _)))|].
  split_and!; try done. rewrite Hrf. by eapply Hf'.
Qed.

Lemma children_clean D ms layers M : (forall x, x ∈ ms -> graph x) -> forallb (chain_below n) ms = true -> memo_wf M -> all_fine M ->
  exists L M', scrub_children repo tag (scrubManifest n repo tag) D ms layers false (at_memo M) = (Ok (layers ++ L, false), at_memo M') /\
    memo_wf M' /\ all_fine M' /\ forallb (verified verify) L = true.
Proof.
  revert layers M. induction ms as [|m ms IHms]; intros layers M Hg Hc Hm Hf; cbn [scrub_children].
  { exists [], M. by rewrite app_nil_r. }
  cbn [forallb] in Hc. apply andb_prop in Hc as [Hc1 Hc2].
  assert (graph m) as Hgm by (apply Hg; by left). destruct (graph_view m Hgm) as [c Hv].
  rewrite (bind_step _ _ _ _ _ (run_blob _ _)), Hv.
  match goal with |- context [bind (attempt _) ?f _] => destruct (rec_clean m c M f Hv Hgm Hm Hf Hc1) as (L&M1&row&->&Hm1&Hf1&HL&Hrow&Hrw&Hrf) end.
  rewrite (bind_step _ _ _ _ _ (find_run _ _)), Hrow. cbv zeta. cbn [from_option id].
  destruct (wf_fine row Hrw) as [Hfe _]. rewrite Hrf in Hfe. symmetry in Hfe. apply bool_decide_eq_true in Hfe. rewrite Hfe.
  destruct (IHms (layers ++ L) M1) as (L'&M'&->&Hm'&Hf'&HL'); [intros; apply Hg; by right|done..|].
  exists (L ++ L'), M'. rewrite app_assoc, forallb_app, HL, HL'. done.
Qed.

Lemma subject_content_clean d x M : graph x ->
  exists c, view (Digest x) = Ok c /\ subject_content repo tag (Digest d) x (at_memo M) = (Ok c, at_memo M).
Proof.
  intros [c Hv]%graph_view. exists c. split; [done|]. unfold subject_content.
  by rewrite (bind_step _ _ _ _ _ (run_blob _ _)), Hv.
Qed.
Lemma memo_fine M d row : memo_wf M -> all_fine M -> row_wf row -> fine row = true ->
  memo_wf (<[d := row]> M) /\ all_fine (<[d := row]> M).
Proof. intros. split; [by apply memo_wf_insert|by apply all_fine_insert]. Qed.
Lemma fine_not_affected M d : memo_wf M -> all_fine M -> not_affected (M !! d) = true.
Proof. intros Hm Hf. rewrite not_affected_mark by done. rewrite bool_decide_false; [done|]. by intros [=]%Hf. Qed.
Lemma take_over_fine row : row_wf row -> fine row = true -> row_wf (take_over repo tag row) /\ fine (take_over repo tag row) = true.
Proof. intros Hw Hf. destruct (take_over_wf tag row Hw) as [? ->]. done. Qed.

Lemma image_subject_clean d layers (sub : option Descriptor) M : (forall x, sub = Some x -> graph x /\ chain_below n x = true) ->
  memo_wf M -> all_fine M -> forallb (verified verify) layers = true ->
  clean M (image_subject repo tag (scrubManifest n repo tag) (Digest d) layers sub (at_memo M)).
Proof.
  intros Hx Hm Hf HL. unfold image_subject. destruct sub as [x|]; [|by exists layers, M].
  destruct (Hx x eq_refl) as [Hgx Hcx]. destruct (subject_content_clean d x M Hgx) as (c&Hv&E).
  rewrite (bind_step _ _ _ _ _ E).
  match goal with |- context [bind (attempt _) ?f _] => destruct (rec_clean x c M f Hv Hgx Hm Hf Hcx) as (L&M1&row&->&Hm1&Hf1&HL1&Hrow&Hrw&Hrf) end.
  rewrite (bind_step _ _ _ _ _ (find_run _ _)), Hrow. cbn [from_option id].
  rewrite (bind_step _ _ _ _ _ (set_run _ _ _)). destruct (take_over_fine row Hrw Hrf) as [Htw Htf].
  destruct (memo_fine M1 (Digest d) _ Hm1 Hf1 Htw Htf). eexists (layers ++ L), _. split; [done|]. by rewrite forallb_app, HL, HL1.
Qed.
Lemma index_subject_clean d layers (sub : option Descriptor) M : (forall x, sub = Some x -> graph x /\ chain_below n x = true) ->
  memo_wf M -> all_fine M -> forallb (verified verify) layers = true ->
  clean M (index_subject repo tag (scrubManifest n repo tag) (Digest d) layers sub (at_memo M)).
Proof.
  intros Hx Hm Hf HL. unfold index_subject. destruct sub as [x|]; [|by exists layers, M].
  destruct (Hx x eq_refl) as [Hgx Hcx]. destruct (subject_content_clean d x M Hgx) as (c&Hv&E).
  rewrite (bind_step _ _ _ _ _ E).
  match goal with |- context [bind (attempt _) ?f _] => destruct (rec_clean x c M f Hv Hgx Hm Hf Hcx) as (L&M1&row&->&Hm1&Hf1&HL1&Hrow&Hrw&Hrf) end.
  rewrite (bind_step _ _ _ _ _ (find_run _ _)), Hrow. cbn [from_option id].
  rewrite (bind_step _ _ _ _ _ (find_run _ _)), fine_not_affected by done.
  rewrite (bind_step _ _ _ _ _ (set_run _ _ _)). destruct (take_over_fine row Hrw Hrf) as [Htw Htf].
  destruct (memo_fine M1 (Digest d) _ Hm1 Hf1 Htw Htf). eexists (layers ++ L), _. split; [done|]. by rewrite forallb_app, HL, HL1.
Qed.

Lemma scrub_step_clean d c M : view (Digest d) = Ok c -> graph d -> memo_wf M -> all_fine M -> chain_below (Datatypes.S n) d = true ->
  clean M (scrub_step repo tag (scrubManifest n repo tag) d c (at_memo M)).
Proof.
  intros Hv Hd Hm Hf Hc. pose proof (Hintact d Hd) as Hi. apply andb_prop in Hi as [Hsh Hly].
  assert (forall x, x ∈ refs d -> graph x /\ chain_below n x = true) as Hx.
  { intros x Hx. split; [by eapply Hgraph|]. cbn [Scrub.chain_below] in Hc. rewrite forallb_forall in Hc. by apply Hc, list_elem_of_In. }
  unfold scrub_step. rewrite (bind_step _ _ _ _ _ (find_run _ _)). destruct (M !! Digest d) as [row|] eqn:Er.
  { assert (fine row = true) as Hrf by (apply (Hf (Digest d)); unfold mark; by rewrite Er).
    destruct (take_over_fine row (Hm _ _ Er) Hrf) as [Htw Htf]. destruct (memo_fine M (Digest d) _ Hm Hf Htw Htf).
    by eexists [], _. }
  unfold references in Hx. unfold shell_intact in Hsh. unfold image_layers in Hly. rewrite Hv in Hx, Hsh, Hly.
  set (row := newScrubImageResult repo tag statusOK "" None).
  destruct (IsImageIndexMediaType (MediaType d)) eqn:Hmt.
  - apply bool_decide_eq_true in Hsh as [idx Ei]. rewrite Ei in Hx. unfold scrub_index. rewrite Ei.
    destruct (children_clean (Digest d) (Manifests idx) [] M) as (L&M1&E&Hm1&Hf1&HL);
      [intros x ?; apply Hx; set_solver| |done|done|].
    { apply forallb_forall. intros x ?%list_elem_of_In. apply Hx. set_solver. }
    rewrite (bind_step _ _ _ _ _ E). cbv beta iota. rewrite (bind_step _ _ _ _ _ (find_run _ _)), fine_not_affected by done. cbn [negb andb].
    rewrite (bind_step _ _ _ tt (at_memo (<[Digest d := row]> M1))) by done.
    destruct (memo_fine M1 (Digest d) row Hm1 Hf1) as [Hm2 Hf2]; [by left|done|].
    apply index_subject_clean; [|done..]. intros x Hs. apply Hx. rewrite Hs. set_solver.
  - apply andb_prop in Hsh as [Hmm Hman]. rewrite Hmm in Hx |- *. unfold scrub_image.
    destruct (CheckManifestAndConfig_run d c Hv Hmt) as (blob&man&E&Hr). rewrite (bind_step _ _ _ _ _ (on_store_run _ _ _ E)).
    cbv beta iota. destruct man as [m|x].
    2:{ destruct Hr as [_ Hr]. unfold shell_intact in Hr. rewrite Hv, Hmt, Hmm in Hr. simpl in Hr. congruence. }
    destruct Hr as (Hu&_&_). rewrite Hu in Hx, Hly. rewrite getResult_ok. rewrite (bind_step _ _ _ _ _ (lift_run _ _)).
    rewrite (bind_step _ _ _ _ _ (set_run _ _ _)). destruct (memo_fine M (Digest d) row Hm Hf) as [Hm2 Hf2]; [by left|done|].
    apply image_subject_clean; [|done..]. intros x Hs. apply Hx. rewrite Hs. by left.
Qed.
End clean.

Lemma scrubManifest_clean n tag d c M : view (Digest d) = Ok c -> graph d -> memo_wf M -> all_fine M -> chain_below n d = true ->
  clean M (scrubManifest n repo tag d c (at_memo M)).
Proof.
  revert d c M. induction n as [|n IH]; intros d c M Hv Hd Hm Hf Hc; [done|]. cbn [scrubManifest].
  apply scrub_step_clean; [|done..]. intros. by apply IH.
Qed.
End closed.

(** *** The rows of a repository *)
Lemma checkImage_missing n d tag M x : view (Digest d) = Err x ->
  attempt (checkImage n d repo tag) (at_memo M) = (Ok (Err ErrManifestNotFound), at_memo M).
Proof.
  intros Hv. apply attempt_run; [|by intros [p [=]]]. unfold checkImage. by rewrite (bind_step _ _ _ _ _ (run_blob _ _)), Hv.
Qed.
Lemma checkImage_found n d tag M c : view (Digest d) = Ok c ->
  checkImage n d repo tag (at_memo M) = scrubManifest n repo tag d c (at_memo M).
Proof. intros Hv. unfold checkImage. by rewrite (bind_step _ _ _ _ _ (run_blob _ _)), Hv. Qed.

Definition layers_verified (r : res (list Descriptor)) : Prop := forall L, r = Ok L -> forallb (verified verify) L = true.

Lemma check_walked_run tag d r M b : memo_wf M -> mark M d = Some b ->
  check_walked repo tag d r (at_memo M) = (Err ErrBadDigestFormat, at_memo M) /\ ~ layers_verified r \/
  exists M' b', check_walked repo tag d r (at_memo M) = (Ok tt, at_memo M') /\ memo_wf M' /\ mark M' d = Some b' /\
    (forall x, x <> d -> mark M' x = mark M x) /\ (b' = true <-> b = true /\ layers_verified r).
Proof.
  intros Hm Hb. unfold check_walked.
  assert ((forall L, r = Ok L -> L = []) -> exists M' b', (Ok tt, at_memo M) = (Ok tt, at_memo M') /\ memo_wf M' /\ mark M' d = Some b' /\
    (forall x, x <> d -> mark M' x = mark M x) /\ (b' = true <-> b = true /\ layers_verified r)) as Hsame.
  { intros HL. exists M, b. split_and!; try done. split; [|by intros [? _]]. intros ->. split; [done|]. by intros L ->%HL. }
  destruct r as [[|l ls]|x]; [right; apply Hsame; by intros L [= <-]| |right; by apply Hsame].
  rewrite (bind_step _ _ _ _ _ (find_run _ _)), not_affected_mark, Hb by done.
  destruct (CheckLayers_run tag (l :: ls) no_result) as [[E Hv]|(row&E&Hrw&Hrf)]; [by right|left|right].
  { rewrite (bind_stop _ _ _ _ _ (on_store_run _ _ _ E)). split; [done|]. intros HL. by rewrite HL in Hv. }
  rewrite (bind_step _ _ _ _ _ (on_store_run _ _ _ E)). rewrite bool_decide_true, andb_true_r in Hrf by done.
  assert (layers_verified (Ok (l :: ls)) <-> fine row = true) as Hlv.
  { rewrite Hrf. split; [intros HL; by apply HL|]. by intros HL L [= <-]. }
  destruct b; cbn [negb bool_decide decide].
  - rewrite bool_decide_false by done. eexists (<[d := row]> M), (fine row). split; [done|]. split; [by apply memo_wf_insert|].
    rewrite mark_insert, decide_True by done. split; [done|]. split; [intros x Hx; by rewrite mark_insert, decide_False|]. naive_solver.
  - rewrite bool_decide_true by done. exists M, false. split_and!; try done. split; [done|by intros [? _]].
Qed.

Section report.
Hypothesis (Halive : env_alive e = None) (Hgraph : forall d x : Descriptor, graph d -> x ∈ refs d -> graph x).
Local Notation readable d := (is_ok (view (Digest d))).

Definition closed (M : memo) : Prop :=
  forall d b, mark M d = Some b -> b = true /\ exists L, forallb (verified verify) L = true /\ good M L d.
(** What rows that are all fine say. *)
Definition closed_step (l : list Descriptor) (M M' : memo) : Prop :=
  closed M -> closed M' /\ (forall d, mark M d = Some true -> mark M' d = Some true) /\
    forall d, d ∈ l -> readable d = true -> mark M' (Digest d) = Some true.
Definition report_end (n : nat) (l : list Descriptor) (results : list ScrubImageResult) (M : memo) (r : res report) (M' : memo) : Prop :=
  r = Err ErrBadDigestFormat \/
  panics r /\ forallb (fun d : Descriptor => negb (readable d) || chain_below n d) l = false \/
  exists rows, r = Ok (results ++ rows, None) /\ Forall row_wf rows /\ (forallb fine rows = true -> closed_step l M M').

Lemma closed_walk M M1 M2 L : closed M -> step ∅ M M1 L -> (forall x, mark M2 x = mark M1 x) -> forallb (verified verify) L = true ->
  closed M2.
Proof.
  intros Hc Hs He HL x b. rewrite He. intros Hx. destruct (mark M x) as [b0|] eqn:E0.
  - destruct (Hc x b0 E0) as [-> (L0&HL0&Hg)]. rewrite (step_kept _ _ _ _ _ _ _ Hs _ _ E0) in Hx. injection Hx as <-.
    split; [done|]. exists L0. split; [done|]. eapply good_mono; [exact Hg| |done]. intros y Hy. rewrite He. by eapply step_kept.
  - destruct (step_new _ _ _ _ _ _ _ Hs x b) as [-> Hg]; [set_solver|done..|]. split; [done|]. exists L. split; [done|].
    eapply good_mono; [exact Hg| |done]. intros y. by rewrite He.
Qed.

Lemma check_images_run n l results M : (forall d, d ∈ l -> readable d = true -> graph d) -> memo_wf M ->
  exists r M', check_images n repo l results (at_memo M) = (r, at_memo M') /\ report_end n l results M r M'.
Proof.
  revert results M. induction l as [|d l IH]; intros results M Hg Hm; cbn [check_images].
  { exists (Ok (results, None)), M. split; [done|]. right; right. exists []. rewrite app_nil_r. split_and!; [done..|].
    intros _ Hc. split_and!; [done..|]. by intros x ?%elem_of_nil. }
  rewrite (bind_step _ _ _ false (at_memo M)) by (unfold on_env, zoom; simpl; by rewrite (alive_never e Halive)).
  cbv iota zeta. set (tag := default "" (ref_name d)).
  assert (forall x, x ∈ l -> readable x = true -> graph x) as Hg' by (intros x Hx; apply Hg; by right).
  destruct (view (Digest d)) as [c|x] eqn:Hv.
  2:{ rewrite (bind_step _ _ _ _ _ (checkImage_missing n d tag M x Hv)). rewrite (bind_step _ _ _ tt (at_memo M)) by done.
      rewrite bool_decide_true by done. destruct (IH results M Hg' Hm) as (r&M'&E&He). exists r, M'. split; [exact E|].
      unfold report_end in *. cbn [forallb]. rewrite Hv. destruct He as [?|[?|(rows&?&?&He)]]; [by left|right; by left|right; right].
      exists rows. split_and!; [done..|]. intros Hr Hc. destruct (He Hr Hc) as (?&?&Hl). split_and!; [done..|].
      intros y [->|Hy]%elem_of_cons Hry; [by rewrite Hv in Hry|by apply Hl]. }
  assert (graph d) as Hd by (apply Hg; [by left|by rewrite Hv]).
  pose proof (scrubManifest_run Hgraph n tag d c M Hv Hd Hm) as (r&M1&E&Ho). rewrite <-(checkImage_found n d tag M c Hv) in E.
  destruct Ho as [->|[[[p ->] Hc]|((Hp&Hn&Hm1&Hw)&[b Hb]&Hf)]].
  { eexists _, _. split; [exact (bind_stop _ _ _ _ _ (attempt_panics _ _ _ _ E))|by left]. }
  { eexists _, _. split; [exact (bind_stop _ _ _ _ _ (attempt_panics _ _ _ _ E))|]. right; left. split; [by eexists|].
    cbn [forallb]. by rewrite Hv, Hc. }
  rewrite (bind_step _ _ _ _ _ (attempt_run _ _ _ _ E Hp)).
  destruct (check_walked_run tag (Digest d) r M1 b Hm1 Hb) as [[E1 _]|(M2&b2&E1&Hm2&Hb2&Hext&Hbv)].
  { rewrite (bind_stop _ _ _ _ _ E1). eexists _, _. split; [done|by left]. }
  rewrite (bind_step _ _ _ _ _ E1). rewrite bool_decide_false by done.
  destruct (find_marked M2 (Digest d) b2 Hm2 Hb2) as (row&Hrow&Hrw&Hrf).
  rewrite (bind_step _ _ _ _ _ (find_run _ _)), Hrow. cbn [from_option id].
  destruct (IH (results ++ [row]) M2 Hg' Hm2) as (r'&M'&E'&He). exists r', M'. split; [exact E'|].
  destruct He as [?|[[? Hcl]|(rows&->&Hrows&He)]]; [by left|right; left; split; [done|]|right; right].
  { cbn [forallb]. by rewrite Hcl, andb_false_r. }
  exists (row :: rows). split; [by rewrite <-app_assoc|]. split; [by constructor|]. cbn [forallb]. intros [Hr1 Hr2]%andb_prop Hcl.
  rewrite Hrf in Hr1. subst b2. destruct (proj1 Hbv Hr1) as [-> HL]. destruct (Hf Hb) as (L&->&Hst). specialize (HL L eq_refl).
  assert (forall x, mark M2 x = mark M1 x) as Hext'.
  { intros x. destruct (decide (x = Digest d)) as [->|]; [congruence|by apply Hext]. }
  destruct (He Hr2) as (Hc'&Hk&Hl); [by eapply closed_walk|]. split; [done|]. split.
  - intros x Hx. apply Hk. rewrite Hext'. by eapply step_kept.
  - intros x [->|Hx]%elem_of_cons Hrx; [|by apply Hl]. apply Hk. by rewrite Hext'.
Qed.

Lemma check_images_clean n l results M : (forall d, graph d -> intact view verify d = true) ->
  (forall d, d ∈ l -> readable d = true -> graph d /\ chain_below n d = true) -> memo_wf M -> all_fine M ->
  exists rows M', check_images n repo l results (at_memo M) = (Ok (results ++ rows, None), at_memo M') /\ forallb fine rows = true.
Proof.
  intros Hi. revert results M. induction l as [|d l IH]; intros results M Hg Hm Hf; cbn [check_images].
  { exists [], M. by rewrite app_nil_r. }
  rewrite (bind_step _ _ _ false (at_memo M)) by (unfold on_env, zoom; simpl; by rewrite (alive_never e Halive)).
  cbv iota zeta. set (tag := default "" (ref_name d)).
  assert (forall x, x ∈ l -> readable x = true -> graph x /\ chain_below n x = true) as Hg' by (intros x Hx; apply Hg; by right).
  destruct (view (Digest d)) as [c|x] eqn:Hv.
  2:{ rewrite (bind_step _ _ _ _ _ (checkImage_missing n d tag M x Hv)). rewrite (bind_step _ _ _ tt (at_memo M)) by done.
      rewrite bool_decide_true by done. by apply IH. }
  destruct (Hg d) as [Hd Hc]; [by left|by rewrite Hv|].
  destruct (scrubManifest_clean Hgraph Hi n tag d c M Hv Hd Hm Hf Hc) as (L&M1&E&Hm1&Hf1&HL).
  destruct (scrubManifest_run Hgraph n tag d c M Hv Hd Hm) as (r&M2&E2&Ho). rewrite E in E2. injection E2 as <- <-.
  destruct Ho as [[=]|[[[p [=]] _]|(_&[b Hb]&_)]]. rewrite <-(checkImage_found n d tag M c Hv) in E.
  rewrite (bind_step _ _ _ _ _ (attempt_run _ _ _ _ E (ok_calm _))).
  assert (layers_verified (Ok L)) as Hlv by by intros ? [= <-].
  destruct (check_walked_run tag (Digest d) (Ok L) M1 b Hm1 Hb) as [[_ Hn]|(M2&b2&E1&Hm2&Hb2&Hext&Hbv)]; [done|].
  rewrite (bind_step _ _ _ _ _ E1). rewrite bool_decide_false by done.
  assert (b2 = true) as -> by (apply Hbv; split; [by eapply Hf1|done]).
  destruct (find_marked M2 (Digest d) true Hm2 Hb2) as (row&Hrow&Hrw&Hrf).
  rewrite (bind_step _ _ _ _ _ (find_run _ _)), Hrow. cbn [from_option id].
  destruct (IH (results ++ [row]) M2) as (rows&M'&E'&Hr); [done|done| |].
  { intros x b'. destruct (decide (x = Digest d)) as [->|Hx]; [congruence|]. rewrite Hext by done. apply Hf1. }
  exists (row :: rows), M'. split; [by rewrite E', <-app_assoc|]. cbn [forallb]. by rewrite Hrf.
Qed.
End report.
End runs.

(** ** The report of a repository *)

(** Every row of the report says that the image is ok. *)
Definition all_ok (r : res report) : Prop := exists rows, r = Ok (rows, None) /\ Forall (fun row => sr_Status row = statusOK) rows.
Lemma all_fine_rows rows : forallb fine rows = true <-> Forall (fun row => sr_Status row = statusOK) rows.
Proof.
  rewrite forallb_forall, Forall_forall. split; intros Hr x Hx; specialize (Hr x).
  - apply list_elem_of_In, Hr, bool_decide_eq_true in Hx. done.
  - apply bool_decide_eq_true, Hr. by apply list_elem_of_In.
Qed.

Section check_repo.
Context {S : Type} `{ScrubStoreI S} `{OciCodec} `{ConfigCodec} `{DigestEncoding}.
Context (repo : string) (s : S) (e : env) (view : string -> res string) (verify : string -> res unit) (depth : nat).
Context (content : string) (index : Index).
Hypothesis (Hreads : reads_as repo s view verify) (Halive : env_alive e = None).
Hypothesis (Hvalid : sb_ValidateRepo repo s = (Ok true, s)) (Hindex : sb_GetIndexContent repo s = (Ok content, s)).
Hypothesis (Hparse : unmarshal_index content = Some index).
Local Notation ms := (Manifests index).

Lemma CheckRepo_images : exists M', CheckRepo depth repo (s, e) =
  (fst (check_images depth repo ms [] (mkWalk s e ∅)), M') /\
  (wk_store (snd (check_images depth repo ms [] (mkWalk s e ∅))) , wk_env (snd (check_images depth repo ms [] (mkWalk s e ∅)))) = M'.
Proof.
  eexists. split; [|done]. unfold CheckRepo.
  assert (in_store (getIndex repo) (s, e) = (Ok content, (s, e))) as E.
  { unfold in_store, zoom, getIndex. cbn [fst snd]. rewrite (bind_step _ _ _ _ _ Hvalid). cbn [negb]. by rewrite Hindex. }
  rewrite (bind_step _ _ _ _ _ (attempt_run _ _ _ _ E (ok_calm _))), Hparse. unfold fresh_walk. cbn [fst snd].
  by destruct (check_images depth repo ms [] (mkWalk s e ∅)) as [r w].
Qed.

Hypothesis Hdepth : forallb (fun d => negb (is_ok (view (Digest d))) || chain_below view depth d) ms = true.

Lemma listed_chain d : d ∈ ms -> is_ok (view (Digest d)) = true -> walked view ms d /\ chain_below view depth d = true.
Proof.
  intros Hd Hr. split; [by apply walked_listed|]. rewrite forallb_forall in Hdepth.
  specialize (Hdepth d). rewrite Hr in Hdepth. apply Hdepth. by apply list_elem_of_In.
Qed.
Lemma below_walked : forall d x, walked view ms d -> x ∈ references view d -> walked view ms x.
Proof. intros d x Hd Hx. by eapply walked_below. Qed.

Lemma CheckRepo_answers : exists r, CheckRepo depth repo (s, e) = (r, (s, e)) /\
  (r = Err ErrBadDigestFormat \/ exists rows, r = Ok (rows, None) /\ Forall row_wf rows).
Proof.
  destruct CheckRepo_images as (x&E&<-).
  destruct (check_images_run repo s e view verify Hreads (walked view ms) Halive below_walked depth ms [] ∅)
    as (r&M'&E'&Hr); [intros; by apply listed_chain|done|].
  rewrite E' in E. exists r. split; [exact E|]. destruct Hr as [->|[[_ Hc]|(rows&->&Hw&_)]]; [by left|congruence|].
  right. by exists rows.
Qed.

Lemma CheckRepo_intact : (forall d, walked view ms d -> intact view verify d = true) -> all_ok (fst (CheckRepo depth repo (s, e))).
Proof.
  intros Hi. destruct CheckRepo_images as (x&->&_). cbn [fst].
  destruct (check_images_clean repo s e view verify Hreads (walked view ms) Halive below_walked depth ms [] ∅ Hi)
    as (rows&M'&->&Hr); [apply listed_chain|done|by intros ? ? [=]|].
  exists rows. split; [done|]. by apply all_fine_rows.
Qed.

Hypothesis Htyped : typed view ms.
Lemma closed_intact M : closed view verify (walked view ms) M ->
  (forall d, d ∈ ms -> is_ok (view (Digest d)) = true -> mark M (Digest d) = Some true) ->
  forall d, walked view ms d -> intact view verify d = true.
Proof.
  intros Hc Hl d Hw. enough (mark M (Digest d) = Some true) as Hm.
  { destruct (Hc _ _ Hm) as (_&L&HL&x&Hx&Hd&Hs&Hi&_). destruct (typed_same view verify ms x d Htyped Hx Hw Hd) as (_&Hsh&Hly).
    unfold intact. rewrite <-Hsh, <-Hly, Hs. apply forallb_forall. intros y Hy%list_elem_of_In. rewrite forallb_forall in HL.
    by apply HL, list_elem_of_In, Hi. }
  induction Hw as [d Hd Hr|d b Hw IH Hb]; [by apply Hl|].
  destruct (Hc _ _ IH) as (_&L&_&x&Hx&Hd&_&_&Hrefs). destruct (typed_same view verify ms x d Htyped Hx Hw Hd) as (Href&_).
  apply Hrefs. by rewrite Href.
Qed.

Lemma CheckRepo_ok : all_ok (fst (CheckRepo depth repo (s, e))) -> forall d, walked view ms d -> intact view verify d = true.
Proof.
  intros (rows&Hr&Hok). destruct CheckRepo_images as (x&E&_). rewrite E in Hr. cbn [fst] in Hr.
  destruct (check_images_run repo s e view verify Hreads (walked view ms) Halive below_walked depth ms [] ∅)
    as (r&M'&E'&Hend); [intros; by apply listed_chain|done|].
  rewrite E' in Hr. cbn [fst] in Hr. subst r. destruct Hend as [[=]|[[[p [=]] _]|(rows'&[= <-]&_&Hc)]].
  assert (closed view verify (walked view ms) ∅) as H0c by by intros ? ? [=].
  destruct (Hc (proj2 (all_fine_rows _) Hok) H0c) as (Hcl&_&Hl). by apply closed_intact with (M := M').
Qed.
End check_repo.



(** ** An image listed on its own after an index that has it *)

(** The layers of a manifest met below an index are only looked at for the row
    of the index: in a repository that lists an index and then one of its
    manifests, a layer of that manifest that does not hash to its digest makes
    the row of the index affected and leaves that of the manifest ok. *)
Section shared.
Context {S : Type} `{ScrubStoreI S} `{OciCodec} `{ConfigCodec} `{DigestEncoding}.
Context (repo : string) (s : S) (e : env) (view : string -> res string) (verify : string -> res unit).
Hypothesis (Hreads : reads_as repo s view verify) (Halive : env_alive e = None).
Local Notation at_memo := (mkWalk s e).

(** A manifest without a subject, met for the first time. *)
Lemma plain_manifest_run n tag d c m M : view (Digest d) = Ok c -> M !! Digest d = None ->
  IsImageIndexMediaType (MediaType d) = false -> shell_intact view verify d = true ->
  unmarshal_manifest c = Some m -> m_Subject m = None ->
  scrubManifest (Datatypes.S n) repo tag d c (at_memo M) =
    (Ok (Layers m), at_memo (<[Digest d := newScrubImageResult repo tag statusOK "" None]> M)).
Proof.
  intros Hv Hd Hi Hsh Hu Hs. cbn [scrubManifest]. unfold scrub_step. rewrite (bind_step _ _ _ _ _ (find_run s e _ _)), Hd, Hi.
  pose proof Hsh as Hmm. unfold shell_intact in Hmm. rewrite Hv, Hi in Hmm. apply andb_prop in Hmm as [Hmm _]. rewrite Hmm.
  unfold scrub_image. destruct (CheckManifestAndConfig_run repo s view verify Hreads d c Hv Hi) as (blob&man&E&Hr).
  rewrite (bind_step _ _ _ _ _ (on_store_run s e _ _ _ E)). cbv beta iota. destruct man as [m'|x]; [|destruct Hr; congruence].
  destruct Hr as (Hu'&_&_). assert (m' = m) as -> by congruence. by rewrite Hs.
Qed.
(** A digest met before. *)
Lemma met_again_run n tag d c row M : M !! Digest d = Some row ->
  scrubManifest (Datatypes.S n) repo tag d c (at_memo M) = (Ok [], at_memo (<[Digest d := take_over repo tag row]> M)).
Proof. intros Hd. cbn [scrubManifest]. unfold scrub_step. by rewrite (bind_step _ _ _ _ _ (find_run s e _ _)), Hd. Qed.

(** An index of one manifest without a subject. *)
Lemma index_of_one_run n tag i d ci cd idx m M : view (Digest i) = Ok ci -> view (Digest d) = Ok cd ->
  M !! Digest i = None -> M !! Digest d = None -> Digest i <> Digest d ->
  IsImageIndexMediaType (MediaType i) = true -> IsImageIndexMediaType (MediaType d) = false ->
  unmarshal_index ci = Some idx -> Manifests idx = [d] -> idx_Subject idx = None ->
  shell_intact view verify d = true -> unmarshal_manifest cd = Some m -> m_Subject m = None ->
  let row := newScrubImageResult repo tag statusOK "" None in
  scrubManifest (Datatypes.S (Datatypes.S n)) repo tag i ci (at_memo M) =
    (Ok (Layers m), at_memo (<[Digest i := row]> (<[Digest d := row]> M))).
Proof.
  intros Hvi Hvd Hi Hd Hn Hti Htd Hui Hms Hsub Hsh Hum Hms' row. cbn [scrubManifest]. unfold scrub_step at 1.
  rewrite (bind_step _ _ _ _ _ (find_run s e _ _)), Hi, Hti. unfold scrub_index. rewrite Hui, Hms, Hsub. cbn [scrub_children].
  assert (scrub_step repo tag (scrubManifest n repo tag) d cd (at_memo M) = (Ok (Layers m), at_memo (<[Digest d := row]> M))) as E
    by by apply (plain_manifest_run n tag d cd m M).
  unfold bind at 1 2. rewrite (run_blob repo s e view verify Hreads), Hvd.
  rewrite (bind_step _ _ _ _ _ (attempt_run _ _ _ _ E (ok_calm _))).
  rewrite (bind_step _ _ _ _ _ (find_run s e _ _)). cbv zeta. rewrite lookup_insert, decide_True by done. cbn [from_option id sr_Error row newScrubImageResult ret].
  rewrite (bind_step _ _ _ _ _ (find_run s e _ _)). rewrite lookup_insert, decide_False by done. rewrite Hi. done.
Qed.

Lemma CheckLayers_encoded tag ls r0 : (forall l, l ∈ ls -> encoded_of (Digest l) <> None) ->
  fst (CheckLayers repo tag ls r0 s) <> Err ErrBadDigestFormat.
Proof.
  revert r0. induction ls as [|l ls IH]; intros r0 He; cbn [CheckLayers]; [done|].
  rewrite (bind_step _ _ _ _ _ (run_verify repo s view verify Hreads _)). destruct (verify (Digest l)).
  - rewrite (bind_step _ _ _ _ _ (eq_refl : lift_res (getResult repo tag "" None) s = (Ok _, s))). apply IH. intros x Hx. apply He. by right.
  - unfold lift_res, getResult. specialize (He l (list_elem_of_here _ _)). by destruct (encoded_of (Digest l)).
Qed.

(** One turn of the loop over the rows of index.json. *)
Lemma check_image_run n d l results c layers M M1 M2 row : view (Digest d) = Ok c ->
  let tag := default "" (ref_name d) in
  scrubManifest n repo tag d c (at_memo M) = (Ok layers, at_memo M1) ->
  check_walked repo tag (Digest d) (Ok layers) (at_memo M1) = (Ok tt, at_memo M2) -> M2 !! Digest d = Some row ->
  check_images n repo (d :: l) results (at_memo M) = check_images n repo l (results ++ [row]) (at_memo M2).
Proof.
  intros Hv tag E Ew Hr. cbn [check_images].
  rewrite (bind_step _ _ _ false (at_memo M)) by (unfold on_env, zoom; simpl; by rewrite (alive_never e Halive)).
  cbv iota zeta. fold tag. rewrite <-(checkImage_found repo s e view verify Hreads n d tag M c Hv) in E.
  rewrite (bind_step _ _ _ _ _ (attempt_run _ _ _ _ E (ok_calm _))), (bind_step _ _ _ _ _ Ew).
  rewrite bool_decide_false by done. by rewrite (bind_step _ _ _ _ _ (find_run s e _ _)), Hr.
Qed.
(** Layers that are not all right make a row that was fine affected. *)
Lemma bad_layers_run tag d layers row M : memo_wf M -> M !! d = Some row -> fine row = true ->
  forallb (verified verify) layers = false -> (forall l, l ∈ layers -> encoded_of (Digest l) <> None) ->
  exists row', check_walked repo tag d (Ok layers) (at_memo M) = (Ok tt, at_memo (<[d := row']> M)) /\ sr_Status row' = statusAffected.
Proof.
  intros Hm Hd Hf Hbad Henc. destruct layers as [|l ls]; [done|]. unfold check_walked.
  rewrite (bind_step _ _ _ _ _ (find_run s e _ _)), Hd. destruct (wf_fine row (Hm _ _ Hd)) as [_ Hna]. rewrite Hf in Hna.
  destruct (CheckLayers_run repo s view verify Hreads tag (l :: ls) no_result) as [[E _]|(row'&E&Hrw&Hrf)]; [by right| |].
  { destruct (CheckLayers_encoded tag (l :: ls) no_result Henc). by rewrite E. }
  rewrite (bind_step _ _ _ _ _ (on_store_run s e _ _ _ E)). cbn [not_affected]. rewrite <-Hna. exists row'. split; [done|].
  rewrite Hbad in Hrf. destruct (wf_fine row' Hrw) as [_ Hx]. rewrite Hrf in Hx. by destruct Hrw as [[Hs _]|[Hs _]]; [rewrite Hs in Hx|].
Qed.
End shared.

(** C24 When index.json lists an index and then its only manifest, and the
    manifest and its config are intact but not all of its layers, the report
    says that the index is affected and that the manifest is ok. *)
Theorem shared_manifest_reported_ok {S} `{ScrubStoreI S} `{OciCodec} `{ConfigCodec} `{DigestEncoding}
    (repo : string) (s : S) (e : env) (view : string -> res string) (verify : string -> res unit)
    (content ci cd : string) (i d d' : Descriptor) (index idx : Index) (m : Manifest) (n : nat) :
  reads_as repo s view verify -> env_alive e = None ->
  sb_ValidateRepo repo s = (Ok true, s) -> sb_GetIndexContent repo s = (Ok content, s) ->
  unmarshal_index content = Some index -> Manifests index = [i; d'] ->
  view (Digest i) = Ok ci -> IsImageIndexMediaType (MediaType i) = true ->
  unmarshal_index ci = Some idx -> Manifests idx = [d] -> idx_Subject idx = None ->
  Digest d' = Digest d -> Digest i <> Digest d -> view (Digest d) = Ok cd ->
  IsImageIndexMediaType (MediaType d) = false -> shell_intact view verify d = true ->
  unmarshal_manifest cd = Some m -> m_Subject m = None ->
  forallb (verified verify) (Layers m) = false -> (forall l, l ∈ Layers m -> encoded_of (Digest l) <> None) ->
  exists r1 r2, fst (CheckRepo (2 + n) repo (s, e)) = Ok ([r1; r2], None) /\
    sr_Status r1 = statusAffected /\ sr_Status r2 = statusOK.
Proof.
  intros Hreads Halive Hval Hind Hp Hl Hvi Hti Hui Hms Hsub Hdd Hn Hvd Htd Hsh Hum Hmsub Hbad Henc.
  destruct (CheckRepo_images repo s e (2 + n) content index Hval Hind Hp) as (x&->&_). cbn [fst]. rewrite Hl.
  set (row := newScrubImageResult repo (default "" (ref_name i)) statusOK "" None).
  assert (row_wf row) as Hrw by by left.
  set (M1 := (<[Digest i := row]> (<[Digest d := row]> ∅) : memo)).
  assert (memo_wf M1) as Hm1 by (apply memo_wf_insert; [done|by apply memo_wf_insert]).
  assert (M1 !! Digest i = Some row) as Hi1 by (unfold M1; by rewrite lookup_insert, decide_True).
  destruct (bad_layers_run repo s e view verify Hreads (default "" (ref_name i)) (Digest i) (Layers m) row M1 Hm1 Hi1 eq_refl Hbad Henc)
    as (r1&Ew&Hr1).
  rewrite (check_image_run repo s e view verify Hreads Halive (2 + n) i [d'] [] ci (Layers m) ∅ M1 (<[Digest i := r1]> M1) r1 Hvi);
    [|by apply (index_of_one_run repo s e view verify Hreads n _ i d ci cd idx m ∅)|exact Ew|by rewrite lookup_insert, decide_True].
  set (M2 := <[Digest i := r1]> M1).
  assert (M2 !! Digest d' = Some row) as Hd2.
  { unfold M2, M1. rewrite Hdd. rewrite lookup_insert, decide_False by done. rewrite lookup_insert, decide_False by done.
    by rewrite lookup_insert, decide_True. }
  rewrite <-Hdd in Hvd. set (tag := default "" (ref_name d')).
  rewrite (check_image_run repo s e view verify Hreads Halive (2 + n) d' [] ([] ++ [r1]) cd [] M2 (<[Digest d' := take_over repo tag row]> M2)
      (<[Digest d' := take_over repo tag row]> M2)
    (take_over repo tag row) Hvd); [|by apply met_again_run|done|by rewrite lookup_insert, decide_True].
  exists r1, (take_over repo tag row). by split_and!.
Qed.

(** ** The image store of ImageStore.v *)
Section store.
Context {C : Type} `{CacheLaws C} `{GoDigestLaws} `{OciCodec} `{ConfigCodec} `{DigestEncoding} (cfg : config fs C) (repo : string).
Local Notation root := (cf_rootDir cfg).
Local Notation store := (store fs C).

#[local] Instance scrub_store : ScrubStoreI store := {
  sb_GetRepositories := IS.GetRepositories cfg;
  sb_ValidateRepo := IS.ValidateRepo cfg;
  sb_GetIndexContent := IS.GetIndexContent cfg;
  sb_GetBlobContent := IS.GetBlobContent cfg;
  sb_VerifyBlobDigestValue := IS.VerifyBlobDigestValue cfg
}.

(** A blob is there under a digest of the canonical algorithm. *)
Definition canonical_blob (view : string -> res string) (d : string) : res unit :=
  if is_ok (view d) && bool_decide (Algorithm d = Canonical) then Ok tt else Err ErrBadBlobDigest.

Hypothesis Hrepo : repo_ok repo.

Section tidy.
Context (s : store).
Hypothesis Hs : tidy cfg repo s.
Local Notation view := (blob_view cfg repo s).

Lemma blob_error d x : Validate d = Some x -> ordinary x.
Proof. intros ->%validate_error. done. Qed.
Lemma canonical_content d c : Validate d = None -> view d = Ok c ->
  bool_decide (FromBytes Canonical c = d) = bool_decide (Algorithm d = Canonical).
Proof.
  intros Hv Hc. assert (FromBytes (Algorithm d) c = d) as Hd.
  { destruct (IS.GetBlobContent cfg repo d s) as [r s'] eqn:E. unfold blob_view in Hc. rewrite E in Hc. simpl in Hc. subst r.
    eapply GetBlobContent_content; [exact Hrepo|apply Hs|exact E]. }
  apply bool_decide_ext. split; intros Hx; [|by rewrite <-Hx].
  rewrite <-Hx. apply frombytes_alg, canonical_available.
Qed.

(** The two ways a read of a blob can go. *)
Lemma blob_read d :
  (exists c, view d = Ok c /\ IS.GetBlobContent cfg repo d s = (Ok c, s) /\
     IS.VerifyBlobDigestValue cfg repo d s = (if bool_decide (Algorithm d = Canonical) then Ok tt else Err ErrBadBlobDigest, s)) \/
  (exists x, view d = Err x /\ ordinary x /\ IS.GetBlobContent cfg repo d s = (Err x, s) /\
     IS.VerifyBlobDigestValue cfg repo d s = (Err x, s)).
Proof.
  pose proof (canonical_content d) as Hcan. unfold blob_view in *. unfold IS.GetBlobContent, IS.VerifyBlobDigestValue, IS.valid in *.
  destruct (Validate d) as [x|] eqn:Hv.
  { right. exists x. split_and!; [done|by eapply blob_error|done..]. }
  unfold bind in *. cbn [ret] in *.
  destruct (original_run cfg repo Hrepo _ _ s (steady_start cfg repo (fun _ => False) s Hs) d Hv) as [(fi&k&E&Hp&Hk)|[E _]].
  - left. rewrite E in *. rewrite Hp in *. unfold IS.drv in *. cbn [ReadFile Reader local_driver] in *.
    change (Local.Reader (IS.BlobPath cfg repo d) 0) with (Local.ReadFile (IS.BlobPath cfg repo d)).
    rewrite (read_file_run _ _ _ Hk) in *. eexists. split; [done|]. split; [by destruct s|].
    cbn [fst] in Hcan. rewrite (Hcan _ eq_refl eq_refl). destruct s. by destruct (bool_decide _).
  - right. rewrite E. exists ErrBlobNotFound. by split_and!.
Qed.

Definition hashed (d : string) : res unit := fst (IS.VerifyBlobDigestValue cfg repo d s).
Lemma store_reads : reads_as repo s view hashed.
Proof.
  split; intros d; [..|intros x|intros x]; unfold hashed; cbn [sb_GetBlobContent sb_VerifyBlobDigestValue scrub_store];
    destruct (blob_read d) as [(c&Ev&Eg&Eh)|(y&Ev&Ho&Eg&Eh)]; rewrite ?Eg, ?Ev, ?Eh; cbn [fst]; try done.
  - by intros [= <-].
  - by destruct (bool_decide _); intros [= <-].
  - by intros [= <-].
Qed.
Lemma hashed_canonical d : is_ok (hashed d) = is_ok (canonical_blob view d).
Proof.
  unfold hashed, canonical_blob. destruct (blob_read d) as [(c&->&_&->)|(y&->&_&_&->)]; [|done]. cbn [fst is_ok andb].
  by destruct (bool_decide _).
Qed.
End tidy.

Lemma intact_same view v1 v2 d : (forall x, is_ok (v1 x) = is_ok (v2 x)) -> intact view v1 d = intact view v2 d.
Proof.
  intros Hv. unfold intact, shell_intact, config_intact, verified. f_equal.
  - repeat case_match; by rewrite ?Hv.
  - induction (image_layers view d) as [|l ls IH]; [done|]. cbn [forallb]. by rewrite Hv, IH.
Qed.
Lemma validate_state s : snd (IS.ValidateRepo cfg repo s) = s.
Proof.
  assert (reads (IS.ValidateRepo cfg repo)) as Hr.
  { intros s0. unfold IS.ValidateRepo. pose proof (reads_list (path_join root repo) s0). pres. }
  destruct (IS.ValidateRepo cfg repo s) as [r s'] eqn:E. by apply (Hr s s r s' eq_refl).
Qed.
Lemma index_state s : snd (IS.GetIndexContent cfg repo s) = s.
Proof. destruct (IS.GetIndexContent cfg repo s) as [r s'] eqn:E. by apply (reads_index cfg repo s s r s' eq_refl). Qed.
End store.

