(* ===== verification/Users.v ===== *)
(** * The data of users (pkg/meta/boltdb, pkg/api/routes.go, pkg/extensions)

    What the database remembers of each user next to the repositories: the
    repositories starred and bookmarked, the groups, and the API keys with the
    bucket that finds the owner of a key. The handlers of the user preferences
    and of the API keys are on top. The number of stars of a repository is kept
    in its own record; the theorems say when it is right. The codecs of the
    records give back what they were given; a map of keys may be missing. *)

From Stdlib Require Import ZArith Lia Ascii String.
From stdpp Require Import base tactics list gmap strings.
From S2P Require Import Prelude Runtime Regexp Oci StorageCommon GC Aggregates MetaDB Authz.

Local Open Scope string_scope.
Local Open Scope list_scope.

(** ** Records (pkg/meta/types) *)
Record APIKeyDetails : Type := mkAPIKey {
  ak_CreatedAt : Z;
  ak_ExpirationDate : Z;
  ak_IsExpired : bool;
  ak_CreatorUA : string;
  ak_GeneratedBy : string;
  ak_LastUsed : Z;
  ak_Label : string;
  ak_Scopes : list string;
  ak_UUID : string
}.
Definition zero_key : APIKeyDetails := mkAPIKey zero_time zero_time false "" "" zero_time "" [] "".
Definition with_expired (b : bool) (d : APIKeyDetails) : APIKeyDetails :=
  mkAPIKey (ak_CreatedAt d) (ak_ExpirationDate d) b (ak_CreatorUA d) (ak_GeneratedBy d) (ak_LastUsed d) (ak_Label d)
    (ak_Scopes d) (ak_UUID d).
Definition with_last_used (t : Z) (d : APIKeyDetails) : APIKeyDetails :=
  mkAPIKey (ak_CreatedAt d) (ak_ExpirationDate d) (ak_IsExpired d) (ak_CreatorUA d) (ak_GeneratedBy d) t (ak_Label d)
    (ak_Scopes d) (ak_UUID d).

Record UserData : Type := mkUserData {
  ud_StarredRepos : list string;
  ud_BookmarkedRepos : list string;
  ud_Groups : list string;
  ud_APIKeys : option (gmap string APIKeyDetails)   (* [None]: a nil map *)
}.
Definition new_user : UserData := mkUserData [] [] [] None.
Definition with_starred (l : list string) (d : UserData) : UserData :=
  mkUserData l (ud_BookmarkedRepos d) (ud_Groups d) (ud_APIKeys d).
Definition with_bookmarked (l : list string) (d : UserData) : UserData :=
  mkUserData (ud_StarredRepos d) l (ud_Groups d) (ud_APIKeys d).
Definition with_groups (l : list string) (d : UserData) : UserData :=
  mkUserData (ud_StarredRepos d) (ud_BookmarkedRepos d) l (ud_APIKeys d).
Definition with_keys (m : option (gmap string APIKeyDetails)) (d : UserData) : UserData :=
  mkUserData (ud_StarredRepos d) (ud_BookmarkedRepos d) (ud_Groups d) m.

Inductive ToggleState : Type := NotChanged | Added | Removed.

Definition ErrUserDataNotFound : err := ErrOther "user data not found for given user identifier".
Definition ErrUserDataNotAllowed : err := ErrOther "user data operations are not allowed".
Definition ErrUserAPIKeyNotFound : err := ErrOther "user info for given API key hash not found".
Definition ErrKeyTooLarge : err := ErrOther "key too large".
Definition ErrNilMapWrite : err := ErrPanic "assignment to entry in nil map".

(** ** The database *)
Record userdb : Type := mkUserdb {
  u_meta : bolt;                       (* the buckets of MetaDB.v *)
  u_data : gmap string UserData;       (* UserDataBucket *)
  u_keys : gmap string string          (* UserAPIKeysBucket: the hash of a key, then its owner *)
}.
Definition set_meta (b : bolt) (u : userdb) : userdb := mkUserdb b (u_data u) (u_keys u).
Definition set_data (f : gmap string UserData -> gmap string UserData) (u : userdb) : userdb :=
  mkUserdb (u_meta u) (f (u_data u)) (u_keys u).
Definition set_keys (f : gmap string string -> gmap string string) (u : userdb) : userdb :=
  mkUserdb (u_meta u) (u_data u) (f (u_keys u)).
Definition on_bolt {A} (m : ST bolt A) : ST userdb A := zoom u_meta set_meta m.
Definition now_u : ST userdb Z := on_bolt tx_now.

(** bbolt's Update over all the buckets. *)
Definition transaction {A} (m : ST userdb A) : ST userdb A := fun u =>
  match m u with
  | (Ok a, u') => (Ok a, u')
  | (Err e, u') => (Err e, set_meta (set_env (b_env (u_meta u')) (u_meta u)) u)
  end.
(** The limits of bbolt's Put on a key. *)
Definition put_key (key : string) : ST userdb unit :=
  if bool_decide (key = "") then throw ErrKeyRequired
  else if (32768 <? Z.of_nat (String.length key))%Z then throw ErrKeyTooLarge
  else ret tt.

Definition getUserData (userid : string) : ST userdb UserData :=
  let* u := get in
  match u_data u !! userid with Some d => ret d | None => throw ErrUserDataNotFound end.
(** The data, or those of a user not seen before. *)
Definition user_or_new (userid : string) : ST userdb UserData :=
  gets (fun u => default new_user (u_data u !! userid)).
Definition setUserData (userid : string) (d : UserData) : ST userdb unit :=
  put_key userid ;;; modify (set_data <[userid := d]>).

(** RemoveFrom of pkg/common. *)
Definition RemoveFrom (inputSlice : list string) (item : string) : list string :=
  filter (fun v => item <> v) inputSlice.

Section users.
Context `{CelEngine} `{MapIter} `{Glob}.

(** The user of the request, who must have a name. *)
Definition as_user {A} (uac : UserAccessControl) (k : string -> ST userdb A) : ST userdb A :=
  if IsAnonymous uac then throw ErrUserDataNotAllowed else k (GetUsername uac).
Definition as_reader {A} (uac : UserAccessControl) (repo : string) (k : string -> ST userdb A) : ST userdb A :=
  if IsAnonymous uac || negb (Can uac ReadPermission repo) then throw ErrUserDataNotAllowed else k (GetUsername uac).

(** ** Stars and bookmarks *)
Definition toggled (l : list string) (repo : string) : ToggleState * list string :=
  if contains l repo then (Removed, RemoveFrom l repo) else (Added, l ++ [repo]).

Definition ToggleStarRepo (uac : UserAccessControl) (repo : string) : ST userdb ToggleState :=
  as_reader uac repo (fun userid => transaction (
    let* userData := user_or_new userid in
    let '(res, starred) := toggled (ud_StarredRepos userData) repo in
    setUserData userid (with_starred starred userData) ;;;
    let* protoRepoMeta := on_bolt (existing_repo ErrRepoMetaNotFound repo) in
    let stars := pr_Stars protoRepoMeta in
    let stars := match res with Added => int32 (stars + 1) | Removed => int32 (stars - 1) | NotChanged => stars end in
    on_bolt (setProtoRepoMeta (with_stars protoRepoMeta stars)) ;;;
    ret res)).

Definition ToggleBookmarkRepo (uac : UserAccessControl) (repo : string) : ST userdb ToggleState :=
  as_reader uac repo (fun userid => transaction (
    let* userData := user_or_new userid in
    let '(res, bookmarked) := toggled (ud_BookmarkedRepos userData) repo in
    setUserData userid (with_bookmarked bookmarked userData) ;;;
    ret res)).

(** ** The record of a user *)
Definition GetUserData (uac : UserAccessControl) : ST userdb UserData := as_user uac getUserData.
Definition SetUserData (uac : UserAccessControl) (d : UserData) : ST userdb unit :=
  as_user uac (fun userid => transaction (setUserData userid d)).
Definition DeleteUserData (uac : UserAccessControl) : ST userdb unit :=
  as_user uac (fun userid => transaction (modify (set_data (delete userid)))).

Definition listed_repos (field : UserData -> list string) (uac : UserAccessControl) : ST userdb (list string) :=
  let* r := attempt (GetUserData uac) in
  match r with
  | Ok d => ret (field d)
  | Err e => if bool_decide (e = ErrUserDataNotFound \/ e = ErrUserDataNotAllowed) then ret [] else throw e
  end.
Definition GetStarredRepos : UserAccessControl -> ST userdb (list string) := listed_repos ud_StarredRepos.
Definition GetBookmarkedRepos : UserAccessControl -> ST userdb (list string) := listed_repos ud_BookmarkedRepos.
(** getUserStars and getUserBookmarks, for the searches. *)
Definition user_repos (field : UserData -> list string) (uac : UserAccessControl) (u : userdb) : list string :=
  if bool_decide (GetUsername uac = "") then []
  else match u_data u !! GetUsername uac with Some d => field d | None => [] end.
Definition getUserStars : UserAccessControl -> userdb -> list string := user_repos ud_StarredRepos.
Definition getUserBookmarks : UserAccessControl -> userdb -> list string := user_repos ud_BookmarkedRepos.

Definition SetUserGroups (uac : UserAccessControl) (groups : list string) : ST userdb unit :=
  as_user uac (fun userid => transaction (
    let* userData := user_or_new userid in
    setUserData userid (with_groups groups userData))).
Definition GetUserGroups (uac : UserAccessControl) : ST userdb (list string) :=
  let* d := GetUserData uac in ret (ud_Groups d).

(** ** API keys *)

(** [userData.APIKeys[hashedKey] = details]. *)
Definition store_key (userid hashedKey : string) (details : APIKeyDetails) (d : UserData) : ST userdb unit :=
  match ud_APIKeys d with
  | None => throw ErrNilMapWrite
  | Some keys => setUserData userid (with_keys (Some (<[hashedKey := details]> keys)) d)
  end.
Definition key_details (hashedKey : string) (d : UserData) : APIKeyDetails :=
  default zero_key (keys ← ud_APIKeys d; keys !! hashedKey).

Definition UpdateUserAPIKeyLastUsed (uac : UserAccessControl) (hashedKey : string) : ST userdb unit :=
  as_user uac (fun userid => transaction (
    let* userData := getUserData userid in
    let* now := now_u in
    store_key userid hashedKey (with_last_used now (key_details hashedKey userData)) userData)).

(** Whether a date that is set has passed. *)
Definition past (date : Z) : ST userdb bool :=
  if IsZero date then ret false else let* now := now_u in ret (date <? now)%Z.

Definition IsAPIKeyExpired (uac : UserAccessControl) (hashedKey : string) : ST userdb bool :=
  as_user uac (fun userid => transaction (
    let* userData := getUserData userid in
    let details := key_details hashedKey userData in
    if ak_IsExpired details then ret true
    else
      let* expired := past (ak_ExpirationDate details) in
      store_key userid hashedKey (if (expired : bool) then with_expired true details else details) userData ;;;
      ret expired)).

Fixpoint stamp_expired (userid : string) (keys : list (string * APIKeyDetails)) (d : UserData)
    (apiKeys : list APIKeyDetails) : ST userdb (list APIKeyDetails) :=
  match keys with
  | [] => ret apiKeys
  | (hashedKey, details) :: rest =>
      let* expired := past (ak_ExpirationDate details) in
      let details := if (expired : bool) then with_expired true details else details in
      let d := with_keys (<[hashedKey := details]> <$> ud_APIKeys d) d in
      setUserData userid d ;;;
      stamp_expired userid rest d (apiKeys ++ [details])
  end.
Definition GetUserAPIKeys (uac : UserAccessControl) : ST userdb (list APIKeyDetails) :=
  as_user uac (fun userid => transaction (
    let* userData := user_or_new userid in
    stamp_expired userid (map_iter (default ∅ (ud_APIKeys userData))) userData [])).

Definition AddUserAPIKey (uac : UserAccessControl) (hashedKey : string) (details : APIKeyDetails) : ST userdb unit :=
  as_user uac (fun userid => transaction (
    put_key hashedKey ;;;
    modify (set_keys <[hashedKey := userid]>) ;;;
    let* userData := user_or_new userid in
    setUserData userid (with_keys (Some (<[hashedKey := details]> (default ∅ (ud_APIKeys userData)))) userData))).

Fixpoint drop_keys (keyID : string) (keys : list (string * APIKeyDetails)) (d : UserData) : ST userdb UserData :=
  match keys with
  | [] => ret d
  | (hash, details) :: rest =>
      if bool_decide (ak_UUID details = keyID) then
        modify (set_keys (delete hash)) ;;;
        drop_keys keyID rest (with_keys (delete hash <$> ud_APIKeys d) d)
      else drop_keys keyID rest d
  end.
Definition DeleteUserAPIKey (uac : UserAccessControl) (keyID : string) : ST userdb unit :=
  as_user uac (fun userid => transaction (
    let* userData := getUserData userid in
    let* userData := drop_keys keyID (map_iter (default ∅ (ud_APIKeys userData))) userData in
    setUserData userid userData)).

(** ResetDB: every bucket but the dates of the repositories. *)
Definition ResetDB : ST userdb unit := transaction (modify (fun u =>
  mkUserdb (mkBolt ∅ ∅ ∅ (b_RepoLastUpdated (u_meta u)) ∅ "" (b_trusted (u_meta u)) (b_env (u_meta u))) ∅ ∅)).

Definition GetUserAPIKeyInfo (hashedKey : string) : ST userdb string :=
  let* u := get in
  match u_keys u !! hashedKey with
  | Some userid => if bool_decide (userid = "") then throw ErrUserAPIKeyNotFound else ret userid
  | None => throw ErrUserAPIKeyNotFound
  end.

(** ** The handlers: the status of the answer *)
Definition query_get (query : gmap string (list string)) (key : string) : string :=
  default "" (vs ← query !! key; head vs).
Definition QueryHasParams (query : gmap string (list string)) (params : list string) : bool :=
  forallb (fun p => bool_decide (is_Some (query !! p))) params.

(** PutStar and PutBookmark. *)
Definition put_pref (toggle : string -> ST userdb ToggleState) (query : gmap string (list string)) : ST userdb Z :=
  if negb (QueryHasParams query ["repo"]) then ret 400%Z
  else
    let repo := query_get query "repo" in
    if bool_decide (repo = "") then ret 404%Z
    else
      let* r := attempt (toggle repo) in
      ret (match r with
           | Ok _ => 200
           | Err e => if bool_decide (e = ErrRepoMetaNotFound) then 404
                      else if bool_decide (e = ErrUserDataNotAllowed) then 403 else 500
           end)%Z.
Definition HandleUserPrefs (query : gmap string (list string)) (uac : UserAccessControl) : ST userdb Z :=
  if negb (QueryHasParams query ["action"]) then ret 400%Z
  else
    let action := query_get query "action" in
    if bool_decide (action = "toggleBookmark") then put_pref (ToggleBookmarkRepo uac) query
    else if bool_decide (action = "toggleStar") then put_pref (ToggleStarRepo uac) query
    else ret 400%Z.

Context `{GoDigest}.

(** hashUUID of pkg/api/authn.go. *)
Definition hashUUID (uuid : string) : string := Encoded (FromBytes Canonical uuid).
Definition APIKeysPrefix : string := "zak_".

(** The body of a request for a key: too large, not read, not JSON, or the
    payload. *)
Record APIKeyPayload : Type := mkPayload { py_Label : string; py_Scopes : list string; py_ExpirationDate : string }.
Inductive payload_body : Type := BodyTooLarge | BodyUnread | BodyNotJSON | BodyPayload (p : APIKeyPayload).

(** GenerateAPIKey on the identifiers drawn at random: the key without its
    dashes, and its identifier. *)
Definition GenerateAPIKey (keyBase keyID : res string) : res (string * string) :=
  res_bind keyBase (fun base => res_bind keyID (fun id => Ok (foldr String.append "" (split_on "-" base), id))).

(** [parse] is time.ParseInLocation with the local zone. *)
Definition CreateAPIKey (parse : string -> option Z) (keyBase keyID : res string) (userAgent : string)
    (body : payload_body) (uac : UserAccessControl) : ST userdb (Z * string) :=
  match body with
  | BodyTooLarge => ret (413%Z, "")
  | BodyUnread => ret (500%Z, "")
  | BodyNotJSON => ret (400%Z, "")
  | BodyPayload payload =>
      match GenerateAPIKey keyBase keyID with
      | Err _ => ret (500%Z, "")
      | Ok (apiKey, apiKeyID) =>
          let* createdAt := now_u in
          let expirationDate :=
            if bool_decide (py_ExpirationDate payload = "") then Some zero_time
            else match parse (py_ExpirationDate payload) with
                 | Some t => if (t <? createdAt)%Z then None else Some t
                 | None => None
                 end in
          match expirationDate with
          | None => ret (400%Z, "")
          | Some t =>
              let* r := attempt (AddUserAPIKey uac (hashUUID apiKey)
                (mkAPIKey createdAt t false userAgent "manual" zero_time (py_Label payload) (py_Scopes payload) apiKeyID)) in
              ret (match r with Ok _ => (201%Z, (APIKeysPrefix ++ apiKey)%string) | Err _ => (500%Z, "") end)
          end
      end
  end.
Definition RevokeAPIKey (query : gmap string (list string)) (uac : UserAccessControl) : ST userdb Z :=
  match query !! "id" with
  | Some [keyID] =>
      let* r := attempt (DeleteUserAPIKey uac keyID) in
      ret (if is_ok r then 200 else 500)%Z
  | _ => ret 400%Z
  end.
Definition GetAPIKeys (uac : UserAccessControl) : ST userdb (Z * list APIKeyDetails) :=
  let* r := attempt (GetUserAPIKeys uac) in
  ret (match r with Ok keys => (200, keys) | Err _ => (500, []) end)%Z.
End users.

(** ** The stars of a repository *)

(** Whatever the other operations of the database do, the stars of a record
    stay those of its name. *)
Section stars.
Context (stars : string -> Z) (needed : string -> Prop).

Definition stars_are (b : bolt) : Prop := forall repo,
  match b_RepoMeta b !! repo with
  | Some m => pr_Name m = repo /\ pr_Stars m = stars repo
  | None => stars repo = 0%Z /\ ~ needed repo
  end.
Definition starred_right (repo : string) (m : ProtoRepoMeta) : Prop := pr_Name m = repo /\ pr_Stars m = stars repo.

Lemma stars_meta b b' : b_RepoMeta b' = b_RepoMeta b -> stars_are b -> stars_are b'.
Proof. unfold stars_are. by intros ->. Qed.
Lemma stars_set_env b e : stars_are b -> stars_are (set_env e b).
Proof. by apply stars_meta. Qed.

Lemma stars_update {A} (m : ST bolt A) Q : ensures stars_are m Q -> ensures stars_are (update m) Q.
Proof.
  intros Hm b r b' Hb. unfold update. destruct (m b) as [[a|e] b1] eqn:E; intros [= <- <-].
  - exact (Hm _ _ _ Hb E).
  - split; [by apply stars_set_env|done].
Qed.
Lemma stars_read repo : ensures stars_are (getProtoRepoMeta repo) (fun p => starred_right repo (fst p)).
Proof.
  intros b r b' Hb. rewrite get_repo. intros [= <- <-]. split; [done|]. specialize (Hb repo). unfold read_repo, starred_right. simpl.
  by destruct (b_RepoMeta b !! repo) as [m|]; simpl; [|destruct Hb as [-> _]].
Qed.
Lemma stars_existing e repo : ensures stars_are (existing_repo e repo) (starred_right repo).
Proof.
  unfold existing_repo. eapply ensures_bind; [apply stars_read|]. intros [m []] Hm; [by apply ensures_ret|apply ensures_throw].
Qed.
Lemma stars_insert b repo m : starred_right repo m -> stars_are b -> stars_are (set_repo_meta <[repo := m]> b).
Proof.
  intros Hm Hb r. simpl. destruct (decide (repo = r)) as [<-|Hne]; [rewrite lookup_insert_eq; exact Hm|].
  rewrite lookup_insert_ne by done. apply Hb.
Qed.
Lemma stars_write repo m : starred_right repo m -> preserves stars_are (setProtoRepoMeta m).
Proof. intros Hm b r b' Hb [= _ <-]. destruct Hm as [<- Hs]. by apply stars_insert. Qed.
Lemma stars_modify f : (forall b, b_RepoMeta (f b) = b_RepoMeta b) -> preserves stars_are (modify f).
Proof. intros Hf b r b' Hb [= _ <-]. exact (stars_meta b (f b) (Hf b) Hb). Qed.
Lemma stars_clock {A} (m : ST env A) : preserves stars_are (on_clock m).
Proof. intros b r b' Hb E. destruct (clock_zoom m b) as (r0&e&E'). rewrite E in E'. injection E' as _ ->. by apply stars_set_env. Qed.
End stars.
#[export] Hint Extern 1 (preserves (stars_are _ _) (gets _)) => apply preserves_gets : pres.
#[export] Hint Extern 1 (preserves (stars_are _ _) (modify _)) => (apply stars_modify; reflexivity) : pres.
#[export] Hint Extern 1 (preserves (stars_are _ _) (appendTagHistory _ _)) => (apply stars_modify; reflexivity) : pres.
#[export] Hint Extern 1 (preserves (stars_are _ _) tx_now) => apply stars_clock : pres.
#[export] Hint Resolve stars_clock : pres.

Section stars_ops.
Context `{GoDigest} `{MapIter} `{!ImageTrustStore} (stars : string -> Z) (needed : string -> Prop).
Local Notation right := (starred_right stars).
Local Notation ens := (ensures (stars_are stars needed)).

(** A step that leaves the records alone, then the rest. *)
Lemma stars_then {A B} (m : ST bolt A) (k : A -> ST bolt B) Q :
  preserves (stars_are stars needed) m -> (forall a, ens (k a) Q) -> ens (bind m k) Q.
Proof. intros Hm Hk. eapply ensures_bind; [by apply preserves_ensures|]. intros a _. apply Hk. Qed.
Lemma stars_set repo m : right repo m -> ens (setProtoRepoMeta m) (fun _ => True).
Proof. intros Hm. by apply preserves_ensures, (stars_write _ _ repo). Qed.
Lemma stars_change e repo (k : ProtoRepoMeta -> ST bolt unit) :
  (forall m, right repo m -> ens (k m) (fun _ => True)) -> ens (update (bind (existing_repo e repo) k)) (fun _ => True).
Proof. intros Hk. apply stars_update. eapply ensures_bind; [apply stars_existing|]. apply Hk. Qed.

Lemma right_set_tag repo reference im ts userid m : right repo m ->
  ens (set_tag repo reference im ts userid m) (right repo).
Proof.
  intros Hm. unfold set_tag. destruct (ReferenceIsDigest reference); [by apply ensures_ret|]. cbv zeta.
  apply stars_then; [pres|]. intros t. apply stars_then; [pres|]. intros _. by apply ensures_ret.
Qed.
Lemma right_set_statistics repo d ts userid m : right repo m -> ens (set_statistics d ts userid m) (right repo).
Proof. intros Hm. unfold set_statistics. apply stars_then; [pres|]. intros st. by apply ensures_ret. Qed.
Lemma right_ensure repo d m : right repo m -> right repo (ensure_entries d m).
Proof. unfold ensure_entries. by destruct (pr_Signatures m !! d); simpl; destruct (pr_Referrers m !! d). Qed.
Lemma right_delete_tags repo userid tags : forall m, right repo m -> ens (delete_tags repo userid tags m) (right repo).
Proof.
  induction tags as [|t tags IH]; intros m Hm; simpl; [by apply ensures_ret|].
  apply stars_then; [unfold record_delete; pres|]. intros _. by apply IH.
Qed.
Lemma right_add_image repo m blobs reference im m' blobs' : right repo m ->
  AddImageMetaToRepoMeta m blobs reference im = Ok (m', blobs') -> right repo m'.
Proof.
  intros Hm. unfold AddImageMetaToRepoMeta. destruct (if IsImageManifestMediaType _ then _ else _) as [bs|]; [|done].
  destruct (IsDigest reference); [by intros [= <- _]|]. cbv zeta. destruct (bs !! im_Digest im); intros E; repeat case_match; simplify_eq; exact Hm.
Qed.
Lemma right_remove_image repo m blobs m' blobs' : right repo m ->
  RemoveImageFromRepoMeta m blobs = Some (m', blobs') -> right repo m'.
Proof. intros Hm. unfold RemoveImageFromRepoMeta. intros E. destruct (foldl _ _ _) as [[a u]|]; [|done]. injection E as <- _. exact Hm. Qed.

Lemma stars_push repo reference im ts userid : ens (SetRepoReference repo reference im ts userid) (fun _ => True).
Proof.
  unfold SetRepoReference. destruct (ValidateRepoReferenceInput _ _ _); [apply ensures_throw|]. apply stars_update. cbv zeta.
  apply stars_then; [apply stars_modify; by destruct (GetProtoImageMeta im)|]. intros _.
  eapply ensures_bind; [apply stars_read|]. intros [m f] Hm. simpl in Hm.
  destruct (add_referrer_same (GetProtoImageMeta im) m) as [refs ->].
  eapply ensures_bind; [by apply right_set_tag|]. intros m1 Hm1.
  eapply ensures_bind; [by apply right_set_statistics|]. intros m2 Hm2.
  apply stars_then; [unfold unmarshalProtoRepoBlobs; pres|]. intros blobs.
  eapply ensures_bind with (P := fun p => right repo (fst p)).
  { apply ensures_lift_res. intros [m' b'] E. by eapply right_add_image in E; [|apply right_ensure]. }
  intros [m' b'] Hm'. apply stars_then; [pres|]. intros now. apply stars_then; [unfold setRepoLastUpdated; pres|]. intros _.
  apply stars_then; [unfold setProtoRepoBlobs; pres|]. intros _. by apply (stars_set repo).
Qed.
Lemma stars_remove repo reference d userid : ens (RemoveRepoReference repo reference d userid) (fun _ => True).
Proof.
  unfold RemoveRepoReference. apply stars_update. eapply ensures_bind; [apply stars_read|]. intros [m found] Hm. simpl in Hm.
  destruct (negb found); [by apply ensures_ret|]. apply stars_then; [pres|]. intros [image|]; [|by apply ensures_ret]. cbv zeta.
  eapply ensures_bind; [apply right_delete_tags|].
  { unfold remove_referrer. by destruct (GetImageSubject (Some image)). }
  intros m1 Hm1. assert (right repo (forget_untagged d m1)) as Hm2 by (unfold forget_untagged; by destruct (existsb _ _)).
  apply stars_then; [unfold unmarshalProtoRepoBlobs; pres|]. intros blobs. apply stars_then; [pres|]. intros now.
  apply stars_then; [unfold setRepoLastUpdated; pres|]. intros _.
  destruct (RemoveImageFromRepoMeta _ _) as [[m' b']|] eqn:E; [|apply ensures_throw].
  apply stars_then; [unfold setProtoRepoBlobs; pres|]. intros _. apply (stars_set repo). by eapply right_remove_image in E.
Qed.
Lemma stars_verify d repo image sigs : forall v, preserves (stars_are stars needed) (verify_types d repo image sigs v).
Proof. induction sigs as [|[t l] sigs IH]; intros v; simpl; pres. Qed.

(** The operations that count stars themselves are left out. *)
Definition counts_stars (o : meta_op) : bool :=
  match o with OpIncrementRepoStars _ | OpDecrementRepoStars _ => true | _ => false end.

Lemma stars_op o : counts_stars o = false ->
  (forall repo, o = OpDeleteRepoMeta repo -> stars repo = 0%Z /\ ~ needed repo) -> ens (do_op o) (fun _ => True).
Proof.
  intros Ho Hdel. destruct o; try done; simpl.
  - apply stars_push.
  - apply stars_remove.
  - apply stars_update. eapply ensures_bind; [apply stars_read|]. intros [m found] Hm. simpl in Hm.
    destruct (negb found); [by apply (stars_set repo)|]. cbv zeta. case_decide; [apply ensures_throw|by apply (stars_set repo)].
  - apply stars_change. intros m Hm. destruct (pr_Signatures m !! _) as [sigs|]; [|apply ensures_throw].
    destruct (sigs !! signatureType); [by apply (stars_set repo)|apply ensures_throw].
  - apply stars_update. apply stars_then; [apply preserves_get|]. intros b. destruct (negb _); [by apply ensures_ret|].
    destruct (b_ImageMeta b !! _); [|by apply ensures_ret]. eapply ensures_bind; [apply stars_existing|]. intros m Hm.
    destruct (pr_Signatures m !! _); [|apply ensures_throw]. apply stars_then; [apply stars_verify|]. intros v. by apply (stars_set repo).
  - apply stars_update. destruct (Hdel repo eq_refl) as [Hs Hn]. apply stars_then.
    { intros b r b' Hb [= _ <-] r'. simpl. destruct (decide (repo = r')) as [<-|Hne]; [by rewrite lookup_delete_eq|].
      rewrite lookup_delete_ne by done. apply Hb. }
    intros _. apply preserves_ensures. pres.
  - apply stars_update. eapply ensures_bind; [apply stars_read|]. intros [m found] Hm. simpl in Hm.
    destruct (negb found); [by apply ensures_ret|]. apply preserves_ensures. intros b r b' Hb [= _ <-].
    apply stars_insert; [|done]. by destruct Hm.
  - apply stars_change. intros m Hm. apply stars_then; [pres|]. intros d. apply stars_then; [pres|]. intros st.
    apply stars_then; [pres|]. intros now. by apply (stars_set repo).
  - apply preserves_ensures, stars_modify. done.
Qed.
End stars_ops.

(** ** Operations in sequence *)
Section run.
Context `{CelEngine} `{MapIter} `{!MapIterLaws} `{Glob} `{GoDigest} `{!ImageTrustStore}.

Inductive user_op : Type :=
  | UMeta (o : meta_op)
  | UToggleStar (uac : UserAccessControl) (repo : string)
  | UToggleBookmark (uac : UserAccessControl) (repo : string)
  | USetGroups (uac : UserAccessControl) (groups : list string)
  | UKeyUsed (uac : UserAccessControl) (hashedKey : string)
  | UKeyExpired (uac : UserAccessControl) (hashedKey : string)
  | UListKeys (uac : UserAccessControl)
  | UAddKey (uac : UserAccessControl) (hashedKey : string) (details : APIKeyDetails)
  | UDeleteKey (uac : UserAccessControl) (keyID : string)
  | USetData (uac : UserAccessControl) (d : UserData)
  | UDeleteData (uac : UserAccessControl)
  | UResetDB.
Definition discard {A} (m : ST userdb A) : ST userdb unit := m ;;; ret tt.
Definition do_user_op (o : user_op) : ST userdb unit :=
  match o with
  | UMeta o => on_bolt (do_op o)
  | UToggleStar uac repo => discard (ToggleStarRepo uac repo)
  | UToggleBookmark uac repo => discard (ToggleBookmarkRepo uac repo)
  | USetGroups uac groups => SetUserGroups uac groups
  | UKeyUsed uac hashedKey => UpdateUserAPIKeyLastUsed uac hashedKey
  | UKeyExpired uac hashedKey => discard (IsAPIKeyExpired uac hashedKey)
  | UListKeys uac => discard (GetUserAPIKeys uac)
  | UAddKey uac hashedKey details => AddUserAPIKey uac hashedKey details
  | UDeleteKey uac keyID => DeleteUserAPIKey uac keyID
  | USetData uac d => SetUserData uac d
  | UDeleteData uac => DeleteUserData uac
  | UResetDB => ResetDB
  end.
Definition run_users (ops : list user_op) (u : userdb) : userdb := foldl (fun u o => snd (do_user_op o u)) u ops.
Definition new_userdb (trusted : bool) (e : env) : userdb := mkUserdb (empty_bolt trusted e) ∅ ∅.

(** A condition on each operation where it happens. *)
Fixpoint all_along (P : user_op -> userdb -> Prop) (ops : list user_op) (u : userdb) : Prop :=
  match ops with
  | [] => True
  | o :: rest => P o u /\ all_along P rest (snd (do_user_op o u))
  end.
Lemma run_users_invariant (P : user_op -> userdb -> Prop) (I : userdb -> Prop) ops :
  (forall o u, P o u -> I u -> I (snd (do_user_op o u))) ->
  forall u, all_along P ops u -> I u -> I (run_users ops u).
Proof. intros Hop. induction ops as [|o ops IH]; intros u; [done|]. intros [Ho Hops] Hu. by apply IH; [|apply Hop]. Qed.

(** *** Who starred what *)
Definition starred (u : userdb) (user : string) : list string :=
  match u_data u !! user with Some d => ud_StarredRepos d | None => [] end.
Definition starrers (u : userdb) (repo : string) : gset string :=
  dom (filter (fun entry => repo ∈ ud_StarredRepos (snd entry)) (u_data u)).
Definition star_count (u : userdb) (repo : string) : Z := Z.of_nat (size (starrers u repo)).

Lemma elem_of_starrers u repo user : user ∈ starrers u repo <-> repo ∈ starred u user.
Proof.
  unfold starrers, starred. rewrite elem_of_dom. split.
  - intros [d [Hd Hr]%map_lookup_filter_Some]. by rewrite Hd.
  - destruct (u_data u !! user) as [d|] eqn:E; [|by intros ?%not_elem_of_nil]. intros Hr. exists d. by apply map_lookup_filter_Some.
Qed.
Lemma starrers_same u u' : (forall user, starred u' user = starred u user) -> forall repo, starrers u' repo = starrers u repo.
Proof. intros Hs repo. apply set_eq. intros user. by rewrite !elem_of_starrers, Hs. Qed.

Definition stars_exact (u : userdb) : Prop :=
  stars_are (fun repo => int32 (star_count u repo)) (fun repo => starrers u repo <> ∅) (u_meta u).
Lemma stars_exact_same u u' : b_RepoMeta (u_meta u') = b_RepoMeta (u_meta u) ->
  (forall user, starred u' user = starred u user) -> stars_exact u -> stars_exact u'.
Proof.
  unfold stars_exact, stars_are, star_count. intros Hm Hs Hu repo. rewrite Hm, (starrers_same u u' Hs). apply Hu.
Qed.

(** An operation that leaves the records and the stars of the users alone. *)
Definition same_stars (u0 u : userdb) : Prop :=
  b_RepoMeta (u_meta u) = b_RepoMeta (u_meta u0) /\ forall user, starred u user = starred u0 user.

Section idle.
Context (u0 : userdb).
Local Notation I := (same_stars u0).
Lemma same_put_key key : preserves I (put_key key).
Proof. unfold put_key. pres. Qed.
Lemma same_set_keys f : preserves I (modify (set_keys f)).
Proof. by intros u r u' Hu [= _ <-]. Qed.
Lemma same_now : preserves I now_u.
Proof. by intros u r u' Hu [= _ <-]. Qed.
#[local] Hint Resolve same_put_key same_set_keys same_now : pres.
Lemma same_past date : preserves I (past date).
Proof. unfold past. pres. Qed.
Lemma same_user userid : ensures I (user_or_new userid) (fun d => ud_StarredRepos d = starred u0 userid).
Proof.
  intros u r u' Hu [= <- <-]. split; [done|]. destruct Hu as [_ Hs]. rewrite <-Hs. unfold starred. by destruct (u_data u !! userid).
Qed.
Lemma same_get userid : ensures I (getUserData userid) (fun d => ud_StarredRepos d = starred u0 userid).
Proof.
  intros u r u' Hu. unfold getUserData, bind, get. destruct (u_data u !! userid) as [d|] eqn:E; intros [= <- <-]; [|done].
  split; [done|]. destruct Hu as [_ Hs]. rewrite <-Hs. unfold starred. by rewrite E.
Qed.
Lemma same_set userid d : ud_StarredRepos d = starred u0 userid -> preserves I (setUserData userid d).
Proof.
  intros Hd. unfold setUserData. apply preserves_bind; [apply same_put_key|]. intros _ u r u' [Hm Hs] [= _ <-]. split; [done|].
  intros user. unfold starred. simpl. destruct (decide (userid = user)) as [<-|Hne]; [by rewrite lookup_insert_eq, Hd|].
  rewrite lookup_insert_ne by done. apply Hs.
Qed.
Lemma same_transaction {A} (m : ST userdb A) : preserves I m -> preserves I (transaction m).
Proof. intros Hm u r u' Hu. unfold transaction. destruct (m u) as [[a|e] u1] eqn:E; intros [= <- <-]; [by eapply Hm|done]. Qed.
Lemma same_user_then {A} userid (k : UserData -> ST userdb A) :
  (forall d, ud_StarredRepos d = starred u0 userid -> preserves I (k d)) ->
  preserves I (bind (user_or_new userid) k) /\ preserves I (bind (getUserData userid) k).
Proof.
  intros Hk. split; eapply ensures_preserves, ensures_bind with (Q := fun _ => True); try apply same_user; try apply same_get;
    intros d Hd; by apply preserves_ensures, Hk.
Qed.
Lemma same_store userid h details d : ud_StarredRepos d = starred u0 userid -> preserves I (store_key userid h details d).
Proof. intros Hd. unfold store_key. destruct (ud_APIKeys d); [by apply same_set|apply preserves_throw]. Qed.
Lemma same_stamp userid l : forall d out, ud_StarredRepos d = starred u0 userid -> preserves I (stamp_expired userid l d out).
Proof.
  induction l as [|[h details] l IH]; intros d out Hd; simpl; [apply preserves_ret|].
  apply preserves_bind; [apply same_past|]. intros expired. apply preserves_bind; [by apply same_set|]. intros _. by apply IH.
Qed.
Lemma same_drop_keys userid keyID l : forall d, ud_StarredRepos d = starred u0 userid ->
  ensures I (drop_keys keyID l d) (fun d => ud_StarredRepos d = starred u0 userid).
Proof.
  induction l as [|[h details] l IH]; intros d Hd; simpl; [by apply ensures_ret|]. case_bool_decide; [|by apply IH].
  eapply ensures_bind; [apply preserves_ensures, same_set_keys|]. intros _ _. by apply IH.
Qed.
Lemma same_as_user {A} uac (k : string -> ST userdb A) : (forall userid, preserves I (k userid)) -> preserves I (as_user uac k).
Proof. intros Hk. unfold as_user. destruct (IsAnonymous uac); [apply preserves_throw|apply Hk]. Qed.

(** The operations of users but the toggling of stars. *)
Definition leaves_stars (o : user_op) : bool :=
  match o with UMeta _ | UToggleStar _ _ | USetData _ _ | UDeleteData _ | UResetDB => false | _ => true end.
Lemma same_op o : leaves_stars o = true -> preserves I (do_user_op o).
Proof.
  intros Ho. destruct o; try done; simpl; unfold discard; try (apply preserves_bind; [|intros ?; apply preserves_ret]);
    try (apply same_as_user; intros userid; apply same_transaction).
  - unfold ToggleBookmarkRepo, as_reader. destruct (_ || _); [apply preserves_throw|]. apply same_transaction, same_user_then.
    intros d Hd. destruct (toggled _ _) as [res l]. apply preserves_bind; [by apply same_set|]. intros _. apply preserves_ret.
  - apply same_user_then. intros d Hd. by apply same_set.
  - apply same_user_then. intros d Hd. apply preserves_bind; [apply same_now|]. intros now. by apply same_store.
  - apply same_user_then. intros d Hd. cbv zeta. destruct (ak_IsExpired _); [apply preserves_ret|].
    apply preserves_bind; [apply same_past|]. intros expired. apply preserves_bind; [by apply same_store|]. intros _. apply preserves_ret.
  - apply same_user_then. intros d Hd. by apply same_stamp.
  - apply preserves_bind; [apply same_put_key|]. intros _. apply preserves_bind; [apply same_set_keys|]. intros _.
    apply same_user_then. intros d Hd. by apply same_set.
  - apply same_user_then. intros d Hd. eapply ensures_preserves with (Q := fun _ => True), ensures_bind; [by apply same_drop_keys|].
    intros d' Hd'. by apply preserves_ensures, same_set.
Qed.
End idle.

(** *** Toggling a star *)
Definition toggled_stars (u : userdb) (user repo : string) : Z :=
  match fst (toggled (starred u user) repo) with Removed => -1 | _ => 1 end.
Definition after_toggle (u : userdb) (user repo : string) (m : ProtoRepoMeta) : userdb :=
  mkUserdb
    (set_repo_meta <[pr_Name m := with_stars (init_repo m) (int32 (pr_Stars m + toggled_stars u user repo))]> (u_meta u))
    (<[user := with_starred (snd (toggled (starred u user) repo)) (default new_user (u_data u !! user))]> (u_data u)) (u_keys u).

(** A name that bbolt takes as a key. *)
Definition fits (key : string) : Prop := key <> "" /\ (Z.of_nat (String.length key) <= 32768)%Z.
Lemma put_key_fits key u : fits key -> put_key key u = (Ok tt, u).
Proof. intros [Hn Hl]. unfold put_key. rewrite bool_decide_false by done. by destruct (Z.ltb_spec 32768 (Z.of_nat (String.length key))); [lia|]. Qed.
Lemma put_key_state key u : (put_key key u = (Ok tt, u) /\ fits key) \/ exists e, put_key key u = (Err e, u) /\ ~ fits key.
Proof.
  unfold put_key, fits. case_bool_decide; [right; eexists; split; [done|naive_solver]|].
  destruct (Z.ltb_spec 32768 (Z.of_nat (String.length key))); [right; eexists; split; [done|lia]|by left].
Qed.
Lemma starred_default u user : ud_StarredRepos (default new_user (u_data u !! user)) = starred u user.
Proof. unfold starred. by destruct (u_data u !! user). Qed.

Lemma toggle_star_spec uac repo u : let user := GetUsername uac in
  (exists e, ToggleStarRepo uac repo u = (Err e, u) /\
     ~ (fits user /\ Can uac ReadPermission repo = true /\ is_Some (b_RepoMeta (u_meta u) !! repo))) \/
  exists m, b_RepoMeta (u_meta u) !! repo = Some m /\ user <> "" /\
    ToggleStarRepo uac repo u = (Ok (fst (toggled (starred u user) repo)), after_toggle u user repo m).
Proof.
  intros user. unfold ToggleStarRepo, as_reader. unfold IsAnonymous. fold user.
  destruct (bool_decide (user = "") || _) eqn:Ea.
  { left. eexists. split; [done|]. intros ([Hn _]&Hc&_). rewrite bool_decide_false, Hc in Ea by done. done. }
  apply orb_false_iff in Ea as [Ha%bool_decide_eq_false_1 _]. clearbody user. unfold transaction. rewrite (bind_step _ _ u (default new_user (u_data u !! user)) u) by done.
  rewrite starred_default. unfold after_toggle, toggled_stars.
  destruct (toggled (starred u user) repo) as [res l] eqn:Et. simpl fst. simpl snd. set (d := with_starred l _).
  destruct (put_key_state user u) as [[Ep _]|(e&Ep&Hnf)].
  2: { left. exists e. split; [|tauto]. unfold bind at 1, setUserData. unfold bind at 1. rewrite Ep. by destruct u as [[]]. }
  assert (setUserData user d u = (Ok tt, set_data <[user := d]> u)) as Es by (unfold setUserData; by rewrite (bind_step _ _ _ _ _ Ep)).
  rewrite (bind_step _ _ _ _ _ Es).
  assert (on_bolt (existing_repo ErrRepoMetaNotFound repo) (set_data <[user := d]> u) =
    (if bool_decide (is_Some (b_RepoMeta (u_meta u) !! repo)) then Ok (read_repo (u_meta u) repo) else Err ErrRepoMetaNotFound,
     set_data <[user := d]> u)) as Ex by (unfold on_bolt, zoom; rewrite get_existing; by destruct u).
  case_bool_decide as Em; [|left; eexists; split; [unfold bind; rewrite Ex; by destruct u as [[]]|tauto]].
  rewrite (bind_step _ _ _ _ _ Ex). destruct Em as [m Em]. right. exists m. split; [done|]. split; [done|].
  assert (read_repo (u_meta u) repo = init_repo m) as -> by (unfold read_repo; by rewrite Em).
  assert (res = Added \/ res = Removed) as [->| ->] by (unfold toggled in Et; case_match; simplify_eq; auto); done.
Qed.

Lemma int32_add a b : int32 (int32 a + b) = int32 (a + b).
Proof.
  unfold int32. f_equal. replace ((a + 2 ^ 31) mod 2 ^ 32 - 2 ^ 31 + b + 2 ^ 31)%Z with ((a + 2 ^ 31) mod 2 ^ 32 + b)%Z by lia.
  rewrite Zplus_mod_idemp_l. f_equal. lia.
Qed.

(** The users who starred a repository after a toggle. *)
Lemma starred_toggle u user repo m other : starred (after_toggle u user repo m) other =
  if bool_decide (other = user) then snd (toggled (starred u user) repo) else starred u other.
Proof.
  unfold starred at 1. simpl. case_bool_decide as Hu; [subst; by rewrite lookup_insert_eq|]. by rewrite lookup_insert_ne by done.
Qed.
Lemma elem_of_toggled (b : bool) (l1 l2 : list string) repo r : r ∈ (if b then snd (toggled l1 repo) else l2) <->
  if b then (if decide (r = repo) then r ∉ l1 else r ∈ l1) else r ∈ l2.
Proof.
  destruct b; [|done]. unfold toggled, contains, RemoveFrom.
  case_bool_decide; simpl; rewrite ?list_elem_of_filter, ?elem_of_app, ?list_elem_of_singleton; case_decide; naive_solver.
Qed.
Lemma starrers_toggle u user repo m r : starrers (after_toggle u user repo m) r =
  if decide (r = repo) then
    (if contains (starred u user) repo then starrers u repo ∖ {[user]} else starrers u repo ∪ {[user]})
  else starrers u r.
Proof.
  apply set_eq. intros other. rewrite elem_of_starrers, starred_toggle, elem_of_toggled.
  destruct (decide (r = repo)) as [->|Hr].
  - unfold contains. destruct (bool_decide_reflect (repo ∈ starred u user));
      rewrite ?elem_of_difference, ?elem_of_union, elem_of_singleton, !elem_of_starrers; case_bool_decide; subst; naive_solver.
  - rewrite elem_of_starrers. case_bool_decide; subst; naive_solver.
Qed.
Lemma star_count_toggle u user repo m :
  star_count (after_toggle u user repo m) repo = (star_count u repo + toggled_stars u user repo)%Z.
Proof.
  unfold star_count, toggled_stars, toggled. rewrite starrers_toggle, decide_True by done. unfold contains. case_bool_decide as Hc; simpl.
  - assert (user ∈ starrers u repo) as Hin by by apply elem_of_starrers.
    rewrite size_difference by set_solver. rewrite size_singleton.
    assert (size (starrers u repo) <> 0) by (rewrite size_non_empty_iff; set_solver). lia.
  - assert (user ∉ starrers u repo) as Hin by by rewrite elem_of_starrers.
    rewrite size_union by set_solver. rewrite size_singleton. lia.
Qed.
Lemma toggle_star_exact uac repo u : stars_exact u -> stars_exact (snd (ToggleStarRepo uac repo u)).
Proof.
  intros Hu. destruct (toggle_star_spec uac repo u) as [(e&->&_)|(m&Em&Hn&->)]; [done|]. simpl.
  set (user := GetUsername uac) in *. pose proof (Hu repo) as Hm. rewrite Em in Hm. destruct Hm as [Hname Hstars].
  intros r. simpl. rewrite Hname. destruct (decide (repo = r)) as [<-|Hr].
  - rewrite lookup_insert_eq. split; [done|]. simpl. by rewrite star_count_toggle, Hstars, int32_add.
  - rewrite lookup_insert_ne by done. unfold star_count. rewrite starrers_toggle, decide_False by done. apply Hu.
Qed.

(** *** The number of stars *)

Lemma stars_exact_none u : b_RepoMeta (u_meta u) = ∅ -> u_data u = ∅ -> stars_exact u.
Proof.
  intros Hm Hd repo. rewrite Hm, lookup_empty. unfold star_count, starrers. rewrite Hd, map_filter_empty, dom_empty_L, size_empty.
  split; [done|]. tauto.
Qed.

(** What the theorem leaves out: the counters that no handler uses, replacing
    or deleting the record of a user, and deleting a repository that somebody
    starred. *)
Definition keeps_stars (o : user_op) (u : userdb) : Prop :=
  match o with
  | UMeta o => counts_stars o = false /\ forall repo, o = OpDeleteRepoMeta repo -> starrers u repo = ∅
  | USetData _ _ | UDeleteData _ => False
  | _ => True
  end.
Lemma stars_exact_op o u : keeps_stars o u -> stars_exact u -> stars_exact (snd (do_user_op o u)).
Proof.
  intros Ho Hu. destruct (leaves_stars o) eqn:El.
  { destruct (do_user_op o u) as [r u'] eqn:E. simpl. assert (same_stars u u') as [Hm Hs] by (by eapply (same_op u o El) in E).
    by apply (stars_exact_same u). }
  destruct o; try done; simpl.
  - destruct Ho as [Hc Hd]. unfold on_bolt, zoom. destruct (do_op o (u_meta u)) as [r b] eqn:E. simpl.
    eapply stars_op in E; [|done| |exact Hu]; [exact (proj1 E)|].
    intros repo Er. specialize (Hd repo Er). unfold star_count. rewrite Hd. split; [done|]. by intros Hn.
  - unfold discard, bind. pose proof (toggle_star_exact uac repo u Hu) as Ht. destruct (ToggleStarRepo uac repo u) as [[a|e] u']; exact Ht.
  - by apply stars_exact_none.
Qed.

(** C16 Whatever users and the storage do, the stars that the record of a
    repository counts are the users who starred it, in the 32 bits of the
    counter, as long as no record of a user is replaced and no repository is
    deleted while somebody stars it. *)
Theorem stars_count_users trusted e ops repo m : all_along keeps_stars ops (new_userdb trusted e) ->
  b_RepoMeta (u_meta (run_users ops (new_userdb trusted e))) !! repo = Some m ->
  pr_Stars m = int32 (star_count (run_users ops (new_userdb trusted e)) repo).
Proof.
  intros Hops Hm. assert (stars_exact (run_users ops (new_userdb trusted e))) as Hu.
  { apply (run_users_invariant keeps_stars); [apply stars_exact_op|done|]. by apply stars_exact_none. }
  specialize (Hu repo). rewrite Hm in Hu. apply Hu.
Qed.

Lemma meta_ops_users ops : forall u, u_data (run_users (UMeta <$> ops) u) = u_data u /\
  u_keys (run_users (UMeta <$> ops) u) = u_keys u.
Proof.
  induction ops as [|o ops IH]; intros u; [done|].
  change (run_users (UMeta <$> o :: ops) u) with (run_users (UMeta <$> ops) (snd (on_bolt (do_op o) u))).
  destruct (IH (snd (on_bolt (do_op o) u))) as [-> ->]. unfold on_bolt, zoom. by destruct (do_op o (u_meta u)).
Qed.
Lemma meta_ops_stars stars needed ops :
  Forall (fun o => counts_stars o = false /\ forall r, o <> OpDeleteRepoMeta r) ops -> forall u,
  stars_are stars needed (u_meta u) -> stars_are stars needed (u_meta (run_users (UMeta <$> ops) u)).
Proof.
  induction 1 as [|o ops [Hc Hd] _ IH]; intros u Hu; [done|].
  change (run_users (UMeta <$> o :: ops) u) with (run_users (UMeta <$> ops) (snd (on_bolt (do_op o) u))). apply IH. unfold on_bolt, zoom.
  destruct (do_op o (u_meta u)) as [r b] eqn:E. simpl. eapply stars_op in E; [|done| |exact Hu]; [apply E|].
  intros r' ->. by destruct (Hd r').
Qed.

(** Deleting the record of a repository forgets its stars but not who gave
    them: when the repository is there again, the first of these users who
    toggles the star takes it away, and the repository has -1 stars. *)
Theorem stars_below_zero u uac repo ops : let user := GetUsername uac in
  stars_exact u -> user ∈ starrers u repo -> fits user -> Can uac ReadPermission repo = true ->
  Forall (fun o => counts_stars o = false /\ forall r, o <> OpDeleteRepoMeta r) ops ->
  let u1 := run_users (UMeta <$> OpDeleteRepoMeta repo :: ops) u in
  is_Some (b_RepoMeta (u_meta u1) !! repo) ->
  exists u2 m, ToggleStarRepo uac repo u1 = (Ok Removed, u2) /\ b_RepoMeta (u_meta u2) !! repo = Some m /\ pr_Stars m = (-1)%Z.
Proof.
  intros user Hu Hin Hfits Hcan Hops u1 [m Hm]. set (stars := fun r => if decide (r = repo) then 0%Z else int32 (star_count u r)).
  assert (stars_are stars (fun _ => False) (u_meta u1)) as Hst.
  { unfold u1. simpl. apply meta_ops_stars; [done|]. intros r. simpl. subst stars. cbv beta. destruct (decide (r = repo)) as [->|Hr].
    - rewrite lookup_delete_eq. split; [done|tauto].
    - rewrite lookup_delete_ne by done. specialize (Hu r). destruct (b_RepoMeta (u_meta u) !! r); [done|]. split; [apply Hu|tauto]. }
  pose proof (Hst repo) as Hr. rewrite Hm in Hr. destruct Hr as [Hname Hz]. subst stars. cbv beta in Hz. rewrite decide_True in Hz by done.
  destruct (meta_ops_users (OpDeleteRepoMeta repo :: ops) u) as [Hd _]. fold u1 in Hd.
  assert (toggled (starred u1 user) repo = (Removed, RemoveFrom (starred u1 user) repo)) as Ht.
  { unfold toggled, contains, starred. rewrite Hd. apply elem_of_starrers in Hin. unfold starred in Hin. by rewrite bool_decide_true. }
  destruct (toggle_star_spec uac repo u1) as [(e&_&Hno)|(m'&Em&_&Et)].
  - exfalso. apply Hno. by rewrite Hm.
  - rewrite Hm in Em. injection Em as <-. exists (after_toggle u1 user repo m), (with_stars (init_repo m) (int32 (pr_Stars m - 1))).
    fold user in Et. rewrite Ht in Et. split; [exact Et|]. unfold after_toggle, toggled_stars. rewrite Ht. simpl.
    rewrite Hname, lookup_insert_eq, Hz. done.
Qed.

(** *** The owners of the keys *)

(** The details of a key in the record of a user. *)
Definition keys_of (d : UserData) : gmap string APIKeyDetails := default ∅ (ud_APIKeys d).
Definition user_key (u : userdb) (user hashedKey : string) : option APIKeyDetails :=
  d ← u_data u !! user; keys_of d !! hashedKey.
(** A key that is found belongs to a user who knows it. *)
Definition keys_owned (u : userdb) : Prop := forall hashedKey user,
  u_keys u !! hashedKey = Some user -> fits user /\ is_Some (user_key u user hashedKey).

Lemma details_of u user hashedKey d : u_data u !! user = Some d ->
  key_details hashedKey d = default zero_key (user_key u user hashedKey).
Proof. intros E. unfold key_details, user_key, keys_of. rewrite E. simpl. by destruct (ud_APIKeys d). Qed.
Lemma user_key_map u user hashedKey : is_Some (user_key u user hashedKey) ->
  exists d keys, u_data u !! user = Some d /\ ud_APIKeys d = Some keys /\ is_Some (keys !! hashedKey).
Proof.
  unfold user_key, keys_of. destruct (u_data u !! user) as [d|]; [|by intros [? ?]]. simpl.
  destruct (ud_APIKeys d) as [keys|] eqn:E; [eauto|]. simpl. rewrite lookup_empty. by intros [? ?].
Qed.
Lemma user_key_insert u user d other hashedKey : user_key (set_data <[user := d]> u) other hashedKey =
  if bool_decide (other = user) then keys_of d !! hashedKey else user_key u other hashedKey.
Proof.
  unfold user_key. simpl. case_bool_decide as Ho; [subst; by rewrite lookup_insert_eq|]. by rewrite lookup_insert_ne by done.
Qed.

(** Operations that take no key away from its owner. *)
Definition more_keys (u0 u : userdb) : Prop :=
  u_keys u = u_keys u0 /\ forall user h, is_Some (user_key u0 user h) -> is_Some (user_key u user h).
Lemma more_keys_owned u0 u : more_keys u0 u -> keys_owned u0 -> keys_owned u.
Proof. intros [Hk Hm] Hu h user. rewrite Hk. intros E. destruct (Hu h user E). split; [done|]. by apply Hm. Qed.

Section more.
Context (u0 : userdb).
Local Notation I := (more_keys u0).
Definition covers (userid : string) (d : UserData) : Prop := forall h, is_Some (user_key u0 userid h) -> is_Some (keys_of d !! h).
Lemma more_put_key key : preserves I (put_key key).
Proof. unfold put_key. pres. Qed.
Lemma more_bolt {A} (m : ST bolt A) : preserves I (on_bolt m).
Proof. intros u r u' Hu. unfold on_bolt, zoom. destruct (m (u_meta u)) as [r0 b]. by intros [= _ <-]. Qed.
Lemma more_past date : preserves I (past date).
Proof. unfold past. destruct (IsZero date); [apply preserves_ret|]. apply preserves_bind; [apply more_bolt|]. intros ?. apply preserves_ret. Qed.
Lemma more_user userid : ensures I (user_or_new userid) (covers userid).
Proof.
  intros u r u' Hu [= <- <-]. split; [done|]. intros h Hh. apply Hu in Hh as (d&keys&E&Ek&Hh)%user_key_map. rewrite E. simpl.
  unfold keys_of. by rewrite Ek.
Qed.
Lemma more_get userid : ensures I (getUserData userid) (covers userid).
Proof.
  intros u r u' Hu. unfold getUserData, bind, get. destruct (u_data u !! userid) as [d|] eqn:E; intros [= <- <-]; [|done].
  split; [done|]. intros h Hh. apply Hu in Hh as (d'&keys&E'&Ek&Hh)%user_key_map. rewrite E in E'. injection E' as <-.
  unfold keys_of. by rewrite Ek.
Qed.
Lemma more_set userid d : covers userid d -> preserves I (setUserData userid d).
Proof.
  intros Hd. unfold setUserData. apply preserves_bind; [apply more_put_key|]. intros _ u r u' [Hk Hm] [= _ <-]. split; [done|].
  intros user h Hh. rewrite user_key_insert. case_bool_decide; [subst; by apply Hd|by apply Hm].
Qed.
Lemma more_transaction {A} (m : ST userdb A) : preserves I m -> preserves I (transaction m).
Proof. intros Hm u r u' Hu. unfold transaction. destruct (m u) as [[a|e] u1] eqn:E; intros [= <- <-]; [by eapply Hm|done]. Qed.
Lemma more_user_then {A} userid (k : UserData -> ST userdb A) : (forall d, covers userid d -> preserves I (k d)) ->
  preserves I (bind (user_or_new userid) k) /\ preserves I (bind (getUserData userid) k).
Proof.
  intros Hk. split; eapply ensures_preserves, ensures_bind with (Q := fun _ => True); try apply more_user; try apply more_get;
    intros d Hd; by apply preserves_ensures, Hk.
Qed.
Lemma covers_insert userid h details d : covers userid d -> covers userid (with_keys (<[h := details]> <$> ud_APIKeys d) d).
Proof.
  intros Hd h' Hh'. apply Hd in Hh'. revert Hh'. unfold keys_of, with_keys. simpl. destruct (ud_APIKeys d); simpl; [apply insert_keeps|done].
Qed.
Lemma more_store userid h details d : covers userid d -> preserves I (store_key userid h details d).
Proof.
  intros Hd. unfold store_key. pose proof (covers_insert userid h details d Hd) as Hc.
  destruct (ud_APIKeys d); [by apply more_set|apply preserves_throw].
Qed.
Lemma more_stamp userid l : forall d out, covers userid d -> preserves I (stamp_expired userid l d out).
Proof.
  induction l as [|[h details] l IH]; intros d out Hd; simpl; [apply preserves_ret|].
  apply preserves_bind; [apply more_past|]. intros expired. apply preserves_bind; [by apply more_set, covers_insert|]. intros _.
  by apply IH, covers_insert.
Qed.
Lemma more_as_user {A} uac (k : string -> ST userdb A) : (forall userid, preserves I (k userid)) -> preserves I (as_user uac k).
Proof. intros Hk. unfold as_user. destruct (IsAnonymous uac); [apply preserves_throw|apply Hk]. Qed.
Lemma more_as_reader {A} uac repo (k : string -> ST userdb A) :
  (forall userid, preserves I (k userid)) -> preserves I (as_reader uac repo k).
Proof. intros Hk. unfold as_reader. destruct (_ || _); [apply preserves_throw|apply Hk]. Qed.

Definition leaves_keys (o : user_op) : bool :=
  match o with UAddKey _ _ _ | UDeleteKey _ _ | USetData _ _ | UDeleteData _ | UResetDB => false | _ => true end.
Lemma more_op o : leaves_keys o = true -> preserves I (do_user_op o).
Proof.
  intros Ho. destruct o; try done; simpl; unfold discard; try (apply preserves_bind; [|intros ?; apply preserves_ret]);
    try (apply more_as_user; intros userid; apply more_transaction); try (apply more_as_reader; intros userid; apply more_transaction).
  - apply more_bolt.
  - apply more_user_then. intros d Hd. destruct (toggled _ _) as [res l]. apply preserves_bind; [by apply more_set|]. intros _.
    apply preserves_bind; [apply more_bolt|]. intros m. cbv zeta. apply preserves_bind; [apply more_bolt|]. intros _. apply preserves_ret.
  - apply more_user_then. intros d Hd. destruct (toggled _ _) as [res l]. apply preserves_bind; [by apply more_set|]. intros _. apply preserves_ret.
  - apply more_user_then. intros d Hd. by apply more_set.
  - apply more_user_then. intros d Hd. apply preserves_bind; [apply more_bolt|]. intros now. by apply more_store.
  - apply more_user_then. intros d Hd. cbv zeta. destruct (ak_IsExpired _); [apply preserves_ret|].
    apply preserves_bind; [apply more_past|]. intros expired. apply preserves_bind; [by apply more_store|]. intros _. apply preserves_ret.
  - apply more_user_then. intros d Hd. by apply more_stamp.
Qed.
End more.

(** Adding a key. *)
Definition key_added (u : userdb) (user hashedKey : string) (details : APIKeyDetails) : userdb :=
  let d := default new_user (u_data u !! user) in
  mkUserdb (u_meta u) (<[user := with_keys (Some (<[hashedKey := details]> (keys_of d))) d]> (u_data u)) (<[hashedKey := user]> (u_keys u)).
Lemma add_key_spec uac hashedKey details u : let user := GetUsername uac in
  (exists e, AddUserAPIKey uac hashedKey details u = (Err e, u) /\ ~ (fits user /\ fits hashedKey)) \/
  (fits user /\ AddUserAPIKey uac hashedKey details u = (Ok tt, key_added u user hashedKey details)).
Proof.
  intros user. unfold AddUserAPIKey, as_user, IsAnonymous. fold user. case_bool_decide as Hu.
  { left. eexists. split; [done|]. intros [[? _] _]. done. }
  unfold transaction. destruct (put_key_state hashedKey u) as [[Ep _]|(e&Ep&Hf)].
  2: { left. exists e. unfold bind at 1. rewrite Ep. split; [by destruct u as [[]]|tauto]. }
  rewrite (bind_step _ _ _ _ _ Ep). set (u1 := set_keys <[hashedKey := user]> u).
  rewrite (bind_step _ _ u tt u1) by done. rewrite (bind_step _ _ u1 (default new_user (u_data u !! user)) u1) by done.
  unfold setUserData, bind. destruct (put_key_state user u1) as [[-> Hf]|(e&->&Hf)].
  - right. split; [exact Hf|reflexivity].
  - left. exists e. split; [by destruct u as [[]]|tauto].
Qed.
Lemma user_key_added u user hashedKey details other h : user_key (key_added u user hashedKey details) other h =
  if bool_decide (other = user /\ h = hashedKey) then Some details else user_key u other h.
Proof.
  unfold user_key, key_added. simpl. destruct (decide (other = user)) as [->|Ho].
  2: { by rewrite lookup_insert_ne, bool_decide_false by naive_solver. }
  rewrite lookup_insert_eq. unfold keys_of at 1. simpl. destruct (decide (h = hashedKey)) as [->|Hh].
  - by rewrite lookup_insert_eq, bool_decide_true.
  - rewrite lookup_insert_ne, bool_decide_false by naive_solver. by destruct (u_data u !! user).
Qed.
Lemma key_added_owned u user hashedKey details : fits user -> keys_owned u -> keys_owned (key_added u user hashedKey details).
Proof.
  intros Hn Hu h owner. rewrite user_key_added. simpl. intros [[<- <-]|[Hh E]]%lookup_insert_Some.
  - by rewrite bool_decide_true.
  - rewrite bool_decide_false by naive_solver. by apply Hu.
Qed.

(** Deleting keys. *)
Definition delete_all {A} (hashes : list string) (m : gmap string A) : gmap string A := foldl (fun m h => delete h m) m hashes.
Lemma delete_all_lookup {A} hashes h : forall m : gmap string A,
  delete_all hashes m !! h = if decide (h ∈ hashes) then None else m !! h.
Proof.
  induction hashes as [|h' l IH]; intros m; [by destruct (decide (h ∈ [])) as [?%not_elem_of_nil|]|].
  change (delete_all (h' :: l) m) with (delete_all l (delete h' m)). rewrite IH. destruct (decide (h ∈ l)) as [Hin|Hin].
  - by rewrite decide_True by (by apply list_elem_of_further).
  - destruct (decide (h = h')) as [->|Hh]; [rewrite decide_True by apply list_elem_of_here; apply lookup_delete_eq|].
    rewrite decide_False by (by intros [|]%elem_of_cons). by apply lookup_delete_ne.
Qed.

Definition hashes_of (keyID : string) (l : list (string * APIKeyDetails)) : list string :=
  fst <$> filter (fun entry => ak_UUID (snd entry) = keyID) l.
Lemma drop_keys_spec keyID l : forall d u, drop_keys keyID l d u =
  (Ok (with_keys (delete_all (hashes_of keyID l) <$> ud_APIKeys d) d), set_keys (delete_all (hashes_of keyID l)) u).
Proof.
  induction l as [|[h details] l IH]; intros d u; simpl.
  { unfold ret, hashes_of, with_keys, set_keys, delete_all. simpl. destruct d as [? ? ? [|]], u; done. }
  unfold hashes_of. rewrite filter_cons. simpl. case_bool_decide as Hid; [rewrite decide_True by done|rewrite decide_False by done; apply IH].
  unfold bind, modify. rewrite IH. unfold with_keys, set_keys. simpl. by destruct (ud_APIKeys d).
Qed.

Definition key_deleted (u : userdb) (user keyID : string) (d : UserData) : userdb :=
  let gone := hashes_of keyID (map_iter (keys_of d)) in
  mkUserdb (u_meta u) (<[user := with_keys (delete_all gone <$> ud_APIKeys d) d]> (u_data u)) (delete_all gone (u_keys u)).
Lemma delete_key_spec uac keyID u : let user := GetUsername uac in
  (exists e, DeleteUserAPIKey uac keyID u = (Err e, u) /\ ~ (fits user /\ is_Some (u_data u !! user))) \/
  exists d, u_data u !! user = Some d /\ DeleteUserAPIKey uac keyID u = (Ok tt, key_deleted u user keyID d).
Proof.
  intros user. unfold DeleteUserAPIKey, as_user, IsAnonymous. fold user. case_bool_decide as Hu.
  { left. eexists. split; [done|]. intros [[? _] _]. done. }
  unfold transaction. destruct (u_data u !! user) as [d|] eqn:Ed.
  2: { left. exists ErrUserDataNotFound. unfold bind, getUserData, get, bind. rewrite Ed. split; [by destruct u as [[]]|]. by intros [_ [? ?]]. }
  rewrite (bind_step _ _ u d u) by (unfold getUserData, bind, get; by rewrite Ed).
  rewrite (bind_step _ _ _ _ _ (drop_keys_spec _ _ _ _)). unfold setUserData, bind.
  destruct (put_key_state user (set_keys (delete_all (hashes_of keyID (map_iter (default ∅ (ud_APIKeys d))))) u)) as [[-> _]|(e&->&Hf)].
  - right. by exists d.
  - left. exists e. split; [by destruct u as [[]]|tauto].
Qed.
Lemma user_key_deleted u user keyID d other h : u_data u !! user = Some d ->
  h ∉ hashes_of keyID (map_iter (keys_of d)) -> user_key (key_deleted u user keyID d) other h = user_key u other h.
Proof.
  intros Ed Hh. unfold user_key, key_deleted. simpl. destruct (decide (other = user)) as [->|Ho].
  - rewrite lookup_insert_eq, Ed. simpl. unfold keys_of at 1 3. simpl. destruct (ud_APIKeys d) as [keys|] eqn:Ek; [|done]. simpl.
    by rewrite delete_all_lookup, decide_False.
  - by rewrite lookup_insert_ne by done.
Qed.
Lemma key_deleted_owned u user keyID d : u_data u !! user = Some d -> keys_owned u -> keys_owned (key_deleted u user keyID d).
Proof.
  intros Ed Hu h owner. simpl. rewrite delete_all_lookup. case_decide as Hh; [done|]. rewrite user_key_deleted by done. apply Hu.
Qed.

(** The operations that the program offers to users. *)
Definition keeps_users (o : user_op) (u : userdb) : Prop :=
  match o with USetData _ _ | UDeleteData _ => False | _ => True end.
Lemma keys_owned_op o u : keeps_users o u -> keys_owned u -> keys_owned (snd (do_user_op o u)).
Proof.
  intros Ho Hu. destruct (leaves_keys o) eqn:El.
  { destruct (do_user_op o u) as [r u'] eqn:E. simpl. apply (more_keys_owned u); [|done]. by eapply (more_op u o El) in E. }
  destruct o; try done; simpl.
  - destruct (add_key_spec uac hashedKey details u) as [(e&->&_)|[Hn ->]]; [done|by apply key_added_owned].
  - destruct (delete_key_spec uac keyID u) as [(e&->&_)|(d&Ed&->)]; [done|by apply key_deleted_owned].
Qed.
Lemma keys_owned_run trusted e ops : all_along keeps_users ops (new_userdb trusted e) ->
  keys_owned (run_users ops (new_userdb trusted e)).
Proof. intros Hops. apply (run_users_invariant keeps_users); [apply keys_owned_op|done|done]. Qed.
End run.
