(* ===== verification/Base64.v ===== *)
(** * Base64 (encoding/base64 of Go), as pkg/api uses it

    The decoder of the standard alphabet with padding, for the Authorization
    header, and the encoder and decoder of the URL alphabet without padding,
    for the credentials wrapped in a token. As in Go, the decoders skip line
    breaks and do not look at the unused bits of the last character. *)

From Stdlib Require Import ZArith Lia ZifyN Ascii String.
From stdpp Require Import base tactics list strings.
From S2P Require Import Prelude.

Local Open Scope string_scope.
Local Open Scope list_scope.

(** ** Alphabets *)
Definition encodeCommon : string := "ABCDEFGHIJKLMNOPQRSTUVWXYZabcdefghijklmnopqrstuvwxyz0123456789".
Definition encodeStd : list ascii := list_ascii_of_string encodeCommon ++ ["+"; "/"]%char.
Definition encodeURL : list ascii := list_ascii_of_string encodeCommon ++ ["-"; "_"]%char.

Definition sextet (alphabet : list ascii) (c : ascii) : option N := N.of_nat ∘ fst <$> list_find (fun d => d = c) alphabet.
Definition letter (alphabet : list ascii) (n : N) : ascii := nth (N.to_nat n) alphabet "A"%char.

(** ** Groups of three bytes as four characters *)
Local Open Scope N_scope.
Definition byte (n : N) : ascii := ascii_of_N (n mod 256).
Definition first_of (a : N) : N := a / 4.
Definition second_of (a b : N) : N := (a mod 4) * 16 + b / 16.
Definition third_of (b c : N) : N := (b mod 16) * 4 + c / 64.
Definition fourth_of (c : N) : N := c mod 64.
Definition byte1 (w x : N) : ascii := byte (w * 4 + x / 16).
Definition byte2 (x y : N) : ascii := byte ((x mod 16) * 16 + y / 4).
Definition byte3 (y z : N) : ascii := byte ((y mod 4) * 64 + z).
Local Close Scope N_scope.

Definition pad : ascii := "=".

Section coding.
Context (alphabet : list ascii).

(** RawEncoding's EncodeToString. *)
Fixpoint encode_raw (s : list ascii) : list ascii :=
  let l n := letter alphabet n in
  match s with
  | [] => []
  | [a] => [l (first_of (N_of_ascii a)); l (second_of (N_of_ascii a) 0)]
  | [a; b] =>
      [l (first_of (N_of_ascii a)); l (second_of (N_of_ascii a) (N_of_ascii b)); l (third_of (N_of_ascii b) 0)]
  | a :: b :: c :: rest =>
      l (first_of (N_of_ascii a)) :: l (second_of (N_of_ascii a) (N_of_ascii b)) ::
      l (third_of (N_of_ascii b) (N_of_ascii c)) :: l (fourth_of (N_of_ascii c)) :: encode_raw rest
  end.

(** The decoders, on the characters other than line breaks. *)
Fixpoint decode_raw (s : list ascii) : option (list ascii) :=
  match s with
  | [] => Some []
  | [_] => None
  | [a; b] => w ← sextet alphabet a; x ← sextet alphabet b; Some [byte1 w x]
  | [a; b; c] => w ← sextet alphabet a; x ← sextet alphabet b; y ← sextet alphabet c; Some [byte1 w x; byte2 x y]
  | a :: b :: c :: d :: rest =>
      w ← sextet alphabet a; x ← sextet alphabet b; y ← sextet alphabet c; z ← sextet alphabet d;
      l ← decode_raw rest; Some (byte1 w x :: byte2 x y :: byte3 y z :: l)
  end.
Fixpoint decode_padded (s : list ascii) : option (list ascii) :=
  match s with
  | [] => Some []
  | a :: b :: c :: d :: rest =>
      w ← sextet alphabet a; x ← sextet alphabet b;
      if decide (d = pad) then
        match rest with
        | [] => if decide (c = pad) then Some [byte1 w x]
                else y ← sextet alphabet c; Some [byte1 w x; byte2 x y]
        | _ => None
        end
      else
        y ← sextet alphabet c; z ← sextet alphabet d;
        l ← decode_padded rest; Some (byte1 w x :: byte2 x y :: byte3 y z :: l)
  | _ => None
  end.
End coding.

Definition line_break (c : ascii) : bool := bool_decide (c = "010"%char \/ c = "013"%char).
Definition skip_breaks (s : string) : list ascii := filter (fun c => line_break c = false) (list_ascii_of_string s).

(** base64.StdEncoding.DecodeString, and base64.RawURLEncoding. *)
Definition StdDecodeString (s : string) : option string :=
  string_of_list_ascii <$> decode_padded encodeStd (skip_breaks s).
Definition RawURLDecodeString (s : string) : option string :=
  string_of_list_ascii <$> decode_raw encodeURL (skip_breaks s).
Definition RawURLEncodeToString (s : string) : string :=
  string_of_list_ascii (encode_raw encodeURL (list_ascii_of_string s)).

(** ** Decoding what was encoded *)
Lemma sextet_letter_url n : (n < 64)%N -> sextet encodeURL (letter encodeURL n) = Some n.
Proof.
  assert (forallb (fun k => bool_decide (sextet encodeURL (letter encodeURL (N.of_nat k)) = Some (N.of_nat k))) (seq 0 64) = true) as Hall
    by (vm_compute; reflexivity).
  intros Hn. rewrite forallb_forall in Hall. specialize (Hall (N.to_nat n)). rewrite N2Nat.id in Hall.
  specialize (Hall ltac:(apply in_seq; lia)). by apply bool_decide_eq_true_1 in Hall.
Qed.
Lemma letters_no_break n : line_break (letter encodeURL n) = false.
Proof.
  assert (forallb (fun c => negb (line_break c)) encodeURL = true) as Hall by (vm_compute; reflexivity).
  unfold letter. destruct (nth_in_or_default (N.to_nat n) encodeURL "A"%char) as [Hin| ->]; [|done].
  rewrite forallb_forall in Hall. by apply negb_true_iff, Hall.
Qed.

Section arithmetic.
Local Open Scope N_scope.
Ltac Zify.zify_post_hook ::= Z.div_mod_to_equations.
Lemma byte_eq n a : n = N_of_ascii a -> byte n = a.
Proof. intros ->. unfold byte. rewrite N.mod_small by apply N_ascii_bounded. apply ascii_N_embedding. Qed.
Lemma sextets_small a b c : a < 256 -> b < 256 -> c < 256 ->
  first_of a < 64 /\ second_of a b < 64 /\ third_of b c < 64 /\ fourth_of c < 64.
Proof. unfold first_of, second_of, third_of, fourth_of. lia. Qed.
Lemma bytes_back a b c : a < 256 -> b < 256 -> c < 256 ->
  first_of a * 4 + second_of a b / 16 = a /\
  (second_of a b mod 16) * 16 + third_of b c / 4 = b /\
  (third_of b c mod 4) * 64 + fourth_of c = c.
Proof.
  intros Ha Hb Hc. unfold first_of, second_of, third_of, fourth_of.
  assert ((a mod 4 * 16 + b / 16) / 16 = a mod 4) as -> by lia.
  assert ((a mod 4 * 16 + b / 16) mod 16 = b / 16) as -> by lia.
  assert ((b mod 16 * 4 + c / 64) / 4 = b mod 16) as -> by lia.
  assert ((b mod 16 * 4 + c / 64) mod 4 = c / 64) as -> by lia.
  lia.
Qed.
End arithmetic.

Lemma bytes_of_sextets a b c :
  let w := first_of (N_of_ascii a) in let x := second_of (N_of_ascii a) (N_of_ascii b) in
  let y := third_of (N_of_ascii b) (N_of_ascii c) in let z := fourth_of (N_of_ascii c) in
  byte1 w x = a /\ byte2 x y = b /\ byte3 y z = c.
Proof.
  intros w x y z. destruct (bytes_back (N_of_ascii a) (N_of_ascii b) (N_of_ascii c)) as (Ha&Hb&Hc); [apply N_ascii_bounded..|].
  split_and!; by apply byte_eq.
Qed.
Lemma sextets_of_bytes a b c :
  (first_of (N_of_ascii a) < 64 /\ second_of (N_of_ascii a) (N_of_ascii b) < 64 /\
   third_of (N_of_ascii b) (N_of_ascii c) < 64 /\ fourth_of (N_of_ascii c) < 64)%N.
Proof. apply sextets_small; apply N_ascii_bounded. Qed.

Lemma decode_encode_raw n : forall s, length s <= n -> decode_raw encodeURL (encode_raw encodeURL s) = Some s.
Proof.
  induction n as [|n IH]; intros [|a [|b [|c rest]]] Hn; try done; try (simpl in Hn; lia); cbn [encode_raw decode_raw]; try change 0%N with (N_of_ascii zero).
  - destruct (sextets_of_bytes a zero zero) as (?&?&?&?). destruct (bytes_of_sextets a zero zero) as (Ha&_&_).
    rewrite !sextet_letter_url by done. by apply (f_equal (fun x => Some [x])).
  - destruct (sextets_of_bytes a b zero) as (?&?&?&?). destruct (bytes_of_sextets a b zero) as (Ha&Hb&_).
    rewrite !sextet_letter_url by done. by apply (f_equal2 (fun x y => Some [x; y])).
  - destruct (sextets_of_bytes a b c) as (?&?&?&?). destruct (bytes_of_sextets a b c) as (Ha&Hb&Hc).
    rewrite !sextet_letter_url by done. rewrite IH by (simpl in Hn; lia). simpl. by rewrite Ha, Hb, Hc.
Qed.
Lemma encode_no_breaks n : forall s, length s <= n -> Forall (fun c => line_break c = false) (encode_raw encodeURL s).
Proof.
  induction n as [|n IH]; intros [|a [|b [|c rest]]] Hn; try (simpl in Hn; lia); cbn [encode_raw];
    repeat apply Forall_cons_2; try apply letters_no_break; try apply Forall_nil_2. apply IH. simpl in Hn. lia.
Qed.

Lemma raw_url_round_trip s : RawURLDecodeString (RawURLEncodeToString s) = Some s.
Proof.
  unfold RawURLDecodeString, RawURLEncodeToString, skip_breaks. rewrite list_ascii_of_string_of_list_ascii.
  rewrite filter_all.
  - rewrite (decode_encode_raw (length (list_ascii_of_string s))) by done. simpl. by rewrite string_of_list_ascii_of_string.
  - intros c Hc. pose proof (encode_no_breaks _ (list_ascii_of_string s) (le_n _)) as Hf. rewrite Forall_forall in Hf. by apply Hf.
Qed.

(** The characters of an encoding are those of the alphabet. *)
Lemma letter_in n : letter encodeURL n ∈ encodeURL.
Proof. unfold letter. apply list_elem_of_In. destruct (nth_in_or_default (N.to_nat n) encodeURL "A"%char) as [?| ->]; [done|by left]. Qed.
