(* ===== verification/Credentials.v ===== *)
(** * Credentials (pkg/api/authn.go, htpasswd.go, ldap.go, token_exchange.go, config)

    What a client shows of itself and how the pieces are checked: the sections
    of the configuration on authentication, the Authorization header, the
    password file, LDAP, client certificates, API keys wrapped in bearer
    tokens, and the address of the UI after a login. Password hashes, the LDAP
    server, url.Parse and regular expressions are parameters; text is taken to
    be ASCII but for the two letters outside it that fold into ASCII. *)

From Stdlib Require Import ZArith Lia Ascii String.
From stdpp Require Import base tactics list gmap strings.
From S2P Require Import Prelude Runtime Oci StorageCommon GC Aggregates MetaDB Authz Users Base64.

Local Open Scope string_scope.
Local Open Scope list_scope.

(** ** Text *)
Definition lower (c : ascii) : ascii := if in_range "A" "Z" c then ascii_of_N (N_of_ascii c + 32) else c.
(** strings.ToLower; the Kelvin sign and the dotted capital I have ASCII
    letters as their lower case. *)
Fixpoint ToLower (s : string) : string :=
  match s with
  | EmptyString => EmptyString
  | String "226" (String "132" (String "170" rest)) => String "k" (ToLower rest)
  | String "196" (String "176" rest) => String "i" (ToLower rest)
  | String c rest => String (lower c) (ToLower rest)
  end.
(** strings.EqualFold with an ASCII constant in lower case; the Kelvin sign
    and the long s fold into ASCII. *)
Fixpoint fold_text (s : string) : string :=
  match s with
  | EmptyString => EmptyString
  | String "226" (String "132" (String "170" rest)) => String "k" (fold_text rest)
  | String "197" (String "191" rest) => String "s" (fold_text rest)
  | String c rest => String (lower c) (fold_text rest)
  end.
Definition EqualFold (s constant : string) : bool := bool_decide (fold_text s = constant).

(** strings.Fields. *)
Fixpoint fields_from (s current : string) : list string :=
  let word := if bool_decide (current = "") then [] else [current] in
  match s with
  | EmptyString => word
  | String c rest => if is_space c then word ++ fields_from rest "" else fields_from rest (current ++ String c "")%string
  end.
Definition Fields (s : string) : list string := fields_from s "".

Definition TrimPrefix (s pre : string) : string :=
  if has_prefix s pre then String.substring (String.length pre) (String.length s - String.length pre) s else s.

Lemma has_prefix_app pre s : has_prefix (pre ++ s) pre = true.
Proof. unfold has_prefix. induction pre as [|c pre IH]; [by destruct s|]. simpl. by destruct (ascii_dec c c). Qed.
Lemma substring_whole s : String.substring 0 (String.length s) s = s.
Proof. induction s as [|c s IH]; [done|]. simpl. by rewrite IH. Qed.
Lemma TrimPrefix_app pre s : TrimPrefix (pre ++ s) pre = s.
Proof.
  unfold TrimPrefix. rewrite has_prefix_app, string_length_app, Nat.add_comm, Nat.add_sub.
  induction pre as [|c pre IH]; [apply substring_whole|]. exact IH.
Qed.

(** ** The configuration (pkg/api/config/config.go) *)
Record LDAPConfig : Type := mkLDAPConfig {
  lc_Address : string;
  lc_Port : Z;
  lc_Insecure : bool;
  lc_StartTLS : bool;
  lc_SkipVerify : bool;
  lc_SubtreeSearch : bool;
  lc_BaseDN : string;
  lc_BindDN : string;
  lc_BindPassword : string;
  lc_UserGroupAttribute : string;
  lc_UserAttribute : string;
  lc_UserFilter : string
}.
Record MTLSConfig : Type := mkMTLS {
  IdentityAttributes : list string;
  URISANPattern : string;
  URISANIndex : Z;
  DNSANIndex : Z;
  EmailSANIndex : Z
}.
Record UpstreamTokenEndpointConfig : Type := mkUpstream { ut_Realm : string; ut_Service : string; ut_AllowInsecureHTTP : bool }.
Record BearerOIDCConfig : Type := mkBearerOIDC { bo_Issuer : string; bo_Audiences : list string }.
Record BearerConfig : Type := mkBearer {
  br_Realm : string;
  br_Service : string;
  br_UpstreamTokenEndpoint : option UpstreamTokenEndpointConfig;
  br_Cert : string;
  br_OIDC : list BearerOIDCConfig;
  br_AWSSecretsManager : bool   (* whether it is set *)
}.
Record ClaimMapping : Type := mkClaimMapping { cm_Username : string; cm_Groups : string }.
Record OpenIDProviderConfig : Type := mkProvider {
  op_Issuer : string;
  op_ClientID : string;
  op_ClaimMapping : option ClaimMapping
}.
Record OpenIDConfig : Type := mkOpenID {
  Providers : gmap string OpenIDProviderConfig;
  CallbackAllowOrigins : list string
}.
Record AuthConfig : Type := mkAuth {
  HTPasswdPath : string;
  au_LDAP : option LDAPConfig;
  au_Bearer : option BearerConfig;
  au_OpenID : option OpenIDConfig;
  au_APIKey : bool;
  au_MTLS : option MTLSConfig
}.

Definition openIDSupportedProviders : list string := ["google"; "gitlab"; "oidc"].
Definition oauth2SupportedProviders : list string := ["github"].
Definition IsOpenIDSupported (provider : string) : bool := contains openIDSupportedProviders provider.
Definition IsOauth2Supported (provider : string) : bool := contains oauth2SupportedProviders provider.

Section predicates.
Context (a : option AuthConfig).   (* [None]: a nil pointer *)
Definition on_auth (f : AuthConfig -> bool) : bool := match a with Some c => f c | None => false end.
Definition on_bearer (f : BearerConfig -> bool) : bool :=
  on_auth (fun c => match au_Bearer c with Some b => f b | None => false end).
Definition set_str (s : string) : bool := negb (bool_decide (s = "")).

Definition IsLdapAuthEnabled : bool := on_auth (fun c => bool_decide (is_Some (au_LDAP c))).
Definition IsHtpasswdAuthEnabled : bool := on_auth (fun c => set_str (HTPasswdPath c)).
Definition IsTraditionalBearerAuthEnabledWithCert : bool :=
  on_bearer (fun b => set_str (br_Cert b) && set_str (br_Realm b) && set_str (br_Service b)).
Definition IsTraditionalBearerAuthEnabledWithASM : bool :=
  on_bearer (fun b => br_AWSSecretsManager b && set_str (br_Realm b) && set_str (br_Service b)).
Definition IsTraditionalBearerAuthEnabled : bool :=
  IsTraditionalBearerAuthEnabledWithCert || IsTraditionalBearerAuthEnabledWithASM.
Definition OIDCIsEnabled (l : list BearerOIDCConfig) : bool :=
  existsb (fun c => set_str (bo_Issuer c) && (0 <? length (bo_Audiences c))%nat) l.
Definition IsOIDCBearerAuthEnabled : bool := on_bearer (fun b => OIDCIsEnabled (br_OIDC b)).
Definition IsBearerAuthEnabled : bool := IsTraditionalBearerAuthEnabled || IsOIDCBearerAuthEnabled.
Definition HasBearerChallengeConfig : bool := on_bearer (fun b => set_str (br_Realm b) && set_str (br_Service b)).
Definition IsAPIKeyEnabled : bool := on_auth au_APIKey.
Definition ShouldAdvertiseBearerChallenge : bool := HasBearerChallengeConfig && (IsBearerAuthEnabled || IsAPIKeyEnabled).
Definition ShouldInitializeBearerAuth : bool := IsBearerAuthEnabled || (IsAPIKeyEnabled && ShouldAdvertiseBearerChallenge).
Definition HasUpstreamTokenEndpoint (b : BearerConfig) : bool :=
  match br_UpstreamTokenEndpoint b with Some u => set_str (ut_Realm u) && set_str (ut_Service u) | None => false end.
Definition IsUpstreamTokenEndpointConfigured : bool := on_bearer HasUpstreamTokenEndpoint.
Definition IsOpenIDAuthEnabled : bool :=
  on_auth (fun c => match au_OpenID c with
                    | Some o => existsb (fun p => IsOpenIDSupported (fst p) || IsOauth2Supported (fst p)) (map_to_list (Providers o))
                    | None => false
                    end).
Definition IsBasicAuthnEnabled : bool :=
  IsHtpasswdAuthEnabled || IsLdapAuthEnabled || IsOpenIDAuthEnabled || IsAPIKeyEnabled.
Definition CanAuthenticateWithBasicCredentials : bool := IsHtpasswdAuthEnabled || IsLdapAuthEnabled || IsAPIKeyEnabled.
Definition GetMTLSConfig : option MTLSConfig := c ← a; au_MTLS c.
End predicates.

(** ** The Authorization header *)
Definition splitAuthorizationHeader (header : string) : option (string * string) :=
  match Fields header with [scheme; credential] => Some (scheme, credential) | _ => None end.
Definition hasAuthorizationScheme (header scheme : string) : bool :=
  match splitAuthorizationHeader header with Some (authScheme, _) => EqualFold authScheme scheme | None => false end.
Definition hasBasicAuthorizationHeader (header : string) : bool := hasAuthorizationScheme header "basic".
Definition hasBearerAuthorizationHeader (header : string) : bool := hasAuthorizationScheme header "bearer".
Definition isAuthorizationHeaderEmpty (header : string) : bool :=
  bool_decide (header = "") || bool_decide (ToLower header = "basic og==").

Definition ErrParsingAuthHeader : err := ErrOther "failed parsing authorization header".
Definition getUsernamePasswordBasicAuth (header : string) : res (string * string) :=
  match splitAuthorizationHeader header with
  | None => Err ErrParsingAuthHeader
  | Some (scheme, credential) =>
      if negb (EqualFold scheme "basic") then Err ErrParsingAuthHeader
      else match StdDecodeString credential with
           | None => Err (ErrOther "illegal base64 data")
           | Some decoded => match Cut ":" decoded with Some p => Ok p | None => Err ErrParsingAuthHeader end
           end
  end.
Definition hasEmptyBasicAuthorizationHeader (header : string) : bool :=
  bool_decide (getUsernamePasswordBasicAuth header = Ok ("", "")).
Definition bearerTokenFromAuthHeader (header : string) : option string :=
  match splitAuthorizationHeader header with
  | Some (scheme, token) => if EqualFold scheme "bearer" then Some token else None
  | None => None
  end.

(** [bearerTokenMatch.ReplaceAllString(header, "$1")]: the header without its
    first "bearer ", in whatever case; a header holds no line break. *)
Definition bearer_word : string := "bearer ".
Fixpoint strip_bearer (header : string) : string :=
  if bool_decide (ToLower (String.substring 0 (String.length bearer_word) header) = bearer_word)
  then String.substring (String.length bearer_word) (String.length header - String.length bearer_word) header
  else match header with EmptyString => EmptyString | String c rest => String c (strip_bearer rest) end.

(** ** The password file (pkg/api/htpasswd.go) *)

(** bcrypt, the two crypters of package password, and whether only approved
    algorithms may run. *)
Class PasswordHashes := {
  CompareHashAndPassword : string -> string -> bool;
  SHA256_CrypterFound : string -> option (string -> bool);
  SHA512_CrypterFound : string -> option (string -> bool);
  fips140_Enabled : bool
}.

(** The lines that bufio.Scanner delivers: it stops, without a word, at one
    that does not fit its buffer of 64 KiB. *)
Definition MaxScanTokenSize : Z := 65536.
Definition strip_cr (line : string) : string := TrimSuffix line (String "013" "").
Fixpoint scan_lines (lines : list string) : list string :=
  match lines with
  | [] => []
  | [last] => if bool_decide (last = "") || (MaxScanTokenSize <=? Z.of_nat (String.length last))%Z then [] else [strip_cr last]
  | line :: rest => if (MaxScanTokenSize <=? Z.of_nat (String.length line))%Z then [] else strip_cr line :: scan_lines rest
  end.
Definition add_credential (credMap : gmap string string) (line : string) : gmap string string :=
  match Cut ":" line with Some (user, hash) => <[user := hash]> credMap | None => credMap end.
Definition read_credentials (contents : string) : gmap string string :=
  foldl add_credential ∅ (scan_lines (split_on "010" contents)).
(** Reload: the users of the file, or those known before when it is not read. *)
Definition Reload (contents : res string) : ST (gmap string string) unit := fun credMap =>
  match contents with
  | Err e => (Err e, credMap)
  | Ok text => (Ok tt, read_credentials text)
  end.

Section htpasswd.
Context `{PasswordHashes}.

(** Authenticate: whether the passphrase is right, and the user known. *)
Definition htpasswd_Authenticate (credMap : gmap string string) (username passphrase : string) : bool * bool :=
  match credMap !! username with
  | None => (false, false)
  | Some passphraseHash =>
      if has_prefix passphraseHash "$2a$" || has_prefix passphraseHash "$2b$" || has_prefix passphraseHash "$2y$" then
        (negb fips140_Enabled && CompareHashAndPassword passphraseHash passphrase, true)
      else
        let crypter :=
          if has_prefix passphraseHash "$5$" then SHA256_CrypterFound passphraseHash
          else if has_prefix passphraseHash "$6$" then SHA512_CrypterFound passphraseHash else None in
        (match crypter with Some verify => verify passphrase | None => false end, true)
  end.
End htpasswd.

(** ** LDAP (pkg/api/ldap.go) *)
Record SearchRequest : Type := mkSearch { sr_base : string; sr_subtree : bool; sr_filter : string; sr_attributes : list string }.
Record LDAPEntry : Type := mkEntry { en_DN : string; en_Attributes : list (list string) }.
(** go-ldap and the server behind it, for one connection at a time. *)
Class LdapNet (N : Type) := {
  ldap_Dial : string -> Z -> ST N unit;
  ldap_StartTLS : bool -> ST N unit;
  ldap_DialTLS : string -> Z -> bool -> ST N unit;
  ldap_Bind : string -> string -> ST N unit;
  ldap_UnauthenticatedBind : string -> ST N unit;
  ldap_Search : SearchRequest -> ST N (list LDAPEntry);
  ldap_Close : ST N unit;
  EscapeFilter : string -> string
}.

Record LDAPClient : Type := mkLDAPClient {
  InsecureSkipVerify : bool;
  UseSSL : bool;
  SkipTLS : bool;
  SubtreeSearch : bool;
  Host : string;
  Port : Z;
  Base : string;
  BindDN : string;
  BindPassword : string;
  UserGroupAttribute : string;
  UserFilter : string;
  UserAttribute : string
}.
(** The client that tryAuthnHandlers makes of the configuration. *)
Definition new_ldap_client (c : LDAPConfig) : LDAPClient :=
  mkLDAPClient (lc_SkipVerify c) (negb (lc_Insecure c)) (negb (lc_StartTLS c)) (lc_SubtreeSearch c) (lc_Address c) (lc_Port c)
    (lc_BaseDN c) (lc_BindDN c) (lc_BindPassword c) (lc_UserGroupAttribute c) (lc_UserFilter c) (lc_UserAttribute c).

Definition ErrLDAPEmptyPassphrase : err := ErrOther "empty ldap passphrase".
Definition ErrLDAPBadConn : err := ErrOther "failed to connect to LDAP server".
Definition ErrBadUser : err := ErrOther "user not found".
Definition ErrEntriesExceeded : err := ErrOther "too many entries returned".

Section ldap.
Context {N : Type} `{LdapNet N} (lc : LDAPClient).
(** The connection that is kept, and the network. *)
Record ldap_state : Type := mkLdapState { ls_conn : bool; ls_net : N }.
Definition net {A} (m : ST N A) : ST ldap_state A := zoom ls_net (fun n s => mkLdapState (ls_conn s) n) m.
Definition set_conn (b : bool) : ST ldap_state unit := modify (fun s => mkLdapState b (ls_net s)).

Definition Connect : ST ldap_state unit :=
  let* s := get in
  if ls_conn s then ret tt
  else
    (if UseSSL lc then net (ldap_DialTLS (Host lc) (Port lc) (InsecureSkipVerify lc))
     else
       net (ldap_Dial (Host lc) (Port lc)) ;;;
       (if SkipTLS lc then ret tt else net (ldap_StartTLS (InsecureSkipVerify lc)))) ;;;
    set_conn true.

(** One round of the loop: connect, then bind with the read-only user. *)
Definition connect_and_bind : ST ldap_state unit :=
  Connect ;;;
  let* r := attempt (net (if set_str (BindPassword lc) then ldap_Bind (BindDN lc) (BindPassword lc)
                          else ldap_UnauthenticatedBind (BindDN lc))) in
  match r with
  | Ok _ => ret tt
  | Err e => net ldap_Close ;;; set_conn false ;;; throw e
  end.
Definition maxRetries : nat := 8.
Fixpoint connect_retrying (retries : nat) : ST ldap_state bool :=
  match retries with
  | 0 => ret false
  | S retries =>
      let* r := attempt connect_and_bind in
      match r with Ok _ => ret true | Err _ => connect_retrying retries end
  end.

Definition userFilter (username : string) : string :=
  let filter := ("(" ++ UserAttribute lc ++ "=" ++ EscapeFilter username ++ ")")%string in
  if set_str (UserFilter lc) then ("(&(" ++ filter ++ ")(" ++ UserFilter lc ++ "))")%string else filter.
Definition ldap_search (username : string) : SearchRequest :=
  mkSearch (Base lc) (SubtreeSearch lc) (userFilter username)
    ("dn" :: (if set_str (UserGroupAttribute lc) then [UserGroupAttribute lc] else [])).

(** Authenticate: the groups of the user, or why it failed. *)
Definition ldap_Authenticate (username password : string) : ST ldap_state (list string) :=
  if bool_decide (password = "") then throw ErrLDAPEmptyPassphrase
  else
    let* connected := connect_retrying maxRetries in
    if negb connected then throw ErrLDAPBadConn
    else
      let* entries := net (ldap_Search (ldap_search username)) in
      match entries with
      | [] => throw ErrBadUser
      | [entry] =>
          let userGroups := if set_str (UserGroupAttribute lc) then concat (en_Attributes entry) else [] in
          net (ldap_Bind (en_DN entry) password) ;;;
          ret userGroups
      | _ => throw ErrEntriesExceeded
      end.
End ldap.

(** ** Client certificates *)
Record Certificate : Type := mkCert {
  CommonName : string;
  SubjectString : string;
  URIs : list string;
  DNSNames : list string;
  EmailAddresses : list string
}.
(** Package regexp: the groups of the first match, [Err] for a bad pattern. *)
Class Submatch := FindStringSubmatch : string -> res (string -> list string).

Definition ErrNoIdentity : err := ErrOther "no identity in the certificate".
(** The entry of a list at an index of the configuration. *)
Definition san_at (l : list string) (idx : Z) : res string :=
  if (idx <? 0)%Z || (Z.of_nat (length l) <=? idx)%Z then Err ErrNoIdentity
  else match l !! Z.to_nat idx with Some x => Ok x | None => Err ErrNoIdentity end.

Section certificates.
Context `{Submatch}.

Definition extractIdentityFromCertificate (cert : Certificate) (identityAttribute : string) (mtls : option MTLSConfig) : res string :=
  let idx (f : MTLSConfig -> Z) := match mtls with Some c => f c | None => 0%Z end in
  let attribute := ToLower (TrimSpace identityAttribute) in
  if contains ["commonname"; "cn"] attribute then
    if bool_decide (CommonName cert = "") then Err ErrNoIdentity else Ok (CommonName cert)
  else if contains ["subject"; "dn"] attribute then Ok (SubjectString cert)
  else if contains ["url"; "uri"] attribute then
    match san_at (URIs cert) (idx URISANIndex) with
    | Err e => Err e
    | Ok uri =>
        match (c ← mtls; if bool_decide (URISANPattern c = "") then None else Some (URISANPattern c)) with
        | None => Ok uri
        | Some pattern =>
            match FindStringSubmatch pattern with
            | Err e => Err e
            | Ok matches => match matches uri with _ :: group :: _ => Ok group | _ => Err ErrNoIdentity end
            end
        end
    end
  else if contains ["dnsname"; "dns"] attribute then san_at (DNSNames cert) (idx DNSANIndex)
  else if contains ["email"; "rfc822name"] attribute then san_at (EmailAddresses cert) (idx EmailSANIndex)
  else Err ErrNoIdentity.

Fixpoint first_identity (cert : Certificate) (attributes : list string) (mtls : option MTLSConfig) : res string :=
  match attributes with
  | [] => Err ErrNoIdentity
  | a :: rest =>
      match extractIdentityFromCertificate cert a mtls with
      | Ok identity => Ok identity
      | Err _ => first_identity cert rest mtls
      end
  end.
Definition identity_attributes (mtls : option MTLSConfig) : list string :=
  match mtls with
  | Some c => match IdentityAttributes c with [] => ["CommonName"] | l => l end
  | None => ["CommonName"]
  end.
Definition extractMTLSIdentity (cert : Certificate) (mtls : option MTLSConfig) : res string :=
  first_identity cert (identity_attributes mtls) mtls.
End certificates.

(** ** API keys wrapped in a bearer token (pkg/api/token_exchange.go) *)
Definition wrappedCredentialBearerPrefix : string := "zot_cred_v1.".
Definition wrappedCredentialTypeAPIKey : string := "api-key".
Definition MaxTokenRequestBodySize : Z := 64 * 1024.
Record wrappedCredentialBearer : Type := mkWrapped { wc_Version : Z; wc_Type : string; wc_Username : string; wc_Secret : string }.
(** The JSON codec of that structure. *)
Class WrappedCodec := {
  marshal_wrapped : wrappedCredentialBearer -> string;
  unmarshal_wrapped : string -> option wrappedCredentialBearer
}.
Definition ErrInvalidWrappedBearerCredential : err := ErrOther "invalid wrapped bearer credential".

Definition isWrappedCredentialBearerToken (token : string) : bool := has_prefix token wrappedCredentialBearerPrefix.
Section wrapped.
Context `{WrappedCodec}.
Definition newWrappedCredentialBearerToken (username secret : string) : string :=
  (wrappedCredentialBearerPrefix ++ RawURLEncodeToString (marshal_wrapped (mkWrapped 1 wrappedCredentialTypeAPIKey username secret)))%string.
Definition parseWrappedCredentialBearerToken (token : string) : res wrappedCredentialBearer :=
  let encoded := TrimPrefix token wrappedCredentialBearerPrefix in
  if bool_decide (encoded = "") || (MaxTokenRequestBodySize <? Z.of_nat (String.length encoded))%Z
  then Err ErrInvalidWrappedBearerCredential
  else match RawURLDecodeString encoded with
       | None => Err ErrInvalidWrappedBearerCredential
       | Some payload =>
           match unmarshal_wrapped payload with
           | None => Err ErrInvalidWrappedBearerCredential
           | Some w =>
               if negb (wc_Version w =? 1)%Z || bool_decide (wc_Type w = "") || bool_decide (wc_Username w = "") ||
                  bool_decide (wc_Secret w = "")
               then Err ErrInvalidWrappedBearerCredential else Ok w
           end
       end.
Definition wrappedCredentialFromBearerAuthHeader (header : string) : option (res wrappedCredentialBearer) :=
  match bearerTokenFromAuthHeader header with
  | Some token => if isWrappedCredentialBearerToken token then Some (parseWrappedCredentialBearerToken token) else None
  | None => None
  end.
End wrapped.

(** ** Back to the UI after a login *)
Record url : Type := mkUrl { u_Scheme : string; u_Host : string; u_Hostname : string; u_Port : string; u_Path : string }.
Class UrlParser := parse_url : string -> option url.

Definition JoinHostPort (host port : string) : string :=
  if negb (no_char ":" host) then ("[" ++ host ++ "]:" ++ port)%string else (host ++ ":" ++ port)%string.
Definition canonicalOrigin (u : url) : option string :=
  let scheme := ToLower (u_Scheme u) in
  if negb (contains ["http"; "https"] scheme) then None
  else
    let host := ToLower (u_Hostname u) in
    if bool_decide (host = "") then None
    else
      let port := if bool_decide (u_Port u = "") then (if bool_decide (scheme = "http") then "80" else "443") else u_Port u in
      Some (scheme ++ "://" ++ JoinHostPort host port)%string.

Section callback.
Context `{UrlParser}.
Definition canonicalOriginString (raw : string) : option string :=
  let raw := TrimSpace raw in
  if bool_decide (raw = "") then None
  else match parse_url raw with
       | None => None
       | Some parsed =>
           if bool_decide (u_Scheme parsed = "") || bool_decide (u_Host parsed = "") then None else canonicalOrigin parsed
       end.
Definition ValidateCallbackUI (callbackUI : string) (allowOrigins : list string) : string :=
  if bool_decide (callbackUI = "") then ""
  else if negb (no_char "013" callbackUI && no_char "010" callbackUI) then "/"
  else match parse_url callbackUI with
       | None => "/"
       | Some parsed =>
           if negb (no_char "\" (u_Path parsed)) then "/"
           else if has_prefix callbackUI "//" then "/"
           else if bool_decide (u_Scheme parsed = "") && bool_decide (u_Host parsed = "") then
             if has_prefix callbackUI "/" then callbackUI else "/"
           else if negb (contains ["http"; "https"] (u_Scheme parsed)) then "/"
           else if bool_decide (u_Host parsed = "") then "/"
           else match canonicalOrigin parsed with
                | None => "/"
                | Some origin =>
                    if existsb (fun raw => bool_decide (canonicalOriginString raw = Some origin)) allowOrigins
                    then callbackUI else "/"
                end
       end.
End callback.
