(* ===== verification/Authn.v ===== *)
(** * Authentication (pkg/api/authn.go, bearer_auth.go, bearer.go, bearer_oidc.go, pkg/cel)

    Who sent a request: the middleware in front of every route below /v2, with
    its ways to authenticate - password file, LDAP, API keys, sessions, client
    certificates, bearer tokens of a token service and of OIDC issuers - and
    what is let through without a name. The store of sessions, the verifiers of
    tokens and the network are parameters; delays and logs are left out. *)

From Stdlib Require Import ZArith Lia Ascii String.
From stdpp Require Import base tactics list gmap strings.
From S2P Require Import Prelude Runtime Regexp Oci StorageCommon GC Aggregates MetaDB Authz Users Base64 Credentials.

Local Open Scope string_scope.
Local Open Scope list_scope.

(** ** What the code outside the repository offers *)

(** gorilla/sessions: the values of a session that the code reads, and whether
    the session was made for this request. *)
Record session : Type := mkSession {
  ses_IsNew : bool;
  ses_authStatus : bool;            (* Values["authStatus"] == true *)
  ses_user : option string;         (* Values["user"], a string *)
  ses_provider : option string
}.
Class SessionStore (N : Type) := {
  GetSession : ST N session;        (* the session named "session" of the request *)
  SaveSession : session -> ST N unit
}.

(** A token service's token: the entries of its claim "access". *)
Record ResourceAccess : Type := mkAccess {
  ra_Type : string;
  ra_Name : string;
  ra_Actions : list string;
  ra_ExpiresAt : option Z
}.
Record ResourceAction : Type := mkAction { rq_Type : string; rq_Name : string; rq_Action : string }.
Definition Before (t now : Z) : bool := (t <? now)%Z.
(** jwt.ParseWithClaims with the key that is configured, and the verifier of an
    OIDC issuer, which yields the claims of a token. *)
Class TokenVerifiers (N : Type) `{CelEngine} := {
  ParseWithClaims : string -> ST N (list ResourceAccess);
  VerifyOIDC : string -> string -> ST N (gmap string claim)
}.

(** ** The claims of a token (pkg/cel/claim_processor.go) *)

(** A value of the claims by its Go type, and the evaluation of expressions on
    the claims and the variables so far. *)
Class ClaimValues `{CelEngine} := {
  claim_string : claim -> option string;
  claim_slice : claim -> option (list claim);
  claim_strings : claim -> option (list string);
  EvaluateClaim : string -> gmap string claim -> gmap string claim -> res claim;
  EvaluateClaimBool : string -> gmap string claim -> gmap string claim -> res bool;
  EvaluateClaimString : string -> gmap string claim -> gmap string claim -> res string;
  EvaluateClaimStrings : string -> gmap string claim -> gmap string claim -> res (list string)
}.
Record ClaimProcessor : Type := mkClaimProcessor {
  cp_audiences : list string;
  cp_variables : list (string * string);
  cp_validations : list string;
  cp_username : string;
  cp_groups : option string
}.
Definition ErrOIDC : err := ErrOther "the claims of the token are refused".

Section claims.
Context `{ClaimValues}.
Record ClaimResult : Type := mkClaimResult { cr_Username : string; cr_Groups : list string; cr_Claims : gmap string claim }.

Definition audiences_of (value : claim) : res (list string) :=
  let strings := default [] (claim_strings value) ++ default [] (x ← claim_string value; Some [x]) in
  match claim_slice value with
  | None => Ok strings
  | Some l =>
      match mapM claim_string l with
      | None => Err ErrOIDC
      | Some auds => Ok (auds ++ strings)
      end
  end.
Definition validateAudience (c : ClaimProcessor) (claims : gmap string claim) : res unit :=
  match claims !! "aud" with
  | None => Err ErrOIDC
  | Some value =>
      match audiences_of value with
      | Err e => Err e
      | Ok audiences => if existsb (contains audiences) (cp_audiences c) then Ok tt else Err ErrOIDC
      end
  end.
Fixpoint extract_variables (variables : list (string * string)) (claims vars : gmap string claim) : res (gmap string claim) :=
  match variables with
  | [] => Ok vars
  | (name, expr) :: rest =>
      res_bind (EvaluateClaim expr claims vars) (fun v => extract_variables rest claims (<[name := v]> vars))
  end.
Fixpoint run_validations (validations : list string) (claims vars : gmap string claim) : res unit :=
  match validations with
  | [] => Ok tt
  | expr :: rest =>
      res_bind (EvaluateClaimBool expr claims vars) (fun ok => if (ok : bool) then run_validations rest claims vars else Err ErrOIDC)
  end.
Definition Process (c : ClaimProcessor) (claims : gmap string claim) : res ClaimResult :=
  res_bind (validateAudience c claims) (fun _ =>
  res_bind (extract_variables (cp_variables c) claims ∅) (fun vars =>
  res_bind (run_validations (cp_validations c) claims vars) (fun _ =>
  res_bind (EvaluateClaimString (cp_username c) claims vars) (fun username =>
  res_bind (match cp_groups c with Some expr => EvaluateClaimStrings expr claims vars | None => Ok [] end) (fun groups =>
  Ok (mkClaimResult username groups claims)))))).
End claims.

(** ** Requests and configuration *)
Record tls_state : Type := mkTls { PeerCertificates : list Certificate; VerifiedChains : list (list Certificate) }.
(** What authentication reads of a request. *)
Record login : Type := mkLogin {
  lg_Method : string;
  lg_Authorization : list string;   (* every value of the header *)
  lg_ClientHeader : string;         (* X-ZOT-API-CLIENT *)
  lg_UserAgent : string;
  lg_RequestURI : string;
  lg_Path : string;
  lg_name : string;                 (* the variable of the route, or empty *)
  lg_TLS : option tls_state
}.
Definition authorization (rq : login) : string := default "" (head (lg_Authorization rq)).
Definition hasMultipleAuthorizationHeaders (rq : login) : bool := (1 <? length (lg_Authorization rq))%nat.
Definition hasSessionHeader (rq : login) : bool := bool_decide (lg_ClientHeader rq = "zot-ui").

Definition FullMgmt : string := "/v2/_zot/ext/mgmt".
Definition V2 : string := "/v2".
Definition CatalogPath : string := "/v2/_catalog".

Definition BASIC : string := "Basic".
Definition BEARER_OIDC : string := "BearerOIDC".

Section authn.
Context `{CelEngine} `{MapIter} `{Glob} `{GoDigest}.

Record server_config : Type := mkServer {
  ct_Auth : option AuthConfig;
  ct_Access : option AccessControlConfig;
  ct_TLS : option (string * string * string);  (* key, certificate and CA certificate *)
  ct_metrics : option string;                  (* the path of the metrics, when enabled *)
  ct_Realm : string
}.
Definition IsMTLSAuthEnabled (conf : server_config) : bool :=
  match ct_TLS conf with Some (key, cert, ca) => set_str key && set_str cert && set_str ca | None => false end.
Definition isAnonymousMetricsRequest (conf : server_config) (rq : login) : bool :=
  isAuthorizationHeaderEmpty (authorization rq) &&
  contains (match ct_Access conf with Some c => m_AnonymousPolicy (ac_Metrics c) | None => [] end) ReadPermission &&
  match ct_metrics conf with Some p => has_prefix (lg_Path rq) p | None => false end.

(** What is set up when the server starts. *)
Record OIDCProvider : Type := mkOIDCProvider { oi_issuer : string; oi_processor : ClaimProcessor }.
Record BearerAuth : Type := mkBearerAuth {
  ba_oidc : option (list OIDCProvider);
  ba_traditional : option (string * string)   (* realm and service *)
}.
Record AuthnMiddleware : Type := mkMiddleware {
  am_ldapClient : option LDAPClient;
  am_bearerAuth : option BearerAuth;
  am_CookieStore : bool
}.
Definition NewBearerAuth (a : option AuthConfig) (providers : list OIDCProvider) : BearerAuth :=
  match (c ← a; au_Bearer c) with
  | None => mkBearerAuth None None
  | Some b =>
      mkBearerAuth (if IsOIDCBearerAuthEnabled a then Some providers else None)
        (if set_str (br_Cert b) || br_AWSSecretsManager b then Some (br_Realm b, br_Service b) else None)
  end.
Definition AuthHandler (a : option AuthConfig) (providers : list OIDCProvider) : AuthnMiddleware :=
  mkMiddleware (new_ldap_client <$> (c ← a; au_LDAP c))
    (if ShouldInitializeBearerAuth a then Some (NewBearerAuth a providers) else None)
    (IsBasicAuthnEnabled a).

(** ** The metadata database as authentication uses it *)
Class UserDBI (M : Type) := {
  ud_SetUserGroups : UserAccessControl -> list string -> ST M unit;
  ud_GetUserGroups : UserAccessControl -> ST M (list string);
  ud_GetUserAPIKeyInfo : string -> ST M string;
  ud_IsAPIKeyExpired : UserAccessControl -> string -> ST M bool;
  ud_UpdateUserAPIKeyLastUsed : UserAccessControl -> string -> ST M unit
}.
#[export] Instance bolt_users : UserDBI userdb := {
  ud_SetUserGroups := SetUserGroups;
  ud_GetUserGroups := GetUserGroups;
  ud_GetUserAPIKeyInfo := GetUserAPIKeyInfo;
  ud_IsAPIKeyExpired := IsAPIKeyExpired;
  ud_UpdateUserAPIKeyLastUsed := UpdateUserAPIKeyLastUsed
}.

Section methods.
Context {M N : Type} `{UserDBI M} `{PasswordHashes} `{LdapNet N} `{SessionStore N} `{!TokenVerifiers N} `{!ClaimValues}.
Context `{Submatch} `{WrappedCodec}.
Context (conf : server_config) (amw : AuthnMiddleware).

(** The state: what the server keeps, and the access control saved on the
    request. *)
Record server : Type := mkServerState {
  sv_MetaDB : option M;
  sv_htpasswd : gmap string string;
  sv_ldap_conn : bool;
  sv_net : N;
  sv_env : env;
  sv_userAc : UserAccessControl
}.
Definition set_user (f : UserAccessControl -> UserAccessControl) (s : server) : server :=
  mkServerState (sv_MetaDB s) (sv_htpasswd s) (sv_ldap_conn s) (sv_net s) (sv_env s) (f (sv_userAc s)).
Definition on_net {A} (m : ST N A) : ST server A :=
  zoom sv_net (fun n s => mkServerState (sv_MetaDB s) (sv_htpasswd s) (sv_ldap_conn s) n (sv_env s) (sv_userAc s)) m.
Definition on_ldap {A} (m : ST (@ldap_state N) A) : ST server A :=
  zoom (fun s => mkLdapState (sv_ldap_conn s) (sv_net s))
    (fun l s => mkServerState (sv_MetaDB s) (sv_htpasswd s) (ls_conn l) (ls_net l) (sv_env s) (sv_userAc s)) m.
Definition on_clock_sv {A} (m : ST env A) : ST server A :=
  zoom sv_env (fun e s => mkServerState (sv_MetaDB s) (sv_htpasswd s) (sv_ldap_conn s) (sv_net s) e (sv_userAc s)) m.
(** A call on the database, under the user saved on the request; a nil pointer
    when there is no database. *)
Definition on_db {A} (m : UserAccessControl -> ST M A) : ST server A := fun s =>
  match sv_MetaDB s with
  | None => (Err ErrNilPointer, s)
  | Some db =>
      let '(r, db) := m (sv_userAc s) db in
      (r, mkServerState (Some db) (sv_htpasswd s) (sv_ldap_conn s) (sv_net s) (sv_env s) (sv_userAc s))
  end.
Definition has_db : ST server bool := gets (fun s => bool_decide (is_Some (sv_MetaDB s))).

(** SetUsername and AddGroups, then SaveOnRequest. *)
Definition save_user (username : string) : ST server unit := modify (set_user (SetUsername username)).
Definition save_groups (groups : list string) : ST server unit := modify (set_user (AddGroups groups)).
Definition configured_groups (identity : string) : list string :=
  match ct_Access conf with Some c => getUserGroups c identity | None => [] end.

(** ** Sessions *)
Definition GetAuthUserFromRequestSession : ST server (option string) :=
  let* r := attempt (on_net GetSession) in
  ret (match r with
       | Err _ => None
       | Ok s => if ses_IsNew s || negb (ses_authStatus s) then None else ses_user s
       end).
Definition sessionAuthn : ST server bool :=
  let* user := GetAuthUserFromRequestSession in
  match user with
  | None => ret false
  | Some identity =>
      save_user identity ;;;
      let* r := attempt (on_db ud_GetUserGroups) in
      match r with
      | Err e => if bool_decide (e = ErrUserDataNotFound) then ret false else throw e
      | Ok groups => save_groups groups ;;; ret true
      end
  end.
(** A session for a login; the store panics when there is none. *)
Definition saveUserLoggedSession (identity provider : string) : ST server unit :=
  if negb (am_CookieStore amw) then throw ErrNilPointer
  else
    let* old := attempt (on_net GetSession) in
    on_net (SaveSession (mkSession (match old with Ok s => ses_IsNew s | Err _ => true end) true (Some identity)
      (if bool_decide (provider = "") then None else Some provider))).

(** ** Certificates *)
Definition mTLSAuthn (rq : login) : ST server bool :=
  match lg_TLS rq with
  | None => ret false
  | Some tls =>
      match PeerCertificates tls, VerifiedChains tls with
      | leafCert :: _, (_ :: _) :: _ =>
          match extractMTLSIdentity leafCert (GetMTLSConfig (ct_Auth conf)) with
          | Err _ => ret false
          | Ok identity =>
              if bool_decide (identity = "") then ret false
              else
                let groups := configured_groups identity in
                save_user identity ;;; save_groups groups ;;;
                let* db := has_db in
                (if (db : bool) then on_db (fun uac => ud_SetUserGroups uac groups) else ret tt) ;;;
                ret true
          end
      | _, _ => ret false
      end
  end.

(** ** API keys *)
Definition ErrAPIKeyMetadataDBRequired : err := ErrOther "metadata database is required for api key authentication".
Definition authenticateAPIKeyCredential (identity apiKey : string) : ST server bool :=
  if negb (has_prefix apiKey APIKeysPrefix) then ret false
  else
    let* db := has_db in
    if negb db then throw ErrAPIKeyMetadataDBRequired
    else
      let hashedKey := hashUUID (TrimPrefix apiKey APIKeysPrefix) in
      let* r := attempt (on_db (fun _ => ud_GetUserAPIKeyInfo hashedKey)) in
      match r with
      | Err e => if bool_decide (e = ErrUserAPIKeyNotFound) then ret false else throw e
      | Ok storedIdentity =>
          if negb (bool_decide (storedIdentity = identity)) then ret false
          else
            save_user identity ;;;
            let* isExpired := on_db (fun uac => ud_IsAPIKeyExpired uac hashedKey) in
            if (isExpired : bool) then ret false
            else
              on_db (fun uac => ud_UpdateUserAPIKeyLastUsed uac hashedKey) ;;;
              let* groups := on_db ud_GetUserGroups in
              save_groups groups ;;; ret true
      end.

(** ** Basic credentials *)

(** The user of a password that was right. *)
Definition accept_login (rq : login) (identity : string) (groups : list string) : ST server bool :=
  save_user identity ;;; save_groups groups ;;;
  (if hasSessionHeader rq then saveUserLoggedSession identity "" else ret tt) ;;;
  on_db (fun uac => ud_SetUserGroups uac groups) ;;;
  ret true.
Definition basicAuthn (rq : login) : ST server bool :=
  if negb (bool_decide (is_Some (ct_Auth conf))) then ret false
  else match getUsernamePasswordBasicAuth (authorization rq) with
  | Err _ => ret false
  | Ok (identity, passphrase) =>
      let* credMap := gets sv_htpasswd in
      if fst (htpasswd_Authenticate credMap identity passphrase) then
        accept_login rq identity (configured_groups identity)
      else
        let* ldapgroups :=
          match am_ldapClient amw with
          | Some lc =>
              if IsLdapAuthEnabled (ct_Auth conf) then
                let* r := attempt (on_ldap (ldap_Authenticate lc identity passphrase)) in
                ret (match r with Ok groups => Some groups | Err _ => None end)
              else ret None
          | None => ret None
          end in
        match ldapgroups with
        | Some groups => accept_login rq identity (configured_groups identity ++ groups)
        | None =>
            if IsAPIKeyEnabled (ct_Auth conf) then authenticateAPIKeyCredential identity passphrase else ret false
        end
  end.

(** ** Bearer tokens *)

(** The challenge for a resource, as AuthChallengeError writes it. *)
Definition challenge_header (realm service : string) (requested : option ResourceAction) : string :=
  let scope := match requested with
               | Some r => rq_Type r ++ ":" ++ rq_Name r ++ ":" ++ rq_Action r
               | None => ""
               end%string in
  let q := String "034" "" in
  ("Bearer realm=" ++ q ++ realm ++ q ++ ",service=" ++ q ++ service ++ q ++ ",scope=" ++ q ++ scope ++ q)%string.

Definition requestedBearerResourceAction (rq : login) : option ResourceAction :=
  if bool_decide (TrimSuffix (lg_Path rq) "/" = V2) then None
  else if bool_decide (lg_name rq = "") && negb (bool_decide (lg_Path rq = CatalogPath)) then None
  else
    let action :=
      if contains ["HEAD"; "GET"] (lg_Method rq) then "pull"
      else if contains ["POST"; "PATCH"; "PUT"] (lg_Method rq) then "push"
      else if bool_decide (lg_Method rq = "DELETE") then "delete" else "pull" in
    Some (mkAction "repository" (lg_name rq) action).

(** The entries of a token that hold at an instant. *)
Definition live (now : Z) (a : ResourceAccess) : bool :=
  match ra_ExpiresAt a with Some t => negb (Before t now) | None => true end.
Definition covers_action (r : ResourceAction) (a : ResourceAccess) : bool :=
  bool_decide (ra_Type a = rq_Type r) && bool_decide (ra_Name a = rq_Name r) && contains (ra_Actions a) (rq_Action r).
(** The search for an entry that allows the action; time.Now is read for the
    entries that would do and have a date. *)
Fixpoint scope_allows (r : ResourceAction) (l : list ResourceAccess) : ST server bool :=
  match l with
  | [] => ret false
  | a :: rest =>
      if negb (covers_action r a) then scope_allows r rest
      else match ra_ExpiresAt a with
           | None => ret true
           | Some _ =>
               let* now := on_clock_sv Now in
               if live now a then ret true else scope_allows r rest
           end
  end.
Inductive token_result : Type :=
  | TokenAccess (access : list ResourceAccess)
  | TokenChallenge (header : string)
  | TokenInvalid.
(** BearerAuthorizer.Authenticate. *)
Definition bearer_Authenticate (realm service header : string) (requested : option ResourceAction) : ST server token_result :=
  let challenge := TokenChallenge (challenge_header realm service requested) in
  if bool_decide (header = "") then ret challenge
  else
    let* r := attempt (on_net (ParseWithClaims (strip_bearer header))) in
    match r with
    | Err _ => ret TokenInvalid
    | Ok access =>
        match requested with
        | None => ret (TokenAccess access)
        | Some r =>
            let* ok := scope_allows r access in
            ret (if (ok : bool) then TokenAccess access else challenge)
        end
    end.

(** The repositories that the live entries of a token allow an action on. *)
Definition scope_patterns (now : Z) (action : string) (l : list ResourceAccess) : gmap string bool :=
  list_to_map ((fun a => (ra_Name a, true)) <$> filter (fun a =>
    (bool_decide (ra_Type a = "repository") && match_string FullNameRegexp (ra_Name a) && live now a &&
     contains (ra_Actions a) action) = true) l).
Definition UserAccessControlFromBearerAccess (now : Z) (l : list ResourceAccess) : UserAccessControl :=
  let userAc := SetIsAdmin false NewUserAccessControl in
  let pull := scope_patterns now "pull" l in
  let push := scope_patterns now "push" l in
  let del := scope_patterns now "delete" l in
  if bool_decide (pull = ∅) && bool_decide (push = ∅) && bool_decide (del = ∅) then userAc
  else SetGlobPatterns DeletePermission del (SetGlobPatterns UpdatePermission push
         (SetGlobPatterns CreatePermission push (SetGlobPatterns ReadPermission pull userAc))).

(** oidcProvider.authenticate and OIDCBearerAuthorizer.Authenticate: the first
    issuer that knows the token. *)
Definition oidc_authenticate (p : OIDCProvider) (header : string) : ST server ClaimResult :=
  let tokenString := strip_bearer header in
  if bool_decide (header = "") || bool_decide (tokenString = "") || bool_decide (tokenString = header) then throw ErrOIDC
  else
    let* claims := on_net (VerifyOIDC (oi_issuer p) tokenString) in
    lift_res (Process (oi_processor p) claims).
Fixpoint oidc_Authenticate (providers : list OIDCProvider) (header : string) : ST server ClaimResult :=
  match providers with
  | [] => throw ErrOIDC
  | p :: rest =>
      let* r := attempt (oidc_authenticate p header) in
      match r with Ok res => ret res | Err _ => oidc_Authenticate rest header end
  end.

Inductive bearer_result : Type :=
  | BearerOk (authnType : string)
  | BearerChallenge (header : string)
  | BearerUnsupported
  | BearerNo.
(** SetClaims, and the replacement of what is saved on the request. *)
Definition SetClaims (c : gmap string claim) (uac : UserAccessControl) : UserAccessControl :=
  mkUserAc (authzInfo uac) (authnInfo uac) (Some c) (permissionEvaluator uac).

Definition bearer_identity (ba : BearerAuth) (header : string) : ST server (option ClaimResult) :=
  match ba_oidc ba with
  | None => ret None
  | Some providers =>
      let* r := attempt (oidc_Authenticate providers header) in
      ret (match r with
           | Ok res => if bool_decide (cr_Username res = "") then None else Some res
           | Err _ => None
           end)
  end.
Definition bearerAuthn (ba : BearerAuth) (rq : login) : ST server bearer_result :=
  let header := authorization rq in
  match wrappedCredentialFromBearerAuthHeader header with
  | Some wrapped =>
      match wrapped with
      | Err _ => ret BearerNo
      | Ok w =>
          if negb (bool_decide (wc_Type w = wrappedCredentialTypeAPIKey) && IsAPIKeyEnabled (ct_Auth conf)) then ret BearerNo
          else
            let* db := has_db in
            if negb db then throw ErrAPIKeyMetadataDBRequired
            else
              let* ok := authenticateAPIKeyCredential (wc_Username w) (wc_Secret w) in
              ret (if (ok : bool) then BearerOk BASIC else BearerNo)
      end
  | None =>
      let* identity := bearer_identity ba header in
      match identity with
      | Some res =>
          save_user (cr_Username res) ;;; save_groups (cr_Groups res) ;;; modify (set_user (SetClaims (cr_Claims res))) ;;;
          let* db := has_db in
          (if (db : bool) then on_db (fun uac => ud_SetUserGroups uac (cr_Groups res)) else ret tt) ;;;
          ret (BearerOk BEARER_OIDC)
      | None =>
          match ba_traditional ba with
          | None => ret BearerNo
          | Some (realm, service) =>
              let* t := bearer_Authenticate realm service header (requestedBearerResourceAction rq) in
              match t with
              | TokenAccess access =>
                  let* now := on_clock_sv Now in
                  modify (set_user (fun _ => UserAccessControlFromBearerAccess now access)) ;;;
                  ret (BearerOk BEARER)
              | TokenChallenge h => ret (BearerChallenge h)
              | TokenInvalid => ret BearerUnsupported
              end
          end
      end
  end.

(** ** The middleware *)

(** What becomes of a request: on to the next handler, with the type of
    authentication noted on its context, or an answer: a 500, or a 401 with the
    challenge of its header. *)
Inductive challenge : Type :=
  | NoChallenge
  | UnsupportedToken                  (* the body says so *)
  | BasicChallenge (realm : string)
  | BearerHeader (header : string).
Inductive admission : Type :=
  | Pass (authnType : option string)
  | Unauthorized (c : challenge)
  | AuthnError.

Definition setBearerAuthChallengeForNonSessionClient (rq : login) : challenge :=
  if hasSessionHeader rq then NoChallenge
  else if negb (HasBearerChallengeConfig (ct_Auth conf)) then NoChallenge
  else match (c ← ct_Auth conf; au_Bearer c) with
       | Some b => BearerHeader (challenge_header (br_Realm b) (br_Service b) (requestedBearerResourceAction rq))
       | None => NoChallenge
       end.
Definition shouldChallengeWithBearer : bool :=
  bool_decide (is_Some (am_bearerAuth amw)) && ShouldAdvertiseBearerChallenge (ct_Auth conf).
Definition bearerAuthFail (rq : login) : admission := Unauthorized (setBearerAuthChallengeForNonSessionClient rq).
Definition authFail (rq : login) : admission :=
  if shouldChallengeWithBearer then bearerAuthFail rq
  else Unauthorized (if hasSessionHeader rq then NoChallenge
                     else BasicChallenge (if bool_decide (ct_Realm conf = "") then "Authorization Required" else ct_Realm conf)).
Definition writeAuthenticationFailure (rq : login) (r : bearer_result) : admission :=
  match r with
  | BearerUnsupported => Unauthorized UnsupportedToken
  | BearerChallenge h => Unauthorized (if bool_decide (h = "") then setBearerAuthChallengeForNonSessionClient rq else BearerHeader h)
  | _ => Unauthorized (setBearerAuthChallengeForNonSessionClient rq)
  end.

Definition allowsUnauthenticatedRequest (rq : login) : bool :=
  bool_decide (lg_RequestURI rq = FullMgmt) || isAnonymousMetricsRequest conf rq ||
  (bool_decide (is_Some (ct_Access conf)) && AnonymousPolicyExists (ct_Access conf)).
Definition isV2Requested (rq : login) : bool := bool_decide (TrimSuffix (lg_Path rq) "/" = V2).
Fixpoint has_substring (s sub : string) : bool :=
  has_prefix s sub || match s with EmptyString => false | String _ rest => has_substring rest sub end.
Definition isDockerClient (rq : login) : bool :=
  has_substring (lg_UserAgent rq) "Docker-Client" || has_prefix (lg_UserAgent rq) "docker/".
Definition mixed_policy : bool := HasMixedAnonymousAndAuthenticatedPolicies (ct_Access conf).
Definition has_certificate (rq : login) : bool :=
  match lg_TLS rq with Some t => (0 <? length (PeerCertificates t))%nat | None => false end.
Definition no_authentication : bool :=
  negb (IsBearerAuthEnabled (ct_Auth conf)) && negb (IsBasicAuthnEnabled (ct_Auth conf)) && negb (IsMTLSAuthEnabled conf).

(** The answer once a method has decided, an error of it being a 500. *)
Definition conclude (rq : login) (m : ST server bool) : ST server admission :=
  let* r := attempt m in
  ret (match r with
       | Err _ => AuthnError
       | Ok true => Pass None
       | Ok false => authFail rq
       end).

Definition tryAuthn (rq : login) : ST server admission :=
  modify (set_user (fun _ => NewUserAccessControl)) ;;;
  if bool_decide (lg_Method rq = "OPTIONS") then ret (Pass None)
  else
    let a := ct_Auth conf in
    let header := authorization rq in
    let unauthenticated := allowsUnauthenticatedRequest rq in
    if hasMultipleAuthorizationHeaders rq then ret (authFail rq)
    else if hasBearerAuthorizationHeader header && bool_decide (is_Some (am_bearerAuth amw)) then
      match am_bearerAuth amw with
      | None => ret AuthnError
      | Some ba =>
          let* r := attempt (bearerAuthn ba rq) in
          ret (match r with
               | Err _ => AuthnError
               | Ok (BearerOk ty) => Pass (Some ty)
               | Ok r => writeAuthenticationFailure rq r
               end)
      end
    else if hasBasicAuthorizationHeader header && CanAuthenticateWithBasicCredentials a then
      conclude rq (let* ok := basicAuthn rq in
                   ret (ok || (hasEmptyBasicAuthorizationHeader header && unauthenticated)))
    else if hasSessionHeader rq && am_CookieStore amw then
      conclude rq (let* ok := sessionAuthn in ret (ok || unauthenticated))
    else if IsMTLSAuthEnabled conf && has_certificate rq then conclude rq (mTLSAuthn rq)
    else if isAuthorizationHeaderEmpty header && shouldChallengeWithBearer &&
            (negb unauthenticated || (isV2Requested rq && mixed_policy)) then
      ret (bearerAuthFail rq)
    else if no_authentication then ret (Pass None)
    else if negb (isAuthorizationHeaderEmpty header) then ret (authFail rq)
    else if unauthenticated then
      ret (if isDockerClient rq && isV2Requested rq && mixed_policy && CanAuthenticateWithBasicCredentials a
           then authFail rq else Pass None)
    else ret (authFail rq).
End methods.
End authn.

(** ** Who a request is admitted as *)

(** What the database promises to authentication: an operation of a user needs
    a name, and a key has an owner with one. *)
Class UserDBSpec {M} `{CelEngine} `{!UserDBI M} : Prop := {
  set_groups_named : forall uac groups m u m', ud_SetUserGroups uac groups m = (Ok u, m') -> GetUsername uac <> "";
  get_groups_named : forall uac m groups m', ud_GetUserGroups uac m = (Ok groups, m') -> GetUsername uac <> "";
  key_owner_named : forall h m owner m', ud_GetUserAPIKeyInfo h m = (Ok owner, m') -> owner <> ""
}.
Lemma as_user_named `{CelEngine} {A} uac (k : string -> ST userdb A) u a u' : as_user uac k u = (Ok a, u') -> GetUsername uac <> "".
Proof. unfold as_user, IsAnonymous. case_bool_decide as Hu; [done|]. by intros _. Qed.
#[export] Instance bolt_users_spec `{CelEngine} `{MapIter} `{Glob} : UserDBSpec (M := userdb).
Proof.
  split.
  - intros uac groups m u m'. apply as_user_named.
  - intros uac m groups m' E. simpl in E. unfold GetUserGroups in E. stepo E. by eapply as_user_named.
  - intros h m owner m'. simpl. unfold GetUserAPIKeyInfo, bind, get. destruct (u_keys m !! h) as [user|]; [|done].
    case_bool_decide; [done|]. by intros [= <- _].
Qed.

Section admitted.
Context `{CelEngine} `{MapIter} `{Glob} `{GoDigest}.
Context {M N : Type} `{!UserDBI M} `{!UserDBSpec (M := M)} `{PasswordHashes} `{LdapNet N} `{SessionStore N} `{!TokenVerifiers N} `{!ClaimValues}.
Context `{Submatch} `{WrappedCodec}.
Context (conf : server_config) (amw : AuthnMiddleware) (rq : login).
Local Notation server := (@server _ M N).

Definition credentials_of (user secret : string) : Prop :=
  getUsernamePasswordBasicAuth (authorization rq) = Ok (user, secret).
(** The evidence that a request comes from a user, on the state it met. *)
Inductive identified (s : server) (user : string) : Prop :=
  | by_password passphrase : credentials_of user passphrase ->
      fst (htpasswd_Authenticate (sv_htpasswd s) user passphrase) = true -> identified s user
  | by_ldap lc passphrase l groups l' : credentials_of user passphrase -> am_ldapClient amw = Some lc ->
      ldap_Authenticate lc user passphrase l = (Ok groups, l') -> identified s user
  | by_api_key key db db1 db2 :
      (credentials_of user key \/
       exists w, wrappedCredentialFromBearerAuthHeader (authorization rq) = Some (Ok w) /\ wc_Username w = user /\ wc_Secret w = key) ->
      IsAPIKeyEnabled (ct_Auth conf) = true -> has_prefix key APIKeysPrefix = true -> sv_MetaDB s = Some db ->
      ud_GetUserAPIKeyInfo (hashUUID (TrimPrefix key APIKeysPrefix)) db = (Ok user, db1) ->
      ud_IsAPIKeyExpired (SetUsername user NewUserAccessControl) (hashUUID (TrimPrefix key APIKeysPrefix)) db1 = (Ok false, db2) ->
      identified s user
  | by_session n ses n' : hasSessionHeader rq = true -> GetSession n = (Ok ses, n') ->
      ses_IsNew ses = false -> ses_authStatus ses = true -> ses_user ses = Some user -> identified s user
  | by_certificate tls leaf certs chain chains : lg_TLS rq = Some tls -> PeerCertificates tls = leaf :: certs ->
      VerifiedChains tls = chain :: chains -> chain <> [] -> IsMTLSAuthEnabled conf = true ->
      extractMTLSIdentity leaf (GetMTLSConfig (ct_Auth conf)) = Ok user -> identified s user
  | by_oidc ba providers p n claims n' res : am_bearerAuth amw = Some ba -> ba_oidc ba = Some providers -> p ∈ providers ->
      VerifyOIDC (oi_issuer p) (strip_bearer (authorization rq)) n = (Ok claims, n') ->
      Process (oi_processor p) claims = Ok res -> cr_Username res = user -> identified s user.

(** Evidence only looks at the password file and the database. *)
Lemma identified_db s s' user : sv_htpasswd s = sv_htpasswd s' -> sv_MetaDB s = sv_MetaDB s' ->
  identified s user -> identified s' user.
Proof.
  intros Hh Hd []; [eapply by_password|eapply by_ldap|eapply by_api_key|eapply by_session|eapply by_certificate|eapply by_oidc];
    rewrite <-?Hh, <-?Hd; eassumption.
Qed.

(** The name saved on the request, and when it is fresh. *)
Definition name_of (s : server) : string := GetUsername (sv_userAc s).
Definition fresh (s : server) : Prop := sv_userAc s = NewUserAccessControl.

Lemma save_user_ok user (s : server) : fresh s -> save_user user s = (Ok tt, set_user (SetUsername user) s) /\
  sv_userAc (set_user (SetUsername user) s) = SetUsername user NewUserAccessControl.
Proof. intros Hs. split; [done|]. simpl. by rewrite Hs. Qed.
Lemma on_db_inv {A} (m : UserAccessControl -> ST M A) (s : server) r s' : on_db m s = (r, s') ->
  (sv_MetaDB s = None /\ r = Err ErrNilPointer /\ s' = s) \/
  exists db db', sv_MetaDB s = Some db /\ m (sv_userAc s) db = (r, db') /\
    sv_userAc s' = sv_userAc s /\ sv_htpasswd s' = sv_htpasswd s /\ sv_MetaDB s' = Some db'.
Proof.
  unfold on_db. destruct (sv_MetaDB s) as [db|] eqn:Ed; [|intros [= <- <-]; by left].
  destruct (m (sv_userAc s) db) as [r0 db'] eqn:E. intros [= <- <-]. right. by exists db, db'.
Qed.
Lemma on_net_inv {A} (m : ST N A) (s : server) r s' : on_net m s = (r, s') ->
  exists n', m (sv_net s) = (r, n') /\ sv_userAc s' = sv_userAc s /\ sv_htpasswd s' = sv_htpasswd s /\ sv_MetaDB s' = sv_MetaDB s.
Proof. unfold on_net, zoom. destruct (m (sv_net s)) as [r0 n']. intros [= <- <-]. by exists n'. Qed.
Lemma attempt_inv {S A} (m : ST S A) s r s' : attempt m s = (Ok r, s') -> m s = (r, s').
Proof. unfold attempt. destruct (m s) as [[a|e] s1]; [|destruct e]; by intros [= <- <-]. Qed.

(** A method names a user only on evidence, and names one when it succeeds. *)
Definition sound (s : server) (ok : bool) (s' : server) : Prop :=
  (ok = true -> name_of s' <> "") /\ (name_of s' = "" \/ identified s (name_of s')).
Lemma sound_false s : fresh s -> sound s false s.
Proof. intros Hs. split; [done|]. left. unfold name_of. by rewrite Hs. Qed.

Lemma name_groups groups (s : server) : name_of (set_user (AddGroups groups) s) = name_of s.
Proof. unfold name_of, AddGroups, GetUsername. simpl. by destruct (authnInfo (sv_userAc s)). Qed.
Lemma name_user user (s : server) : name_of (set_user (SetUsername user) s) = user.
Proof. done. Qed.

(** The tail of a password login. *)
Lemma accept_login_named (s : server) user groups ok s' : accept_login (N := N) amw rq user groups s = (Ok ok, s') ->
  name_of s' = user /\ user <> "".
Proof.
  unfold accept_login. intros E. stepo E. injection E0 as _ <-. stepo E. injection E0 as _ <-.
  apply bind_ok in E as ([]&s2&E2&E). apply bind_ok in E as ([]&s3&E3&E). injection E as _ <-.
  assert (name_of s2 = user) as Hn2.
  { destruct (hasSessionHeader rq); [|injection E2 as <-; by rewrite name_groups].
    unfold saveUserLoggedSession in E2. destruct (negb (am_CookieStore amw)); [done|].
    apply bind_ok in E2 as (old&s1&E1&E2). apply attempt_inv, on_net_inv in E1 as (n1&_&Hu1&_&_).
    apply on_net_inv in E2 as (n2&_&Hu2&_&_). unfold name_of. rewrite Hu2, Hu1. apply name_groups. }
  apply on_db_inv in E3 as [(_&[=]&_)|(db&db'&_&E3&Hu3&_&_)]. apply set_groups_named in E3.
  unfold name_of in *. rewrite Hu3, Hn2 in *. done.
Qed.

Lemma api_key_sound (s : server) identity key ok s' : fresh s ->
  (credentials_of identity key \/
   exists w, wrappedCredentialFromBearerAuthHeader (authorization rq) = Some (Ok w) /\ wc_Username w = identity /\ wc_Secret w = key) ->
  IsAPIKeyEnabled (ct_Auth conf) = true ->
  authenticateAPIKeyCredential identity key s = (Ok ok, s') ->
  (ok = true -> name_of s' <> "") /\ (name_of s' = "" \/ (ok = true -> identified s (name_of s'))).
Proof.
  intros Hs Hc Hk. unfold authenticateAPIKeyCredential. destruct (has_prefix key APIKeysPrefix) eqn:Ep; cbn [negb].
  2: { intros [= <- <-]. split; [done|]. by right. }
  intros E. apply bind_ok in E as (b&s1&E1&E). injection E1 as <- <-.
  destruct (bool_decide _); cbn [negb] in E; [|done].
  apply bind_ok in E as (r&s1&E1&E). apply attempt_inv, on_db_inv in E1 as [(_&->&->)|(db&db1&Edb&E1&Hu1&_&Edb1)]; [done|].
  destruct r as [owner|e]; [|destruct (bool_decide (e = ErrUserAPIKeyNotFound)); [|done]; injection E as <- <-; split; [done|by right]].
  destruct (bool_decide_reflect (owner = identity)) as [->|]; cbn [negb] in E; [|injection E as <- <-; split; [done|by right]].
  apply bind_ok in E as ([]&s2&E2&E). injection E2 as <-. apply bind_ok in E as (exp&s3&E3&E).
  apply on_db_inv in E3 as [(_&[=]&_)|(d1&db2&Ed1&E3&Hu3&_&Edb3)]. simpl in Ed1. rewrite Edb1 in Ed1. injection Ed1 as <-.
  destruct exp; [injection E as <- <-; split; [done|by right]|].
  apply bind_ok in E as ([]&s4&E4&E). apply on_db_inv in E4 as [(_&[=]&_)|(d3&db4&_&_&Hu4&_&_)].
  apply bind_ok in E as (groups&s5&E5&E). apply on_db_inv in E5 as [(_&[=]&_)|(d4&db5&_&_&Hu5&_&_)].
  apply bind_ok in E as ([]&s6&E6&E). injection E6 as <-. injection E as <- <-. rewrite name_groups.
  assert (name_of s5 = identity) as -> by (unfold name_of; by rewrite Hu5, Hu4, Hu3).
  split; [intros _; by eapply key_owner_named|]. right. intros _. eapply by_api_key; try done.
  simpl in E3. unfold fresh in Hs. by rewrite Hu1, Hs in E3.
Qed.

Lemma session_sound (s : server) ok s' : fresh s -> hasSessionHeader rq = true ->
  sessionAuthn (M := M) (N := N) s = (Ok ok, s') -> sound s ok s'.
Proof.
  intros Hs Hh. unfold sessionAuthn, GetAuthUserFromRequestSession. intros E.
  apply bind_ok in E as (user&s1&E1&E). apply bind_ok in E1 as (r&s0&E0&E1). injection E1 as Euser <-.
  apply attempt_inv, on_net_inv in E0 as (n'&E0&Hu0&_&_).
  assert (name_of s0 = "") as Hn0 by (unfold name_of; by rewrite Hu0, Hs).
  destruct user as [user|]; [|injection E as <- <-; split; [done|by left]].
  destruct r as [ses|]; [|done]. destruct (ses_IsNew ses) eqn:Enew; [done|]. destruct (ses_authStatus ses) eqn:Est; [|done].
  simpl in Euser. assert (identified s user) as Hid by by eapply by_session.
  apply bind_ok in E as ([]&s2&E2&E). injection E2 as <-. apply bind_ok in E as (r&s3&E3&E).
  apply attempt_inv, on_db_inv in E3 as [(_&->&->)|(db&db'&_&E3&Hu3&_&_)]; [done|].
  assert (name_of s3 = user) as Hn3 by (unfold name_of; by rewrite Hu3).
  destruct r as [groups|e]; [|destruct (bool_decide _); [|done]; injection E as <- <-; split; [done|right; by rewrite Hn3]].
  apply bind_ok in E as ([]&s4&E4&E). injection E4 as <-. injection E as <- <-. split; rewrite name_groups, Hn3; [|by right].
  intros _. by apply get_groups_named in E3.
Qed.

Lemma certificate_sound (s : server) ok s' : fresh s -> IsMTLSAuthEnabled conf = true ->
  mTLSAuthn (M := M) (N := N) conf rq s = (Ok ok, s') -> sound s ok s'.
Proof.
  intros Hs Hen. unfold mTLSAuthn. destruct (lg_TLS rq) as [tls|] eqn:Et; [|intros [= <- <-]; by apply sound_false].
  destruct (PeerCertificates tls) as [|leaf certs] eqn:Ep; [intros [= <- <-]; by apply sound_false|].
  destruct (VerifiedChains tls) as [|[|c chain] chains] eqn:Ev; try (intros [= <- <-]; by apply sound_false).
  destruct (extractMTLSIdentity leaf _) as [user|] eqn:Ei; [|intros [= <- <-]; by apply sound_false].
  case_bool_decide as Hne; [intros [= <- <-]; by apply sound_false|]. intros E.
  apply bind_ok in E as ([]&s1&E1&E). injection E1 as <-. apply bind_ok in E as ([]&s2&E2&E). injection E2 as <-.
  apply bind_ok in E as (b&s3&E3&E). injection E3 as <- <-. apply bind_ok in E as ([]&s4&E4&E). injection E as <- <-.
  assert (name_of s4 = user) as Hn4.
  { destruct (bool_decide _); [|injection E4 as <-; by rewrite name_groups].
    apply on_db_inv in E4 as [(_&[=]&_)|(db&db'&_&_&Hu&_&_)]. unfold name_of. rewrite Hu. apply name_groups. }
  split; rewrite Hn4; [done|]. right. by eapply by_certificate.
Qed.

Lemma basic_sound (s : server) ok s' : fresh s -> basicAuthn (M := M) (N := N) conf amw rq s = (Ok ok, s') ->
  (ok = true -> name_of s' <> "" /\ identified s (name_of s')) /\
  (hasEmptyBasicAuthorizationHeader (authorization rq) = true -> ok = false -> name_of s' = "").
Proof.
  intros Hs. unfold basicAuthn. destruct (negb _); [intros [= <- <-]; split; [done|by unfold name_of; rewrite Hs]|].
  destruct (getUsernamePasswordBasicAuth _) as [[user pass]|] eqn:Ec; [|intros [= <- <-]; split; [done|by unfold name_of; rewrite Hs]].
  intros E. apply bind_ok in E as (credMap&s1&E1&E). injection E1 as <- <-.
  destruct (fst (htpasswd_Authenticate _ _ _)) eqn:Ehp.
  { destruct ok; [|by (unfold accept_login in E; do 4 stepo E)]. apply accept_login_named in E as [Hn Hne]. rewrite Hn.
    split; [|done]. intros _. split; [done|]. by eapply by_password. }
  apply bind_ok in E as (groups&s1&E1&E).
  assert (sv_userAc s1 = sv_userAc s /\ sv_MetaDB s1 = sv_MetaDB s /\ sv_htpasswd s1 = sv_htpasswd s /\ (is_Some groups -> identified s user)) as (Hu1&Hd1&Hh1&Hg).
  { destruct (am_ldapClient amw) as [lc|] eqn:El; [|by injection E1 as <- <-; split_and!; [..|intros [? ?]]].
    destruct (IsLdapAuthEnabled _); [|by injection E1 as <- <-; split_and!; [..|intros [? ?]]].
    apply bind_ok in E1 as (r&s2&E2&E1). injection E1 as <- <-. apply attempt_inv in E2. unfold on_ldap, zoom in E2.
    destruct (ldap_Authenticate lc user pass _) as [r0 l'] eqn:El2. injection E2 as <- <-. split; [done|]. split; [done|]. split; [done|].
    destruct r0 as [g|]; [|by intros [? ?]]. intros _. by eapply by_ldap. }
  destruct groups as [groups|].
  { destruct ok; [|by (unfold accept_login in E; do 4 stepo E)]. apply accept_login_named in E as [Hn Hne]. rewrite Hn.
    split; [|done]. intros _. split; [done|]. by apply Hg. }
  destruct (IsAPIKeyEnabled _) eqn:Ek.
  2: { injection E as <- <-. split; [done|]. intros _ _. unfold name_of. by rewrite Hu1, Hs. }
  split.
  - intros ->. destruct (api_key_sound s1 user pass true s') as [Hn Hi]; [by unfold fresh; rewrite Hu1|by left|done|done|].
    specialize (Hn eq_refl). split; [done|]. destruct Hi as [Hi|Hi]; [done|]. apply (identified_db s1); [done..|]. by apply Hi.
  - intros He ->. unfold hasEmptyBasicAuthorizationHeader in He. apply bool_decide_eq_true_1 in He. rewrite Ec in He. injection He as -> ->.
    injection E as <-. unfold name_of. by rewrite Hu1, Hs.
Qed.

(** *** Bearer tokens *)
Lemma name_of_token now access (s : server) : name_of (set_user (fun _ => UserAccessControlFromBearerAccess now access) s) = "".
Proof. unfold name_of, UserAccessControlFromBearerAccess. simpl. by destruct (_ && _). Qed.

(** The evidence of a token: it was verified, an entry of it allows what is
    requested at the time, and what it allows is on the request. *)
Definition token_admits (s s' : server) : Prop := exists n n' access now,
  ParseWithClaims (strip_bearer (authorization rq)) n = (Ok access, n') /\
  sv_userAc s' = UserAccessControlFromBearerAccess now access /\
  match requestedBearerResourceAction rq with
  | None => True
  | Some r => exists a k, a ∈ access /\ covers_action r a = true /\ live (env_clock (sv_env s) k) a = true
  end.
Lemma scope_allows_inv r l : forall (s : server) s', scope_allows r l s = (Ok true, s') ->
  sv_userAc s' = sv_userAc s /\
  exists a k, a ∈ l /\ covers_action r a = true /\ live (env_clock (sv_env s) k) a = true.
Proof.
  induction l as [|a l IH]; intros s s'; [done|]. cbn [scope_allows]. destruct (covers_action r a) eqn:Ec; cbn [negb].
  2: { intros E. destruct (IH _ _ E) as (Hu&a'&k&Hin&?). split; [done|]. exists a', k. split; [by apply list_elem_of_further|done]. }
  destruct (ra_ExpiresAt a) eqn:Ex.
  - intros E. apply bind_ok in E as (now&s1&E1&E). injection E1 as <- <-. destruct (live _ a) eqn:El.
    + injection E as <-. split; [done|]. eexists a, _. split; [apply list_elem_of_here|]. split; [done|]. exact El.
    + destruct (IH _ _ E) as (Hu&a'&k&Hin&?). split; [done|]. exists a', k. split; [by apply list_elem_of_further|done].
  - intros [= <-]. split; [done|]. exists a, 0. split; [apply list_elem_of_here|]. split; [done|]. unfold live. by rewrite Ex.
Qed.

(** Reading a token changes nothing but the network. *)
Definition same_but_net (s s' : server) : Prop :=
  sv_userAc s' = sv_userAc s /\ sv_env s' = sv_env s /\ sv_MetaDB s' = sv_MetaDB s /\ sv_htpasswd s' = sv_htpasswd s.
Lemma on_net_same {A} (m : ST N A) s : preserves (same_but_net s) (on_net (M := M) m).
Proof. intros s1 r s2 Hs. unfold on_net, zoom. destruct (m (sv_net s1)) as [r0 n]. by intros [= _ <-]. Qed.
Lemma oidc_authenticate_inv p header (s : server) res s' : oidc_authenticate (M := M) p header s = (Ok res, s') ->
  exists n claims n', VerifyOIDC (oi_issuer p) (strip_bearer header) n = (Ok claims, n') /\ Process (oi_processor p) claims = Ok res.
Proof.
  unfold oidc_authenticate. destruct (_ || _); [done|]. intros E. apply bind_ok in E as (claims&s1&E1&E).
  apply on_net_inv in E1 as (n'&E1&_). injection E as E _. eauto.
Qed.
Lemma oidc_providers_inv providers header : forall (s : server) res s', oidc_Authenticate (M := M) (N := N) providers header s = (Ok res, s') ->
  exists p n claims n', p ∈ providers /\ VerifyOIDC (oi_issuer p) (strip_bearer header) n = (Ok claims, n') /\
    Process (oi_processor p) claims = Ok res.
Proof.
  induction providers as [|p providers IH]; intros s res s'; [done|]. cbn [oidc_Authenticate]. intros E.
  apply bind_ok in E as (r&s1&E1&E). apply attempt_inv in E1. destruct r as [res'|].
  - injection E as <- <-. apply oidc_authenticate_inv in E1 as (n&claims&n'&?&?). exists p, n, claims, n'.
    split; [apply list_elem_of_here|done].
  - apply IH in E as (p'&n&claims&n'&Hin&?). exists p', n, claims, n'. split; [by apply list_elem_of_further|done].
Qed.
Lemma oidc_same providers header s : preserves (same_but_net s) (oidc_Authenticate (M := M) (N := N) providers header).
Proof.
  induction providers as [|p providers IH]; cbn [oidc_Authenticate]; [apply preserves_throw|].
  apply preserves_bind; [|intros []; [apply preserves_ret|apply IH]]. apply preserves_attempt. unfold oidc_authenticate.
  destruct (_ || _); [apply preserves_throw|]. apply preserves_bind; [apply on_net_same|]. intros claims. apply preserves_lift_res.
Qed.
Lemma bearer_identity_inv ba header (s : server) identity s' : bearer_identity (M := M) (N := N) ba header s = (Ok identity, s') ->
  same_but_net s s' /\ forall res, identity = Some res -> cr_Username res <> "" /\
    exists providers p n claims n', ba_oidc ba = Some providers /\ p ∈ providers /\
      VerifyOIDC (oi_issuer p) (strip_bearer header) n = (Ok claims, n') /\ Process (oi_processor p) claims = Ok res.
Proof.
  unfold bearer_identity. destruct (ba_oidc ba) as [providers|] eqn:Ep; [|intros [= <- <-]; by split].
  intros E. apply bind_ok in E as (r&s1&E1&E). injection E as <- <-. apply attempt_inv in E1. split.
  - by eapply (oidc_same providers header s) in E1.
  - intros res Hr. destruct r as [res'|]; [|done]. case_bool_decide; [done|]. injection Hr as <-. split; [done|].
    apply oidc_providers_inv in E1 as (p&n&claims&n'&?&?&?). by exists providers, p, n, claims, n'.
Qed.

Lemma bearer_sound ba (s : server) ty s' : fresh s -> am_bearerAuth amw = Some ba ->
  bearerAuthn (M := M) (N := N) conf ba rq s = (Ok (BearerOk ty), s') ->
  (ty <> BEARER /\ name_of s' <> "" /\ identified s (name_of s')) \/ (ty = BEARER /\ name_of s' = "" /\ token_admits s s').
Proof.
  intros Hs Hba. unfold bearerAuthn. destruct (wrappedCredentialFromBearerAuthHeader _) as [wrapped|] eqn:Ew.
  - destruct wrapped as [w|]; [|done]. destruct (bool_decide _ && _) eqn:Ek; cbn [negb]; [|done]. apply andb_prop in Ek as [_ Ek].
    intros E. apply bind_ok in E as (b&s0&E0&E). injection E0 as <- <-. destruct (negb _); [done|].
    apply bind_ok in E as (ok&s1&E1&E). destruct ok; [|done]. injection E as <- <-. left. split; [done|].
    destruct (api_key_sound s (wc_Username w) (wc_Secret w) true s1) as [Hn Hi]; [done|right; by exists w|done|done|].
    specialize (Hn eq_refl). split; [done|]. destruct Hi as [Hi|Hi]; [done|by apply Hi].
  - intros E. apply bind_ok in E as (identity&s1&E1&E). apply bearer_identity_inv in E1 as [(Hu1&He1&Hd1&Hh1) Hid].
    destruct identity as [res|].
    + destruct (Hid res eq_refl) as (Hne&providers&p&n&claims&n'&?&?&?&?).
      apply bind_ok in E as ([]&s2&E2&E). injection E2 as <-. apply bind_ok in E as ([]&s3&E3&E). injection E3 as <-.
      apply bind_ok in E as ([]&s4&E4&E). injection E4 as <-. apply bind_ok in E as (b&s5&E5&E). injection E5 as <- <-.
      apply bind_ok in E as ([]&s6&E6&E). injection E as <- <-. left. split; [done|].
      assert (name_of s6 = cr_Username res) as ->.
      { destruct (bool_decide _); [|by injection E6 as <-]. apply on_db_inv in E6 as [(_&[=]&_)|(db&db'&_&_&Hu&_&_)].
        unfold name_of. by rewrite Hu. }
      split; [done|]. by eapply by_oidc.
    + destruct (ba_traditional ba) as [[realm service]|]; [|done]. apply bind_ok in E as (t&s2&E2&E).
      destruct t as [access|h|]; [|done..]. apply bind_ok in E as (now&s3&E3&E). apply bind_ok in E as ([]&s4&E4&E).
      injection E4 as <-. injection E as <- <-. right. split; [done|]. split; [apply name_of_token|].
      unfold bearer_Authenticate in E2. case_bool_decide; [done|]. apply bind_ok in E2 as (r&s2'&E2'&E2).
      apply attempt_inv, on_net_inv in E2' as Hn. destruct Hn as (n'&Hp&_). eapply (on_net_same _ s1) in E2' as (_&He2&_); [|done].
      destruct r as [access'|]; [|done]. exists (sv_net s1), n', access', now.
      destruct (requestedBearerResourceAction rq) as [r|].
      * apply bind_ok in E2 as (ok&s2''&E2''&E2). destruct ok; [|done]. injection E2 as -> ->.
        apply scope_allows_inv in E2'' as (_&a&k&?&?&Hl). split; [done|]. split; [done|]. exists a, k. split_and!; [done..|].
        by rewrite <-He1, <-He2.
      * injection E2 as -> ->. done.
Qed.

(** *** The middleware *)

(** Why a request without a name may pass. *)
Definition nameless (s s' : server) (ty : option string) : Prop :=
  lg_Method rq = "OPTIONS" \/
  (ty = Some BEARER /\ token_admits s s') \/
  no_authentication conf = true \/
  (length (lg_Authorization rq) <= 1 /\ allowsUnauthenticatedRequest conf rq = true /\
   (isAuthorizationHeaderEmpty (authorization rq) = true \/ hasEmptyBasicAuthorizationHeader (authorization rq) = true \/
    hasSessionHeader rq = true)).
Definition admitted (s s' : server) (ty : option string) : Prop :=
  (name_of s' <> "" /\ ty <> Some BEARER /\ identified s (name_of s')) \/ (name_of s' = "" /\ nameless s s' ty).

Lemma conclude_inv (m : ST server bool) (s : server) ty s' : conclude conf amw rq m s = (Ok (Pass ty), s') ->
  ty = None /\ m s = (Ok true, s').
Proof.
  unfold conclude. intros E. apply bind_ok in E as (r&s1&E1&E). apply attempt_inv in E1.
  destruct r as [[]|]; unfold authFail, bearerAuthFail in E; try (by destruct (shouldChallengeWithBearer _ _)); try done.
  by injection E as <- <-.
Qed.
Lemma auth_fail_no ty : authFail conf amw rq <> Pass ty.
Proof. unfold authFail, bearerAuthFail. by destruct (shouldChallengeWithBearer _ _). Qed.
Lemma single_header : hasMultipleAuthorizationHeaders rq = false -> length (lg_Authorization rq) <= 1.
Proof. unfold hasMultipleAuthorizationHeaders. intros Hm%Nat.ltb_ge. done. Qed.

Lemma basic_admitted (s : server) ty s' : fresh s -> hasMultipleAuthorizationHeaders rq = false ->
  conclude conf amw rq (let* ok := basicAuthn conf amw rq in
    ret (ok || (hasEmptyBasicAuthorizationHeader (authorization rq) && allowsUnauthenticatedRequest conf rq))) s = (Ok (Pass ty), s') ->
  admitted s s' ty.
Proof.
  intros Hs Hm E. apply conclude_inv in E as [-> E]. apply bind_ok in E as (ok&s1&E1&E). injection E as Eok ->.
  apply basic_sound in E1 as [Ht Hf]; [|done]. destruct ok; [left; by destruct (Ht eq_refl)|].
  simpl in Eok. apply andb_prop in Eok as [He Ha]. right. split; [by apply Hf|]. right. right. right.
  split; [by apply single_header|]. tauto.
Qed.
Lemma session_admitted (s : server) ty s' : fresh s -> hasMultipleAuthorizationHeaders rq = false -> hasSessionHeader rq = true ->
  conclude conf amw rq (let* ok := sessionAuthn in ret (ok || allowsUnauthenticatedRequest conf rq)) s = (Ok (Pass ty), s') ->
  admitted s s' ty.
Proof.
  intros Hs Hm Hh E. apply conclude_inv in E as [-> E]. apply bind_ok in E as (ok&s1&E1&E). injection E as Eok ->.
  apply session_sound in E1 as [Ht Hi]; [|done..]. destruct (decide (name_of s' = "")) as [Hn|Hn].
  - right. split; [done|]. right. right. right. destruct ok; [by destruct (Ht eq_refl)|]. split; [by apply single_header|]. tauto.
  - left. destruct Hi; done.
Qed.

Lemma admission_evidence (s : server) ty s' : tryAuthn conf amw rq s = (Ok (Pass ty), s') -> admitted s s' ty.
Proof.
  unfold tryAuthn. intros E. apply bind_ok in E as ([]&s0&E0&E). injection E0 as <-. set (s0 := set_user _ s) in *.
  assert (fresh s0) as Hs by done. assert (name_of s0 = "") as Hn0 by done.
  assert (forall s' ty, admitted s0 s' ty -> admitted s s' ty) as Hback.
  { intros s1 ty1 [(?&?&Hi)|[? Hn]]; [left|right]; (split; [done|]); [|exact Hn]. split; [done|]. by eapply identified_db; [| |exact Hi]. }
  destruct (bool_decide_reflect (lg_Method rq = "OPTIONS")).
  { injection E as <- <-. right. split; [done|]. by left. }
  cbv zeta in E. destruct (hasMultipleAuthorizationHeaders rq) eqn:Hm; [injection E as E _; by apply auth_fail_no in E|].
  destruct (hasBearerAuthorizationHeader _ && _).
  { destruct (am_bearerAuth amw) as [ba|] eqn:Hba; [|done]. apply bind_ok in E as (r&s1&E1&E). apply attempt_inv in E1.
    destruct r as [[ty'|h| |]|]; unfold writeAuthenticationFailure in E; try (by repeat case_match); try done.
    injection E as <- <-. apply Hback. apply bearer_sound in E1 as [(?&?&?)|(->&?&?)]; [..|done|done].
    - left. split; [done|]. split; [congruence|done].
    - right. split; [done|]. right. by left. }
  destruct (hasBasicAuthorizationHeader _ && _); [by apply Hback, basic_admitted|].
  destruct (hasSessionHeader rq && _) eqn:Eh; [apply andb_prop in Eh as [Eh _]; by apply Hback, session_admitted|].
  destruct (IsMTLSAuthEnabled conf && _) eqn:Et.
  { apply andb_prop in Et as [Et _]. apply conclude_inv in E as [-> E]. apply certificate_sound in E as [Ht Hi]; [|done..].
    apply Hback. left. specialize (Ht eq_refl). destruct Hi; done. }
  destruct (isAuthorizationHeaderEmpty _ && _ && _); [unfold bearerAuthFail in E; done|].
  destruct (no_authentication conf) eqn:En; [injection E as <- <-; right; split; [done|]; right; right; by left|].
  destruct (isAuthorizationHeaderEmpty _) eqn:Ee; cbn [negb] in E; [|injection E as E _; by apply auth_fail_no in E].
  destruct (allowsUnauthenticatedRequest conf rq) eqn:Ea; [|injection E as E _; by apply auth_fail_no in E].
  destruct (_ && _) in E; [injection E as E _; by apply auth_fail_no in E|]. injection E as <- <-.
  right. split; [done|]. right. right. right. split; [by apply single_header|]. tauto.
Qed.

(** C6 A request that the authentication middleware lets through under a name
    showed that it comes from that user: a password, a known API key that has
    not expired, a session, a certificate with a verified chain, or a token of
    an issuer whose claims give the name. One without a name is a preflight, has
    a verified token for what it asks, meets a server without authentication, or
    made no claim where anonymous access, the management route or the metrics
    are allowed. *)
Theorem admitted_on_evidence (s : server) ty s' : tryAuthn conf amw rq s = (Ok (Pass ty), s') -> admitted s s' ty.
Proof. apply admission_evidence. Qed.
End admitted.
