(* ===== verification/KeyLife.v ===== *)
(** * What becomes of a key

    Over the operations on the database of users (Users.v), a key that is not
    deleted stays in the record of its owner, with its identifier and its
    expiration date, and is only marked as expired when a reading of the clock
    was past that date. *)

From Stdlib Require Import ZArith Lia String.
From stdpp Require Import base tactics list gmap strings.
From S2P Require Import Prelude Runtime Regexp Oci StorageCommon GC Aggregates MetaDB Authz Users.

Local Open Scope string_scope.
Local Open Scope list_scope.

(** ** The clock of the database goes on *)
Section clock.
Context `{GoDigest} `{MapIter} `{!ImageTrustStore} (e0 : env).

Definition ticked (b : bolt) : Prop := env_clock (b_env b) = env_clock e0 /\ env_reads e0 <= env_reads (b_env b).
#[local] Hint Extern 1 (preserves _ (modify _)) => intros ? ? ? ? [= _ <-]; assumption : pres.
#[local] Hint Extern 1 (preserves _ (gets _)) => apply preserves_gets : pres.
#[local] Hint Extern 1 (preserves _ (setProtoRepoMeta _)) => unfold setProtoRepoMeta; solve [auto with pres] : pres.
#[local] Hint Extern 1 (preserves _ (appendTagHistory _ _)) => unfold appendTagHistory; solve [auto with pres] : pres.
Lemma ticked_update {A} (m : ST bolt A) : preserves ticked m -> preserves ticked (update m).
Proof. intros Hm b r b' Hb. unfold update. destruct (m b) as [[a|e] b1] eqn:E; intros [= <- <-]; by eapply Hm in E. Qed.
Lemma ticked_now : preserves ticked tx_now.
Proof. intros b r b' [Hc Hr] [= _ <-]. split; [done|]. simpl. lia. Qed.
Lemma ticked_done : preserves ticked (on_clock IsContextDone).
Proof.
  intros b r b' [Hc Hr]. unfold on_clock, zoom, IsContextDone. destruct (env_alive (b_env b)) as [[|n]|]; by intros [= _ <-].
Qed.
Lemma ticked_repo repo : preserves ticked (getProtoRepoMeta repo).
Proof. apply preserves_gets. Qed.
Lemma ticked_blobs repo : preserves ticked (unmarshalProtoRepoBlobs repo).
Proof. apply preserves_gets. Qed.
#[local] Hint Resolve ticked_now ticked_done ticked_repo ticked_blobs : pres.
Lemma ticked_existing e repo : preserves ticked (existing_repo e repo).
Proof. unfold existing_repo. pres. Qed.
Lemma ticked_push repo reference im ts userid m : preserves ticked (set_tag repo reference im ts userid m).
Proof. unfold set_tag. pres. Qed.
Lemma ticked_statistics d ts userid m : preserves ticked (set_statistics d ts userid m).
Proof. unfold set_statistics. pres. Qed.
Lemma ticked_delete_tags repo userid tags : forall m, preserves ticked (delete_tags repo userid tags m).
Proof. induction tags as [|t tags IH]; intros m; simpl; [pres|]. unfold record_delete. pres. Qed.
Lemma ticked_verify d repo image sigs : forall v, preserves ticked (verify_types d repo image sigs v).
Proof. induction sigs as [|[t l] sigs IH]; intros v; simpl; pres. Qed.
#[local] Hint Resolve ticked_existing ticked_push ticked_statistics ticked_delete_tags ticked_verify : pres.
Lemma ticked_op o : preserves ticked (do_op o).
Proof.
  destruct o; simpl; [unfold SetRepoReference; destruct (ValidateRepoReferenceInput _ _ _); [apply preserves_throw|]|..];
    try apply ticked_update; unfold put_image, setRepoLastUpdated, setProtoRepoBlobs, SetFastRestartStamp; pres.
Qed.
End clock.

(** ** What an operation leaves of a key *)
Section moves.
Context `{CelEngine} `{MapIter} `{!MapIterLaws} `{Glob} `{GoDigest} `{!ImageTrustStore}.

Definition clock_of (u : userdb) : nat -> Z := env_clock (b_env (u_meta u)).
Definition reads_of (u : userdb) : nat := env_reads (b_env (u_meta u)).
(** Whether a date is set and has passed at an instant. *)
Definition passed (date now : Z) : bool := negb (IsZero date) && (date <? now)%Z.

(** The details of a key after the readings of the clock from [lo] to [hi]. *)
Definition key_moves (clk : nat -> Z) (lo hi : nat) (k k' : APIKeyDetails) : Prop :=
  ak_UUID k' = ak_UUID k /\ ak_ExpirationDate k' = ak_ExpirationDate k /\
  (ak_IsExpired k' = true -> ak_IsExpired k = true \/ exists n, lo <= n < hi /\ passed (ak_ExpirationDate k) (clk n) = true).
Definition record_moves (clk : nat -> Z) (lo hi : nat) (d d' : UserData) : Prop := forall h k,
  keys_of d !! h = Some k -> exists k', keys_of d' !! h = Some k' /\ key_moves clk lo hi k k'.
Definition moves (u u' : userdb) : Prop :=
  ticked (b_env (u_meta u)) (u_meta u') /\ u_keys u' = u_keys u /\
  forall user h k, user_key u user h = Some k -> exists k', user_key u' user h = Some k' /\
    key_moves (clock_of u) (reads_of u) (reads_of u') k k'.

Lemma key_moves_refl clk lo hi k : key_moves clk lo hi k k.
Proof. split; [done|]. split; [done|]. by left. Qed.
Lemma key_moves_trans clk a b c k1 k2 k3 : a <= b -> b <= c -> key_moves clk a b k1 k2 -> key_moves clk b c k2 k3 -> key_moves clk a c k1 k3.
Proof.
  intros Hab Hbc (U1&D1&X1) (U2&D2&X2). split; [congruence|]. split; [congruence|]. intros Hx.
  destruct (X2 Hx) as [Hx2|(n&Hn&Hp)]; [destruct (X1 Hx2) as [|(n&Hn&Hp)]; [by left|]|]; right; exists n.
  - split; [lia|done].
  - split; [lia|congruence].
Qed.
Lemma record_moves_refl clk lo hi d : record_moves clk lo hi d d.
Proof. intros h k E. exists k. split; [done|apply key_moves_refl]. Qed.
Lemma record_moves_keys clk lo hi d d' : ud_APIKeys d' = ud_APIKeys d -> record_moves clk lo hi d d'.
Proof. intros E h k. unfold keys_of. rewrite E. intros Hk. exists k. split; [done|apply key_moves_refl]. Qed.
Lemma record_moves_wider clk lo hi hi' d d' : hi <= hi' -> record_moves clk lo hi d d' -> record_moves clk lo hi' d d'.
Proof.
  intros Hle Hd h k Hk. destruct (Hd h k Hk) as (k'&Hk'&U&D&X). exists k'. split; [done|]. split; [done|]. split; [done|].
  intros Hx. destruct (X Hx) as [|(n&Hn&Hp)]; [by left|]. right. exists n. split; [lia|done].
Qed.

Lemma ticked_refl b : ticked (b_env b) b.
Proof. done. Qed.
Lemma moves_refl u : moves u u.
Proof. split; [done|]. split; [done|]. intros user h k Hk. exists k. split; [done|apply key_moves_refl]. Qed.
Lemma moves_trans u1 u2 u3 : moves u1 u2 -> moves u2 u3 -> moves u1 u3.
Proof.
  intros ([C1 R1]&K1&M1) ([C2 R2]&K2&M2). split; [split; [congruence|lia]|]. split; [congruence|].
  intros user h k Hk. destruct (M1 user h k Hk) as (k1&Hk1&Hm1). destruct (M2 user h k1 Hk1) as (k2&Hk2&Hm2). exists k2. split; [done|].
  unfold clock_of in Hm2. rewrite C1 in Hm2. by eapply key_moves_trans.
Qed.
Lemma moves_meta b u : ticked (b_env (u_meta u)) b -> moves u (set_meta b u).
Proof. intros Hb. split; [done|]. split; [done|]. intros user h k Hk. exists k. split; [done|apply key_moves_refl]. Qed.

Lemma record_key u user h : user_key u user h = keys_of (default new_user (u_data u !! user)) !! h.
Proof. unfold user_key. by destruct (u_data u !! user). Qed.
(** A record written back after some readings of the clock. *)
Lemma later_set u0 u b userid d' r u' : moves u0 u -> ticked (b_env (u_meta u)) b ->
  record_moves (clock_of u0) (reads_of u0) (env_reads (b_env b)) (default new_user (u_data u0 !! userid)) d' ->
  setUserData userid d' (set_meta b u) = (r, u') -> moves u0 u'.
Proof.
  intros Hu Hb Hd. pose proof Hu as ([C R]&K&M). destruct Hb as [Cb Rb].
  assert (ticked (b_env (u_meta u0)) b) as Hb0 by (split; [congruence|lia]).
  assert (moves u0 (set_meta b u)) as Hm by (eapply moves_trans; [exact Hu|]; by apply moves_meta).
  unfold setUserData, bind. destruct (put_key_state userid (set_meta b u)) as [[-> _]|(e&->&_)]; intros [= _ <-]; [|exact Hm].
  split; [exact Hb0|]. split; [exact K|]. intros user h k Hk. rewrite user_key_insert. case_bool_decide as Hu'.
  - subst user. rewrite record_key in Hk. by apply Hd.
  - by apply Hm.
Qed.
Lemma set_moves u b userid d' r u' : ticked (b_env (u_meta u)) b ->
  record_moves (clock_of u) (reads_of u) (env_reads (b_env b)) (default new_user (u_data u !! userid)) d' ->
  setUserData userid d' (set_meta b u) = (r, u') -> moves u u'.
Proof. apply later_set, moves_refl. Qed.
Lemma meta_same u : set_meta (u_meta u) u = u.
Proof. by destruct u. Qed.
Lemma set_moves_now u userid d' r u' : setUserData userid d' u = (r, u') ->
  ud_APIKeys d' = ud_APIKeys (default new_user (u_data u !! userid)) -> moves u u'.
Proof.
  intros E Hd. rewrite <-(meta_same u) in E. eapply set_moves; [apply ticked_refl|by apply record_moves_keys|exact E].
Qed.

Definition moving {A} (m : ST userdb A) : Prop := forall u r u', m u = (r, u') -> moves u u'.
Lemma moving_transaction {A} (m : ST userdb A) : moving m -> moving (transaction m).
Proof.
  intros Hm u r u' E. unfold transaction in E. destruct (m u) as [[a|e] u1] eqn:E1; injection E as _ <-; apply Hm in E1; [done|].
  apply moves_meta. by destruct E1 as [[? ?] _].
Qed.
Lemma moving_as_user {A} uac (k : string -> ST userdb A) : (forall userid, moving (k userid)) -> moving (as_user uac k).
Proof. intros Hk u r u'. unfold as_user. destruct (IsAnonymous uac); [intros [= _ <-]; apply moves_refl|apply Hk]. Qed.
Lemma moving_as_reader {A} uac repo (k : string -> ST userdb A) : (forall userid, moving (k userid)) -> moving (as_reader uac repo k).
Proof. intros Hk u r u'. unfold as_reader. destruct (_ || _); [intros [= _ <-]; apply moves_refl|apply Hk]. Qed.
Lemma moving_ret {A} (a : A) : moving (ret a).
Proof. intros u r u' [= _ <-]. apply moves_refl. Qed.
Lemma moving_bind {A B} (m : ST userdb A) (k : A -> ST userdb B) : moving m -> (forall a, moving (k a)) -> moving (bind m k).
Proof.
  intros Hm Hk u r u' E. unfold bind in E. destruct (m u) as [[a|e] u1] eqn:E1; apply Hm in E1.
  - apply Hk in E. by eapply moves_trans.
  - by injection E as _ <-.
Qed.
Lemma moving_bolt {A} (m : ST bolt A) : (forall e, preserves (ticked e) m) -> moving (on_bolt m).
Proof.
  intros Hm u r u'. unfold on_bolt, zoom. destruct (m (u_meta u)) as [r0 b] eqn:E. intros [= _ <-].
  apply moves_meta. by apply (Hm _ _ _ _ (ticked_refl _)) in E.
Qed.
(** Reading the record of a user, then going on. *)
Lemma moving_user {A} userid (k : UserData -> ST userdb A) :
  (forall u r u', k (default new_user (u_data u !! userid)) u = (r, u') -> moves u u') ->
  moving (bind (user_or_new userid) k) /\ moving (bind (getUserData userid) k).
Proof.
  intros Hk. split; intros u r u'.
  - apply Hk.
  - unfold getUserData, bind, get. destruct (u_data u !! userid) as [d|] eqn:Ed; [|intros [= _ <-]; apply moves_refl].
    intros E. apply (Hk u r u'). by rewrite Ed.
Qed.
Lemma past_moves date u : exists b, past date u = (Ok (passed date (clock_of u (reads_of u))), set_meta b u) /\
  ticked (b_env (u_meta u)) b /\
  (passed date (clock_of u (reads_of u)) = true -> reads_of u < env_reads (b_env b)).
Proof.
  unfold past, passed. destruct (IsZero date); simpl.
  - exists (u_meta u). by rewrite meta_same.
  - eexists. split; [reflexivity|]. split; [|intros _; unfold reads_of; simpl; lia]. split; [done|simpl; lia].
Qed.

(** A key that is written back, with or without the mark. *)
Lemma record_insert clk lo hi hi' d0 d h details details' : hi <= hi' -> record_moves clk lo hi d0 d ->
  (forall k, keys_of d0 !! h = Some k -> k = details) -> key_moves clk lo hi' details details' ->
  record_moves clk lo hi' d0 (with_keys (<[h := details']> <$> ud_APIKeys d) d).
Proof.
  intros Hle Hd Hh Hk h' k Hk'. destruct (Hd h' k Hk') as (k1&Hk1&Hm). unfold keys_of in Hk1 |- *. simpl.
  destruct (ud_APIKeys d) as [keys|]; simpl in *; [|by rewrite lookup_empty in Hk1]. destruct (decide (h' = h)) as [->|Hne].
  - rewrite lookup_insert_eq. exists details'. split; [done|]. by rewrite (Hh k Hk').
  - rewrite lookup_insert_ne by done. exists k1. split; [done|]. destruct Hm as (U&D&X). split; [done|]. split; [done|].
    intros Hx. destruct (X Hx) as [|(n&Hn&Hp)]; [by left|]. right. exists n. split; [lia|done].
Qed.
Lemma marked_moves clk lo n hi details : lo <= n -> (passed (ak_ExpirationDate details) (clk n) = true -> n < hi) ->
  key_moves clk lo hi details (if passed (ak_ExpirationDate details) (clk n) then with_expired true details else details).
Proof.
  intros Hlo Hhi. destruct (passed _ _) eqn:Ep; [|apply key_moves_refl]. split; [done|]. split; [done|]. intros _. right. exists n.
  split; [|done]. split; [done|by apply Hhi].
Qed.
Lemma stamp_moves userid u0 l : (forall h details, (h, details) ∈ l -> keys_of (default new_user (u_data u0 !! userid)) !! h = Some details) ->
  forall d out u r u', moves u0 u -> record_moves (clock_of u0) (reads_of u0) (reads_of u) (default new_user (u_data u0 !! userid)) d ->
  stamp_expired userid l d out u = (r, u') -> moves u0 u'.
Proof.
  induction l as [|[h details] l IH]; intros Hl d out u r u' Hu Hd; simpl; [by intros [= _ <-]|].
  destruct (past_moves (ak_ExpirationDate details) u) as (b&Eb&Hb&Hlt). rewrite (bind_step _ _ _ _ _ Eb). cbv zeta.
  pose proof Hu as ([C R]&_). pose proof Hb as [_ Rb]. unfold clock_of in Hlt at 1. rewrite C in Hlt. fold (clock_of u0) in Hlt.
  assert (clock_of u = clock_of u0) as -> by exact C. set (expired := passed _ _) in *.
  set (d1 := with_keys _ d). intros E.
  assert (record_moves (clock_of u0) (reads_of u0) (env_reads (b_env b)) (default new_user (u_data u0 !! userid)) d1) as Hd1.
  { apply (record_insert _ _ (reads_of u) _ _ _ _ details); [done|done| |].
    - intros k Hk. rewrite (Hl h details) in Hk by apply list_elem_of_here. by injection Hk.
    - by apply marked_moves. }
  apply bind_state in E as [(e&E&->)|([]&u1&E1&E)]; [by eapply later_set|].
  assert (reads_of u1 = env_reads (b_env b)) as Hr1.
  { unfold setUserData, bind in E1. destruct (put_key_state userid (set_meta b u)) as [[Ep _]|(e&Ep&_)]; rewrite Ep in E1; [by injection E1 as <-|done]. }
  eapply IH; [|by eapply later_set|by rewrite Hr1|exact E]. intros h' details' Hin. apply Hl. by apply list_elem_of_further.
Qed.

(** The operations that take no key away. *)
Lemma moving_op o : leaves_keys o = true -> moving (do_user_op o).
Proof.
  intros Ho. destruct o; try done; simpl; unfold discard; try (apply moving_bind; [|intros ?; apply moving_ret]);
    try (apply moving_as_user; intros userid; apply moving_transaction); try (apply moving_as_reader; intros userid; apply moving_transaction).
  - apply moving_bolt. intros e. apply ticked_op.
  - apply moving_user. intros u r u'. destruct (toggled _ _) as [res l].
    intros E. apply bind_state in E as [(e&E&->)|([]&u1&E1&E)]; [by eapply set_moves_now|].
    eapply moves_trans; [by eapply set_moves_now|]. revert E.
    apply (moving_bind (on_bolt (existing_repo ErrRepoMetaNotFound repo))); [apply moving_bolt; intros e; apply ticked_existing|].
    intros m. cbv zeta. apply moving_bind; [|intros ?; apply moving_ret]. apply moving_bolt. by intros e b r1 b' Hb [= _ <-].
  - apply moving_user. intros u r u'. destruct (toggled _ _) as [res l].
    intros E. apply bind_state in E as [(e&E&->)|([]&u1&E1&E)]; [by eapply set_moves_now|]. injection E as _ <-. by eapply set_moves_now.
  - apply moving_user. intros u r u' E. by eapply set_moves_now.
  - apply moving_user. intros u r u'. set (d := default new_user _). unfold now_u, on_bolt, zoom. unfold bind at 1.
    destruct (tx_now (u_meta u)) as [[now|e] b] eqn:En; [|discriminate En]. injection En as <- <-. unfold store_key.
    destruct (ud_APIKeys d) as [keys|] eqn:Ek; [|intros [= _ <-]; by apply moves_meta; split; [|simpl; lia]].
    apply set_moves; [by split; [|simpl; lia]|]. fold d.
    assert (with_keys (Some (<[hashedKey := with_last_used (env_clock (b_env (u_meta u)) (env_reads (b_env (u_meta u)))) (key_details hashedKey d)]> keys)) d =
      with_keys (<[hashedKey := with_last_used (env_clock (b_env (u_meta u)) (env_reads (b_env (u_meta u)))) (key_details hashedKey d)]> <$> ud_APIKeys d) d) as -> by by rewrite Ek.
    apply (record_insert _ _ (reads_of u) _ _ _ _ (key_details hashedKey d)); [unfold reads_of; simpl; lia|apply record_moves_refl| |].
    + intros k Hk. unfold key_details. unfold keys_of in Hk. rewrite Ek in *. simpl in *. by rewrite Hk.
    + split; [done|]. split; [done|]. by left.
  - apply moving_user. intros u r u'. set (d := default new_user _). cbv zeta. destruct (ak_IsExpired (key_details hashedKey d)); [apply moving_ret|].
    destruct (past_moves (ak_ExpirationDate (key_details hashedKey d)) u) as (b&Eb&Hb&Hlt). rewrite (bind_step _ _ _ _ _ Eb).
    set (details := key_details hashedKey d) in *. set (details' := if passed _ _ then _ else _). intros E.
    assert (forall r1 u1, store_key userid hashedKey details' d (set_meta b u) = (r1, u1) -> moves u u1) as Hs.
    { intros r1 u1. unfold store_key. destruct (ud_APIKeys d) as [keys|] eqn:Ek; [|intros [= _ <-]; by apply moves_meta].
      apply set_moves; [done|]. fold d.
      assert (with_keys (Some (<[hashedKey := details']> keys)) d = with_keys (<[hashedKey := details']> <$> ud_APIKeys d) d) as -> by by rewrite Ek.
      apply (record_insert _ _ (reads_of u) _ _ _ _ details); [by destruct Hb|apply record_moves_refl| |by apply marked_moves].
      intros k Hk. unfold details, key_details. unfold keys_of in Hk. rewrite Ek in *. simpl in *. by rewrite Hk. }
    apply bind_state in E as [(e&E&->)|([]&u1&E1&E)]; [by eapply Hs|]. injection E as _ <-. by eapply Hs.
  - apply moving_user. intros u r u'. apply stamp_moves; [|apply moves_refl|apply record_moves_refl].
    intros h details. rewrite map_iter_perm. by intros Hin%elem_of_map_to_list.
Qed.
End moves.
