(* ===== verification/Keys.v ===== *)
(** * Logging in with API keys

    The keys of users (Users.v) as credentials of requests (Authn.v): what a
    key decides, that a key that was created lets its user in and nobody else
    until it expires or is revoked, and that a key wrapped in a bearer token is
    read back. *)

From Stdlib Require Import ZArith Lia Ascii String.
From stdpp Require Import base tactics list gmap strings.
From S2P Require Import Prelude Runtime Regexp Oci StorageCommon GC Aggregates MetaDB Authz Users KeyLife Base64 Credentials Authn.

Local Open Scope string_scope.
Local Open Scope list_scope.

(** ** The operations of a user who owns a key *)
Section owned.
Context `{CelEngine} `{MapIter} `{!MapIterLaws} `{Glob} `{GoDigest} `{!ImageTrustStore}.

(** The next reading of the clock of the database. *)
Definition now_of (u : userdb) : Z := env_clock (b_env (u_meta u)) (env_reads (b_env (u_meta u))).
Definition expired_at (now : Z) (d : APIKeyDetails) : bool :=
  ak_IsExpired d || (negb (IsZero (ak_ExpirationDate d)) && (ak_ExpirationDate d <? now)%Z).

Lemma get_user u user d : u_data u !! user = Some d -> getUserData user u = (Ok d, u).
Proof. intros E. unfold getUserData, bind, get. by rewrite E. Qed.
Lemma set_user_fits user d u : fits user -> setUserData user d u = (Ok tt, set_data <[user := d]> u).
Proof. intros Hf. unfold setUserData, bind. by rewrite (put_key_fits user u Hf). Qed.
Lemma named_user {A} uac (k : string -> ST userdb A) u : fits (GetUsername uac) -> as_user uac k u = k (GetUsername uac) u.
Proof. intros [Hn _]. unfold as_user, IsAnonymous. by rewrite bool_decide_false. Qed.
Lemma transaction_ok {A} (m : ST userdb A) u a u' : m u = (Ok a, u') -> transaction m u = (Ok a, u').
Proof. unfold transaction. by intros ->. Qed.
Lemma past_spec date u : exists e, past date u =
  (Ok (negb (IsZero date) && (date <? now_of u)%Z), set_meta (set_env e (u_meta u)) u).
Proof.
  unfold past. destruct (IsZero date); simpl; [|by eexists]. exists (b_env (u_meta u)). rewrite set_env_same. by destruct u.
Qed.

(** What the three operations of a login leave in place. *)
Definition login_kept (u u' : userdb) (user : string) : Prop :=
  u_keys u' = u_keys u /\
  (ud_Groups <$> u_data u' !! user) = (ud_Groups <$> u_data u !! user) /\
  is_Some (keys ← (d ← u_data u' !! user; ud_APIKeys d); Some keys).

Lemma expired_spec uac h u details : let user := GetUsername uac in
  fits user -> user_key u user h = Some details -> exists u',
  IsAPIKeyExpired uac h u = (Ok (expired_at (now_of u) details), u') /\ login_kept u u' user.
Proof.
  intros user Hf Hk. destruct (user_key_map u user h) as (d&keys&Ed&Ek&_); [by eexists|].
  unfold IsAPIKeyExpired. rewrite named_user by done. fold user. pose proof (details_of u user h d Ed) as Hd. rewrite Hk in Hd. simpl in Hd.
  unfold expired_at. destruct (ak_IsExpired details) eqn:Ex; simpl.
  - exists u. split.
    + apply transaction_ok. rewrite (bind_step _ _ _ _ _ (get_user u user d Ed)). cbv zeta. by rewrite Hd, Ex.
    + unfold login_kept. rewrite Ed. simpl. rewrite Ek. by repeat split.
  - destruct (past_spec (ak_ExpirationDate details) u) as [e Ep]. set (x := negb _ && _) in *. eexists. split.
    + apply transaction_ok. rewrite (bind_step _ _ _ _ _ (get_user u user d Ed)). cbv zeta. rewrite Hd, Ex.
      rewrite (bind_step _ _ _ _ _ Ep). unfold store_key at 1. rewrite Ek.
      rewrite (bind_step _ _ _ _ _ (set_user_fits user _ _ Hf)). reflexivity.
    + unfold login_kept. simpl. rewrite lookup_insert_eq, Ed. by repeat split.
Qed.
Lemma used_spec uac h u : let user := GetUsername uac in
  fits user -> is_Some (keys ← (d ← u_data u !! user; ud_APIKeys d); Some keys) -> exists u',
  UpdateUserAPIKeyLastUsed uac h u = (Ok tt, u') /\ login_kept u u' user.
Proof.
  intros user Hf. destruct (u_data u !! user) as [d|] eqn:Ed; [|by intros [? ?]]. simpl.
  destruct (ud_APIKeys d) as [keys|] eqn:Ek; [|by intros [? ?]]. intros _.
  unfold UpdateUserAPIKeyLastUsed. rewrite named_user by done. fold user. eexists. split.
  - apply transaction_ok. rewrite (bind_step _ _ _ _ _ (get_user u user d Ed)). rewrite (bind_step _ _ u (now_of u)
      (set_meta (set_env (snd (Now (b_env (u_meta u)))) (u_meta u)) u)) by done.
    unfold store_key. rewrite Ek. exact (set_user_fits user _ _ Hf).
  - unfold login_kept. simpl. rewrite lookup_insert_eq, Ed. by repeat split.
Qed.
Lemma groups_spec uac u d : fits (GetUsername uac) -> u_data u !! GetUsername uac = Some d ->
  GetUserGroups uac u = (Ok (ud_Groups d), u).
Proof.
  intros Hf Ed. unfold GetUserGroups, GetUserData, bind. rewrite named_user by done. by rewrite (get_user _ _ _ Ed).
Qed.
Lemma key_info u h owner : keys_owned u -> u_keys u !! h = Some owner -> GetUserAPIKeyInfo h u = (Ok owner, u).
Proof.
  intros Hu E. destruct (Hu h owner E) as [[Hn _] _]. unfold GetUserAPIKeyInfo, bind, get. rewrite E. by rewrite bool_decide_false.
Qed.
Lemma key_unknown u h : u_keys u !! h = None -> GetUserAPIKeyInfo h u = (Err ErrUserAPIKeyNotFound, u).
Proof. intros E. unfold GetUserAPIKeyInfo, bind, get. by rewrite E. Qed.
End owned.

(** ** What a key decides *)
Section decides.
Context `{CelEngine} `{MapIter} `{!MapIterLaws} `{Glob} `{GoDigest} `{!ImageTrustStore} {N : Type}.
Local Notation server := (@server _ userdb N).

(** Whether a key is one of a user, and has not expired when it is used. *)
Definition key_accepted (u : userdb) (identity apiKey : string) : bool :=
  has_prefix apiKey APIKeysPrefix &&
  match u_keys u !! hashUUID (TrimPrefix apiKey APIKeysPrefix) with
  | Some owner =>
      bool_decide (owner = identity) &&
      negb (expired_at (now_of u) (default zero_key (user_key u owner (hashUUID (TrimPrefix apiKey APIKeysPrefix)))))
  | None => false
  end.
Definition groups_in (u : userdb) (user : string) : list string :=
  match u_data u !! user with Some d => ud_Groups d | None => [] end.

(** A call on the database of the server. *)
Lemma call_db {A} (m : UserAccessControl -> ST userdb A) (s : server) u r u' :
  sv_MetaDB s = Some u -> m (sv_userAc s) u = (r, u') ->
  exists s', on_db m s = (r, s') /\ sv_MetaDB s' = Some u' /\ sv_userAc s' = sv_userAc s.
Proof. intros Eu Em. unfold on_db. rewrite Eu, Em. eexists. split; [reflexivity|]. done. Qed.
Lemma attempt_call {S A} (m : ST S A) s r s' : m s = (r, s') -> (forall p, r <> Err (ErrPanic p)) -> attempt m s = (Ok r, s').
Proof. unfold attempt. intros -> Hp. destruct r as [|[]]; try done. by destruct (Hp what). Qed.

Lemma key_decision (s : server) u identity apiKey : sv_MetaDB s = Some u -> keys_owned u -> fresh s ->
  exists s', authenticateAPIKeyCredential identity apiKey s = (Ok (key_accepted u identity apiKey), s') /\
    (key_accepted u identity apiKey = true -> name_of s' = identity /\ GetGroups (sv_userAc s') = groups_in u identity).
Proof.
  intros Eu Ho Hs. unfold authenticateAPIKeyCredential, key_accepted. destruct (has_prefix apiKey APIKeysPrefix); cbn [negb andb].
  2: { by exists s. }
  rewrite (bind_step _ _ s true s) by (unfold has_db, gets; by rewrite Eu). cbn [negb]. set (h := hashUUID _).
  destruct (u_keys u !! h) as [owner|] eqn:Eh.
  2: { destruct (call_db (fun _ => GetUserAPIKeyInfo h) s u _ _ Eu (key_unknown u h Eh)) as (s1&E1&_).
    exists s1. rewrite (bind_step _ _ _ _ _ (attempt_call _ _ _ _ E1 ltac:(done))). by rewrite bool_decide_true. }
  destruct (call_db (fun _ => GetUserAPIKeyInfo h) s u _ _ Eu (key_info u h owner Ho Eh)) as (s1&E1&Ed1&Eu1).
  rewrite (bind_step _ _ _ _ _ (attempt_call _ _ _ _ E1 ltac:(done))).
  destruct (bool_decide_reflect (owner = identity)) as [->|]; cbn [negb andb]; [|by exists s1].
  destruct (Ho h identity Eh) as [Hf [details Hd]]. rewrite Hd. simpl default.
  set (s2 := set_user (SetUsername identity) s1). rewrite (bind_step _ _ s1 tt s2) by done.
  assert (sv_userAc s2 = SetUsername identity NewUserAccessControl) as Eu2 by (simpl; by rewrite Eu1, Hs).
  assert (GetUsername (sv_userAc s2) = identity) as Hn2 by by rewrite Eu2.
  destruct (expired_spec (sv_userAc s2) h u details) as (u3&E3&Hk3&Hg3&Hm3); [by rewrite Hn2..|]. rewrite Hn2 in Hg3, Hm3.
  destruct (call_db (fun uac => IsAPIKeyExpired uac h) s2 u _ _ Ed1 E3) as (s3&E3'&Ed3&Eu3). rewrite (bind_step _ _ _ _ _ E3').
  destruct (expired_at (now_of u) details); cbn [negb]; [by exists s3|].
  destruct (used_spec (sv_userAc s3) h u3) as (u4&E4&Hk4&Hg4&Hm4); [by rewrite Eu3, Hn2..|].
  rewrite Eu3, Hn2 in Hg4, Hm4.
  destruct (call_db (fun uac => UpdateUserAPIKeyLastUsed uac h) s3 u3 _ _ Ed3 E4) as (s4&E4'&Ed4&Eu4). rewrite (bind_step _ _ _ _ _ E4').
  destruct (u_data u4 !! identity) as [d4|] eqn:Ed; [|by destruct Hm4].
  assert (GetUserGroups (sv_userAc s4) u4 = (Ok (ud_Groups d4), u4)) as E5 by (apply groups_spec; by rewrite Eu4, Eu3, Hn2).
  destruct (call_db GetUserGroups s4 u4 _ _ Ed4 E5) as (s5&E5'&_&Eu5). rewrite (bind_step _ _ _ _ _ E5').
  exists (set_user (AddGroups (ud_Groups d4)) s5). split; [reflexivity|]. intros _.
  rewrite Hg3 in Hg4. unfold name_of, groups_in. simpl. rewrite Eu5, Eu4, Eu3, Eu2. simpl. split; [done|].
  destruct (u_data u !! identity) as [d0|]; simpl in Hg4; [by injection Hg4 as ->|done].
Qed.

(** C12 Whatever users and the storage did before, authentication by an API key
    decides without an error: it accepts the key exactly when the key has its
    prefix, belongs to the user who is named, and has not expired, and then the
    request carries the groups of this user. *)
Theorem api_key_decides trusted e ops (s : server) identity apiKey :
  let u := run_users ops (new_userdb trusted e) in
  all_along keeps_users ops (new_userdb trusted e) -> sv_MetaDB s = Some u -> fresh s ->
  exists s', authenticateAPIKeyCredential identity apiKey s = (Ok (key_accepted u identity apiKey), s') /\
    (key_accepted u identity apiKey = true -> name_of s' = identity /\ GetGroups (sv_userAc s') = groups_in u identity).
Proof. intros u Hops Hs Hf. apply key_decision; [done| |done]. by apply keys_owned_run. Qed.

(** *** A key from its creation to its end *)

(** What a login with a name and a key comes to. *)
Definition logs_in (u : userdb) (name token : string) (answer : bool) : Prop :=
  forall s : server, sv_MetaDB s = Some u -> fresh s -> exists s', authenticateAPIKeyCredential name token s = (Ok answer, s').
(** When a key ends, if it does. *)
Definition key_deadline (parse : string -> option Z) (payload : APIKeyPayload) : option Z :=
  if bool_decide (py_ExpirationDate payload = "") then None
  else t ← parse (py_ExpirationDate payload); if IsZero t then None else Some t.
Definition in_time (deadline : option Z) (now : Z) : bool := match deadline with Some t => negb (t <? now)%Z | None => true end.

Lemma created_inv parse keyBase keyID userAgent body uac u token u1 :
  CreateAPIKey parse keyBase keyID userAgent body uac u = (Ok (201%Z, token), u1) ->
  exists payload apiKey apiKeyID details e, let user := GetUsername uac in let u0 := set_meta (set_env e (u_meta u)) u in
    body = BodyPayload payload /\ GenerateAPIKey keyBase keyID = Ok (apiKey, apiKeyID) /\
    token = (APIKeysPrefix ++ apiKey)%string /\ fits user /\ u1 = key_added u0 user (hashUUID apiKey) details /\
    ak_UUID details = apiKeyID /\ ak_IsExpired details = false /\ forall now, expired_at now details = negb (in_time (key_deadline parse payload) now).
Proof.
  unfold CreateAPIKey. destruct body as [| | |payload]; try done. destruct (GenerateAPIKey keyBase keyID) as [[apiKey apiKeyID]|] eqn:Eg; [|done].
  intros E. apply bind_ok in E as (createdAt&u0&E0&E). cbv zeta in E.
  destruct (if bool_decide (py_ExpirationDate payload = "") then _ else _) as [t|] eqn:Et; [|done].
  apply bind_ok in E as (r&u2&E2&E). apply attempt_inv in E2. destruct r as [[]|]; [|done]. injection E as <- <-.
  set (details := mkAPIKey createdAt t false userAgent "manual" zero_time (py_Label payload) (py_Scopes payload) apiKeyID) in *.
  unfold now_u, on_bolt, zoom in E0. destruct (tx_now (u_meta u)) as [r0 b] eqn:Eb. injection E0 as -> <-.
  unfold tx_now, on_clock, zoom in Eb. destruct (Now (b_env (u_meta u))) as [r1 e1]. injection Eb as -> <-.
  exists payload, apiKey, apiKeyID, details, e1. cbv zeta. split; [done|]. split; [done|]. split; [done|].
  destruct (add_key_spec uac (hashUUID apiKey) details (set_meta (set_env e1 (u_meta u)) u)) as [(e&Ee&_)|[Hf Ea]]; [congruence|].
  split; [done|]. split; [congruence|]. split; [done|]. split; [done|]. intros now. unfold expired_at, key_deadline, in_time. simpl.
  case_bool_decide; [by injection Et as <-|]. destruct (parse _) as [t'|]; [|done]. destruct (t' <? createdAt)%Z; [done|].
  injection Et as <-. simpl. destruct (IsZero t'); [done|]. by rewrite negb_involutive.
Qed.

Lemma token_parts apiKey : has_prefix (APIKeysPrefix ++ apiKey) APIKeysPrefix = true /\
  TrimPrefix (APIKeysPrefix ++ apiKey) APIKeysPrefix = apiKey.
Proof. split; [apply has_prefix_app|apply TrimPrefix_app]. Qed.
Lemma set_env_owned u e : keys_owned u -> keys_owned (set_meta (set_env e (u_meta u)) u).
Proof. done. Qed.
Lemma logs_in_owned u name token : keys_owned u -> logs_in u name token (key_accepted u name token).
Proof. intros Hu s Es Hs. destruct (key_decision s u name token Es Hu Hs) as (s'&E&_). by exists s'. Qed.

(** What keeps a key: no operation adds its hash again, deletes it under its
    identifier, or empties the database. *)
Definition keeps_key (user hashedKey : string) (o : user_op) (u : userdb) : Prop := keeps_users o u /\
  match o with
  | UAddKey _ h _ => h <> hashedKey
  | UDeleteKey uac keyID => forall k, user_key u (GetUsername uac) hashedKey = Some k -> ak_UUID k <> keyID
  | UResetDB => False
  | _ => True
  end.
(** The key is there, with what it was made with. *)
Record alive (clk : nat -> Z) (lo : nat) (k0 : APIKeyDetails) (user hashedKey : string) (u : userdb) : Prop := {
  al_clock : clock_of u = clk;
  al_reads : lo <= reads_of u;
  al_owned : keys_owned u;
  al_owner : u_keys u !! hashedKey = Some user;
  al_key : exists k, user_key u user hashedKey = Some k /\ key_moves clk lo (reads_of u) k0 k
}.
Lemma not_deleted u user keyID hashedKey d : u_data u !! user = Some d ->
  (forall k, user_key u user hashedKey = Some k -> ak_UUID k <> keyID) -> hashedKey ∉ hashes_of keyID (map_iter (keys_of d)).
Proof.
  intros Ed Hn Hin. unfold hashes_of in Hin. apply list_elem_of_fmap in Hin as ([h k]&->&Hin).
  apply list_elem_of_filter in Hin as [Hk Hin]. rewrite map_iter_perm in Hin. apply elem_of_map_to_list in Hin.
  apply (Hn k); [|exact Hk]. unfold user_key. by rewrite Ed.
Qed.
Lemma alive_op clk lo k0 user h o u : keeps_key user h o u -> alive clk lo k0 user h u -> alive clk lo k0 user h (snd (do_user_op o u)).
Proof.
  intros [Hu Ho] Ha. pose proof (keys_owned_op o u Hu (al_owned _ _ _ _ _ _ Ha)) as Hown. destruct Ha as [C R _ K (k&Hk&Hm)].
  destruct (leaves_keys o) eqn:El.
  - destruct (do_user_op o u) as [r u'] eqn:E. simpl in *. apply (moving_op o El) in E as ([C' R']&K'&M'). destruct (M' _ _ _ Hk) as (k'&Hk'&Hm').
    assert (clock_of u' = clk) as C2 by (unfold clock_of; rewrite C'; exact C). split; [done|unfold reads_of in *; lia|done|congruence|].
    exists k'. split; [done|]. rewrite C in Hm'. eapply key_moves_trans; [exact R|exact R'|done|done].
  - destruct o; try done; simpl in *.
    + destruct (add_key_spec uac hashedKey details u) as [(e&Ee&_)|[_ Ee]]; rewrite Ee in *; simpl in *; [by split; [..|exists k]|].
      split; [done|done|done|simpl; by rewrite lookup_insert_ne|]. exists k. split; [|done].
      rewrite user_key_added, bool_decide_false by naive_solver. exact Hk.
    + destruct (delete_key_spec uac keyID u) as [(e&Ee&_)|(d&Ed&Ee)]; rewrite Ee in *; simpl in *; [by split; [..|exists k]|].
      pose proof (not_deleted u _ keyID h d Ed Ho) as Hn. split; [done|done|done|simpl; by rewrite delete_all_lookup, decide_False|].
      exists k. split; [|done]. by rewrite user_key_deleted.
Qed.

(** A hash that is gone stays away until it is added again. *)
Definition not_again (hashedKey : string) (o : user_op) (u : userdb) : Prop :=
  keeps_users o u /\ forall uac details, o <> UAddKey uac hashedKey details.
Lemma gone_op h o u : not_again h o u -> keys_owned u /\ u_keys u !! h = None ->
  keys_owned (snd (do_user_op o u)) /\ u_keys (snd (do_user_op o u)) !! h = None.
Proof.
  intros [Hu Ho] [Hown K]. split; [by apply keys_owned_op|]. destruct (leaves_keys o) eqn:El.
  - destruct (do_user_op o u) as [r u'] eqn:E. apply (moving_op o El) in E as (_&K'&_). simpl. congruence.
  - destruct o; try done; simpl.
    + destruct (add_key_spec uac hashedKey details u) as [(e&->&_)|[_ ->]]; [done|]. simpl.
      rewrite lookup_insert_ne; [done|]. intros ->. by apply (Ho uac details).
    + destruct (delete_key_spec uac keyID u) as [(e&->&_)|(d&_&->)]; [done|]. simpl. rewrite delete_all_lookup. by case_decide.
Qed.

(** A key that is alive decides by its name and the date it was made with, if
    the clock does not go back. *)
Lemma alive_decides clk lo k0 user apiKey u name : alive clk lo k0 user (hashUUID apiKey) u -> ak_IsExpired k0 = false ->
  (forall i j, i <= j -> (clk i <= clk j)%Z) ->
  logs_in u name (APIKeysPrefix ++ apiKey) (bool_decide (name = user) && negb (expired_at (now_of u) k0)).
Proof.
  intros [C R Hown K (k&Hk&U&D&X)] Hx Hclk. destruct (token_parts apiKey) as [Hp Ht].
  pose proof (logs_in_owned u name (APIKeysPrefix ++ apiKey) Hown) as Hl. unfold key_accepted in Hl.
  rewrite Hp, Ht, K, Hk in Hl. simpl default in Hl. cbn [andb] in Hl.
  assert (expired_at (now_of u) k = expired_at (now_of u) k0) as Ee.
  { unfold expired_at. rewrite D, Hx. simpl. destruct (ak_IsExpired k) eqn:Ek; [|done]. simpl. symmetry.
    destruct (X eq_refl) as [|(n&Hn&Hpast)]; [congruence|]. unfold passed in Hpast. apply andb_prop in Hpast as [Hz Hpast].
    rewrite Hz. simpl. apply Z.ltb_lt in Hpast. apply Z.ltb_lt. unfold now_of. fold (clock_of u) (reads_of u). rewrite C.
    specialize (Hclk n (reads_of u)). lia. }
  rewrite Ee in Hl. rewrite (bool_decide_ext (name = user) (user = name)) by done. exact Hl.
Qed.

(** C11 A key that a user created lets this user in, and nobody else, until it
    expires, whatever the program did with the users since, other than deleting
    it, and leaves the keys there were as they are; once it is revoked by its
    identifier it never lets anybody in again. The clock does not go back, and
    the hash of the key is not added a second time (the key is drawn at
    random). *)
Theorem created_key_lets_in parse keyBase keyID userAgent payload uac u token u1 :
  keys_owned u -> CreateAPIKey parse keyBase keyID userAgent (BodyPayload payload) uac u = (Ok (201%Z, token), u1) ->
  (forall i j, i <= j -> (clock_of u1 i <= clock_of u1 j)%Z) ->
  let user := GetUsername uac in let h := hashUUID (TrimPrefix token APIKeysPrefix) in
  (forall other h', h' <> h -> user_key u1 other h' = user_key u other h' /\ u_keys u1 !! h' = u_keys u !! h') /\
  forall ops, all_along (keeps_key user h) ops u1 -> let u2 := run_users ops u1 in
    (forall name, logs_in u2 name token (bool_decide (name = user) && in_time (key_deadline parse payload) (now_of u2))) /\
    forall id u3, keyID = Ok id -> RevokeAPIKey {["id" := [id]]} uac u2 = (Ok 200%Z, u3) ->
      forall later name, all_along (not_again h) later u3 -> logs_in (run_users later u3) name token false.
Proof.
  intros Hu E Hclk. apply created_inv in E as (p&apiKey&apiKeyID&details&e&[= <-]&Eg&->&Hf&->&Hid&Hnew&Hx).
  destruct (token_parts apiKey) as [Hp Ht]. rewrite Ht.
  set (u0 := set_meta _ u) in *. set (user := GetUsername uac) in *. set (u1 := key_added _ _ _ _) in *. intros user' h. subst user' h.
  split.
  { intros other h' Hh. unfold u1. rewrite user_key_added, bool_decide_false by naive_solver. split; [done|]. simpl.
    by rewrite lookup_insert_ne. }
  intros ops Hops u2. assert (alive (clock_of u1) (reads_of u1) details user (hashUUID apiKey) u2) as Ha.
  { apply (run_users_invariant (keeps_key user (hashUUID apiKey)) (alive (clock_of u1) (reads_of u1) details user (hashUUID apiKey)));
      [intros o v; apply alive_op|done|]. split; [done|done|by apply key_added_owned|simpl; by rewrite lookup_insert_eq|].
    exists details. split; [unfold u1; by rewrite user_key_added, bool_decide_true|apply key_moves_refl]. }
  split.
  - intros name. pose proof (alive_decides _ _ _ _ _ u2 name Ha Hnew Hclk) as Hl. by rewrite Hx, negb_involutive in Hl.
  - intros id u3 -> E later name Hlater. unfold RevokeAPIKey in E. rewrite lookup_singleton_eq in E. apply bind_ok in E as (r&u4&E4&E).
    apply attempt_inv in E4. injection E as Er ->. destruct r as [[]|]; [|done]. clear Er.
    destruct (delete_key_spec uac id u2) as [(e'&Ee&_)|(d&Ed&Ex)]; [congruence|]. rewrite Ex in E4. injection E4 as <-. fold user in Ed, Hlater |- *.
    destruct Ha as [_ _ Hown _ (k&Hk&U&_)].
    assert (keys_owned (key_deleted u2 user id d) /\ u_keys (key_deleted u2 user id d) !! hashUUID apiKey = None) as Hgone.
    { split; [by apply key_deleted_owned|]. simpl. rewrite delete_all_lookup, decide_True; [done|]. unfold hashes_of.
      apply list_elem_of_fmap. exists (hashUUID apiKey, k). split; [done|]. apply list_elem_of_filter. simpl. split.
      + unfold GenerateAPIKey in Eg. destruct keyBase; [|done]. simpl in Eg. congruence.
      + rewrite map_iter_perm. apply elem_of_map_to_list. unfold user_key in Hk. by rewrite Ed in Hk. }
    apply (run_users_invariant (not_again (hashUUID apiKey)) _ later (gone_op _) _ Hlater) in Hgone as [Hown' Hgone].
    pose proof (logs_in_owned _ name (APIKeysPrefix ++ apiKey) Hown') as Hl. unfold key_accepted in Hl. by rewrite Hp, Ht, Hgone in Hl.
Qed.
End decides.

(** ** Keys in bearer tokens *)
Section wrapped.
Context `{WrappedCodec}.

Definition not_space (c : ascii) : bool := negb (is_space c).
Lemma fields_word word : forall current, all_chars not_space word = true -> (current ++ word)%string <> "" ->
  fields_from word current = [(current ++ word)%string].
Proof.
  induction word as [|c word IH]; intros current Hw Hn; simpl.
  - rewrite string_app_nil_r in *. by rewrite bool_decide_false.
  - simpl in Hw. apply andb_prop in Hw as [Hc Hw]. unfold not_space in Hc. apply negb_true_iff in Hc. rewrite Hc.
    rewrite IH; [|done|]; rewrite string_app_assoc; [done|]. by destruct current.
Qed.
Lemma fields_two w1 w2 : forall current, all_chars not_space w1 = true -> all_chars not_space w2 = true ->
  (current ++ w1)%string <> "" -> w2 <> "" -> fields_from (w1 ++ String " " w2) current = [(current ++ w1)%string; w2].
Proof.
  induction w1 as [|c w1 IH]; intros current H1 H2 Hn1 Hn2; simpl.
  - rewrite string_app_nil_r in *. rewrite bool_decide_false by done. simpl. f_equal. by apply (fields_word w2 "").
  - simpl in H1. apply andb_prop in H1 as [Hc H1]. unfold not_space in Hc. apply negb_true_iff in Hc. rewrite Hc.
    rewrite IH; [|done..|by rewrite string_app_assoc|done]. by rewrite string_app_assoc.
Qed.

Lemma all_chars_list p l : all_chars p (string_of_list_ascii l) = forallb p l.
Proof. induction l as [|c l IH]; [done|]. simpl. by rewrite IH. Qed.
Lemma encode_letters n : forall s, length s <= n -> Forall (fun c => c ∈ encodeURL) (encode_raw encodeURL s).
Proof.
  induction n as [|n IH]; intros [|a [|b [|c rest]]] Hn; try (simpl in Hn; lia); cbn [encode_raw];
    repeat apply Forall_cons_2; try apply letter_in; try apply Forall_nil_2. apply IH. simpl in Hn. lia.
Qed.
Lemma encoded_no_space s : all_chars not_space (RawURLEncodeToString s) = true.
Proof.
  unfold RawURLEncodeToString. rewrite all_chars_list. apply forallb_forall. intros c Hc%list_elem_of_In.
  assert (forallb not_space encodeURL = true) as Hall by (vm_compute; reflexivity). rewrite forallb_forall in Hall.
  apply Hall, list_elem_of_In. pose proof (encode_letters _ (list_ascii_of_string s) (le_n _)) as Hf. rewrite Forall_forall in Hf. by apply Hf.
Qed.
Lemma encoded_nonempty s : s <> "" -> RawURLEncodeToString s <> "".
Proof. unfold RawURLEncodeToString. destruct s as [|a [|b [|c s]]]; done. Qed.

(** The token that stands for an API key is read back from the header of a
    request as the same user and key, whatever characters they hold, if it is
    not longer than the limit. *)
Lemma wrapped_read_back user secret :
  let w := mkWrapped 1 wrappedCredentialTypeAPIKey user secret in
  user <> "" -> secret <> "" -> marshal_wrapped w <> "" -> unmarshal_wrapped (marshal_wrapped w) = Some w ->
  (Z.of_nat (String.length (RawURLEncodeToString (marshal_wrapped w))) <= MaxTokenRequestBodySize)%Z ->
  wrappedCredentialFromBearerAuthHeader ("Bearer " ++ newWrappedCredentialBearerToken user secret) = Some (Ok w).
Proof.
  intros w Hu Hs Hm Hj Hl. unfold newWrappedCredentialBearerToken. fold w. set (encoded := RawURLEncodeToString (marshal_wrapped w)) in *.
  unfold wrappedCredentialFromBearerAuthHeader, bearerTokenFromAuthHeader, splitAuthorizationHeader, Fields.
  change ("Bearer " ++ (wrappedCredentialBearerPrefix ++ encoded))%string
    with ("Bearer" ++ String " " (wrappedCredentialBearerPrefix ++ encoded))%string.
  rewrite fields_two; [|done|apply encoded_no_space|done|done]. unfold isWrappedCredentialBearerToken.
  assert (EqualFold ("" ++ "Bearer") "bearer" = true) as -> by (vm_compute; reflexivity).
  rewrite has_prefix_app. unfold parseWrappedCredentialBearerToken. rewrite TrimPrefix_app.
  rewrite bool_decide_false by by apply encoded_nonempty.
  destruct (Z.ltb_spec MaxTokenRequestBodySize (Z.of_nat (String.length encoded))); [lia|]. simpl.
  unfold encoded. rewrite raw_url_round_trip, Hj. simpl. by rewrite !bool_decide_false.
Qed.
End wrapped.
