(* ===== verification/Tokens.v ===== *)
(** * Tokens of a token service (bearer.go, token_exchange.go, bearer_auth.go of pkg/api)

    What the token of a token service allows, and the token endpoint of zot
    itself, which exchanges an API key for a bearer token, answers for the
    OIDC tokens of the issuers it knows, and may pass everything else to another
    endpoint. Reading of a form and of a JSON object are the shape of the
    request and a parameter; what is passed on is only noted. *)

From Stdlib Require Import ZArith Lia Ascii String.
From stdpp Require Import base tactics list gmap strings.
From S2P Require Import Prelude Runtime Regexp Oci StorageCommon GC Aggregates MetaDB Authz Access Users Base64 Credentials Authn Keys.

Local Open Scope string_scope.
Local Open Scope list_scope.

(** ** What a token allows *)
Section scope.
Context `{CelEngine} `{MapIter} `{!MapIterLaws} `{Glob}.

(** The actions of a token for the permissions of the access control. *)
Definition token_action (permission : string) : string :=
  if bool_decide (permission = ReadPermission) then "pull"
  else if bool_decide (permission = DeletePermission) then "delete" else "push".
(** An entry on a repository that holds at an instant, and gives an action. *)
Definition repository_entry (now : Z) (a : ResourceAccess) : bool :=
  bool_decide (ra_Type a = "repository") && match_string FullNameRegexp (ra_Name a) && live now a.
Definition entry_gives (now : Z) (action : string) (a : ResourceAccess) : bool :=
  repository_entry now a && contains (ra_Actions a) action.
Definition scoped (now : Z) (l : list ResourceAccess) : bool :=
  existsb (fun a => entry_gives now "pull" a || entry_gives now "push" a || entry_gives now "delete" a) l.
Definition token_gives (now : Z) (action repo : string) (l : list ResourceAccess) : bool :=
  existsb (fun a => entry_gives now action a && bool_decide (ra_Name a = repo)) l.

Lemma scope_lookup now action l repo :
  scope_patterns now action l !! repo = if token_gives now action repo l then Some true else None.
Proof.
  induction l as [|a l IH]; [done|]. unfold scope_patterns in *. rewrite filter_cons. unfold token_gives in *. simpl.
  change (bool_decide (ra_Type a = "repository") && match_string FullNameRegexp (ra_Name a) && live now a &&
    contains (ra_Actions a) action) with (entry_gives now action a).
  destruct (entry_gives now action a) eqn:E; [rewrite decide_True by done|rewrite decide_False by done; exact IH].
  simpl. case_bool_decide as Hn; [subst; by rewrite lookup_insert_eq|]. by rewrite lookup_insert_ne by done.
Qed.
Lemma scope_empty now action l : bool_decide (scope_patterns now action l = ∅) = negb (existsb (entry_gives now action) l).
Proof.
  destruct (existsb (entry_gives now action) l) eqn:E.
  - apply bool_decide_false. intros Em. apply existsb_exists in E as (a&Hin&Ha). pose proof (scope_lookup now action l (ra_Name a)) as El.
    rewrite Em, lookup_empty in El. unfold token_gives in El. rewrite (proj2 (existsb_exists _ _)) in El; [done|].
    exists a. split; [done|]. rewrite Ha. by rewrite bool_decide_true.
  - apply bool_decide_true, map_eq. intros repo. rewrite scope_lookup, lookup_empty.
    destruct (token_gives now action repo l) eqn:E2; [|done]. apply existsb_exists in E2 as (a&Hin&[Ha _]%andb_prop).
    apply not_true_iff_false in E. destruct E. apply existsb_exists. by exists a.
Qed.
Lemma scoped_empty now l : bool_decide (scope_patterns now "pull" l = ∅) && bool_decide (scope_patterns now "push" l = ∅) &&
  bool_decide (scope_patterns now "delete" l = ∅) = negb (scoped now l).
Proof.
  rewrite !scope_empty. unfold scoped. induction l as [|a l IH]; [done|]. simpl in *.
  destruct (entry_gives now "pull" a), (entry_gives now "push" a), (entry_gives now "delete" a); simpl; rewrite ?andb_false_r; done.
Qed.

(** Patterns that are names only match these names. *)
Definition literal_names : Prop := forall n repo, match_string FullNameRegexp n = true -> glob_Match n repo = Ok (bool_decide (n = repo)).
Lemma name_of_gives now action repo l : token_gives now action repo l = true -> match_string FullNameRegexp repo = true.
Proof.
  intros (a&_&Ha)%existsb_exists. apply andb_prop in Ha as [Ha <-%bool_decide_eq_true_1]. apply andb_prop in Ha as [Ha _].
  apply andb_prop in Ha as [Ha _]. by apply andb_prop in Ha as [_ Ha].
Qed.
Lemma scope_matches now action l repo : literal_names ->
  matchesRepo (scope_patterns now action l) repo = token_gives now action repo l.
Proof.
  intros Hg. unfold matchesRepo. set (ps := fst <$> _).
  assert (forall q, q ∈ ps <-> token_gives now action q l = true) as Hps.
  { intros q. unfold ps. rewrite map_iter_perm, list_elem_of_fmap. split.
    - intros ([k v]&->&Hk%elem_of_map_to_list). rewrite scope_lookup in Hk. simpl. by destruct (token_gives now action k l).
    - intros Hq. exists (q, true). split; [done|]. apply elem_of_map_to_list. by rewrite scope_lookup, Hq. }
  assert (forall q, q ∈ ps -> matches repo q -> q = repo) as Hm.
  { intros q Hq Hm. apply Hps, name_of_gives in Hq. unfold matches in Hm. rewrite (Hg q repo Hq) in Hm.
    injection Hm as Hm. by apply bool_decide_eq_true_1 in Hm. }
  destruct (token_gives now action repo l) eqn:E.
  - assert (match_string FullNameRegexp repo = true) as Hv by (by eapply name_of_gives).
    rewrite (longest_decisive repo ps repo); [by rewrite scope_lookup, E|]. left.
    split; [by intros ->|]. split; [by apply Hps|]. split; [unfold matches; by rewrite Hg, bool_decide_true|].
    intros q Hq Hmq Hne. by destruct Hne, (Hm q Hq Hmq).
  - rewrite (longest_decisive repo ps ""); [|right; split; [done|]].
    + rewrite scope_lookup. destruct (token_gives now action "" l) eqn:E0; [|done]. by apply name_of_gives in E0.
    + intros q Hq Hmq. rewrite (Hm q Hq Hmq) in Hq. apply Hps in Hq. congruence.
Qed.

(** C15 Under a token of the token service a user has exactly the permissions
    on a repository that the entries of the token for it give while they last,
    if any entry of the token for a repository is good for something; under a
    token without one, whether it never had one or they all expired, the user
    may do everything on every repository. *)
Theorem token_rights_exact now l permission repo : literal_names ->
  permission ∈ [ReadPermission; CreatePermission; UpdatePermission; DeletePermission] ->
  Can (UserAccessControlFromBearerAccess now l) permission repo =
    negb (scoped now l) || token_gives now (token_action permission) repo l.
Proof.
  intros Hg Hp. unfold UserAccessControlFromBearerAccess. rewrite scoped_empty. destruct (scoped now l); simpl negb; cbv iota; simpl orb.
  - unfold Can, token_action. rewrite !elem_of_cons, elem_of_nil in Hp.
    destruct Hp as [->|[->|[->|[->|[]]]]]; rewrite <-scope_matches by done; reflexivity.
  - rewrite !elem_of_cons, elem_of_nil in Hp. by destruct Hp as [->|[->|[->|[->|[]]]]].
Qed.
End scope.

(** ** The token endpoint *)

(** net/http's reading of basic credentials: one space after the scheme. *)
Definition ascii_fold (s : string) : string := string_of_list_ascii (lower <$> list_ascii_of_string s).
Definition BasicAuth (header : string) : option (string * string) :=
  let prefix := "Basic " in
  if bool_decide (ascii_fold (String.substring 0 (String.length prefix) header) = ascii_fold prefix) then
    c ← StdDecodeString (String.substring (String.length prefix) (String.length header - String.length prefix) header);
    Cut ":" c
  else None.

(** The form of a request: none, or of another media type; too large; not
    read; not a form; or its values. *)
Inductive form_body : Type := NoForm | FormTooLarge | FormUnread | FormBad | Form (values : gmap string (list string)).
Record token_request : Type := mkTokenRequest { tr_Authorization : list string; tr_form : form_body }.
Definition tr_header (rq : token_request) : string := default "" (head (tr_Authorization rq)).

Record tokenExchangeCredential : Type := mkCredential { te_Username : string; te_Secret : string }.
#[export] Instance credential_eq_dec : EqDecision tokenExchangeCredential.
Proof. solve_decision. Defined.
Definition hasAPIKeySecret (c : tokenExchangeCredential) : bool := has_prefix (te_Secret c) APIKeysPrefix.
Definition hasWrappedCredentialSecret (c : tokenExchangeCredential) : bool := isWrappedCredentialBearerToken (te_Secret c).
Definition isAPIKey (c : tokenExchangeCredential) : bool := negb (bool_decide (te_Username c = "")) && hasAPIKeySecret c.
Definition hasCredential (l : list tokenExchangeCredential) (c : tokenExchangeCredential) : bool :=
  if hasAPIKeySecret c then bool_decide (c ∈ l) else existsb (fun existing => bool_decide (te_Secret existing = te_Secret c)) l.
Definition addCredential (l : list tokenExchangeCredential) (c : string * string) : list tokenExchangeCredential :=
  let credential := mkCredential (TrimSpace (fst c)) (TrimSpace (snd c)) in
  if bool_decide (te_Secret credential = "") || hasCredential l credential then l else l ++ [credential].

Definition form_get (values : gmap string (list string)) (key : string) : string := default "" (head (default [] (values !! key))).
Definition token_fields : list string := ["id_token"; "access_token"; "refresh_token"; "token"].
(** What a request presents, in the order in which it is read. *)
Definition header_credentials (rq : token_request) : list (string * string) :=
  (match BasicAuth (tr_header rq) with Some (user, pass) => if bool_decide (pass = "") then [] else [(user, pass)] | None => [] end) ++
  (match bearerTokenFromAuthHeader (tr_header rq) with Some token => [("", token)] | None => [] end).
Definition form_credentials (values : gmap string (list string)) : list (string * string) :=
  let username := form_get values "username" in
  let formUsername := if bool_decide (username = "") then form_get values "account" else username in
  (pair formUsername <$> default [] (values !! "password")) ++
  (pair "" <$> (token_fields ≫= fun field => default [] (values !! field))).
Definition normalizeTokenExchangeRequest (rq : token_request) : Z + list tokenExchangeCredential :=
  match tr_form rq with
  | NoForm => inr (foldl addCredential [] (header_credentials rq))
  | FormTooLarge => inl 413%Z
  | FormUnread | FormBad => inl 400%Z
  | Form values => inr (foldl addCredential [] (header_credentials rq ++ form_credentials values))
  end.

(** *** Whose token it is *)

(** The claims of a token by their JSON, not verified. *)
Inductive raw_audience : Type := AudString (s : string) | AudList (l : list (option string)) | AudOther.
Class ClaimsJSON := decode_claims : string -> option (option string * raw_audience).
Inductive localOIDCTokenOwner : Type := localOIDCTokenOwnerNone | localOIDCTokenOwnerBearer | localOIDCTokenOwnerOpenID.

Definition audiencesFromClaim (a : raw_audience) : list string :=
  match a with
  | AudString s => if bool_decide (s = "") then [] else [s]
  | AudList l => filter (fun s => s <> "") (omap id l)
  | AudOther => []
  end.
Definition intersects (left right : list string) : bool := existsb (contains right) left.

Section owners.
Context `{ClaimsJSON}.
Definition parseUnverifiedJWTClaims (token : string) : option (string * list string) :=
  match split_on "." token with
  | [_; part; _] =>
      payload ← RawURLDecodeString part;
      '(iss, aud) ← decode_claims payload;
      let issuer := default "" iss in
      let audiences := audiencesFromClaim aud in
      if bool_decide (issuer = "") || bool_decide (audiences = []) then None else Some (issuer, audiences)
  | _ => None
  end.
Definition bearerOIDCOwnsClaims (c : string * list string) (a : option AuthConfig) : bool :=
  on_bearer a (fun b => existsb (fun p => bool_decide (bo_Issuer p = fst c) && intersects (snd c) (bo_Audiences p)) (br_OIDC b)).
Definition openIDOwnsClaims (c : string * list string) (a : option AuthConfig) : bool :=
  on_auth a (fun cfg => match au_OpenID cfg with
    | None => false
    | Some o => existsb (fun '(name, p) => IsOpenIDSupported name && bool_decide (op_Issuer p = fst c) &&
        negb (bool_decide (op_ClientID p = "")) && contains (snd c) (op_ClientID p)) (map_to_list (Providers o))
    end).
Definition localOIDCTokenOwnerForCredential (credential : string) (a : option AuthConfig) : localOIDCTokenOwner :=
  match parseUnverifiedJWTClaims credential with
  | None => localOIDCTokenOwnerNone
  | Some c => if bearerOIDCOwnsClaims c a then localOIDCTokenOwnerBearer
              else if openIDOwnsClaims c a then localOIDCTokenOwnerOpenID else localOIDCTokenOwnerNone
  end.
End owners.

Section exchange.
Context `{CelEngine} `{MapIter} `{Glob} `{GoDigest}.
Context {M N : Type} `{!UserDBI M} `{!TokenVerifiers N} `{!ClaimValues} `{WrappedCodec} `{ClaimsJSON}.
Context (conf : server_config) (ba : BearerAuth).
Local Notation server := (@server _ M N).
Local Notation auth := (ct_Auth conf).

(** What the endpoint answers: a wrapped API key; the token that came, with
    its claims; a challenge; a status alone; more than one header; or that the
    request was given to the other endpoint. *)
Inductive exchange : Type :=
  | ExWrapped (token : string)
  | ExOIDC (token : string) (claims : gmap string claim)
  | ExUnauthorized (realm : string)
  | ExFailed (status : Z)
  | ExUnsupported
  | ExProxied.

Definition exchange_realm : string :=
  match (c ← auth; au_Bearer c) with Some b => if bool_decide (br_Realm b = "") then "zot" else br_Realm b | None => "zot" end.

(** One credential: an answer, or whether it is one of zot's own. *)
Definition exchange_credential (c : tokenExchangeCredential) : ST server (exchange + bool) :=
  if hasWrappedCredentialSecret c then ret (inr true)
  else if hasAPIKeySecret c then
    if negb (IsAPIKeyEnabled auth) || negb (isAPIKey c) then ret (inr true)
    else
      let* db := has_db in
      if negb db then ret (inl (ExFailed 500))
      else
        modify (set_user (fun _ => NewUserAccessControl)) ;;;
        let* r := attempt (authenticateAPIKeyCredential (te_Username c) (te_Secret c)) in
        ret (match r with
             | Err _ => inl (ExFailed 500)
             | Ok true => inl (ExWrapped (newWrappedCredentialBearerToken (te_Username c) (te_Secret c)))
             | Ok false => inr true
             end)
  else
    match localOIDCTokenOwnerForCredential (te_Secret c) auth with
    | localOIDCTokenOwnerBearer =>
        let* res := bearer_identity ba ("Bearer " ++ te_Secret c) in
        ret (match res with Some res => inl (ExOIDC (te_Secret c) (cr_Claims res)) | None => inr true end)
    | localOIDCTokenOwnerOpenID => ret (inr true)
    | localOIDCTokenOwnerNone => ret (inr false)
    end.
Fixpoint exchange_loop (l : list tokenExchangeCredential) (locallyOwned : bool) : ST server (exchange + bool) :=
  match l with
  | [] => ret (inr locallyOwned)
  | c :: rest =>
      let* r := exchange_credential c in
      match r with
      | inl answer => ret (inl answer)
      | inr owned => exchange_loop rest (locallyOwned || owned)
      end
  end.
Definition token_exchange (rq : token_request) : ST server exchange :=
  if (1 <? length (tr_Authorization rq))%nat then ret ExUnsupported
  else match normalizeTokenExchangeRequest rq with
       | inl status => ret (ExFailed status)
       | inr credentials =>
           let* r := exchange_loop credentials false in
           ret (match r with
                | inl answer => answer
                | inr true => ExUnauthorized exchange_realm
                | inr false => if IsUpstreamTokenEndpointConfigured auth then ExProxied else ExUnauthorized exchange_realm
                end)
       end.
(** There is no endpoint without a bearer section, or without anything to
    exchange. *)
Definition TokenExchangeHandler (rq : token_request) : option (ST server exchange) :=
  if negb (bool_decide (is_Some (c ← auth; au_Bearer c))) || (negb (bool_decide (is_Some (ba_oidc ba))) && negb (IsAPIKeyEnabled auth))
  then None else Some (token_exchange rq).

(** ** Secrets of zot stay with it *)

(** A secret that is for zot: an API key, one that is wrapped, a token of an
    issuer of the configuration. *)
Definition own_secret (secret : string) : bool :=
  has_prefix secret APIKeysPrefix || isWrappedCredentialBearerToken secret ||
  match localOIDCTokenOwnerForCredential secret auth with localOIDCTokenOwnerNone => false | _ => true end.
(** What a request shows as a secret: the password of the basic credentials
    that zot's own authentication reads in its header, when one space stands
    before them; the token of its header; a password or a token of its form. *)
Inductive presents (rq : token_request) : string -> Prop :=
  | presents_password scheme credential user pass : tr_header rq = (scheme ++ " " ++ credential)%string ->
      ascii_fold scheme = "basic" -> all_chars not_space credential = true ->
      getUsernamePasswordBasicAuth (tr_header rq) = Ok (user, pass) -> presents rq pass
  | presents_token token : bearerTokenFromAuthHeader (tr_header rq) = Some token -> presents rq token
  | presents_field values field l secret : tr_form rq = Form values -> field ∈ "password" :: token_fields ->
      values !! field = Some l -> secret ∈ l -> presents rq secret.

(** With one space after the scheme, net/http reads what zot reads. *)
Lemma ascii_fold_app a b : ascii_fold (a ++ b) = (ascii_fold a ++ ascii_fold b)%string.
Proof. induction a as [|c a IH]; [done|]. exact (f_equal (String (lower c)) IH). Qed.
Lemma ascii_fold_length a : String.length (ascii_fold a) = String.length a.
Proof. induction a as [|c a IH]; [done|]. exact (f_equal S IH). Qed.
Lemma substring_left a b : String.substring 0 (String.length a) (a ++ b) = a.
Proof. induction a as [|c a IH]; simpl; [by destruct b|by rewrite IH]. Qed.
Lemma substring_right a b : String.substring (String.length a) (String.length (a ++ b) - String.length a) (a ++ b) = b.
Proof.
  rewrite string_length_app, Nat.add_comm, Nat.add_sub. induction a as [|c a IH]; [apply substring_whole|]. exact IH.
Qed.
Lemma lower_space c : is_space c = true -> lower c = c.
Proof. intros Hc. unfold is_space in Hc. destruct c as [[] [] [] [] [] [] [] []]; vm_compute in Hc; done. Qed.
Lemma folded_no_space s : all_chars not_space (ascii_fold s) = true -> all_chars not_space s = true.
Proof.
  induction s as [|c s IH]; [done|]. intros [Hc Hs]%andb_prop. simpl. rewrite (IH Hs), andb_true_r. unfold not_space in *.
  destruct (is_space c) eqn:E; [|done]. by rewrite (lower_space c E), E in Hc.
Qed.
Lemma BasicAuth_one_space scheme credential user pass : ascii_fold scheme = "basic" -> all_chars not_space credential = true ->
  getUsernamePasswordBasicAuth (scheme ++ " " ++ credential) = Ok (user, pass) ->
  BasicAuth (scheme ++ " " ++ credential) = Some (user, pass).
Proof.
  intros Hs Hc. assert (String.length scheme = 5) as Hl by (by rewrite <-ascii_fold_length, Hs).
  assert (all_chars not_space scheme = true) as Hss by (apply folded_no_space; by rewrite Hs).
  unfold getUsernamePasswordBasicAuth, splitAuthorizationHeader, Fields.
  destruct (decide (credential = "")) as [->|Hne].
  { change (scheme ++ " " ++ "")%string with (scheme ++ " ")%string. intros E. exfalso. revert E.
    assert (forall current, all_chars not_space scheme = true -> (current ++ scheme)%string <> "" ->
      fields_from (scheme ++ " ") current = [(current ++ scheme)%string]) as Hone.
    { clear. induction scheme as [|c scheme IH]; intros current Hss Hn; simpl.
      - rewrite string_app_nil_r in *. by rewrite bool_decide_false.
      - simpl in Hss. apply andb_prop in Hss as [Hc Hss]. unfold not_space in Hc. apply negb_true_iff in Hc. rewrite Hc.
        rewrite IH; [|done|]; rewrite string_app_assoc; [done|]. by destruct current. }
    rewrite Hone; [done|done|]. simpl. intros E0. by rewrite E0 in Hl. }
  change (scheme ++ " " ++ credential)%string with (scheme ++ String " " credential)%string.
  rewrite fields_two; [|done|done|simpl; intros E0; by rewrite E0 in Hl|done]. destruct (negb _); [done|].
  destruct (StdDecodeString credential) as [decoded|] eqn:Ed; [|done]. destruct (Cut ":" decoded) as [[u0 p0]|] eqn:Ec; [|done].
  intros [= <- <-]. unfold BasicAuth. assert (String.length "Basic " = String.length (scheme ++ " ")) as ->
    by (rewrite string_length_app; simpl; lia).
  assert ((scheme ++ String " " credential)%string = ((scheme ++ " ") ++ credential)%string) as -> by (by rewrite string_app_assoc).
  rewrite substring_left, substring_right, ascii_fold_app, Hs. rewrite bool_decide_true by (vm_compute; reflexivity).
  rewrite Ed. exact Ec.
Qed.

Lemma added_secret l c : TrimSpace (snd c) <> "" -> exists c', c' ∈ addCredential l c /\ te_Secret c' = TrimSpace (snd c).
Proof.
  intros Hn. unfold addCredential. cbv zeta. simpl. rewrite bool_decide_false by done. simpl. set (new := mkCredential _ _).
  destruct (hasCredential l new) eqn:E.
  - unfold hasCredential in E. destruct (hasAPIKeySecret new).
    + apply bool_decide_eq_true_1 in E. by exists new.
    + apply existsb_exists in E as (c'&Hin%list_elem_of_In&Hc%bool_decide_eq_true_1). by exists c'.
  - exists new. split; [|done]. apply elem_of_app. right. by apply list_elem_of_singleton.
Qed.
Lemma add_keeps l c c' : c' ∈ l -> c' ∈ addCredential l c.
Proof. intros Hc. unfold addCredential. cbv zeta. destruct (_ || _); [done|]. apply elem_of_app. by left. Qed.
Lemma listed_secret cs c : c ∈ cs -> TrimSpace (snd c) <> "" -> forall l,
  exists c', c' ∈ foldl addCredential l cs /\ te_Secret c' = TrimSpace (snd c).
Proof.
  intros Hin Hn. induction cs as [|c0 cs IH]; [by apply not_elem_of_nil in Hin|]. intros l. simpl.
  assert (forall l c', c' ∈ l -> c' ∈ foldl addCredential l cs) as Hkeep.
  { clear IH Hin. induction cs as [|x cs IH]; intros l0 c' Hc; [done|]. simpl. apply IH. by apply add_keeps. }
  apply elem_of_cons in Hin as [->|Hin]; [|by apply IH].
  destruct (added_secret l c0 Hn) as (c'&Hc'&E). exists c'. split; [by apply Hkeep|done].
Qed.
Lemma presented_listed rq secret l : normalizeTokenExchangeRequest rq = inr l -> presents rq secret -> TrimSpace secret <> "" ->
  exists c, c ∈ l /\ te_Secret c = TrimSpace secret.
Proof.
  intros El Hp Hn. assert (exists cs user, l = foldl addCredential [] cs /\ (user, secret) ∈ cs) as (cs&user&->&Hin).
  2: { exact (listed_secret cs (user, secret) Hin Hn []). }
  unfold normalizeTokenExchangeRequest in El. set (hc := header_credentials rq) in *.
  assert (forall u, (u, secret) ∈ hc -> exists cs user, l = foldl addCredential [] cs /\ (user, secret) ∈ cs) as Hh.
  { intros u Hu. destruct (tr_form rq) as [| | | |values]; try done; injection El as <-.
    - by exists hc, u.
    - exists (hc ++ form_credentials values), u. split; [done|]. apply elem_of_app. by left. }
  destruct Hp as [scheme credential user pass Eh Hscheme Hcred E|token E|values field vs secret Ef Hf Ev Hs].
  - rewrite Eh in E. apply BasicAuth_one_space in E; [|done..].
    apply (Hh user). unfold hc, header_credentials. rewrite Eh, E. apply elem_of_app. left.
    rewrite bool_decide_false by (by intros ->). by apply list_elem_of_singleton.
  - apply (Hh ""). unfold hc, header_credentials. rewrite E. apply elem_of_app. right. by apply list_elem_of_singleton.
  - rewrite Ef in El. injection El as <-. apply elem_of_cons in Hf as [->|Hf].
    + eexists _, _. split; [done|]. apply elem_of_app. right. unfold form_credentials. apply elem_of_app. left.
      apply list_elem_of_fmap. exists secret. split; [done|]. by rewrite Ev.
    + exists (hc ++ form_credentials values), "". split; [done|]. apply elem_of_app. right. unfold form_credentials. apply elem_of_app. right.
      apply list_elem_of_fmap. exists secret. split; [done|]. apply list_elem_of_bind. exists field. split; [by rewrite Ev|done].
Qed.

(** A credential of zot's own is noted, or answered. *)
Lemma own_noted c (s : server) r s' : exchange_credential c s = (Ok r, s') ->
  match r with inl answer => answer <> ExProxied | inr owned => owned = own_secret (te_Secret c) end.
Proof.
  unfold exchange_credential, own_secret, hasAPIKeySecret, hasWrappedCredentialSecret.
  destruct (isWrappedCredentialBearerToken (te_Secret c)); [intros [= <- _]; by rewrite orb_true_r|].
  destruct (has_prefix (te_Secret c) APIKeysPrefix); simpl.
  - destruct (_ || _); [by intros [= <- _]|]. intros E. apply bind_ok in E as (db&s1&_&E). destruct (negb db); [by injection E as <- _|].
    apply bind_ok in E as ([]&s2&_&E). apply bind_ok in E as (k&s3&_&E). injection E as <- _. by destruct k as [[]|].
  - destruct (localOIDCTokenOwnerForCredential _ _); [by intros [= <- _]| |by intros [= <- _]].
    intros E. apply bind_ok in E as (res&s1&_&E). injection E as <- _. by destruct res.
Qed.
Lemma loop_proxied l : forall owned (s : server) r s', exchange_loop l owned s = (Ok r, s') ->
  match r with inl answer => answer <> ExProxied | inr b => b = owned || existsb (fun c => own_secret (te_Secret c)) l end.
Proof.
  induction l as [|c l IH]; intros owned s r s'; simpl; [intros [= <- _]; by rewrite orb_false_r|].
  intros E. apply bind_ok in E as (x&s1&E1&E). apply own_noted in E1. destruct x as [answer|b].
  - by injection E as <- _.
  - apply IH in E. destruct r as [answer|b']; [done|]. by rewrite E, E1, orb_assoc.
Qed.

End exchange.

(** ** A token for a key *)
Section exchanged.
Context `{CelEngine} `{MapIter} `{!MapIterLaws} `{Glob} `{GoDigest} `{!ImageTrustStore}.
Context {N : Type} `{!TokenVerifiers N} `{!ClaimValues} `{WrappedCodec} `{ClaimsJSON}.
Context (conf : server_config) (ba : BearerAuth).
Local Notation server := (@server _ userdb N).

(** The codec of wrapped keys gives back what it was given, if that is UTF-8,
    and never nothing at all (encoding/json). *)
Definition wrapped_codec_ok : Prop := forall user secret, utf8_valid user = true -> utf8_valid secret = true ->
  let w := mkWrapped 1 wrappedCredentialTypeAPIKey user secret in
  marshal_wrapped w <> "" /\ unmarshal_wrapped (marshal_wrapped w) = Some w.

(** A wrapped key is only given for a key that authenticates on the server as
    it is then, for a request without a user. *)
Definition nobody (s : server) : server := set_user (fun _ => NewUserAccessControl) s.
Definition exchanged (s : server) (user key token : string) (s' : server) : Prop :=
  token = newWrappedCredentialBearerToken user key /\ user <> "" /\ has_prefix key APIKeysPrefix = true /\
  IsAPIKeyEnabled (ct_Auth conf) = true /\ authenticateAPIKeyCredential user key (nobody s) = (Ok true, s').
Lemma credential_exchanged c (s : server) token s' : exchange_credential conf ba c s = (Ok (inl (ExWrapped token)), s') ->
  exchanged s (te_Username c) (te_Secret c) token s'.
Proof.
  unfold exchange_credential. destruct (hasWrappedCredentialSecret c); [done|]. destruct (hasAPIKeySecret c) eqn:Hk.
  - destruct (negb (IsAPIKeyEnabled _) || negb (isAPIKey c)) eqn:E0; [done|]. apply orb_false_iff in E0 as [Hen Hc].
    apply negb_false_iff in Hen, Hc. intros E. apply bind_ok in E as (db&s1&E1&E). injection E1 as _ <-. destruct (negb db); [done|].
    apply bind_ok in E as ([]&s2&E2&E). injection E2 as <-. apply bind_ok in E as (r&s3&E3&E). apply attempt_inv in E3.
    destruct r as [[]|]; [|done..]. injection E as <- <-. unfold exchanged. split; [done|]. split.
    + apply andb_prop in Hc as [Hc _]. by apply negb_true_iff, bool_decide_eq_false_1 in Hc.
    + split; [exact Hk|]. split; [done|]. exact E3.
  - destruct (localOIDCTokenOwnerForCredential _ _); [done| |done]. intros E. apply bind_ok in E as (res&s1&_&E). by destruct res.
Qed.
Lemma loop_exchanged l : forall owned (s : server) token s', exchange_loop conf ba l owned s = (Ok (inl (ExWrapped token)), s') ->
  exists l1 c l2 b s1, l = l1 ++ c :: l2 /\ exchange_loop conf ba l1 owned s = (Ok (inr b), s1) /\
    exchanged s1 (te_Username c) (te_Secret c) token s'.
Proof.
  induction l as [|c l IH]; intros owned s token s'; simpl; [done|]. intros E. apply bind_ok in E as (x&s1&E1&E). destruct x as [answer|b].
  - injection E as -> ->. exists [], c, l, owned, s. split; [done|]. split; [done|]. by eapply credential_exchanged.
  - apply IH in E as (l1&c'&l2&b'&s2&->&El&Hc). exists (c :: l1), c', l2, b', s2. split; [done|]. split; [|done].
    simpl. by rewrite (bind_step _ _ _ _ _ E1).
Qed.

(** What a bearer token that wraps a key comes to. *)
Lemma wrapped_decision rq (s : server) u user key : sv_MetaDB s = Some u -> keys_owned u -> fresh s -> wrapped_codec_ok ->
  utf8_valid user = true -> utf8_valid key = true ->
  user <> "" -> has_prefix key APIKeysPrefix = true -> IsAPIKeyEnabled (ct_Auth conf) = true ->
  authorization rq = ("Bearer " ++ newWrappedCredentialBearerToken user key)%string ->
  (Z.of_nat (String.length (RawURLEncodeToString (marshal_wrapped (mkWrapped 1 wrappedCredentialTypeAPIKey user key)))) <= MaxTokenRequestBodySize)%Z ->
  exists s', bearerAuthn conf ba rq s = (Ok (if key_accepted u user key then BearerOk BASIC else BearerNo), s') /\
    (key_accepted u user key = true -> name_of s' = user).
Proof.
  intros Ed Hu Hs Hcodec Huu Huk Hn Hk Hen Eh Hl. destruct (Hcodec user key Huu Huk) as [Hne Hj].
  assert (key <> "") as Hkn by (by intros ->). unfold bearerAuthn. cbv zeta. rewrite Eh, (wrapped_read_back user key Hn Hkn Hne Hj Hl).
  simpl wc_Type. simpl wc_Username. simpl wc_Secret. rewrite bool_decide_true, Hen by done. cbn [andb negb].
  rewrite (bind_step _ _ s true s) by (unfold has_db, gets; by rewrite Ed). cbn [negb].
  destruct (key_decision s u user key Ed Hu Hs) as (s'&E&Hname). exists s'. rewrite (bind_step _ _ _ _ _ E).
  split; [done|]. intros Ha. by apply Hname.
Qed.

(** C13 The token that the endpoint gives for an API key stands for a user and
    a key among the credentials of the request: those before them came to
    nothing, and on the server as these left it the key was authenticated for
    this user, so that it was known there, belonged to the user and had not
    expired. As the bearer token of a later request, on whatever server then,
    it decides like the key itself: it lets this user in while the key is
    known, belongs to the user and has not expired, and nobody after that. The
    name and the key are UTF-8 (others do not survive the JSON codec), and the
    token is within the limit of its reader. *)
Theorem exchanged_key_admits tr (s : server) m token s' : wrapped_codec_ok ->
  TokenExchangeHandler conf ba tr = Some m -> m s = (Ok (ExWrapped token), s') ->
  exists user key before after b (s1 : server),
    normalizeTokenExchangeRequest tr = inr (before ++ mkCredential user key :: after) /\
    exchange_loop conf ba before false s = (Ok (inr b), s1) /\
    authenticateAPIKeyCredential user key (nobody s1) = (Ok true, s') /\
    (forall u, sv_MetaDB s1 = Some u -> keys_owned u -> key_accepted u user key = true) /\
    token = newWrappedCredentialBearerToken user key /\
    forall rq (s2 : server) u, utf8_valid user = true -> utf8_valid key = true ->
      sv_MetaDB s2 = Some u -> keys_owned u -> fresh s2 -> authorization rq = ("Bearer " ++ token)%string ->
      (Z.of_nat (String.length token) <= MaxTokenRequestBodySize)%Z ->
      exists s3, bearerAuthn conf ba rq s2 = (Ok (if key_accepted u user key then BearerOk BASIC else BearerNo), s3) /\
        (key_accepted u user key = true -> name_of s3 = user).
Proof.
  intros Hcodec. unfold TokenExchangeHandler. destruct (_ || _); [done|]. intros [= <-]. unfold token_exchange. destruct (1 <? _)%nat; [done|].
  destruct (normalizeTokenExchangeRequest tr) as [st|l] eqn:El; [done|]. intros E. apply bind_ok in E as (r&s0&E1&E).
  destruct r as [answer|[]]; [|done|by destruct (IsUpstreamTokenEndpointConfigured _)]. injection E as -> ->.
  apply loop_exchanged in E1 as (before&c&after&b&s1&->&Eb&(->&Hn&Hk&Hen&Hauth)).
  exists (te_Username c), (te_Secret c), before, after, b, s1. split; [by destruct c|]. split; [done|]. split; [done|]. split; [|split; [done|]].
  - intros u Eu Hu. destruct (key_decision (nobody s1) u (te_Username c) (te_Secret c) Eu Hu eq_refl) as (s2&E2&_). congruence.
  - intros rq s2 u Huu Huk Ed Hu Hs Eh Hl. apply wrapped_decision; try done. unfold newWrappedCredentialBearerToken in Hl.
    rewrite string_length_app in Hl. simpl String.length in Hl. lia.
Qed.
End exchanged.
