(* ===== verification/Admission.v ===== *)
(** * From the connection to the handler (AuthHandler in SetupRoutes of pkg/api/routes.go)

    The distribution API behind both authentication and authorization: the
    middleware of Authn.v before that of Router.v, on one state that holds the
    registry, the users and what the server keeps to authenticate. The
    version check of the API, which tells clients how to log in, is here too. *)

From Stdlib Require Import ZArith Lia Ascii String.
From stdpp Require Import base tactics list gmap strings.
From S2P Require Import Prelude Runtime Regexp Driver BlobCache Oci IndexOps StorageCommon ImageStore Content Addressing GC Aggregates.
From S2P Require Import MetaDB Hooks Authz Access Http Routes Router Serving Paging Api Users Base64 Credentials Authn.

Local Open Scope string_scope.
Local Open Scope list_scope.

(** ** The answers of authentication *)

(** strconv.Quote on ASCII text. *)
Definition hex_digit (n : N) : ascii := nth (N.to_nat n) (list_ascii_of_string "0123456789abcdef") "0"%char.
Definition quote_char (c : ascii) : string :=
  let n := N_of_ascii c in
  match n with
  | 7 => "\a" | 8 => "\b" | 9 => "\t" | 10 => "\n" | 11 => "\v" | 12 => "\f" | 13 => "\r"
  | 34 => String "092" (String "034" "") | 92 => "\\"
  | _ => if (n <? 32)%N || (n =? 127)%N
         then ("\x" ++ String (hex_digit (n / 16)) (String (hex_digit (n mod 16)) ""))%string else String c ""
  end%N.
Definition Quote (s : string) : string :=
  let q := String "034" "" in (q ++ foldr String.append "" (quote_char <$> list_ascii_of_string s) ++ q)%string.

Definition WWWAuthenticate : string := "WWW-Authenticate".
Definition challenge_headers (c : challenge) : list (string * string) :=
  match c with
  | NoChallenge | UnsupportedToken => []
  | BasicChallenge realm => [(WWWAuthenticate, ("Basic realm=" ++ Quote realm)%string)]
  | BearerHeader header => [(WWWAuthenticate, header)]
  end.
Definition unauthorized (c : challenge) : response :=
  mkResponse 401 (challenge_headers c) (ErrorBody (match c with UnsupportedToken => "UNSUPPORTED" | _ => "UNAUTHORIZED" end)).

(** The database with users behind the hooks of the handlers. *)
#[export] Instance users_meta `{GoDigest} `{MapIter} `{!ImageTrustStore} : MetaRepoI userdb := {
  md_SetRepoReference repo reference m ts user := on_bolt (SetRepoReference repo reference m ts user);
  md_AddManifestSignature repo d sm := on_bolt (AddManifestSignature repo d sm);
  md_UpdateSignaturesValidity repo d := on_bolt (UpdateSignaturesValidity repo d);
  md_DeleteSignature repo d sd st := on_bolt (DeleteSignature repo d sd st);
  md_RemoveRepoReference repo reference d user := on_bolt (RemoveRepoReference repo reference d user);
  md_DeleteRepoMeta repo := on_bolt (DeleteRepoMeta repo);
  md_UpdateStatsOnDownload repo reference := on_bolt (UpdateStatsOnDownload repo reference);
  md_GetRepoMeta repo := on_bolt (GetRepoMeta repo);
  md_GetAllRepoNames := on_bolt GetAllRepoNames;
  md_GetRepoLastUpdated repo := on_bolt (GetRepoLastUpdated repo);
  md_ResetRepoReferences repo keep := on_bolt (ResetRepoReferences repo keep);
  md_GetFastRestartStamp := on_bolt GetFastRestartStamp;
  md_SetFastRestartStamp stamp := on_bolt (SetFastRestartStamp stamp);
  md_now := now_u
}.

Section admission.
Context `{CelEngine} `{MapIter} `{Glob} `{GoDigest} `{SliceSort} `{PushProbe} `{UrlParse}.
Context {S M N : Type} `{ApiStoreI S} `{SyncOnDemandI S} `{MetaHooksI S M}.
Context `{!UserDBI M} `{PasswordHashes} `{LdapNet N} `{SessionStore N} `{!TokenVerifiers N} `{!ClaimValues}.
Context `{Submatch} `{WrappedCodec}.
Context (sc : server_config) (amw : AuthnMiddleware) (conf : rh_config).
Local Notation server := (@server _ M N).
Local Notation reg := (registry S M).

(** ** The state of the whole server *)
Record site : Type := mkSite {
  st_registry : reg;
  st_htpasswd : gmap string string;
  st_ldap_conn : bool;
  st_net : N
}.
Definition server_of (s : site) : server :=
  mkServerState (rg_meta (st_registry s)) (st_htpasswd s) (st_ldap_conn s) (st_net s) (rg_env (st_registry s)) NewUserAccessControl.
(** The stores stay, the rest is as authentication leaves it. *)
Definition site_of (sv : server) (s : site) : site :=
  mkSite (mkRegistry (DefaultStore (st_registry s)) (SubStore (st_registry s)) (sv_MetaDB sv) (sv_env sv))
    (sv_htpasswd sv) (sv_ldap_conn sv) (sv_net sv).
Definition on_server {A} (m : ST server A) : ST site (A * UserAccessControl) := fun s =>
  let '(r, sv) := m (server_of s) in (res_bind r (fun a => Ok (a, sv_userAc sv)), site_of sv s).
Definition on_registry {A} (m : ST reg A) : ST site A :=
  zoom st_registry (fun rg s => mkSite rg (st_htpasswd s) (st_ldap_conn s) (st_net s)) m.

(** ** Requests *)
Definition SessionClientHeaderName : string := "X-Zot-Api-Client".
(** What authentication reads of a request, which came with these
    certificates, if any. *)
Definition login_of (tls : option tls_state) (a : arrival) (q : request) : login :=
  mkLogin (q_method q) (default [] (q_header q !! "Authorization")) (header_get q SessionClientHeaderName) (ar_userAgent a)
    (ar_requestURI a) (path_str (q_path q)) (default "" (q_vars q !! "name")) tls.
(** getAuthnMiddlewareContext: the type of authentication on the context. *)
Definition with_authn_type (ty : option string) (a : arrival) : arrival :=
  mkArrival (ar_userAgent a) (ar_remoteAddr a) (ar_forwardedFor a) (ar_tls a) (ar_requestURI a) ty.

(** A preflight is answered 204, unless its handler wrote an answer. *)
Definition preflight_answer (q : request) (r : response) : response :=
  if bool_decide (q_method q = "OPTIONS") then
    match r with mkResponse 200 [] NoBody => mkResponse 204 [] NoBody | _ => r end
  else r.
(** The authentication middleware before what comes next. *)
Definition authenticated (tls : option tls_state) (a : arrival) (q : request) (next : arrival -> request -> ST reg response) : ST site response :=
  let* r := on_server (tryAuthn sc amw (login_of tls a q)) in
  match r with
  | (Pass ty, uac) =>
      let* answer := on_registry (next (with_authn_type ty a) (with_user uac q)) in
      ret (preflight_answer q answer)
  | (Unauthorized c, _) => ret (unauthorized c)
  | (AuthnError, _) => WriteHeader 500
  end.
Definition recovered_site (m : ST site response) : ST site response :=
  let* r := try m in
  match r with Ok answer => ret answer | Err _ => WriteHeader 500 end.

(** The answer to a request of the distribution API. *)
Definition serve_site (tls : option tls_state) (a : arrival) (q : request) : option (ST site response) :=
  (fun rt => recovered_site (authenticated tls a q (authorized conf rt))) <$> dispatch q.

(** ** The version check *)
Definition DistAPIVersion : string := "Docker-Distribution-API-Version".
Definition needs_auth_challenge : bool :=
  negb (bool_decide (is_Some (ct_Access sc)) && AnonymousPolicyExists (ct_Access sc)) || mixed_policy sc.
Definition CheckVersionSupport (tls : option tls_state) (a : arrival) (q : request) : response :=
  if bool_decide (q_method q = "OPTIONS") then mkResponse 200 [] NoBody
  else
    let challenge :=
      if negb (hasSessionHeader (login_of tls a q)) && needs_auth_challenge then
        if ShouldAdvertiseBearerChallenge (ct_Auth sc) then
          match (c ← ct_Auth sc; au_Bearer c) with
          | Some b => BearerHeader (challenge_header (br_Realm b) (br_Service b) None)
          | None => NoChallenge
          end
        else if CanAuthenticateWithBasicCredentials (ct_Auth sc) then
          BasicChallenge (if bool_decide (ct_Realm sc = "") then "Authorization Required" else ct_Realm sc)
        else NoChallenge
      else NoChallenge in
    mkResponse 200 ((DistAPIVersion, "registry/2.0") :: challenge_headers challenge) (Bytes "").
(** The route "/" below "/v2", behind BaseAuthzHandler. *)
Definition version_authorized (tls : option tls_state) (a : arrival) (q : request) : ST reg response :=
  match rc_access conf with
  | None => ret (CheckVersionSupport tls a q)
  | Some _ =>
      match BaseAuthzHandler (rc_access conf) (authz_view a q) (q_userAc q) with
      | Next uac => ret (CheckVersionSupport tls a (with_user uac q))
      | AuthzFail status _ => WriteError status (if (status =? 401)%Z then "UNAUTHORIZED" else "DENIED")
      | InternalServerError => WriteHeader 500
      end
  end.
Definition serve_version (tls : option tls_state) (a : arrival) (q : request) : option (ST site response) :=
  if contains ["GET"; "OPTIONS"] (q_method q) && bool_decide (path_str (q_path q) = "/v2/")
  then Some (recovered_site (authenticated tls a q (version_authorized tls))) else None.

(** ** Authentication leaves the stores and the clock *)
Definition clock_is (f : nat -> Z) (s : server) : Prop := env_clock (sv_env s) = f.
Section clock.
Context (f : nat -> Z).
Local Notation I := (clock_is f).
Lemma clock_db {A} (m : UserAccessControl -> ST M A) : preserves I (on_db m).
Proof. intros s r s' Hs. unfold on_db. destruct (sv_MetaDB s); [|by intros [= _ <-]]. destruct (m _ _). by intros [= _ <-]. Qed.
Lemma clock_net {A} (m : ST N A) : preserves I (on_net m).
Proof. intros s r s' Hs. unfold on_net, zoom. destruct (m _). by intros [= _ <-]. Qed.
Lemma clock_ldap {A} (m : ST ldap_state A) : preserves I (on_ldap m).
Proof. intros s r s' Hs. unfold on_ldap, zoom. destruct (m _). by intros [= _ <-]. Qed.
Lemma clock_now : preserves I (on_clock_sv (M := M) (N := N) Now).
Proof. by intros s r s' Hs [= _ <-]. Qed.
Lemma clock_user g : preserves I (modify (set_user (M := M) (N := N) g)).
Proof. by intros s r s' Hs [= _ <-]. Qed.
Local Hint Resolve clock_db clock_net clock_ldap clock_now clock_user preserves_gets : pres.
Lemma clock_save_user user : preserves I (save_user (M := M) (N := N) user).
Proof. apply clock_user. Qed.
Lemma clock_save_groups groups : preserves I (save_groups (M := M) (N := N) groups).
Proof. apply clock_user. Qed.
Lemma clock_has_db : preserves I (has_db (M := M) (N := N)).
Proof. apply preserves_gets. Qed.
Local Hint Resolve clock_save_user clock_save_groups clock_has_db : pres.
Lemma clock_api_key identity key : preserves I (authenticateAPIKeyCredential (N := N) identity key).
Proof. unfold authenticateAPIKeyCredential. pres. Qed.
Lemma clock_session_saved identity provider : preserves I (saveUserLoggedSession (M := M) amw identity provider).
Proof. unfold saveUserLoggedSession. pres. Qed.
Local Hint Resolve clock_api_key clock_session_saved : pres.
Lemma clock_accept rq identity groups : preserves I (accept_login amw rq identity groups).
Proof. unfold accept_login. pres. Qed.
Local Hint Resolve clock_accept : pres.
Lemma clock_basic rq : preserves I (basicAuthn sc amw rq).
Proof. unfold basicAuthn. pres. Qed.
Lemma clock_scope r l : preserves I (scope_allows (M := M) (N := N) r l).
Proof. induction l as [|a l IH]; cbn [scope_allows]; pres. Qed.
Lemma clock_oidc providers header : preserves I (oidc_Authenticate (M := M) (N := N) providers header).
Proof. induction providers as [|p providers IH]; cbn [oidc_Authenticate]; unfold oidc_authenticate; pres. Qed.
Local Hint Resolve clock_scope clock_oidc : pres.
Lemma clock_bearer ba rq : preserves I (bearerAuthn sc ba rq).
Proof. unfold bearerAuthn, bearer_identity, bearer_Authenticate. pres. Qed.
Lemma clock_session : preserves I (sessionAuthn (M := M) (N := N)).
Proof. unfold sessionAuthn, GetAuthUserFromRequestSession. pres. Qed.
Lemma clock_certificate rq : preserves I (mTLSAuthn (M := M) (N := N) sc rq).
Proof. unfold mTLSAuthn. pres. Qed.
Local Hint Resolve clock_basic clock_bearer clock_session clock_certificate : pres.
Lemma clock_authn rq : preserves I (tryAuthn sc amw rq).
Proof. unfold tryAuthn, conclude. pres. Qed.
End clock.

(** ** Who is served *)
Definition same_stores (s s' : site) : Prop :=
  DefaultStore (st_registry s') = DefaultStore (st_registry s) /\ SubStore (st_registry s') = SubStore (st_registry s).
(** A request that is refused before its handler. *)
Definition refused (s s' : site) (r : response) : Prop := rs_status r ∈ [401; 403; 500]%Z /\ same_stores s s'.
(** A request that its handler answers under the rights of a user. *)
Definition with_site_env (e : env) (s : site) : site :=
  mkSite (with_env e (st_registry s)) (st_htpasswd s) (st_ldap_conn s) (st_net s).
Definition served_as (e : endpoint) (user : UserAccessControl) (q : request) (s : site) (r : response) (s' : site) : Prop :=
  on_registry (recovered (handler conf e (with_user user q))) s = (Ok r, s').
(** The rights under which a request runs: those of a token of the token
    service, or what the policies give to the user. *)
Definition rights (ac : AccessControlConfig) (ty : option string) (a : arrival) (q : request) (uac : UserAccessControl) : UserAccessControl :=
  if bool_decide (ty = Some BEARER) then uac else user_of ac (with_authn_type ty a) (with_user uac q).

Lemma refused_status status headers body s s' : status ∈ [401; 403; 500]%Z -> same_stores s s' -> refused s s' (mkResponse status headers body).
Proof. done. Qed.
Lemma recovered_pass q (n : ST reg response) s : q_method q <> "OPTIONS" ->
  recovered_site (let* answer := on_registry n in ret (preflight_answer q answer)) s = on_registry (recovered n) s.
Proof.
  intros Hq. unfold recovered_site, recovered, on_registry, zoom, bind, try. destruct (n (st_registry s)) as [[r|e] rg]; [|done].
  simpl. unfold preflight_answer. by rewrite bool_decide_false.
Qed.
Lemma recovered_same (n n' : ST reg response) s s' :
  n (st_registry s) = n' (st_registry s') -> st_htpasswd s = st_htpasswd s' -> st_ldap_conn s = st_ldap_conn s' -> st_net s = st_net s' ->
  on_registry (recovered n) s = on_registry (recovered n') s'.
Proof. intros E Hh Hl Hn. unfold on_registry, zoom, recovered, bind, try. by rewrite E, Hh, Hl, Hn. Qed.
Lemma recovered_total (n : ST reg response) s : exists r s', on_registry (recovered n) s = (Ok r, s').
Proof. unfold on_registry, zoom, recovered, bind, try. destruct (n (st_registry s)) as [[r|e] rg]; by eexists _, _. Qed.
Lemma bearer_bypasses rt a q rg : ar_authnType a = Some BEARER ->
  authorized conf rt a q rg = handler conf (rt_endpoint rt) (match rc_access conf with Some _ => with_user (q_userAc q) q | None => q end) rg.
Proof.
  intros Ha. unfold authorized. destruct (rc_access conf) as [ac|]; [|done].
  assert (forall q', bypassed (authz_view a q') = true) as Hb.
  { intros q'. unfold bypassed. simpl. rewrite Ha, (bool_decide_true (Some BEARER = _)) by done. apply orb_true_r. }
  unfold BaseAuthzHandler. rewrite Hb. cbn [orb]. destruct (rt_distspec rt); [|done].
  unfold bind, distspec_authz, on_env, zoom, DistSpecAuthzHandler. rewrite Hb. by destruct rg.
Qed.
Context `{!MapIterLaws} `{!UserDBSpec (M := M)}.

(** The two middlewares in a row. *)
Lemma passed_decides (sv : server) (s : site) (ac : AccessControlConfig) ty a q rt now p repoTags :
  let name := default "" (q_vars q !! "name") in
  let a := with_authn_type ty a in let q := with_user (sv_userAc sv) q in
  let user := rights ac ty a q (sv_userAc sv) in
  rc_access conf = Some ac -> rt_distspec rt = true -> q_method q <> "OPTIONS" -> ar_requestURI a <> "/v2/" ->
  constant_clock now (sv_env sv) -> decisive name (patterns_of ac) p ->
  (contains ["PUT"; "PATCH"; "POST"] (q_method q) = true -> is_Some (q_vars q !! "reference") ->
     repoTagsForManifestWriteAuthz (fst (as_GetImageTags name (GetImageStore (st_registry (site_of sv s)) name))) = Ok repoTags) ->
  exists r s', on_registry (recovered (authorized conf rt a q)) (site_of sv s) = (Ok r, s') /\
    (refused s s' r \/
     exists e, (ty = Some BEARER \/ allowed ac (authz_view a q) user now repoTags) /\
       served_as (rt_endpoint rt) user q (with_site_env e (site_of sv s)) r s').
Proof.
  intros name a' q' user Hac Hds Hm Huri Hc Hp Ht. destruct (bool_decide_reflect (ty = Some BEARER)) as [Hty|Hty].
  - destruct (recovered_total (authorized conf rt a' q') (site_of sv s)) as (r&s'&E). exists r, s'. split; [exact E|]. right.
    exists (sv_env sv). split; [by left|]. unfold served_as, user, rights. rewrite bool_decide_true by done. rewrite <-E.
    symmetry. apply recovered_same; [|done..]. rewrite bearer_bypasses by done. by rewrite Hac.
  - assert (bypassed (authz_view a' q') = false) as Hb by (unfold bypassed; simpl; by rewrite !bool_decide_false).
    destruct (authorized_decides conf (st_registry (site_of sv s)) ac a' q' rt now p repoTags Hac Hds Hb Huri Hc Hp Ht)
      as (e&[[Hal E]|(_&status&code&E&Hs)]).
    + destruct (recovered_total (authorized conf rt a' q') (site_of sv s)) as (r&s'&Er). exists r, s'. split; [exact Er|]. right.
      exists e. unfold user, rights. rewrite bool_decide_false by done. split; [by right|]. unfold served_as. rewrite <-Er.
      symmetry. by apply recovered_same.
    + eexists _, _. split.
      * unfold on_registry, zoom, recovered, bind, try. rewrite E. reflexivity.
      * left. apply refused_status; [set_solver|done].
Qed.

(** C5 With access control configured, a request on a repository that is not a
    preflight is always answered, and its handler only runs for a request that
    gave evidence of who sent it or may come without a name, and for what the
    policies allow to this user or the scope of its token covers; every other
    one is answered 401, 403 or 500 and changes no store. *)
Theorem identified_and_allowed (s : site) (ac : AccessControlConfig) tls a q m rt now p repoTags :
  let name := default "" (q_vars q !! "name") in
  rc_access conf = Some ac -> dispatch q = Some rt -> rt_distspec rt = true -> serve_site tls a q = Some m ->
  q_method q <> "OPTIONS" -> ar_requestURI a <> "/v2/" ->
  constant_clock now (rg_env (st_registry s)) -> decisive name (patterns_of ac) p ->
  (contains ["PUT"; "PATCH"; "POST"] (q_method q) = true -> is_Some (q_vars q !! "reference") ->
     repoTagsForManifestWriteAuthz (fst (as_GetImageTags name (GetImageStore (st_registry s) name))) = Ok repoTags) ->
  exists resp s', m s = (Ok resp, s') /\
    (refused s s' resp \/
     exists ty sv e, admitted sc amw (login_of tls a q) (server_of s) sv ty /\
       let user := rights ac ty (with_authn_type ty a) (with_user (sv_userAc sv) q) (sv_userAc sv) in
       (ty = Some BEARER \/ allowed ac (authz_view (with_authn_type ty a) q) user now repoTags) /\
       served_as (rt_endpoint rt) user q (with_site_env e (site_of sv s)) resp s').
Proof.
  intros name Hac Hd Hds Hm Hopt Huri Hc Hp Ht. unfold serve_site in Hm. rewrite Hd in Hm. injection Hm as <-.
  unfold authenticated. destruct (tryAuthn sc amw (login_of tls a q) (server_of s)) as [r sv] eqn:Ea.
  assert (on_server (tryAuthn sc amw (login_of tls a q)) s = (res_bind r (fun x => Ok (x, sv_userAc sv)), site_of sv s)) as Eo.
  { unfold on_server. by rewrite Ea. }
  assert (env_clock (sv_env sv) = env_clock (rg_env (st_registry s))) as Hf by (by eapply clock_authn in Ea).
  destruct r as [[ty|c|]|e]; simpl in Eo.
  - destruct (passed_decides sv s ac ty a q rt now p repoTags) as (resp&s'&E&Hcases); try done.
    { intros n. rewrite Hf. apply Hc. }
    exists resp, s'. split.
    + rewrite <-E, <-(recovered_pass q) by done. unfold recovered_site, bind, try. by rewrite Eo.
    + destruct Hcases as [|(e&Hal&Hs)]; [by left|]. right. exists ty, sv, e. split; [by apply admission_evidence|]. by split.
  - eexists _, _. split; [unfold recovered_site, bind, try; rewrite Eo; reflexivity|]. left. apply refused_status; [set_solver|done].
  - eexists _, _. split; [unfold recovered_site, bind, try; rewrite Eo; reflexivity|]. left. apply refused_status; [set_solver|done].
  - eexists _, _. split; [unfold recovered_site, bind, try; rewrite Eo; reflexivity|]. left. apply refused_status; [set_solver|done].
Qed.

(** ** How a client learns to log in *)
Definition has_challenge (r : response) : bool := existsb (fun h => bool_decide (fst h = WWWAuthenticate)) (rs_headers r).
(** A request that shows nothing of who sent it. *)
Definition bare (tls : option tls_state) (q : request) : Prop :=
  q_header q !! "Authorization" = None /\ header_get q SessionClientHeaderName = "" /\
  match tls with Some t => PeerCertificates t = [] | None => True end.

Lemma bearer_challenge_set rq : hasSessionHeader rq = false -> ShouldAdvertiseBearerChallenge (ct_Auth sc) = true ->
  exists h, setBearerAuthChallengeForNonSessionClient sc rq = BearerHeader h.
Proof.
  intros Hs [Hc _]%andb_prop. unfold setBearerAuthChallengeForNonSessionClient. rewrite Hs, Hc. cbn [negb].
  unfold HasBearerChallengeConfig, on_bearer, on_auth in Hc. destruct (ct_Auth sc) as [c|]; [|done]. simpl.
  destruct (au_Bearer c); [by eexists|done].
Qed.
Lemma fail_challenges rq : hasSessionHeader rq = false ->
  exists c, authFail sc amw rq = Unauthorized c /\ has_challenge (unauthorized c) = true.
Proof.
  intros Hs. unfold authFail. destruct (shouldChallengeWithBearer sc amw) eqn:Eb.
  - apply andb_prop in Eb as [_ Eb]. destruct (bearer_challenge_set rq Hs Eb) as [h E]. exists (BearerHeader h). unfold bearerAuthFail. by rewrite E.
  - rewrite Hs. by eexists.
Qed.

(** The outcome of authentication for such a request to the version check. *)
Lemma bare_ping tls a q s : let rq := login_of tls a q in
  bare tls q -> q_method q = "GET" -> path_str (q_path q) = "/v2/" -> ar_requestURI a = "/v2/" ->
  isAnonymousMetricsRequest sc rq = false -> CanAuthenticateWithBasicCredentials (ct_Auth sc) = true ->
  tryAuthn sc amw rq (server_of s) = (Ok (Pass None), server_of s) \/
  (needs_auth_challenge = true /\ exists c, tryAuthn sc amw rq (server_of s) = (Ok (Unauthorized c), server_of s) /\
     has_challenge (unauthorized c) = true).
Proof.
  intros rq (Ha&Hh&Ht) Hm Hp Hu Hmetrics Hcan.
  assert (authorization rq = "") as Eh by (unfold authorization, rq; simpl; by rewrite Ha).
  assert (hasMultipleAuthorizationHeaders rq = false) as Emulti by (unfold hasMultipleAuthorizationHeaders, rq; simpl; by rewrite Ha).
  assert (hasSessionHeader rq = false) as Es by (unfold hasSessionHeader, rq; simpl; by rewrite Hh).
  assert (has_certificate rq = false) as Ec by (unfold has_certificate, rq; simpl; destruct tls; [by rewrite Ht|done]).
  assert (isV2Requested rq = true) as Ev by (unfold isV2Requested, rq; simpl; by rewrite Hp).
  assert (allowsUnauthenticatedRequest sc rq = bool_decide (is_Some (ct_Access sc)) && AnonymousPolicyExists (ct_Access sc)) as Eun.
  { unfold allowsUnauthenticatedRequest. rewrite Hmetrics. unfold rq. simpl. by rewrite Hu. }
  assert (no_authentication sc = false) as En.
  { unfold no_authentication, IsBasicAuthnEnabled. unfold CanAuthenticateWithBasicCredentials in Hcan.
    destruct (IsHtpasswdAuthEnabled _), (IsLdapAuthEnabled _), (IsAPIKeyEnabled _), (IsOpenIDAuthEnabled _), (IsBearerAuthEnabled _); done. }
  unfold tryAuthn, needs_auth_challenge. rewrite (bind_step _ _ _ tt (server_of s)) by done.
  rewrite (bool_decide_false (lg_Method rq = "OPTIONS")) by (unfold rq; simpl; by rewrite Hm). cbv zeta.
  rewrite Emulti, Eh, Es, Ec, Ev, En, Hcan, andb_false_r, <-Eun. change (hasBearerAuthorizationHeader "") with false.
  change (hasBasicAuthorizationHeader "") with false. change (isAuthorizationHeaderEmpty "") with true. cbn [andb negb].
  destruct (fail_challenges rq Es) as (c&Ef&Hc). rewrite !andb_true_r, Ef.
  destruct (shouldChallengeWithBearer sc amw && _) eqn:Eb.
  { right. apply andb_prop in Eb as [Eb Hn]. split; [exact Hn|]. apply andb_prop in Eb as [_ Eb].
    destruct (bearer_challenge_set rq Es Eb) as [h Eh']. exists (BearerHeader h). unfold bearerAuthFail. by rewrite Eh'. }
  destruct (allowsUnauthenticatedRequest sc rq); [|right; split; [done|by exists c]].
  destruct (isDockerClient rq); [|by left]. destruct (mixed_policy sc); [right; split; [done|by exists c]|by left].
Qed.

End admission.
