(* ===== verification/ConcreteRegistry.v ===== *)
(** * A concrete registry with two stores

    A default store and the substore "/b", both on local storage as in
    ConcreteStore.v, without syncing and without metadata database: the inputs
    on which the theorems about the distribution API are shown to apply. *)

From Stdlib Require Import ZArith Lia Ascii String Sorted.
From stdpp Require Import base tactics list gmap strings sorting.
From S2P Require Import Prelude Runtime Regexp Driver BlobCache Oci IndexOps StorageCommon Concrete ImageStore.
From S2P Require Import Content ConcreteStore Addressing Listing Retention Authz Access Http Routes Router Serving Paging Api.

Local Open Scope string_scope.
Local Open Scope list_scope.

#[local] Existing Instance Policies.star_glob.
#[local] Existing Instance Policies.names_cel.

(** ** What is not local storage: nothing to sync, hooks that do nothing *)
#[local] Instance no_probe : PushProbe := fun _ => None.
#[local] Instance no_url : UrlParse := fun _ => None.
#[local] Instance no_sync : SyncOnDemandI (image_store (F := fs) (C := Bolt.db)) := {
  ShouldCheckUpstreamManifest _ _ _ := false;
  SyncImage _ _ := ret tt;
  SyncReferrers _ _ _ := ret tt
}.
#[local] Instance no_hooks : MetaHooksI (image_store (F := fs) (C := Bolt.db)) unit := {
  OnGetManifest _ _ _ _ := ret tt;
  OnUpdateManifest _ _ _ _ _ _ := ret tt;
  OnUpdateManifestDigestTags _ _ _ _ _ _ := ret tt;
  OnDeleteManifest _ _ _ _ _ _ := ret tt;
  GetSigners _ _ := ret []
}.
#[local] Instance no_hooks_spec : MetaHooksSpec (M := unit) addressed.
Proof. split; intros; apply preserves_ret. Qed.
#[local] Instance no_sync_spec : SyncSpec addressed.
Proof. split; intros; apply preserves_ret. Qed.

(** ** The registry and its requests *)
Definition open_conf : rh_config := mkRhConfig _ None (false, ∅) (false, ∅) [] false false.
Definition guarded_conf : rh_config := mkRhConfig _ (Some Policies.one) (false, ∅) (false, ∅) [] false false.
Definition zot_store : image_store (F := fs) (C := Bolt.db) := (zot_cfg true, zot_new).
Definition zot_registry : registry (image_store (F := fs) (C := Bolt.db)) unit :=
  mkRegistry zot_store (Some {["/b" := zot_store]}) None Policies.now.

Definition no_tls : arrival := mkArrival "" "" [] None "/v2/..." None.
Definition an_request (method target : string) (vars : list (string * string)) (query : list (string * list string))
    (header : list (string * list string)) (body : string) (uac : UserAccessControl) : Routes.request :=
  mkApiRequest _ method (list_to_map vars) (list_to_map query) (list_to_map header)
    (Z.of_nat (String.length body)) (reader_of body) (split_on slash target) None uac.

Definition push_blob (name content : string) (uac : UserAccessControl) : Routes.request :=
  an_request "POST" ("/v2/" ++ name ++ "/blobs/uploads/") [("name", name)] [("digest", [sha256 content])]
    [("Content-Type", [BinaryMediaType]); ("Content-Length", [FormatInt (Z.of_nat (String.length content))])] content uac.
Definition push_manifest (name tag content : string) (uac : UserAccessControl) : Routes.request :=
  an_request "PUT" ("/v2/" ++ name ++ "/manifests/" ++ tag) [("name", name); ("reference", tag)] []
    [("Content-Type", [MediaTypeImageManifest])] content uac.
Definition pull_blob (name digest : string) (uac : UserAccessControl) : Routes.request :=
  an_request "GET" ("/v2/" ++ name ++ "/blobs/" ++ digest) [("name", name); ("digest", digest)] [] [] "" uac.
Definition list_tags (name : string) (uac : UserAccessControl) : Routes.request :=
  an_request "GET" ("/v2/" ++ name ++ "/tags/list") [("name", name)] [] [] "" uac.
Definition list_catalog (uac : UserAccessControl) : Routes.request := an_request "GET" "/v2/_catalog" [] [] [] "" uac.

Local Notation anyone := NewUserAccessControl.
Definition two_images : list (arrival * Routes.request) := pair no_tls <$>
  [push_blob "a" a_config anyone; push_blob "a" a_layer anyone; push_manifest "a" "v2" a_manifest anyone;
   push_manifest "a" "v1" a_manifest anyone; push_manifest "a" "latest" a_manifest anyone;
   push_blob "b/c" a_config anyone; push_blob "b/c" a_layer anyone; push_manifest "b/c" "v1" a_manifest anyone].
Local Notation filled := (http_run open_conf two_images zot_registry).

Definition is_clean (q : Routes.request) : bool :=
  forallb (fun c => negb (bool_decide (c = ".")) && negb (bool_decide (c = ".."))) (split_on slash (path_str (q_path q))).
Lemma is_clean_path q : is_clean q = true -> clean_path q.
Proof.
  unfold is_clean. rewrite forallb_forall. intros Hc c Hin%list_elem_of_In%Hc.
  apply andb_prop in Hin as [H1%negb_true_iff H2%negb_true_iff].
  by apply bool_decide_eq_false_1 in H1; apply bool_decide_eq_false_1 in H2.
Qed.
Lemma two_images_clean : Forall (fun r => clean_path (snd r)) two_images.
Proof. repeat (constructor; [apply is_clean_path; vm_compute; reflexivity|]). constructor. Qed.
Lemma zot_registry_new : all_stores new_store zot_registry.
Proof.
  assert (new_store zot_store) as Hn.
  { split; [reflexivity|]. split; [discriminate|apply zot_new_initial]. }
  split; [exact Hn|]. intros subs k s [= <-] Hk. apply lookup_singleton_Some in Hk as [_ <-]. exact Hn.
Qed.

(** The answer to a request, if it is one of the distribution API. *)
Definition answer (conf : rh_config) (q : Routes.request) (rg : registry (image_store (F := fs) (C := Bolt.db)) unit)
    : option response :=
  m ← serve_http conf no_tls q; match fst (m rg) with Ok r => Some r | Err _ => None end.
Lemma answered conf q rg r : answer conf q rg = Some r ->
  exists m, serve_http conf no_tls q = Some m /\ fst (m rg) = Ok r.
Proof.
  unfold answer. destruct (serve_http _ _ _) as [m|]; [|done]. simpl. intros E. exists m. split; [done|].
  destruct (fst (m rg)); [by injection E as ->|done].
Qed.

Example tags_listed : answer open_conf (list_tags "a" anyone) filled =
  Some (mkResponse 200 [] (TagList "a" ["latest"; "v1"; "v2"])).
Proof. vm_compute. reflexivity. Qed.

Example layer_answered : rs_body <$> answer open_conf (pull_blob "b/c" (sha256 a_layer) anyone) filled = Some (Bytes a_layer).
Proof. vm_compute. reflexivity. Qed.

(** ** What the policies do not allow is refused *)
Definition alice_pushes : Routes.request := push_manifest "team/prod" "v1" a_manifest Policies.alice.

(** ** Pages of tags and of the catalog *)
Definition tags_after (n last : string) : Routes.request := page_query n last (list_tags "a" anyone).
Definition catalog_after (n last : string) : Routes.request := page_query n last (list_catalog anyone).
Definition tags_in (name : string) : list string :=
  match fst (as_GetImageTags name (GetImageStore filled name)) with Ok tags => tags | Err _ => [] end.
Lemma read_tags : as_GetImageTags "a" (GetImageStore filled "a") = (Ok (tags_in "a"), GetImageStore filled "a").
Proof.
  assert (fst (as_GetImageTags "a" (GetImageStore filled "a")) = Ok (tags_in "a")) as E by (vm_compute; reflexivity).
  rewrite (pair_fst _ _ E), tags_only_read. exact eq_refl.
Qed.
Lemma tags_of_a : exists tags, as_GetImageTags "a" (GetImageStore filled "a") = (Ok tags, GetImageStore filled "a") /\
  merge_sort str_le tags = ["latest"; "v1"; "v2"] /\ NoDup tags /\ "" ∉ tags /\ length tags = 3 /\
  Forall (fun t => unreserved t = true) tags.
Proof.
  exists (tags_in "a"). split; [exact read_tags|].
  assert (tags_in "a" = ["v2"; "v1"; "latest"]) as -> by (vm_compute; reflexivity).
  split_and!; [vm_compute; reflexivity|apply (bool_decide_eq_true_1 _); reflexivity..|reflexivity|].
  repeat constructor.
Qed.
Lemma tag_pages_complete_witness :
  read_page (tags_after "02" "latest") (ask_tags filled (tags_after "02" "latest")) = Some (["v1"; "v2"], None) /\
  read_page (tags_after "02" "") (ask_tags filled (tags_after "02" "")) = Some (["latest"; "v1"], Some (tags_after "2" "v1")) /\
  follow_links (ask_tags filled) 4 (tags_after "02" "") = Some ["latest"; "v1"; "v2"].
Proof.
  destruct tags_of_a as (tags&E&Es&Hnd&Hne&Hl&Hun).
  destruct (tag_pages_complete filled (list_tags "a" anyone) "a" tags "02" 2 eq_refl) as [Hp Hf];
    [discriminate|exact E|vm_compute; reflexivity|reflexivity|exact Hun|reflexivity|exact Hnd|exact Hne|lia|rewrite Hl; lia|].
  assert ("latest" ∈ tags) as Hin by (rewrite <-(sorted_tags_perm tags), Es; left).
  unfold tags_after. split; [|split].
  - rewrite (Hp "latest" (or_intror Hin)), Es. reflexivity.
  - rewrite (Hp "" (or_introl eq_refl)), Es. reflexivity.
  - rewrite Hl in Hf. rewrite Hf, Es. reflexivity.
Defined.
Lemma huge_page_panics_witness :
  ask_tags filled (tags_after "9223372036854775807" "latest") = Ok (mkResponse 500 [] NoBody).
Proof.
  destruct tags_of_a as (tags&E&Es&Hnd&Hne&Hl&_).
  apply (huge_page_panics filled (list_tags "a" anyone) "a" tags "9223372036854775807" (2 ^ 63 - 1)) with (i := 0);
    [reflexivity|discriminate|vm_compute; reflexivity|exact E|rewrite Es; reflexivity|exact Hnd|discriminate|lia|rewrite Hl; lia].
Defined.

Local Notation in_order := (catalogue walkable filled).
Lemma all_storesb (f : image_store (F := fs) (C := Bolt.db) -> bool) (rg : registry _ unit) :
  f (DefaultStore rg) && forallb (fun ks => f (snd ks)) (map_to_list (default ∅ (SubStore rg))) = true ->
  all_stores (fun s => f s = true) rg.
Proof.
  intros [Hd Hf]%andb_prop. split; [exact Hd|]. intros subs k s Hs Hk. rewrite Hs in Hf. rewrite forallb_forall in Hf.
  apply (Hf (k, s)). by apply list_elem_of_In, elem_of_map_to_list.
Qed.
Lemma filled_walkable : all_stores walkable filled.
Proof.
  assert (all_stores (fun s => walkableb (fst s) (snd s) = true) filled) as [Hd Hs].
  { apply all_storesb. vm_compute. reflexivity. }
  split; [by apply walkableb_spec|]. intros subs k s Hsub Hk. by eapply walkableb_spec, Hs.
Qed.
Lemma filled_routed : routed walkable filled.
Proof.
  split; [|split].
  - intros r Hr. assert (listed_at walkable filled None = ["a"]) as E by (vm_compute; reflexivity).
    rewrite E in Hr. apply list_elem_of_singleton in Hr as ->. vm_compute. reflexivity.
  - intros k r Hk Hr. assert (substore_keys filled = ["/b"]) as Ek by (vm_compute; reflexivity).
    rewrite Ek in Hk. apply list_elem_of_singleton in Hk as ->.
    assert (listed_at walkable filled (Some "/b") = ["b/c"]) as E by (vm_compute; reflexivity).
    rewrite E in Hr. apply list_elem_of_singleton in Hr as ->. vm_compute. reflexivity.
  - apply (bool_decide_eq_true_1 _). vm_compute. reflexivity.
Qed.
Lemma catalog_pages_complete_witness :
  in_order = ["a"; "b/c"] /\
  read_page (catalog_after "1" "a") (ask_catalog filled (catalog_after "1" "a")) = Some (["b/c"], Some (catalog_after "1" "b/c")) /\
  follow_links (ask_catalog filled) 3 (catalog_after "1" "") = Some ["a"; "b/c"].
Proof.
  assert (in_order = ["a"; "b/c"]) as E by (vm_compute; reflexivity). split; [exact E|].
  destruct (catalog_pages_complete walkable filled (list_catalog anyone) "1" 1 filled_walkable filled_routed) as (Hp&Hf&_);
    [discriminate|vm_compute; reflexivity|rewrite E; repeat constructor|reflexivity|lia|].
  rewrite E in Hp, Hf. unfold catalog_after. split.
  - rewrite (Hp "a" (or_intror (list_elem_of_here _ _))). vm_compute. reflexivity.
  - change 3 with (Datatypes.S (length ["a"; "b/c"])). rewrite Hf. vm_compute. reflexivity.
Defined.
