(* ===== verification/ConcreteMeta.v ===== *)
(** * A concrete registry with a metadata database

    The registry of ConcreteRegistry.v with the database of MetaDB.v and the
    hooks of Hooks.v: the inputs on which the theorems about the metadata are
    shown to apply, and what a failed update of the database does to a tag. *)

From Stdlib Require Import ZArith Lia Ascii String Sorted.
From stdpp Require Import base tactics list gmap strings sorting functions.
From S2P Require Import Prelude Runtime Regexp Driver BlobCache Oci IndexOps StorageCommon Concrete ImageStore.
From S2P Require Import Content ConcreteStore Addressing Listing Retention GC Authz Access Http Routes Router Serving Paging Api.
From S2P Require Import Aggregates MetaDB Hooks ConcreteRegistry Frame.
From S2P Require Import RefGraph Sweep.

Local Open Scope string_scope.
Local Open Scope list_scope.

#[local] Existing Instance Policies.star_glob.
#[local] Existing Instance Policies.names_cel.
#[local] Existing Instance no_probe.
#[local] Existing Instance no_url.
#[local] Existing Instance no_sync.
#[local] Existing Instance no_sync_spec.

(** ** What is not the registry: configs, signatures, the staging directory *)
#[local] Instance toy_config : ConfigCodec := fun s =>
  if bool_decide (s = a_config) then Some (mkImageConfig (Some 100%Z) "linux" "amd64" "v8" []) else None.
#[local] Instance toy_media_type : MediaTypeProbe := fun _ => "".
#[local] Instance no_trust : ImageTrustStore := fun _ _ _ _ _ _ => ("", zero_time, false).
#[local] Instance no_staging : LocalFS := fun _ => Err ErrPathNotFound.

Local Notation zot_image_store := (image_store (F := fs) (C := Bolt.db)).
#[local] Instance meta_bolt_hooks : MetaHooksI zot_image_store bolt := meta_hooks (fun _ => None).
#[local] Instance meta_bolt_hooks_spec : MetaHooksSpec (M := bolt) addressed := meta_hooks_spec (fun _ => None) addressed.

Definition empty_db : bolt := empty_bolt false Policies.now.
Definition meta_registry : registry zot_image_store bolt :=
  mkRegistry zot_store (Some {["/b" := zot_store]}) (Some empty_db) Policies.now.
Local Notation anyone := NewUserAccessControl.

Definition meta_answer (q : Routes.request) (rg : registry zot_image_store bolt) : option response :=
  m ← serve_http open_conf no_tls q; match fst (m rg) with Ok r => Some r | Err _ => None end.
Lemma meta_answered q rg r : meta_answer q rg = Some r ->
  exists m, serve_http open_conf no_tls q = Some m /\ fst (m rg) = Ok r.
Proof.
  unfold meta_answer. destruct (serve_http _ _ _) as [m|]; [|done]. simpl. intros E. exists m. split; [done|].
  destruct (fst (m rg)); [by injection E as ->|done].
Qed.
(** The tag as the database has it. *)
Definition recorded (rg : registry zot_image_store bolt) (repo tag : string) : option string :=
  b ← rg_meta rg; tags_of b repo !! tag.

Definition pull_manifest (name reference : string) : Routes.request :=
  an_request "GET" ("/v2/" ++ name ++ "/manifests/" ++ reference) [("name", name); ("reference", reference)] [] [] "" anyone.
Local Notation run requests := (http_run open_conf (pair no_tls <$> requests)).

(** ** A push whose config is not JSON *)
Definition bad_manifest : string := toy_manifest (manifest_of (desc_of MediaTypeImageConfig "junk") []).
Definition good_image : list Routes.request :=
  [push_blob "a" a_config anyone; push_blob "a" a_layer anyone; push_manifest "a" "v1" a_manifest anyone;
   push_blob "a" "junk" anyone].
Definition bad_push : Routes.request := push_manifest "a" "v1" bad_manifest anyone.

(** A push under an existing tag whose config does not parse is stored, then
    refused by the database with 500; the cleanup removes the tag, so that the
    image it named before can no longer be pulled by it, while the database
    still shows the tag with that image. *)
Theorem failed_push_drops_tag :
  let before := run good_image meta_registry in
  let after := run [bad_push] before in
  rs_status <$> meta_answer (pull_manifest "a" "v1") before = Some 200%Z /\
  recorded before "a" "v1" = Some (sha256 a_manifest) /\
  rs_status <$> meta_answer bad_push before = Some 500%Z /\
  rs_status <$> meta_answer (pull_manifest "a" "v1") after = Some 404%Z /\
  recorded after "a" "v1" = Some (sha256 a_manifest).
Proof. split_and!; vm_compute; reflexivity. Qed.

(** ** The answers, with the hooks of the database *)
Lemma meta_registry_new : all_stores new_store meta_registry.
Proof.
  destruct zot_registry_new as [Hd Hs]. split; [exact Hd|]. intros subs k s Hk. exact (Hs subs k s Hk).
Qed.
Definition an_image : list (arrival * Routes.request) := pair no_tls <$>
  [push_blob "b/c" a_config anyone; push_blob "b/c" a_layer anyone; push_manifest "b/c" "v1" a_manifest anyone].
Lemma an_image_clean : Forall (fun r => clean_path (snd r)) an_image.
Proof. repeat (constructor; [apply is_clean_path; vm_compute; reflexivity|]). constructor. Qed.
Definition pull_tag : Routes.request := pull_manifest "b/c" "v1".
Lemma answers_match_digest_witness :
  rs_body <$> meta_answer pull_tag (http_run open_conf an_image meta_registry) = Some (Bytes a_manifest) /\
  exists m, serve_http open_conf no_tls pull_tag = Some m /\
  exists resp rg, m (http_run open_conf an_image meta_registry) = (Ok resp, rg) /\ answer_ok pull_tag resp /\ all_stores addressed rg.
Proof.
  assert (rs_body <$> meta_answer pull_tag (http_run open_conf an_image meta_registry) = Some (Bytes a_manifest)) as Ev
    by (vm_compute; reflexivity).
  split; [exact Ev|]. apply fmap_Some in Ev as (r&(m&Em&_)%meta_answered&_). exists m. split; [exact Em|].
  apply (answers_match_digest open_conf meta_registry an_image no_tls pull_tag m meta_registry_new an_image_clean);
    [apply is_clean_path; vm_compute; reflexivity|exact Em].
Defined.

(** ** Pushes are in the database *)
Definition blobs_of_a : list Routes.request := [push_blob "a" a_config anyone; push_blob "a" a_layer anyone].
Definition push_v1 : Routes.request := push_manifest "a" "v1" a_manifest anyone.
Local Notation with_blobs := (run blobs_of_a meta_registry).

(** ** Sequences of operations on the database *)
Definition an_image_meta : ImageMeta :=
  GetImageManifestMeta (manifest_of (desc_of MediaTypeImageConfig a_config) [desc_of "l" a_layer])
    (mkImageConfig (Some 100%Z) "linux" "amd64" "v8" []) 50 (sha256 a_manifest) MediaTypeImageManifest.
Definition some_ops : list meta_op :=
  [OpSetRepoReference "a" "v1" an_image_meta 5 "alice";
   OpAddManifestSignature "a" (sha256 a_manifest) (mkSignatureMeta CosignType (sha256 "sig") "" []);
   OpUpdateStatsOnDownload "a" "v1";
   OpSetRepoReference "a" "v2" an_image_meta 6 "bob";
   OpRemoveRepoReference "a" "v2" (sha256 a_manifest) "carol"].
Lemma image_meta_ok : image_ok an_image_meta.
Proof. split; [eexists; vm_compute; reflexivity|vm_compute; discriminate]. Qed.
Lemma some_ops_ok : Forall op_ok some_ops.
Proof.
  repeat constructor; try discriminate; try exact (proj1 image_meta_ok); try exact (proj2 image_meta_ok).
Qed.
Local Notation some_db := (run_ops some_ops empty_db).

Lemma tags_refine_book_witness :
  bk_log (run_book some_ops empty_book) "a" =
    [("v1", sha256 a_manifest, "alice", "push"); ("v2", sha256 a_manifest, "bob", "push");
     ("v2", sha256 a_manifest, "carol", "delete")] /\
  tags_of some_db "a" = bk_tags (run_book some_ops empty_book) "a" /\
  exists l, GetTagHistory "a" some_db = (Ok l, some_db) /\
    entry_movement <$> l = reverse (last_entries (bk_log (run_book some_ops empty_book) "a")) /\ length l <= tagHistoryMaxEntries.
Proof.
  split; [vm_compute; reflexivity|]. exact (tags_refine_book some_ops false Policies.now some_ops_ok "a").
Defined.
Lemma records_well_formed_witness : size (b_RepoMeta some_db) = 1 /\ meta_wf some_db.
Proof. split; [vm_compute; reflexivity|]. exact (records_well_formed some_ops false Policies.now some_ops_ok). Defined.

Lemma sizes_follow_tags_witness :
  pr_Size <$> b_RepoMeta some_db !! "a" = Some 58%Z /\
  exists m blobs b', RemoveRepoReference "a" "v1" (sha256 a_manifest) "dave" some_db = (Ok tt, b') /\
    b_RepoMeta b' !! "a" = Some m /\ b_RepoBlobs b' !! "a" = Some blobs /\ aggregated m blobs.
Proof.
  split; [vm_compute; reflexivity|].
  refine (proj2 (sizes_follow_tags some_ops false Policies.now some_ops_ok "a" "v1" "dave" _) (sha256 a_manifest) _ _).
  - discriminate.
  - apply (bool_decide_eq_true_1 (is_Some (b_RepoMeta some_db !! "a"))). vm_compute. reflexivity.
  - apply (bool_decide_eq_true_1 (is_Some (b_ImageMeta some_db !! sha256 a_manifest))). vm_compute. reflexivity.
Defined.

Lemma retagged_signature_panics_witness :
  exists b1 b2, RemoveRepoReference "a" "v1" (sha256 a_manifest) "dave" some_db = (Ok tt, b1) /\
    SetRepoReference "a" "v1" an_image_meta 7 "dave" b1 = (Ok tt, b2) /\
    DeleteSignature "a" (sha256 a_manifest) (sha256 "sig") CosignType b2 = (Err ErrNilPointer, b2).
Proof.
  refine (retagged_signature_panics some_ops false Policies.now some_ops_ok "a" "v1" "dave" an_image_meta 7
    (sha256 "sig") CosignType _ _ image_meta_ok _ _ _ _).
  - discriminate.
  - split; [discriminate|vm_compute; reflexivity].
  - discriminate.
  - apply (bool_decide_eq_true_1 (is_Some (b_RepoMeta some_db !! "a"))). vm_compute. reflexivity.
  - apply (bool_decide_eq_true_1 (is_Some (b_ImageMeta some_db !! sha256 a_manifest))). vm_compute. reflexivity.
  - assert (tags_of some_db "a" = {["v1" := sha256 a_manifest]}) as E by (vm_compute; reflexivity).
    change (forall other, tags_of some_db "a" !! other = Some (sha256 a_manifest) -> other = "v1"). rewrite E.
    by intros other [<- _]%lookup_singleton_Some.
Defined.

(** ** The walk over the blobs *)

(** Two indexes that list each other, and one blob that is not known. *)
Definition odd_blobs : gmap string BlobInfo :=
  {["i" := mkBlobInfo 10 ["v"] [] ["j"; "m"] (Some 1%Z); "j" := mkBlobInfo 20 [] [] ["i"] (Some 2%Z);
    "m" := mkBlobInfo 5 ["v"; "w"] [] ["lost"] None; "unused" := mkBlobInfo 99 [] [] [] None]}.
Definition odd_repo : ProtoRepoMeta :=
  with_tags (new_repo "a") {["t" := mkTag "i" MediaTypeImageIndex None; "u" := mkTag "j" MediaTypeImageIndex None]}.
Lemma aggregates_exact_witness :
  (fun a => (ag_Size a, merge_sort str_le (ag_Vendors a))) <$> recalculateAggregateFields odd_repo odd_blobs = Some (35%Z, ["v"; "w"]) /\
  exists a last, recalculateAggregateFields odd_repo odd_blobs = Some a /\ aggregates odd_repo odd_blobs a /\
    RemoveImageFromRepoMeta odd_repo odd_blobs =
      Some (with_aggregates odd_repo (ag_Size a) (ag_Vendors a) (ag_Platforms a) last, ag_Blobs a) /\
    newest (tag_images odd_repo odd_blobs) last.
Proof. split; [vm_compute; reflexivity|]. exact (aggregates_exact odd_repo odd_blobs). Defined.

(** ** Parsing a repository *)

(** A store that is only read. *)
#[local] Instance toy_hook_store : HookStoreI toy_store := {
  hk_GetBlobContent _ d := fun s => (toy_view s d, s);
  hk_GetIndexContent _ := fun s => (Ok (toy_index s), s);
  hk_StatIndex _ := fun s => (Ok (true, 0%Z, 10%Z), s);
  hk_StatBlob _ d := fun s => (match toy_view s d with Ok c => Ok (true, Z.of_nat (String.length c), 5%Z) | Err e => Err e end, s);
  hk_GetRepositories := ret ["a"];
  hk_PutImageManifest _ _ _ _ _ := throw ErrRepoNotFound;
  hk_DeleteImageManifest _ _ _ := throw ErrRepoNotFound;
  hk_RemoveIdleRepository _ _ _ := ret false
}.
Definition a_row : Descriptor := tagged "v1" (desc_of MediaTypeImageManifest a_manifest).
Definition an_index : Index := index_of [a_row; desc_of MediaTypeImageManifest a_manifest].
Definition a_toy : toy_store := toy_of an_index [a_config; a_manifest].
#[local] Instance toy_reads : HookReadSpec (fun s => s = a_toy).
Proof. by split; intros; intros s r s' -> [= _ <-]. Qed.
(** A database that shows other tags than the index. *)
Definition stale_db : bolt :=
  run_ops [OpSetRepoReference "a" "old" an_image_meta 5 ""; OpSetRepoReference "b" "v9" an_image_meta 5 ""] empty_db.
Lemma stale_wf : meta_wf stale_db.
Proof.
  refine (proj1 (run_sim _ _ empty_book _ (proj1 (empty_sim false Policies.now)) (proj2 (empty_sim false Policies.now)))).
  repeat constructor; try discriminate; try exact (proj1 image_meta_ok); exact (proj2 image_meta_ok).
Qed.
Definition parsed_db : bolt := snd (snd (parseRepo "a" (a_toy, stale_db))).

(** ** The stamp *)
Definition toy_registry : registry toy_store bolt := mkRegistry a_toy (Some {["/b" := a_toy]}) (Some stale_db) Policies.now.
Lemma stamp_after_complete_parse_witness :
  b_FastRestartStamp <$> rg_meta (snd (MaybeParseStorage true "v2|disk" toy_registry)) = Some "v2|disk" /\
  exists repos names (rg1 rg2 rg3 rg4 : registry toy_store bolt),
    (forall key s, store_at toy_registry key = Some s -> exists l s', hk_GetRepositories s = (Ok l, s')) /\
    (forall repo, repo ∈ repos <-> exists key s, store_at toy_registry key = Some s /\ lists_repo s repo) /\
    getAllRepos toy_registry = (Ok repos, rg1) /\ with_db md_GetAllRepoNames rg1 = (Ok names, rg2) /\
    delete_repos (getReposToBeDeleted repos names) rg2 = (Ok tt, rg3) /\ settled repos rg3 rg4 /\
    snd (MaybeParseStorage true "v2|disk" toy_registry) = snd (with_db (SetFastRestartStamp "v2|disk") rg4).
Proof.
  assert (b_FastRestartStamp <$> rg_meta (snd (MaybeParseStorage true "v2|disk" toy_registry)) = Some "v2|disk") as Es
    by (vm_compute; reflexivity).
  split; [exact Es|]. apply fmap_Some in Es as (b'&Hb'&Eb').
  refine (proj2 (proj2 (stamp_after_complete_parse true "v2|disk" toy_registry (snd (MaybeParseStorage true "v2|disk" toy_registry))
    stale_db b' (fst (MaybeParseStorage true "v2|disk" toy_registry)) _ Hb' _ _))).
  - reflexivity.
  - apply surjective_pairing.
  - rewrite <-Eb'. vm_compute. discriminate.
Defined.

(** ** Collecting the default store *)
#[local] Existing Instance Retention.Sample.prefix_regexp.
Local Notation the_store rg := (snd (DefaultStore rg)).
Local Notation cfg := (zot_cfg true).

Definition tidyb (repo : string) (s : store fs Bolt.db) : bool :=
  match st_cache s with Some c => UsesRelativePaths c | None => true end &&
  forallb (fun kv => good_nodeb cfg repo (fst kv) (snd kv)) (map_to_list (fs_nodes (st_drv s))).
Lemma tidyb_spec repo s : repo_ok repo -> store_ok cfg None s -> tidyb repo s = true -> tidy cfg repo s.
Proof.
  intros Hr Hs [Hc Hn]%andb_prop. split; [exact Hs|]. split; [|by apply shapedb_spec].
  intros c Ec. by rewrite Ec in Hc.
Qed.
Lemma run_store_ok requests : Forall (fun q => clean_path q) requests -> fst (DefaultStore (run requests meta_registry)) = cfg ->
  store_ok cfg None (the_store (run requests meta_registry)).
Proof.
  intros Hc Hcfg. assert (all_stores addressed (run requests meta_registry)) as [(_&_&Hs) _].
  { refine (http_run_addressed open_conf _ meta_registry _ _); [by apply Forall_fmap|apply new_stores_addressed, meta_registry_new]. }
  by rewrite Hcfg in Hs.
Qed.

Definition littered : list Routes.request := good_image.
Local Notation littered_store := (the_store (run littered meta_registry)).
Definition everything : Options := mkOptions 0 (mkRetention false 0 []) None.
Definition before_gc : gc_state (store fs Bolt.db) bolt :=
  mkGc littered_store (rg_meta (run littered meta_registry)) (mkPm ∅ Policies.now).
Local Notation collected :=
  (cleanRepo (H6 := image_reads cfg) (H7 := image_gc cfg) (H8 := bolt_gc) everything 99 "a" before_gc).
Local Notation after_gc := (gc_store (snd collected)).

Lemma littered_tidy : tidy cfg "a" littered_store.
Proof.
  apply tidyb_spec; [vm_compute; reflexivity| |vm_compute; reflexivity].
  apply run_store_ok; [|vm_compute; reflexivity]. repeat (constructor; [apply is_clean_path; vm_compute; reflexivity|]). constructor.
Qed.

(** ** A repository inside another *)
Definition nested_images : list Routes.request :=
  [push_blob "a" a_config anyone; push_blob "a" a_layer anyone; push_manifest "a" "v1" a_manifest anyone;
   push_blob "a/b" a_config anyone; push_blob "a/b" a_layer anyone; push_manifest "a/b" "v1" a_manifest anyone].
Definition delete_manifest (name reference : string) : Routes.request :=
  an_request "DELETE" ("/v2/" ++ name ++ "/manifests/" ++ reference) [("name", name); ("reference", reference)] [] [] "" anyone.
Local Notation nested := (run nested_images meta_registry).
(** A client that deletes the last manifest of "a" takes "a/b" with it. *)
Example delete_takes_nested :
  rs_status <$> meta_answer (pull_manifest "a/b" "v1") nested = Some 200%Z /\
  rs_status <$> meta_answer (delete_manifest "a" (sha256 a_manifest)) nested = Some 202%Z /\
  rs_status <$> meta_answer (pull_manifest "a/b" "v1") (run [delete_manifest "a" (sha256 a_manifest)] nested) = Some 404%Z.
Proof. split_and!; vm_compute; reflexivity. Qed.

Local Notation emptied := (snd (IS.PutIndexContent cfg "a" (index_of []) (the_store nested))).
Local Notation removed := (IS.RemoveIdleRepository cfg 0 0 "a" emptied).
Lemma emptied_tidy : tidy cfg "a" emptied.
Proof.
  apply tidyb_spec; [vm_compute; reflexivity| |vm_compute; reflexivity].
  refine (pres_PutIndexContent cfg "a" (index_of []) eq_refl (the_store nested) _ _ _ (surjective_pairing _)).
  apply run_store_ok; [|vm_compute; reflexivity]. repeat (constructor; [apply is_clean_path; vm_compute; reflexivity|]). constructor.
Qed.
Lemma idle_removal_takes_nested_witness :
  is_ok (fst (IS.GetBlobContent cfg "a/b" (sha256 a_layer) emptied)) = true /\
  is_ok (fst (IS.GetIndexContent cfg "a/b" emptied)) = true /\ fst removed = Ok true /\
  (forall d, is_ok (fst (IS.GetBlobContent cfg "a/b" d (snd removed))) = false) /\
  is_ok (fst (IS.GetIndexContent cfg "a/b" (snd removed))) = false.
Proof.
  split; [vm_compute; reflexivity|]. split; [vm_compute; reflexivity|].
  assert (bool_decide (fst removed = Ok true) = true) as Er by (vm_compute; reflexivity). apply bool_decide_eq_true_1 in Er.
  split; [exact Er|].
  refine (idle_removal_takes_nested cfg "a" "b" 0 0 emptied (snd removed) _ _ _ _ emptied_tidy _).
  - reflexivity.
  - repeat constructor; discriminate.
  - vm_compute. reflexivity.
  - vm_compute. reflexivity.
  - rewrite <-Er. apply surjective_pairing.
Defined.
