(* ===== verification/ConcreteScrub.v ===== *)
(** * Reports of concrete repositories

    Stores on which the theorems of Scrub.v are shown to apply: one whose blobs
    are in order, one with a layer that went bad, and the registry of
    ConcreteMeta.v after a push, with a layer under a sha512 digest too. *)

From Stdlib Require Import ZArith Lia Ascii String.
From stdpp Require Import base tactics list gmap strings sorting functions.
From S2P Require Import Prelude Runtime Regexp Driver BlobCache Oci IndexOps StorageCommon Concrete ImageStore.
From S2P Require Import Content ConcreteStore Addressing Frame Retention GC Authz Access Http Routes Router Serving Api.
From S2P Require Import Aggregates MetaDB Hooks ConcreteRegistry ConcreteMeta Collect Sweep Scrub.

Local Open Scope string_scope.
Local Open Scope list_scope.

#[local] Existing Instance Policies.star_glob.
#[local] Existing Instance Policies.names_cel.
#[local] Existing Instance no_probe.
#[local] Existing Instance no_url.
#[local] Existing Instance no_sync.
#[local] Existing Instance no_sync_spec.
#[local] Existing Instance toy_config.
#[local] Existing Instance toy_media_type.
#[local] Existing Instance no_trust.
#[local] Existing Instance no_staging.
#[local] Existing Instance meta_bolt_hooks.
#[local] Existing Instance meta_bolt_hooks_spec.
#[local] Existing Instance Retention.Sample.prefix_regexp.

#[local] Instance toy_encoding : DigestEncoding := fun d => if no_char ":" d then None else Some (Encoded d).

(** ** Stores that are only read *)
Definition toy_verify (t : toy_store) (d : string) : res unit :=
  match toy_view t d with
  | Ok c => if bool_decide (FromBytes Canonical c = d) then Ok tt else Err ErrBadBlobDigest
  | Err e => Err e
  end.
#[local] Instance toy_scrub_store : ScrubStoreI toy_store := {
  sb_GetRepositories := ret ["a"];
  sb_ValidateRepo _ := ret true;
  sb_GetIndexContent _ := fun s => (Ok (toy_index s), s);
  sb_GetBlobContent _ d := fun s => (toy_view s d, s);
  sb_VerifyBlobDigestValue _ d := fun s => (toy_verify s d, s)
}.
Lemma toy_view_error t d x : toy_view t d = Err x -> ordinary x.
Proof.
  unfold toy_view. destruct (Validate d) as [y|] eqn:Hv; [intros [= <-]; by rewrite (validate_error d y Hv)|].
  by destruct (toy_blobs t !! d); intros [= <-].
Qed.
Lemma toy_reads_as repo t : reads_as repo t (toy_view t) (toy_verify t).
Proof.
  split; [done..|intros d x; apply toy_view_error|]. intros d x. unfold toy_verify.
  destruct (toy_view t d) as [c|y] eqn:Ev; [by case_bool_decide; intros [= <-]|]. intros [= <-]. by eapply toy_view_error.
Qed.

(** What a check meets stays inside a list that the references do not leave. *)
Lemma walked_inside view ms l : (forall d, d ∈ ms -> d ∈ l) -> forallb (fun d => bool_decide (references view d ⊆ l)) l = true ->
  forall d, walked view ms d -> d ∈ l.
Proof.
  intros Hms Hl. induction 1 as [d Hd _|d b _ IH Hb]; [by apply Hms|]. rewrite forallb_forall in Hl.
  apply list_elem_of_In, Hl, bool_decide_eq_true in IH. by apply IH.
Qed.
Definition same_types (l : list Descriptor) : bool :=
  forallb (fun a => forallb (fun b => negb (bool_decide (Digest a = Digest b)) || bool_decide (MediaType a = MediaType b)) l) l.
Lemma typed_inside view ms l : (forall d, d ∈ ms -> d ∈ l) -> forallb (fun d => bool_decide (references view d ⊆ l)) l = true ->
  same_types l = true -> typed view ms.
Proof.
  intros Hms Hl Ht a b Ha%(walked_inside view ms l Hms Hl) Hb%(walked_inside view ms l Hms Hl) Hd.
  unfold same_types in Ht. rewrite forallb_forall in Ht. apply list_elem_of_In, Ht in Ha. rewrite forallb_forall in Ha.
  apply list_elem_of_In, Ha in Hb. rewrite bool_decide_true in Hb by done. by apply bool_decide_eq_true in Hb.
Qed.

(** An index of one image, and the image on its own. *)
Definition image_row : Descriptor := desc_of MediaTypeImageManifest a_manifest.
Definition group : string := marshal_index (index_of [image_row]).
Definition group_row : Descriptor := tagged "v1" (desc_of MediaTypeImageIndex group).
Definition shared_index : Index := index_of [group_row; tagged "v1-amd64" image_row].
Definition sound_toy : toy_store := toy_of shared_index [a_config; a_layer; a_manifest; group].
(** The same, with other bytes where the layer was. *)
Definition rotten_toy : toy_store := mkToy (toy_index sound_toy) (<[sha256 a_layer := "noise"]> (toy_blobs sound_toy)).

Definition never_cancelled : env := mkEnv (fun _ => 0%Z) 0 None.


Lemma shared_manifest_reported_ok_witness :
  exists r1 r2, fst (CheckRepo 2 "a" (rotten_toy, never_cancelled)) = Ok ([r1; r2], None) /\
    sr_Status r1 = statusAffected /\ sr_Status r2 = statusOK.
Proof.
  refine (shared_manifest_reported_ok "a" rotten_toy never_cancelled (toy_view rotten_toy) (toy_verify rotten_toy) (toy_index sound_toy)
    group a_manifest group_row image_row (tagged "v1-amd64" image_row) shared_index (index_of [image_row])
    (manifest_of (desc_of MediaTypeImageConfig a_config) [desc_of "l" a_layer]) 0
    (toy_reads_as _ _) eq_refl eq_refl eq_refl (toy_index_roundtrip _) eq_refl _ _ (toy_index_roundtrip _) eq_refl eq_refl eq_refl _ _ _ _ _ eq_refl _ _).
  all: try (vm_compute; reflexivity).
  - vm_compute. discriminate.
  - intros l ->%list_elem_of_singleton. vm_compute. discriminate.
Defined.

(** ** The image store after a push *)
Local Notation the_store rg := (snd (DefaultStore rg)).
Local Notation cfg := (zot_cfg true).
Local Notation run requests := (http_run open_conf (pair no_tls <$> requests)).
Local Notation anyone := NewUserAccessControl.

Definition pushed_index (s : store fs Bolt.db) : Index :=
  default empty_index (match fst (IS.GetIndexContent cfg "a" s) with Ok c => unmarshal_index c | Err _ => None end).
Definition push_an_image : list Routes.request :=
  [push_blob "a" a_config anyone; push_blob "a" a_layer anyone; push_manifest "a" "v1" a_manifest anyone].
Definition pushed : store fs Bolt.db := the_store (run push_an_image meta_registry).
Local Notation check s := (fst (CheckRepo (H := scrub_store cfg) 3 "a" (s, never_cancelled))).

Lemma pushed_tidy requests : Forall (fun q => clean_path q) requests ->
  fst (DefaultStore (run requests meta_registry)) = cfg -> tidyb "a" (the_store (run requests meta_registry)) = true ->
  tidy cfg "a" (the_store (run requests meta_registry)).
Proof. intros Hc Hcfg Ht. apply tidyb_spec; [vm_compute; reflexivity|by apply run_store_ok|done]. Qed.


(** A layer under a digest of the other algorithm is stored and served, and
    reported as affected although its content is what was pushed. *)
Definition push_sha512 : Routes.request :=
  an_request "POST" "/v2/a/blobs/uploads/" [("name", "a")] [("digest", [sha512 a_layer])]
    [("Content-Type", [BinaryMediaType]); ("Content-Length", [FormatInt 5])] a_layer anyone.
Definition other_manifest : string :=
  toy_manifest (manifest_of (desc_of MediaTypeImageConfig a_config) [mkDescriptor "l" (sha512 a_layer) 5 ∅ ""]).
Definition pushed_sha512 : registry (image_store (F := fs) (C := Bolt.db)) bolt :=
  run [push_blob "a" a_config anyone; push_sha512; push_manifest "a" "v1" other_manifest anyone] meta_registry.
Example sha512_layer_reported :
  rs_status <$> meta_answer (pull_blob "a" (sha512 a_layer) anyone) pushed_sha512 = Some 200%Z /\
  blob_view cfg "a" (the_store pushed_sha512) (sha512 a_layer) = Ok a_layer /\
  FromBytes (Algorithm (sha512 a_layer)) a_layer = sha512 a_layer /\
  check (the_store pushed_sha512) =
    Ok ([mkResult "a" "v1" statusAffected (Encoded (sha512 a_layer)) (Some ErrBadBlobDigest)], None).
Proof. split_and!; vm_compute; reflexivity. Qed.
