(* ===== verification/ConcreteUsers.v ===== *)
(** * Users, keys and logins at work

    A database with one repository and two users, and a server with a password
    file, API keys and a bearer challenge: the inputs on which the theorems of
    Users.v, Authn.v and Keys.v are shown to apply. *)

From Stdlib Require Import ZArith Lia Ascii String.
From stdpp Require Import base tactics list gmap strings.
From S2P Require Import Prelude Runtime Regexp Driver BlobCache Oci IndexOps StorageCommon Concrete ImageStore.
From S2P Require Import Content ConcreteStore GC Aggregates MetaDB Authz Access Users Base64 Credentials Authn Keys ConcreteMeta.

Local Open Scope string_scope.
Local Open Scope list_scope.

#[local] Existing Instance Policies.star_glob.
#[local] Existing Instance Policies.names_cel.
#[local] Instance no_verifier : ImageTrustStore := fun _ _ _ _ _ _ => ("", zero_time, false).

Lemma by_answer {A S} (x : A * S) a : fst x = a -> x = (a, snd x).
Proof. destruct x. by intros <-. Qed.

(** ** Stars *)
Local Notation alice := Policies.alice.
Local Notation bob := Policies.bob.
Definition push_a : user_op := UMeta (OpSetRepoReference "a" "v1" an_image_meta 5 "alice").
Definition star_ops : list user_op :=
  [push_a; UToggleStar alice "a"; UToggleStar bob "a"; UToggleBookmark bob "a"; UToggleStar alice "a"].
Local Notation empty_users := (new_userdb false Policies.now).
Local Notation starred_a := (run_users star_ops empty_users).

Lemma star_ops_kept : all_along keeps_stars star_ops empty_users.
Proof. repeat split; done. Qed.
Definition stars_of (u : userdb) (repo : string) : option Z := pr_Stars <$> b_RepoMeta (u_meta u) !! repo.

Lemma stars_count_users_witness : stars_of starred_a "a" = Some 1%Z /\
  exists m, b_RepoMeta (u_meta starred_a) !! "a" = Some m /\ pr_Stars m = int32 (star_count starred_a "a").
Proof.
  assert (stars_of starred_a "a" = Some 1%Z) as Es by (vm_compute; reflexivity). split; [exact Es|].
  unfold stars_of in Es. destruct (b_RepoMeta (u_meta starred_a) !! "a") as [m|] eqn:Em; [|discriminate].
  exists m. split; [reflexivity|]. exact (stars_count_users false Policies.now star_ops "a" m star_ops_kept Em).
Defined.

Lemma starred_a_exact : stars_exact starred_a.
Proof. apply (run_users_invariant keeps_stars); [apply stars_exact_op|exact star_ops_kept|]. by apply stars_exact_none. Qed.
Lemma stars_below_zero_witness :
  let u1 := run_users (UMeta <$> [OpDeleteRepoMeta "a"; OpSetRepoReference "a" "v1" an_image_meta 6 "carol"]) starred_a in
  exists u2 m, ToggleStarRepo bob "a" u1 = (Ok Removed, u2) /\ b_RepoMeta (u_meta u2) !! "a" = Some m /\ pr_Stars m = (-1)%Z.
Proof.
  apply (stars_below_zero starred_a bob "a" [OpSetRepoReference "a" "v1" an_image_meta 6 "carol"] starred_a_exact).
  - apply elem_of_starrers. apply (bool_decide_eq_true_1 ("a" ∈ starred starred_a "bob")). vm_compute. reflexivity.
  - split; [discriminate|vm_compute; discriminate].
  - vm_compute. reflexivity.
  - repeat constructor. discriminate.
  - apply (bool_decide_eq_true_1 (is_Some (b_RepoMeta (u_meta (run_users (UMeta <$>
      [OpDeleteRepoMeta "a"; OpSetRepoReference "a" "v1" an_image_meta 6 "carol"]) starred_a)) !! "a"))). vm_compute. reflexivity.
Defined.

(** ** The code outside the repository *)
#[local] Instance toy_hashes : PasswordHashes := {
  CompareHashAndPassword hash pass := bool_decide (hash = "$2y$" ++ pass)%string;
  SHA256_CrypterFound _ := None;
  SHA512_CrypterFound _ := None;
  fips140_Enabled := false
}.
#[local] Instance no_ldap : LdapNet unit := {
  ldap_Dial _ _ := throw ErrLDAPBadConn;
  ldap_StartTLS _ := ret tt;
  ldap_DialTLS _ _ _ := throw ErrLDAPBadConn;
  ldap_Bind _ _ := ret tt;
  ldap_UnauthenticatedBind _ := ret tt;
  ldap_Search _ := ret [];
  ldap_Close := ret tt;
  EscapeFilter s := s
}.
#[local] Instance no_sessions : SessionStore unit := {
  GetSession := ret (mkSession true false None None);
  SaveSession _ := ret tt
}.
#[local] Instance no_tokens : TokenVerifiers unit := {
  ParseWithClaims _ := throw ErrOIDC;
  VerifyOIDC _ _ := throw ErrOIDC
}.
#[local] Instance no_claims : ClaimValues := {
  claim_string _ := None;
  claim_slice _ := None;
  claim_strings _ := None;
  EvaluateClaim _ _ _ := Err ErrOIDC;
  EvaluateClaimBool _ _ _ := Err ErrOIDC;
  EvaluateClaimString _ _ _ := Err ErrOIDC;
  EvaluateClaimStrings _ _ _ := Err ErrOIDC
}.
#[local] Instance no_submatch : Submatch := fun _ => Err ErrNoIdentity.
(** A codec for credentials of the one version and type that are in use: the
    two fields in base64, with a dot between them. *)
#[local] Instance dotted_codec : WrappedCodec := {
  marshal_wrapped w := (RawURLEncodeToString (wc_Username w) ++ String "." (RawURLEncodeToString (wc_Secret w)))%string;
  unmarshal_wrapped s :=
    match Cut "." s with
    | Some (user, secret) =>
        user ← RawURLDecodeString user; secret ← RawURLDecodeString secret;
        Some (mkWrapped 1 wrappedCredentialTypeAPIKey user secret)
    | None => None
    end
}.

(** ** Keys *)
Definition time_of (s : string) : option Z := if bool_decide (s = "later") then Some 100%Z else None.
Definition a_payload : payload_body := BodyPayload (mkPayload "ci" [] "later").
Local Notation created := (CreateAPIKey time_of (Ok "ab-12") (Ok "id-1") "curl" a_payload alice starred_a).
Definition with_key : userdb := snd created.
Definition a_token : string := "zak_ab12".
Lemma created_key : created = (Ok (201%Z, a_token), with_key).
Proof.
  assert (fst created = Ok (201%Z, a_token)) as E by (vm_compute; reflexivity). exact (by_answer created _ E).
Qed.
Lemma starred_a_owned : keys_owned starred_a.
Proof. apply keys_owned_run. repeat split; done. Qed.
Lemma with_key_owned : keys_owned with_key.
Proof.
  pose proof (created_inv _ _ _ _ _ _ _ _ _ created_key) as (p&k&id&d&e&_&_&_&Hf&->&_). by apply key_added_owned, set_env_owned, starred_a_owned.
Qed.
Definition revoked : userdb := snd (RevokeAPIKey {["id" := ["id-1"]]} alice with_key).
Lemma revoked_key : RevokeAPIKey {["id" := ["id-1"]]} alice with_key = (Ok 200%Z, revoked).
Proof.
  assert (fst (RevokeAPIKey {["id" := ["id-1"]]} alice with_key) = Ok 200%Z) as E by (vm_compute; reflexivity).
  exact (by_answer (RevokeAPIKey {["id" := ["id-1"]]} alice with_key) _ E).
Qed.

(** The user logs in, makes another key, lists the keys and deletes the other
    one; then the first one is revoked, and the user logs in with a new one. *)
Definition other_key : APIKeyDetails := mkAPIKey 0 100 false "curl" "manual" zero_time "ci" [] "id-2".
Definition some_life : list user_op :=
  [UKeyExpired alice (hashUUID "ab12"); UKeyUsed alice (hashUUID "ab12"); UAddKey alice (hashUUID "cd34") other_key;
   UListKeys alice; UDeleteKey alice "id-2"; UDeleteKey bob "id-1"; USetGroups alice ["dev"]].
Definition after_life : userdb := run_users some_life with_key.
Definition revoked_late : userdb := snd (RevokeAPIKey {["id" := ["id-1"]]} alice after_life).
Lemma some_life_keeps : all_along (keeps_key "alice" (hashUUID "ab12")) some_life with_key.
Proof.
  refine (conj (conj I I) (conj (conj I I) (conj (conj I _) (conj (conj I I) (conj (conj I _) (conj (conj I _) (conj (conj I I) I))))))).
  - intros E. vm_compute in E. discriminate.
  - intros k Hk. assert (ak_UUID <$> Some k = Some "id-1") as Hid by (rewrite <-Hk; vm_compute; reflexivity). by injection Hid as ->.
  - intros k Hk. assert (@None APIKeyDetails = Some k) as Hid by (rewrite <-Hk; vm_compute; reflexivity). discriminate.
Qed.

Lemma created_key_lets_in_witness :
  logs_in (N := unit) after_life "alice" a_token true /\ logs_in (N := unit) after_life "bob" a_token false /\
  logs_in (N := unit) (run_users [UAddKey alice (hashUUID "cd34") other_key] revoked_late) "alice" a_token false.
Proof.
  destruct (created_key_lets_in (N := unit) time_of (Ok "ab-12") (Ok "id-1") "curl" (mkPayload "ci" [] "later")
    alice starred_a a_token with_key starred_a_owned created_key) as [_ H]; [intros i j _; vm_compute; discriminate|].
  destruct (H some_life some_life_keeps) as [Hin Hout]. split; [exact (Hin "alice")|]. split; [exact (Hin "bob")|].
  apply (Hout "id-1" revoked_late eq_refl).
  - assert (fst (RevokeAPIKey {["id" := ["id-1"]]} alice after_life) = Ok 200%Z) as E by (vm_compute; reflexivity).
    exact (by_answer (RevokeAPIKey {["id" := ["id-1"]]} alice after_life) _ E).
  - refine (conj (conj I _) I). intros uac d E. injection E as _ E _. vm_compute in E. discriminate.
Defined.

Definition key_ops : list user_op :=
  [USetGroups alice ["dev"]; UAddKey alice (hashUUID "ab12") (mkAPIKey 0 100 false "curl" "manual" zero_time "ci" [] "id-1")].
Definition a_server (u : userdb) : @server _ userdb unit :=
  mkServerState (Some u) {["alice" := "$2y$secret"]} false tt Policies.now NewUserAccessControl.
Lemma api_key_decides_witness :
  exists s', authenticateAPIKeyCredential "alice" a_token (a_server (run_users key_ops empty_users)) = (Ok true, s') /\
    name_of s' = "alice" /\ GetGroups (sv_userAc s') = ["dev"].
Proof.
  destruct (api_key_decides (N := unit) false Policies.now key_ops (a_server (run_users key_ops empty_users)) "alice" a_token)
    as (s'&E&Hs); [repeat split; done|reflexivity|reflexivity|].
  assert (key_accepted (run_users key_ops empty_users) "alice" a_token = true) as Ek by (vm_compute; reflexivity).
  destruct (Hs Ek) as [Hn Hg]. exists s'. split; [|split; [exact Hn|]].
  - rewrite E, Ek. reflexivity.
  - rewrite Hg. vm_compute. reflexivity.
Defined.

Example wrapped_key_back :
  wrappedCredentialFromBearerAuthHeader ("Bearer " ++ newWrappedCredentialBearerToken "alice" a_token) =
  Some (Ok (mkWrapped 1 wrappedCredentialTypeAPIKey "alice" a_token)).
Proof.
  apply (wrapped_read_back "alice" a_token); [discriminate|discriminate|discriminate|vm_compute; reflexivity|vm_compute; discriminate].
Qed.

(** ** Requests *)
Definition an_auth : AuthConfig :=
  mkAuth "/etc/htpasswd" None (Some (mkBearer "https://zot" "zot" None "" [] false)) None true None.
Definition a_conf : server_config := mkServer (Some an_auth) None None None "zot".
Definition a_middleware : AuthnMiddleware := AuthHandler (Some an_auth) [].
Definition a_login (header : list string) : login := mkLogin "GET" header "" "curl" "/v2/a/tags/list" "/v2/a/tags/list" "a" None.
Definition by_secret : login := a_login ["Basic YWxpY2U6c2VjcmV0"].           (* alice:secret *)
Definition by_key : login := a_login ["Basic YWxpY2U6emFrX2FiMTI="].          (* alice:zak_ab12 *)
Definition by_wrapped_key : login := a_login ["Bearer " ++ newWrappedCredentialBearerToken "alice" a_token]%string.
Definition try (rq : login) (u : userdb) : res admission * @server _ userdb unit := tryAuthn a_conf a_middleware rq (a_server u).

Definition answer_of (rq : login) (u : userdb) : option (admission * string) :=
  match try rq u with (Ok a, s) => Some (a, name_of s) | _ => None end.
Example secret_admits : answer_of by_secret starred_a = Some (Pass None, "alice").
Proof. vm_compute. reflexivity. Qed.
Example no_key_refused : exists c, answer_of by_key starred_a = Some (Unauthorized c, "").
Proof. eexists. vm_compute. reflexivity. Qed.
Example key_admits : answer_of by_key with_key = Some (Pass None, "alice").
Proof. vm_compute. reflexivity. Qed.
Example revoked_refused : exists c, answer_of by_key revoked = Some (Unauthorized c, "").
Proof. eexists. vm_compute. reflexivity. Qed.

Lemma admitted_on_evidence_witness :
  name_of (snd (try by_wrapped_key with_key)) = "alice" /\
  admitted a_conf a_middleware by_wrapped_key (a_server with_key) (snd (try by_wrapped_key with_key)) (Some BASIC).
Proof.
  split; [vm_compute; reflexivity|].
  assert (fst (try by_wrapped_key with_key) = Ok (Pass (Some BASIC))) as E by (vm_compute; reflexivity).
  exact (admitted_on_evidence a_conf a_middleware by_wrapped_key _ _ _ (by_answer (try by_wrapped_key with_key) _ E)).
Defined.
