(* ===== verification/ConcreteSite.v ===== *)
(** * The whole server at work

    The registry of ConcreteRegistry.v behind the authentication of
    ConcreteUsers.v, and its token endpoint: the inputs on which the theorems of
    Admission.v and Tokens.v are shown to apply. *)

From Stdlib Require Import ZArith Lia Ascii String.
From stdpp Require Import base tactics list gmap strings.
From S2P Require Import Prelude Runtime Regexp Driver BlobCache Oci IndexOps StorageCommon Concrete ImageStore.
From S2P Require Import Content ConcreteStore Addressing Listing GC Aggregates MetaDB Hooks Authz Access Http Routes Router Serving Paging Api.
From S2P Require Import Users Base64 Credentials Authn Keys Tokens Admission ConcreteRegistry ConcreteMeta ConcreteUsers.

Local Open Scope string_scope.
Local Open Scope list_scope.

#[local] Existing Instance Policies.star_glob.
#[local] Existing Instance Policies.names_cel.
#[local] Existing Instance no_probe.
#[local] Existing Instance no_url.
#[local] Existing Instance no_sync.
#[local] Existing Instance toy_config.
#[local] Existing Instance toy_media_type.
#[local] Existing Instance no_staging.
#[local] Existing Instance no_verifier.
#[local] Existing Instance toy_hashes.
#[local] Existing Instance no_ldap.
#[local] Existing Instance no_sessions.
#[local] Existing Instance no_tokens.
#[local] Existing Instance no_claims.
#[local] Existing Instance no_submatch.
#[local] Existing Instance dotted_codec.
Local Notation store := (image_store (F := fs) (C := Bolt.db)).
#[local] Instance site_hooks : MetaHooksI store userdb := meta_hooks (fun _ => None).

(** ** A server with access control *)
Definition guarded_server : server_config := mkServer (Some an_auth) (Some Policies.one) None None "zot".
Definition a_site : @site store userdb unit :=
  mkSite (mkRegistry zot_store None (Some with_key) Policies.now) {["alice" := "$2y$secret"]} false tt.
Definition a_header (header : list string) : list (string * list string) := [("Authorization", header)].
Definition tags_request (header : list string) : Routes.request :=
  an_request "GET" "/v2/team/prod/tags/list" [("name", "team/prod")] [] (a_header header) "" NewUserAccessControl.
Definition push_request (header : list string) : Routes.request :=
  an_request "POST" "/v2/team/prod/blobs/uploads/" [("name", "team/prod")] [] (a_header header) "" NewUserAccessControl.

Local Notation serve := (serve_site guarded_server a_middleware guarded_conf None no_tls).
Definition status_of (q : Routes.request) : option Z :=
  m ← serve q; match fst (m a_site) with Ok r => Some (rs_status r) | Err _ => None end.
Definition alice_header : list string := ["Basic YWxpY2U6c2VjcmV0"].
Example served_or_refused :
  status_of (tags_request alice_header) = Some 404%Z /\ status_of (tags_request []) = Some 401%Z /\
  status_of (push_request alice_header) = Some 403%Z /\ status_of (tags_request ["Basic YWxpY2U6emFrX2FiMTI="]) = Some 404%Z.
Proof. split_and!; vm_compute; reflexivity. Qed.

Lemma identified_and_allowed_witness : let q := tags_request alice_header in
  status_of q = Some 404%Z /\
  exists m rt resp s', serve q = Some m /\ m a_site = (Ok resp, s') /\
    (refused a_site s' resp \/
     exists ty sv e, admitted guarded_server a_middleware (login_of None no_tls q) (server_of a_site) sv ty /\
       let user := rights Policies.one ty (with_authn_type ty no_tls) (with_user (sv_userAc sv) q) (sv_userAc sv) in
       (ty = Some BEARER \/ allowed Policies.one (authz_view (with_authn_type ty no_tls) q) user 0 []) /\
       served_as guarded_conf (rt_endpoint rt) user q (with_site_env e (site_of sv a_site)) resp s').
Proof.
  intros q. split; [vm_compute; reflexivity|].
  assert (bool_decide (is_Some (serve q)) = true) as [m Em]%bool_decide_eq_true_1 by (vm_compute; reflexivity).
  assert (rt_distspec <$> dispatch q = Some true) as (rt&Er&Ed)%fmap_Some by (vm_compute; reflexivity).
  exists m, rt. refine (_ (identified_and_allowed guarded_server a_middleware guarded_conf a_site Policies.one None no_tls q m rt 0 "team/*" []
    eq_refl Er (eq_sym Ed) Em _ _ Policies.now_constant Policies.team_decides _)).
  - intros (resp&s'&E&Hcases). exists resp, s'. split; [exact Em|]. split; [exact E|exact Hcases].
  - discriminate.
  - discriminate.
  - intros Hc _. exfalso. vm_compute in Hc. discriminate.
Defined.

(** ** The version check *)
Definition ping (header : list string) : Routes.request := an_request "GET" "/v2/" [] [] (match header with [] => [] | _ => a_header header end) "" NewUserAccessControl.
Definition v2_arrival : arrival := mkArrival "curl" "" [] None "/v2/" None.

(** ** Tokens *)
Definition exact_names : Glob := fun p r => Ok (bool_decide (p = r)).
Definition some_access : list ResourceAccess :=
  [mkAccess "repository" "team/a" ["pull"; "push"] (Some 10%Z); mkAccess "repository" "team/b" ["pull"] None].
Lemma token_rights_exact_witness :
  (let can now repo := @Can _ _ exact_names (UserAccessControlFromBearerAccess now some_access) ReadPermission repo in
   (can 5%Z "team/a", can 20%Z "team/a", can 20%Z "team/b", can 20%Z "other") = (true, false, true, false)) /\
  @Can _ _ exact_names (UserAccessControlFromBearerAccess 20%Z (take 1 some_access)) ReadPermission "other" = true.
Proof.
  assert (@literal_names exact_names) as Hg by (intros n repo _; reflexivity).
  assert (forall now l repo, @Can _ _ exact_names (UserAccessControlFromBearerAccess now l) ReadPermission repo =
    negb (scoped now l) || token_gives now "pull" repo l) as Hc.
  { intros now l repo. apply (@token_rights_exact _ _ _ exact_names now l ReadPermission repo Hg). left. }
  cbv zeta. rewrite !Hc. split; vm_compute; reflexivity.
Defined.

(** The endpoint, with another one behind it. *)
#[local] Instance no_json : ClaimsJSON := fun _ => None.
Definition proxy_auth : AuthConfig :=
  mkAuth "/etc/htpasswd" None (Some (mkBearer "https://zot" "zot" (Some (mkUpstream "https://other" "registry" false)) "" [] false)) None true None.
Definition proxy_conf : server_config := mkServer (Some proxy_auth) None None None "zot".
Definition proxy_bearer : BearerAuth := NewBearerAuth (Some proxy_auth) [].
Definition exchange_of (rq : token_request) : option exchange :=
  m ← TokenExchangeHandler proxy_conf proxy_bearer rq;
  match fst (m (a_server with_key)) with Ok x => Some x | Err _ => None end.
Lemma exchange_run rq x : exchange_of rq = Some x -> exists m,
  TokenExchangeHandler (N := unit) proxy_conf proxy_bearer rq = Some m /\ m (a_server with_key) = (Ok x, snd (m (a_server with_key))).
Proof.
  unfold exchange_of. intros (m&Em&E)%bind_Some. exists m. split; [exact Em|]. apply by_answer.
  destruct (fst (m (a_server with_key))); congruence.
Qed.
Definition foreign_request : token_request :=
  mkTokenRequest ["Basic YWxpY2U6c2VjcmV0"] (Form {["access_token" := ["abc"]]}).

Definition key_request : token_request := mkTokenRequest ["Basic YWxpY2U6emFrX2FiMTI="] NoForm.
(** The same key behind two spaces: zot reads it as a basic credential, but
    the endpoint does not, and hands it on. *)
Definition spaced_request : token_request := mkTokenRequest ["Basic  YWxpY2U6emFrX2FiMTI="] NoForm.
Example spaced_key_forwarded :
  getUsernamePasswordBasicAuth (tr_header spaced_request) = Ok ("alice", a_token) /\ exchange_of spaced_request = Some ExProxied.
Proof. split; vm_compute; reflexivity. Qed.


Lemma cut_at a b : no_char "." a = true -> Cut "." (a ++ String "." b) = Some (a, b).
Proof.
  induction a as [|c a IH]; [done|]. simpl. destruct (decide (c = "."%char)); [done|]. intros Ha. by rewrite IH.
Qed.
Lemma encoded_no_dot s : no_char "." (RawURLEncodeToString s) = true.
Proof.
  apply (all_chars_no_char (fun c => negb (bool_decide (c = "."%char)))); [done|]. unfold RawURLEncodeToString.
  rewrite all_chars_list. apply forallb_forall. intros c Hc%list_elem_of_In.
  assert (forallb (fun c => negb (bool_decide (c = "."%char))) encodeURL = true) as Hall by (vm_compute; reflexivity).
  rewrite forallb_forall in Hall. apply Hall, list_elem_of_In.
  pose proof (encode_letters _ (list_ascii_of_string s) (le_n _)) as Hf. rewrite Forall_forall in Hf. by apply Hf.
Qed.
Lemma dotted_codec_ok : wrapped_codec_ok.
Proof.
  intros user secret _ _ w. simpl. split.
  - by destruct (RawURLEncodeToString user).
  - rewrite cut_at by apply encoded_no_dot. by rewrite !raw_url_round_trip.
Qed.
Definition exchanged_token : string := newWrappedCredentialBearerToken "alice" a_token.
Lemma exchanged_key_admits_witness : exchange_of key_request = Some (ExWrapped exchanged_token) /\
  exists user key, exchanged_token = newWrappedCredentialBearerToken user key /\ key_accepted with_key user key = true /\
    exists s3, bearerAuthn proxy_conf proxy_bearer (a_login ["Bearer " ++ exchanged_token]%string) (a_server with_key) = (Ok (BearerOk BASIC), s3).
Proof.
  assert (exchange_of key_request = Some (ExWrapped exchanged_token)) as E by (vm_compute; reflexivity). split; [exact E|].
  apply exchange_run in E as (m&Em&E).
  destruct (exchanged_key_admits proxy_conf proxy_bearer key_request (a_server with_key) m exchanged_token _ dotted_codec_ok Em E)
    as (user&key&before&after&b&s1&El&Eb&_&Hacc&Ht&Hlater). exists user, key.
  assert (normalizeTokenExchangeRequest key_request = inr [mkCredential "alice" a_token]) as El' by (vm_compute; reflexivity).
  rewrite El' in El. injection El as El.
  destruct before as [|c0 [|? ?]]; simpl in El; [|discriminate El|discriminate El]. injection El as <- <- _.
  injection Eb as _ <-. assert (key_accepted with_key "alice" a_token = true) as Ha by (apply Hacc; [reflexivity|exact with_key_owned]).
  split; [exact Ht|]. split; [exact Ha|].
  destruct (Hlater (a_login ["Bearer " ++ exchanged_token]%string) (a_server with_key) with_key) as (s3&Es&_).
  - vm_compute. reflexivity.
  - vm_compute. reflexivity.
  - reflexivity.
  - exact with_key_owned.
  - reflexivity.
  - reflexivity.
  - vm_compute. discriminate.
  - exists s3. rewrite Ha in Es. exact Es.
Defined.
